(** * Stencil dialect: operation verifiers and the combine-to-if/else lowering

    A shallow embedding of [include/Dialect/Stencil/StencilOps.td] (the
    Return and Store verifiers, the Return unroll helpers, the Combine
    accessors) and of [lib/Dialect/Stencil/CombineToIfElsePass.cpp] (the
    Fuse, Mirror and IfElse rewrite patterns and the pass driver).

    The operation graph is an arena: operations and blocks are stored in
    finite maps under handles, SSA values are either the i-th result of an
    operation or the i-th argument of a block.  The pattern rewriter is a
    state monad over the arena, the insertion point and the diagnostics
    emitted so far; a failing [assert] (of the pass or of a service of the
    rewriter), a failing [cast<>] and an [isa<>] or [dyn_cast<>] on a null
    pointer abort the computation. *)

From stdpp Require Import gmap strings list fin_maps.
From Stdlib Require Import ZArith Lia.

Set Default Proof Using "Type".

(** ** Types and values *)

Inductive ElementType := F32 | F64.

(** [Index] is [SmallVector<int64_t, 3>]. *)
Abbreviation Index := (list Z).

Inductive Ty :=
| TempType (elementType : ElementType) (shape : Index)
| FieldType (elementType : ElementType) (shape : Index)
| ResultType (resultType : ElementType)
| FloatType (elementType : ElementType)
| IndexType
| I1Type
| NoneType.

Inductive Value :=
| OpResult (owner : nat) (resultNumber : nat)
| BlockArgument (owner : nat) (argNumber : nat).

Inductive CmpIPredicate := eq_ | ne | slt | sle | sgt | sge | ult | ule | ugt | uge.

(** Operand segment sizes of a combine op ([AttrSizedOperandSegments]), in
    the order of its declaration: lower, upper, lowerext, upperext. *)
Record Segments := mkSegments {
  seg_lower : nat; seg_upper : nat; seg_lowerext : nat; seg_upperext : nat }.

Inductive OpKind :=
| CastOp (lb ub : Index)
| IndexOp (dim : Z) (offset : Index)
| AccessOp (offset : Index)
| LoadOp (lb ub : option Index)
| BufferOp (lb ub : option Index)
| StoreOp (lb ub : Index)
| ApplyOp (lb ub : option Index)
| StoreResultOp
| ReturnOp (unroll : option Index)
| CombineOp (dim index : Z) (segments : Segments) (lb ub : option Index)
| ConstantOp (value : Z)
| CmpIOp (predicate : CmpIPredicate)
| IfOp
| YieldOp
| OtherOp (name : string).

#[global] Instance ElementType_eq_dec : EqDecision ElementType.
Proof. solve_decision. Defined.
#[global] Instance Ty_eq_dec : EqDecision Ty.
Proof. solve_decision. Defined.
#[global] Instance Value_eq_dec : EqDecision Value.
Proof. solve_decision. Defined.
#[global] Instance CmpIPredicate_eq_dec : EqDecision CmpIPredicate.
Proof. solve_decision. Defined.
#[global] Instance Segments_eq_dec : EqDecision Segments.
Proof. solve_decision. Defined.
#[global] Instance OpKind_eq_dec : EqDecision OpKind.
Proof. solve_decision. Defined.

(** ** The operation graph *)

(** An operation: its kind with the attributes, the operand list, the
    result types, and its regions, each a list of block handles. *)
Record Operation := mkOperation {
  op_kind : OpKind;
  op_operands : list Value;
  op_results : list Ty;
  op_regions : list (list nat) }.

(** A block: the types of its arguments and its operations in order. *)
Record Block := mkBlock {
  blk_args : list Ty;
  blk_ops : list nat }.

#[global] Instance Operation_eq_dec : EqDecision Operation.
Proof. solve_decision. Defined.
#[global] Instance Block_eq_dec : EqDecision Block.
Proof. solve_decision. Defined.

Record IR := mkIR {
  ir_ops : gmap nat Operation;
  ir_blocks : gmap nat Block;
  ir_nextOp : nat;
  ir_nextBlock : nat }.

#[global] Instance IR_eq_dec : EqDecision IR.
Proof. solve_decision. Defined.

Inductive LogicalResult := success | failure.

Inductive DiagTarget := OnOp (op : nat) | OnFunc.

Inductive Diagnostic :=
| Warning (target : DiagTarget) (msg : string)
| OpError (target : DiagTarget) (msg : string).

(** Where the builder inserts the next operation: nowhere, before an
    operation, or at the end of a block. *)
Inductive InsertPoint := IPNone | IPBefore (op : nat) | IPEnd (block : nat).

Record PatternRewriter := mkRewriter {
  rw_ir : IR;
  rw_ip : InsertPoint;
  rw_diags : list Diagnostic }.

(** ** Outcomes and the rewriter monad *)

Inductive Outcome (A : Type) :=
| Ok (a : A)
| Abort (msg : string).
Arguments Ok {A} a.
Arguments Abort {A} msg.

#[global] Instance Outcome_ret : MRet Outcome := λ A a, Ok a.
#[global] Instance Outcome_bind : MBind Outcome := λ A B f m,
  match m with Ok a => f a | Abort msg => Abort msg end.
#[global] Instance Outcome_fmap : FMap Outcome := λ A B f m,
  match m with Ok a => Ok (f a) | Abort msg => Abort msg end.

Definition M (A : Type) : Type := PatternRewriter → Outcome (A * PatternRewriter).

#[global] Instance M_ret : MRet M := λ A a s, Ok (a, s).
#[global] Instance M_bind : MBind M := λ A B f m s,
  match m s with Ok (a, s') => f a s' | Abort msg => Abort msg end.

(** Run a read-only query against the current graph. *)
Definition query {A} (f : IR → Outcome A) : M A := λ s,
  match f (rw_ir s) with Ok a => Ok (a, s) | Abort msg => Abort msg end.

Definition modifyIR (f : IR → IR) : M unit := λ s,
  Ok (tt, mkRewriter (f (rw_ir s)) (rw_ip s) (rw_diags s)).

Definition assert (b : bool) (msg : string) : M unit := λ s,
  if b then Ok (tt, s) else Abort msg.

Definition emitWarning (op : nat) (msg : string) : M unit := λ s,
  Ok (tt, mkRewriter (rw_ir s) (rw_ip s) (rw_diags s ++ [Warning (OnOp op) msg])).

(** ** Reading the graph *)

Definition getOperation (ir : IR) (op : nat) : Outcome Operation :=
  match ir_ops ir !! op with
  | Some o => Ok o
  | None => Abort "use of an erased operation"
  end.

Definition blockOps (ir : IR) (b : nat) : list nat :=
  match ir_blocks ir !! b with Some blk => blk_ops blk | None => [] end.

Definition blockArgTypes (ir : IR) (b : nat) : list Ty :=
  match ir_blocks ir !! b with Some blk => blk_args blk | None => [] end.

(** [Value::getType]. *)
Definition getType (ir : IR) (v : Value) : Ty :=
  match v with
  | OpResult o i =>
      match ir_ops ir !! o with
      | Some op => default NoneType (op_results op !! i)
      | None => NoneType
      end
  | BlockArgument b i => default NoneType (blockArgTypes ir b !! i)
  end.

(** [Value::getDefiningOp]: null for a block argument. *)
Definition getDefiningOp (v : Value) : option nat :=
  match v with
  | OpResult o _ => Some o
  | BlockArgument _ _ => None
  end.

(** [Operation::getResults]. *)
Definition getResults (id : nat) (op : Operation) : list Value :=
  OpResult id <$> seq 0 (length (op_results op)).

(** The arguments of a block as values. *)
Definition getArguments (ir : IR) (b : nat) : list Value :=
  BlockArgument b <$> seq 0 (length (blockArgTypes ir b)).

(** One entry per use of [v], as [Value::getUsers] iterates them. *)
Definition getUsers (ir : IR) (v : Value) : list nat :=
  concat ((λ '(id, op), replicate (count_occ Value_eq_dec (op_operands op) v) id)
            <$> map_to_list (ir_ops ir)).

Definition hasOneUse (ir : IR) (v : Value) : bool :=
  bool_decide (length (getUsers ir v) = 1).

(** ** Accessors of the stencil operations *)

Definition isApplyOp (k : OpKind) : bool :=
  match k with ApplyOp _ _ => true | _ => false end.
Definition isCombineOp (k : OpKind) : bool :=
  match k with CombineOp _ _ _ _ _ => true | _ => false end.
Definition isReturnOp (k : OpKind) : bool :=
  match k with ReturnOp _ => true | _ => false end.
Definition isCastOp (k : OpKind) : bool :=
  match k with CastOp _ _ => true | _ => false end.
Definition isLoadOp (k : OpKind) : bool :=
  match k with LoadOp _ _ => true | _ => false end.
Definition isStoreOp (k : OpKind) : bool :=
  match k with StoreOp _ _ => true | _ => false end.

(** [isa<T>(op)] asserts that [op] is not null; [isa_and_nonnull<T>] and
    [dyn_cast_or_null] accept null.  [dyn_cast<T>] has the precondition of
    [isa<T>]. *)
Definition isa (ir : IR) (p : OpKind → bool) (op : option nat) : Outcome bool :=
  match op with
  | None => Abort "isa<> used on a null pointer"
  | Some id => o ← getOperation ir id; mret (p (op_kind o))
  end.

Definition isa_and_nonnull (ir : IR) (p : OpKind → bool) (op : option nat) : bool :=
  match op with
  | None => false
  | Some id =>
      match ir_ops ir !! id with Some o => p (op_kind o) | None => false end
  end.

(** [cast<T>(op)]: asserts that the operation is of the kind. *)
Definition cast (ir : IR) (p : OpKind → bool) (op : option nat) : Outcome nat :=
  match op with
  | None => Abort "isa<> used on a null pointer"
  | Some id =>
      o ← getOperation ir id;
      if p (op_kind o) then mret id
      else Abort "cast<Ty>() argument of incompatible type!"
  end.

(** [dyn_cast<T>(op)]: null when the operation is of another kind. *)
Definition dyn_cast (ir : IR) (p : OpKind → bool) (op : option nat)
  : Outcome (option nat) :=
  b ← isa ir p op; mret (if b : bool then op else None).

(** [ApplyOp::getBody]: [&region().front()]. *)
Definition getBody (ir : IR) (op : nat) (idx : nat) : Outcome nat :=
  o ← getOperation ir op;
  match op_regions o !! idx with
  | Some (b :: _) => mret b
  | _ => Abort "front() called on an empty region"
  end.

(** [Block::getTerminator]: the last operation of the block. *)
Definition getTerminator (ir : IR) (b : nat) : Outcome nat :=
  match last (blockOps ir b) with
  | Some t => mret t
  | None => Abort "getTerminator() called on an empty block"
  end.

Definition getOperands (ir : IR) (op : nat) : Outcome (list Value) :=
  o ← getOperation ir op; mret (op_operands o).

Definition getResultTypes (ir : IR) (op : nat) : Outcome (list Ty) :=
  o ← getOperation ir op; mret (op_results o).

Definition getOperandTypes (ir : IR) (op : nat) : Outcome (list Ty) :=
  o ← getOperation ir op; mret (getType ir <$> op_operands o).

Definition getOpResults (ir : IR) (op : nat) : Outcome (list Value) :=
  o ← getOperation ir op; mret (getResults op o).

(** The optional [lb] and [ub] attributes of an operation. *)
Definition lbAttr (k : OpKind) : option Index :=
  match k with
  | CastOp lb _ | StoreOp lb _ => Some lb
  | LoadOp lb _ | BufferOp lb _ | ApplyOp lb _ | CombineOp _ _ _ lb _ => lb
  | _ => None
  end.
Definition ubAttr (k : OpKind) : option Index :=
  match k with
  | CastOp _ ub | StoreOp _ ub => Some ub
  | LoadOp _ ub | BufferOp _ ub | ApplyOp _ ub | CombineOp _ _ _ _ ub => ub
  | _ => None
  end.

(** The declared bound pair of an operation, present when both bounds are. *)
Definition boundPair (k : OpKind) : option (Index * Index) :=
  match lbAttr k, ubAttr k with
  | Some lb, Some ub => Some (lb, ub)
  | _, _ => None
  end.

(** Modelled from the spec: the ShapeOp interface (StencilInterfaces.td is
    not among the sources).  [hasShape] is true iff both [lb] and [ub] are
    present; [getLB] and [getUB] expose the declared bounds. *)
Definition hasShape (k : OpKind) : bool :=
  bool_decide (is_Some (lbAttr k)) && bool_decide (is_Some (ubAttr k)).
Definition getLB (k : OpKind) : Index := default [] (lbAttr k).
Definition getUB (k : OpKind) : Index := default [] (ubAttr k).

(** Modelled from the spec: [applyFunElementWise] of StencilUtils.h, the
    pointwise combination of two indexes. *)
Definition applyFunElementWise (x y : Index) (f : Z → Z → Z) : Index :=
  zip_with f x y.

(** ** Machine integers

    [unsigned] and [int] are 32 bits wide, [int64_t] is 64 bits wide;
    conversions and arithmetic wrap around.  Container sizes and positions
    (operand counts, result numbers) are kept as natural numbers. *)

Definition wrapU32 (z : Z) : Z := (z mod 2 ^ 32)%Z.
Definition wrapS32 (z : Z) : Z := ((z + 2 ^ 31) mod 2 ^ 32 - 2 ^ 31)%Z.
Definition wrapS64 (z : Z) : Z := ((z + 2 ^ 63) mod 2 ^ 64 - 2 ^ 63)%Z.

(** ** The Return op ([Stencil_ReturnOp]) *)

Module ReturnOp.

(** The [unroll] attribute of a return op. *)
Definition unroll (k : OpKind) : option Index :=
  match k with ReturnOp u => u | _ => None end.

(** [std::accumulate(begin, end, 1, std::multiplies<int64_t>())]: the
    accumulator has the type of the initial value [1], an [int]; every step
    multiplies in [int64_t] and stores the product back into the [int]. *)
Definition accumulate (unroll : Index) : Z :=
  fold_left (λ acc x, wrapS32 (wrapS64 (acc * x))) unroll 1%Z.

(** [unsigned getUnrollFac()]. *)
Definition getUnrollFac (k : OpKind) : Z :=
  match unroll k with
  | Some u => wrapU32 (accumulate u)
  | None => 1%Z
  end.

(** [size_t getUnrollDim()]: the position of the first entry equal to the
    unroll factor, asserted to exist. *)
Definition getUnrollDim (k : OpKind) : Outcome nat :=
  match unroll k with
  | Some u =>
      match list_find (λ x : Z, x = getUnrollFac k) u with
      | Some (i, _) => Ok i
      | None => Abort "expected to find unroll factor"
      end
  | None => Ok 0
  end.

End ReturnOp.

(** ** Verifiers *)

(** The result of a verifier: [success()] or [emitOpError(msg)]. *)
Inductive Verdict := Verified | EmitOpError (msg : string).

#[global] Instance Verdict_eq_dec : EqDecision Verdict.
Proof. solve_decision. Defined.

(** [getType().cast<GridType>().getElementType()]. *)
Definition gridElementType (t : Ty) : Outcome ElementType :=
  match t with
  | TempType e _ | FieldType e _ => Ok e
  | _ => Abort "cast<GridType>() argument of incompatible type!"
  end.

(** [getType().cast<TempType>().getElementType()]. *)
Definition tempElementType (t : Ty) : Outcome ElementType :=
  match t with
  | TempType e _ => Ok e
  | _ => Abort "cast<TempType>() argument of incompatible type!"
  end.

(** [getType().cast<ResultType>().getResultType()]. *)
Definition resultElementType (t : Ty) : Outcome ElementType :=
  match t with
  | ResultType e => Ok e
  | _ => Abort "cast<ResultType>() argument of incompatible type!"
  end.

(** [Operation::getParentOp]: the operation one of whose regions holds the
    block that contains [op]. *)
Definition getParentOp (ir : IR) (op : nat) : option nat :=
  fst <$> find (λ '(_, o),
             existsb (λ b, bool_decide (op ∈ blockOps ir b)) (concat (op_regions o)))
          (map_to_list (ir_ops ir)).

(** [Operation::getOperand(i)]. *)
Definition getOperand (o : Operation) (i : nat) : Outcome Value :=
  match op_operands o !! i with
  | Some v => Ok v
  | None => Abort "getOperand() out of range"
  end.

(** A loop whose body may return an error early. *)
Fixpoint forEach {A} (f : A → Outcome Verdict) (l : list A) : Outcome Verdict :=
  match l with
  | [] => Ok Verified
  | x :: l' =>
      r ← f x;
      match r with
      | Verified => forEach f l'
      | EmitOpError msg => Ok (EmitOpError msg)
      end
  end.

(** The verifier of [Stencil_ReturnOp]. *)
Definition verifyReturnOp (ir : IR) (op : nat) : Outcome Verdict :=
  self ← getOperation ir op;
  applyOp ← cast ir isApplyOp (getParentOp ir op);
  apply ← getOperation ir applyOp;
  let unrollFac := ReturnOp.getUnrollFac (op_kind self) in
  (* Verify the number of operands matches the number of apply results *)
  let results := op_results apply in
  if bool_decide (Z.of_nat (length (op_operands self))
                  ≠ (unrollFac * Z.of_nat (length results))%Z)
  then mret (EmitOpError "the operand and apply result counts do not match")
  else
    (* Verify the element types match *)
    forEach (λ i,
      tempType ← gridElementType (default NoneType (results !! i));
      forEach (λ j,
        v ← getOperand self (i * Z.to_nat unrollFac + j);
        e ← resultElementType (getType ir v);
        if bool_decide (e ≠ tempType)
        then mret (EmitOpError "the operand and apply result element types do not match")
        else mret Verified)
        (seq 0 (Z.to_nat unrollFac)))
      (seq 0 (length results)).

Section StoreVerifier.

(** The GridType queries of StencilTypes.h, which is not among the
    sources; the verifier is embedded for any implementation of them. *)
Context (hasDynamicShape : Ty → bool)
        (getRank : Ty → nat)
        (getAllocation : Ty → nat)
        (hasLargerOrEqualShape : Ty → Index → Index → bool).

Definition castGridType (t : Ty) : Outcome Ty :=
  _ ← gridElementType t; mret t.

Definition elementTypeOf (t : Ty) : option ElementType :=
  match t with
  | TempType e _ | FieldType e _ => Some e
  | _ => None
  end.

(** [llvm::count_if(v.getUsers(), isa_and_nonnull<T>)]. *)
Definition countUsers (ir : IR) (p : OpKind → bool) (v : Value) : nat :=
  length (filter (λ u, isa_and_nonnull ir p (Some u) = true) (getUsers ir v)).

(** The verifier of [Stencil_StoreOp]; [temp] and [field] are its two
    operands. *)
Definition verifyStoreOp (ir : IR) (op : nat) : Outcome Verdict :=
  self ← getOperation ir op;
  temp ← getOperand self 0;
  field ← getOperand self 1;
  (* Check the field and result types *)
  fieldType ← castGridType (getType ir field);
  tempType ← castGridType (getType ir temp);
  if hasDynamicShape fieldType
  then mret (EmitOpError "expected fields to have static shape")
  else if bool_decide (getRank fieldType ≠ getRank tempType)
  then mret (EmitOpError "the field and temp types have different rank")
  else if bool_decide (getRank fieldType ≠ getRank tempType)
  then mret (EmitOpError "the field and temp types have different rank")
  else if bool_decide (getAllocation fieldType ≠ getAllocation tempType)
  then mret (EmitOpError "the field and temp types have different allocation")
  else if bool_decide (elementTypeOf fieldType ≠ elementTypeOf tempType)
  then mret (EmitOpError "the field and temp types have different element types")
  (* Ensure the shape matches the temp and result types *)
  else if negb (hasLargerOrEqualShape fieldType (getLB (op_kind self)) (getUB (op_kind self)))
  then mret (EmitOpError "expected the field type to be larger than the op shape")
  else if negb (hasLargerOrEqualShape tempType (getLB (op_kind self)) (getUB (op_kind self)))
  then mret (EmitOpError "expected the temp type to be larger than the op shape")
  else
    fromApply ← isa ir isApplyOp (getDefiningOp temp);
    fromCombine ← (if fromApply then mret true
                   else isa ir isCombineOp (getDefiningOp temp));
    if negb (fromApply || fromCombine)
    then mret (EmitOpError "output temp not result of an apply or a combine op")
    else if bool_decide (countUsers ir isLoadOp field ≠ 0)
    then mret (EmitOpError "an output cannot be an input")
    else if bool_decide (countUsers ir isStoreOp field ≠ 1)
    then mret (EmitOpError "multiple stores to the same output")
    else
      fromCast ← isa ir isCastOp (getDefiningOp field);
      if negb fromCast
      then mret (EmitOpError "expected the defining op of the field is a cast operation")
      else mret Verified.

End StoreVerifier.

(** ** The Combine op ([Stencil_CombineOp]) *)

Module CombineOp.

Definition segments (k : OpKind) : Segments :=
  match k with
  | CombineOp _ _ s _ _ => s
  | _ => mkSegments 0 0 0 0
  end.

Definition dim (k : OpKind) : Z :=
  match k with CombineOp d _ _ _ _ => d | _ => 0%Z end.

(** [getIndex]: the [index] attribute. *)
Definition index (k : OpKind) : Z :=
  match k with CombineOp _ i _ _ _ => i | _ => 0%Z end.

Definition lower (o : Operation) : list Value :=
  take (seg_lower (segments (op_kind o))) (op_operands o).
Definition upper (o : Operation) : list Value :=
  take (seg_upper (segments (op_kind o)))
       (drop (seg_lower (segments (op_kind o))) (op_operands o)).
Definition lowerext (o : Operation) : list Value :=
  let s := segments (op_kind o) in
  take (seg_lowerext s) (drop (seg_lower s + seg_upper s) (op_operands o)).
Definition upperext (o : Operation) : list Value :=
  let s := segments (op_kind o) in
  take (seg_upperext s)
       (drop (seg_lower s + seg_upper s + seg_lowerext s) (op_operands o)).

(** The loop shared by [getLowerDefiningOps] and [getUpperDefiningOps]:
    push the defining op of every value not yet contained. *)
Definition collectDefiningOps (definingOps : list (option nat)) (values : list Value)
  : list (option nat) :=
  fold_left (λ acc v,
    if bool_decide (getDefiningOp v ∈ acc) then acc else acc ++ [getDefiningOp v])
    values definingOps.

Definition getLowerDefiningOps (o : Operation) : list (option nat) :=
  collectDefiningOps (collectDefiningOps [] (lower o)) (lowerext o).

Definition getUpperDefiningOps (o : Operation) : list (option nat) :=
  collectDefiningOps (collectDefiningOps [] (upper o)) (upperext o).

End CombineOp.

(** ** The pattern rewriter

    The services of the host framework, by their effect on the graph. *)

Fixpoint insertBefore (x id : nat) (l : list nat) : list nat :=
  match l with
  | [] => []
  | y :: l' => if decide (y = x) then id :: y :: l' else y :: insertBefore x id l'
  end.

Definition setBlockOps (f : list nat → list nat) (b : Block) : Block :=
  mkBlock (blk_args b) (f (blk_ops b)).

(** Link a new operation into the block the insertion point designates. *)
Definition placeOp (ip : InsertPoint) (id : nat) (blocks : gmap nat Block)
  : gmap nat Block :=
  match ip with
  | IPNone => blocks
  | IPBefore x => setBlockOps (insertBefore x id) <$> blocks
  | IPEnd b => alter (setBlockOps (λ l, l ++ [id])) b blocks
  end.

(** [rewriter.create<Op>(...)]: the new operation takes the next handle and
    is inserted at the insertion point. *)
Definition createOperation (k : OpKind) (operands : list Value) (results : list Ty)
    (regions : list (list nat)) : M nat := λ s,
  let ir := rw_ir s in
  let id := ir_nextOp ir in
  Ok (id, mkRewriter
            (mkIR (<[id := mkOperation k operands results regions]> (ir_ops ir))
                  (placeOp (rw_ip s) id (ir_blocks ir))
                  (S id) (ir_nextBlock ir))
            (rw_ip s) (rw_diags s)).

(** [new Block()] with the given argument types. *)
Definition createBlock (args : list Ty) : M nat := λ s,
  let ir := rw_ir s in
  let b := ir_nextBlock ir in
  Ok (b, mkRewriter
           (mkIR (ir_ops ir) (<[b := mkBlock args []]> (ir_blocks ir))
                 (ir_nextOp ir) (S b))
           (rw_ip s) (rw_diags s)).

Definition setInsertionPoint (op : nat) : M unit := λ s,
  Ok (tt, mkRewriter (rw_ir s) (IPBefore op) (rw_diags s)).

Definition setInsertionPointToStart (b : nat) : M unit := λ s,
  Ok (tt, mkRewriter (rw_ir s)
            (match blockOps (rw_ir s) b with [] => IPEnd b | x :: _ => IPBefore x end)
            (rw_diags s)).

Definition setInsertionPointToEnd (b : nat) : M unit := λ s,
  Ok (tt, mkRewriter (rw_ir s) (IPEnd b) (rw_diags s)).

Definition substValue (from to v : Value) : Value :=
  if decide (v = from) then to else v.

Definition mapOperands (f : Value → Value) (o : Operation) : Operation :=
  mkOperation (op_kind o) (f <$> op_operands o) (op_results o) (op_regions o).

Definition setOps (f : gmap nat Operation → gmap nat Operation) (ir : IR) : IR :=
  mkIR (f (ir_ops ir)) (ir_blocks ir) (ir_nextOp ir) (ir_nextBlock ir).

Definition setBlocks (f : gmap nat Block → gmap nat Block) (ir : IR) : IR :=
  mkIR (ir_ops ir) (f (ir_blocks ir)) (ir_nextOp ir) (ir_nextBlock ir).

(** [Value::replaceAllUsesWith]. *)
Definition replaceAllUsesWith (from to : Value) (ir : IR) : IR :=
  setOps (fmap (mapOperands (substValue from to))) ir.

(** Replace the uses of each value by its partner, one value after the
    other. *)
Definition replaceAllUsesWithList (froms tos : list Value) (ir : IR) : IR :=
  fold_left (λ ir p, replaceAllUsesWith p.1 p.2 ir) (zip froms tos) ir.

Definition removeFromBlocks (op : nat) (ir : IR) : IR :=
  setBlocks (fmap (setBlockOps (filter (λ x, x ≠ op)))) ir.

(** Unlink and destroy an operation together with everything nested in its
    regions. *)
Fixpoint eraseNested (fuel : nat) (ir : IR) (op : nat) : IR :=
  match fuel with
  | 0 => ir
  | S fuel' =>
      match ir_ops ir !! op with
      | None => ir
      | Some o =>
          let ir1 :=
            fold_left (λ ir b,
                setBlocks (delete b) (fold_left (eraseNested fuel') (blockOps ir b) ir))
              (concat (op_regions o)) ir in
          removeFromBlocks op (setOps (delete op) ir1)
      end
  end.

(** [Operation::use_empty]: no result of the operation has a use. *)
Definition use_empty (ir : IR) (op : nat) : Outcome bool :=
  results ← getOpResults ir op;
  mret (forallb (λ v, bool_decide (getUsers ir v = [])) results).

(** [rewriter.eraseOp]: asserts that the operation has no uses. *)
Definition eraseOp (op : nat) : M unit :=
  unused ← query (λ ir, use_empty ir op);
  _ ← assert unused "expected 'op' to have no uses";
  modifyIR (λ ir, eraseNested (S (size (ir_ops ir))) ir op).

(** [rewriter.replaceOp]: asserts one new value per result; the uses of the
    results are replaced by the new values and the operation is erased. *)
Definition replaceOp (op : nat) (newValues : list Value) : M unit :=
  results ← query (λ ir, getOpResults ir op);
  _ ← assert (bool_decide (length results = length newValues))
             "incorrect # of replacement values";
  _ ← modifyIR (replaceAllUsesWithList results newValues);
  eraseOp op.

Definition removeBlockFromRegions (b : nat) (o : Operation) : Operation :=
  mkOperation (op_kind o) (op_operands o) (op_results o)
              (filter (λ x, x ≠ b) <$> op_regions o).

(** [rewriter.mergeBlocks(source, dest, argValues)]: asserts one value per
    argument of [source]; the uses of the arguments of [source] are replaced
    by [argValues], its operations are moved to the end of [dest], and
    [source] is erased. *)
Definition mergeBlocks (source dest : nat) (argValues : list Value) : M unit :=
  arguments ← query (λ ir, Ok (getArguments ir source));
  _ ← assert (bool_decide (length argValues = length arguments))
             "incorrect # of argument replacement values";
  modifyIR (λ ir,
    let ir1 := replaceAllUsesWithList (getArguments ir source) argValues ir in
    let moved := blockOps ir1 source in
    let ir2 := setBlocks (alter (setBlockOps (λ l, l ++ moved)) dest) ir1 in
    setBlocks (delete source) (setOps (fmap (removeBlockFromRegions source)) ir2)).

(** The builder of [Stencil_ApplyOp]: the bounds are attached only when
    both are given; the region receives one block whose arguments have the
    types of the operands. *)
Definition createApplyOp (resultTypes : list Ty) (operands : list Value)
    (lb ub : option Index) : M nat :=
  types ← query (λ ir, Ok (getType ir <$> operands));
  region ← createBlock types;
  createOperation
    (if bool_decide (is_Some lb) && bool_decide (is_Some ub)
     then ApplyOp lb ub else ApplyOp None None)
    operands resultTypes [[region]].

(** The builder of [scf::IfOp] with result types and an else region: the
    two blocks are left without terminator when there are results. *)
Definition createIfOp (resultTypes : list Ty) (cond : Value) : M nat :=
  thenBlock ← createBlock [];
  elseBlock ← createBlock [];
  createOperation IfOp [cond] resultTypes [[thenBlock]; [elseBlock]].

(** The builder of [Stencil_ReturnOp]. *)
Definition createReturnOp (operands : list Value) (unroll : option Index) : M nat :=
  createOperation (ReturnOp unroll) operands [] [].

(** [take_back(n)]. *)
Definition take_back {A} (n : nat) (l : list A) : list A :=
  drop (length l - n) l.

(** [cast<stencil::ReturnOp>(applyOp.getBody()->getTerminator())]. *)
Definition getReturnOp (ir : IR) (applyOp : nat) : Outcome nat :=
  body ← getBody ir applyOp 0;
  terminator ← getTerminator ir body;
  cast ir isReturnOp (Some terminator).

(** The test shared by the Fuse and the IfElse rewrite:
    [r1.getUnrollFac() != r2.getUnrollFac() ||
     r1.getUnrollDim() != r2.getUnrollDim()]. *)
Definition unrollMismatch (k1 k2 : OpKind) : Outcome bool :=
  if bool_decide (ReturnOp.getUnrollFac k1 ≠ ReturnOp.getUnrollFac k2) then mret true
  else
    d1 ← ReturnOp.getUnrollDim k1;
    d2 ← ReturnOp.getUnrollDim k2;
    mret (bool_decide (d1 ≠ d2)).

Fixpoint forM {A B} (f : A → M B) (l : list A) : M (list B) :=
  match l with
  | [] => mret []
  | x :: l' => y ← f x; ys ← forM f l'; mret (y :: ys)
  end.

(** ** The combine lowering patterns *)

(** Fuse two apply ops connected to the same combine. *)
Module FuseRewrite.

(** Fuse two apply ops into a single apply op. *)
Definition fuseApplyOps (applyOp1 applyOp2 combineOp : nat) : M LogicalResult :=
  (* Check the shapes match *)
  shapeOp1 ← query (λ ir, getOperation ir applyOp1);
  shapeOp2 ← query (λ ir, getOperation ir applyOp2);
  if hasShape (op_kind shapeOp1) && hasShape (op_kind shapeOp2) &&
     (bool_decide (getLB (op_kind shapeOp1) ≠ getLB (op_kind shapeOp2)) &&
      bool_decide (getUB (op_kind shapeOp1) ≠ getUB (op_kind shapeOp2)))
  then
    _ ← emitWarning combineOp "expected shapes to match";
    mret failure
  else
    (* Compute the new result types *)
    let newResultTypes := op_results shapeOp1 ++ op_results shapeOp2 in
    (* Compute the new operands *)
    let newOperands := op_operands shapeOp1 ++ op_operands shapeOp2 in
    (* Get return operations *)
    returnOp1 ← query (λ ir, getReturnOp ir applyOp1);
    returnOp2 ← query (λ ir, getReturnOp ir applyOp2);
    return1 ← query (λ ir, getOperation ir returnOp1);
    return2 ← query (λ ir, getOperation ir returnOp2);
    (* Check both apply operations have the same unroll configuration if any *)
    mismatch ← query (λ _, unrollMismatch (op_kind return1) (op_kind return2));
    if (mismatch : bool)
    then
      _ ← emitWarning combineOp "expected matching unroll configurations";
      mret failure
    else
      (* Introduce a new apply op *)
      newOp ← createApplyOp newResultTypes newOperands
                (lbAttr (op_kind shapeOp1)) (ubAttr (op_kind shapeOp1));
      body1 ← query (λ ir, getBody ir applyOp1 0);
      newBody ← query (λ ir, getBody ir newOp 0);
      arguments ← query (λ ir, Ok (getArguments ir newBody));
      numOperands1 ← query (λ ir, length <$> getOperands ir applyOp1);
      _ ← mergeBlocks body1 newBody (take numOperands1 arguments);
      body2 ← query (λ ir, getBody ir applyOp2 0);
      newBody ← query (λ ir, getBody ir newOp 0);
      arguments ← query (λ ir, Ok (getArguments ir newBody));
      numOperands2 ← query (λ ir, length <$> getOperands ir applyOp2);
      _ ← mergeBlocks body2 newBody (take_back numOperands2 arguments);
      (* Compute the new operands *)
      operands1 ← query (λ ir, getOperands ir returnOp1);
      operands2 ← query (λ ir, getOperands ir returnOp2);
      let newReturnOperands := operands1 ++ operands2 in
      (* Introduce a new return op *)
      newBody ← query (λ ir, getBody ir newOp 0);
      _ ← setInsertionPointToEnd newBody;
      unroll1 ← query (λ ir, ReturnOp.unroll ∘ op_kind <$> getOperation ir returnOp1);
      _ ← createReturnOp newReturnOperands unroll1;
      _ ← eraseOp returnOp1;
      _ ← eraseOp returnOp2;
      (* Replace all uses of the two apply operations *)
      results ← query (λ ir, getOpResults ir newOp);
      numResults1 ← query (λ ir, length <$> getResultTypes ir applyOp1);
      _ ← replaceOp applyOp1 (take numResults1 results);
      results ← query (λ ir, getOpResults ir newOp);
      numResults2 ← query (λ ir, length <$> getResultTypes ir applyOp2);
      _ ← replaceOp applyOp2 (take_back numResults2 results);
      mret success.

(** The loop over the defining ops of the two sides: the first side with
    more than one defining op has its first two fused. *)
Fixpoint fuseFirstPair (combineOp : nat) (sides : list (list (option nat)))
  : M LogicalResult :=
  match sides with
  | [] => mret failure
  | definingOps :: sides' =>
      match definingOps with
      | first :: second :: _ =>
          applyOp1 ← query (λ ir, cast ir isApplyOp first);
          applyOp2 ← query (λ ir, cast ir isApplyOp second);
          fuseApplyOps applyOp1 applyOp2 combineOp
      | _ => fuseFirstPair combineOp sides'
      end
  end.

Definition matchAndRewrite (combineOp : nat) : M LogicalResult :=
  combine ← query (λ ir, getOperation ir combineOp);
  (* Handle the case if multiple applies are connected to lower *)
  let lowerAndUpperDefiningOps :=
    [CombineOp.getUpperDefiningOps combine; CombineOp.getLowerDefiningOps combine] in
  fuseFirstPair combineOp lowerAndUpperDefiningOps.

End FuseRewrite.

(** Introduce empty stores to eliminate extra operands. *)
Module MirrorRewrite.

(** Introduce empty stores for the extra operands; [range] selects the
    operand range of the combine op that is iterated. *)
Definition addEmptyStores (applyOp : nat) (range : Operation → list Value)
    (combineOp : nat) : M nat :=
  apply ← query (λ ir, getOperation ir applyOp);
  (* Introduce the emtpy result types using the shape of the op *)
  emptyTypes ← query (λ ir,
    combine ← getOperation ir combineOp;
    let newShape :=
      applyFunElementWise (getUB (op_kind apply)) (getLB (op_kind apply)) Z.sub in
    mapM (λ operand, e ← tempElementType (getType ir operand);
                     mret (TempType e newShape)) (range combine));
  let newResultTypes := op_results apply ++ emptyTypes in
  (* Replace the apply operation *)
  _ ← setInsertionPoint applyOp;
  newOp ← createApplyOp newResultTypes (op_operands apply)
            (lbAttr (op_kind apply)) (ubAttr (op_kind apply));
  body ← query (λ ir, getBody ir applyOp 0);
  newBody ← query (λ ir, getBody ir newOp 0);
  arguments ← query (λ ir, Ok (getArguments ir newBody));
  _ ← mergeBlocks body newBody arguments;
  (* Get the return operation *)
  returnOp ← query (λ ir, getReturnOp ir newOp);
  _ ← setInsertionPoint returnOp;
  (* Insert the empty stores *)
  return_ ← query (λ ir, getOperation ir returnOp);
  extras ← query (λ ir, range <$> getOperation ir combineOp);
  stores ← forM (λ operand,
      e ← query (λ ir, tempElementType (getType ir operand));
      resultOp ← createOperation StoreResultOp [] [ResultType e] [];
      mret (replicate (Z.to_nat (ReturnOp.getUnrollFac (op_kind return_)))
                      (OpResult resultOp 0)))
    extras;
  let newOperands := op_operands return_ ++ concat stores in
  _ ← createReturnOp newOperands (ReturnOp.unroll (op_kind return_));
  _ ← eraseOp returnOp;
  mret newOp.

(** Iterate the operand range and append the new op operands. *)
Definition appendOperandRange (oldOp newOp : nat) (range : list Value)
    (newOperands : list Value) : M (list Value) :=
  results ← query (λ ir, getOpResults ir oldOp);
  found ← query (λ _, mapM (λ value,
      match list_find (λ r, r = value) results with
      | Some (i, _) => Ok (OpResult newOp i)
      | None => Abort "expected to find the result matching the combine operand"
      end) range);
  mret (newOperands ++ found).

(** Reroute the store result of the apply ops via a combine op. *)
Definition mirrorExtraResults (lowerOp upperOp combineOp : nat) : M LogicalResult :=
  (* Compute the updated apply operations *)
  newLowerOp ← addEmptyStores lowerOp CombineOp.upperext combineOp;
  newUpperOp ← addEmptyStores upperOp CombineOp.lowerext combineOp;
  (* Update the combine operation *)
  combine ← query (λ ir, getOperation ir combineOp);
  (* Append the lower and upper operands *)
  newLowerOperands ← appendOperandRange lowerOp newLowerOp (CombineOp.lower combine) [];
  newUpperOperands ← appendOperandRange upperOp newUpperOp (CombineOp.upper combine) [];
  (* Append the extra operands of the lower and empty of the upper op *)
  newLowerOperands ← appendOperandRange lowerOp newLowerOp (CombineOp.lowerext combine)
                       newLowerOperands;
  upperResults ← query (λ ir, getOpResults ir newUpperOp);
  let upperEmptyStores := take_back (length (CombineOp.lowerext combine)) upperResults in
  let newUpperOperands := newUpperOperands ++ upperEmptyStores in
  (* Append the empty lower and the extra operands of the upper op *)
  lowerResults ← query (λ ir, getOpResults ir newLowerOp);
  let lowerEmptyStores := take_back (length (CombineOp.upperext combine)) lowerResults in
  let newLowerOperands := newLowerOperands ++ lowerEmptyStores in
  newUpperOperands ← appendOperandRange upperOp newUpperOp (CombineOp.upperext combine)
                       newUpperOperands;
  (* Introduce a new stencil combine operation that has no extra operands *)
  _ ← setInsertionPoint combineOp;
  newOp ← createOperation
            (CombineOp (CombineOp.dim (op_kind combine)) (CombineOp.index (op_kind combine))
               (mkSegments (length newLowerOperands) (length newUpperOperands) 0 0)
               (lbAttr (op_kind combine)) (ubAttr (op_kind combine)))
            (newLowerOperands ++ newUpperOperands) (op_results combine) [];
  (* Replace the combine operation *)
  results ← query (λ ir, getOpResults ir newOp);
  _ ← replaceOp combineOp results;
  _ ← eraseOp lowerOp;
  _ ← eraseOp upperOp;
  mret success.

Definition matchAndRewrite (combineOp : nat) : M LogicalResult :=
  combine ← query (λ ir, getOperation ir combineOp);
  (* Handling extra operands is not needed *)
  if bool_decide (CombineOp.lowerext combine = []) &&
     bool_decide (CombineOp.upperext combine = [])
  then mret failure
  else
    (* Handle multiple input operations first *)
    match CombineOp.getLowerDefiningOps combine, CombineOp.getUpperDefiningOps combine with
    | [definingLowerOp], [definingUpperOp] =>
        (* Try to get the lower and the upper apply op *)
        lowerOp ← query (λ ir, dyn_cast ir isApplyOp definingLowerOp);
        upperOp ← query (λ ir, dyn_cast ir isApplyOp definingUpperOp);
        match lowerOp, upperOp with
        | Some lowerOp, Some upperOp => mirrorExtraResults lowerOp upperOp combineOp
        | _, _ => mret failure
        end
    | _, _ => mret failure
    end.

End MirrorRewrite.

(** Pattern replacing stencil.combine ops by if/else. *)
Module IfElseRewrite.

(** [kIndexSize]: the number of entries of an index. *)
Definition kIndexSize : nat := 3.

(** Apply the apply to combine op operand mapping to the return op
    operands. *)
Definition permuteReturnOpOperands (applyOp : nat) (combineOpOperands : list Value)
    (returnOp : nat) : M (list Value) :=
  (* Compute a result to index mapping *)
  results ← query (λ ir, getOpResults ir applyOp);
  let resultToIndex (value : Value) : nat :=
    match list_find (λ r, r = value) results with
    | Some (_, OpResult _ resultNumber) => resultNumber
    | _ => 0
    end in
  return_ ← query (λ ir, getOperation ir returnOp);
  (* Append the return op operands that correspond to the combine op operand *)
  slices ← forM (λ value,
      _ ← assert (bool_decide (getDefiningOp value = Some applyOp))
                 "expected operand is defined apply op";
      let unrollFac := Z.to_nat (ReturnOp.getUnrollFac (op_kind return_)) in
      (* [slice(n, m)] asserts that the range holds [n + m] elements *)
      _ ← assert (bool_decide (resultToIndex value * unrollFac + unrollFac
                               ≤ length (op_operands return_)))
                 "invalid size specifiers";
      mret (take unrollFac (drop (resultToIndex value * unrollFac) (op_operands return_))))
    combineOpOperands;
  mret (concat slices).

(** Lower the combine op to a if/else apply op. *)
Definition lowerStencilCombine (lowerOp upperOp combineOp : nat) : M LogicalResult :=
  combine ← query (λ ir, getOperation ir combineOp);
  (* Compute the operands of the fused apply op *)
  lowerOperands ← query (λ ir, getOperands ir lowerOp);
  upperOperands ← query (λ ir, getOperands ir upperOp);
  let newOperands := lowerOperands ++ upperOperands in
  (* Create a new apply op that updates the lower and upper domains *)
  newOp ← createApplyOp (op_results combine) newOperands
            (lbAttr (op_kind combine)) (ubAttr (op_kind combine));
  newBody ← query (λ ir, getBody ir newOp 0);
  _ ← setInsertionPointToStart newBody;
  (* Introduce the branch condition *)
  let offset := replicate kIndexSize 0%Z in
  indexOp ← createOperation (IndexOp (CombineOp.dim (op_kind combine)) offset)
              [] [IndexType] [];
  constOp ← createOperation (ConstantOp (CombineOp.index (op_kind combine)))
              [] [IndexType] [];
  cmpOp ← createOperation (CmpIOp ult) [OpResult indexOp 0; OpResult constOp 0]
            [I1Type] [];
  (* Get the return operations and check to unroll factors match *)
  lowerReturnOp ← query (λ ir, getReturnOp ir lowerOp);
  upperReturnOp ← query (λ ir, getReturnOp ir upperOp);
  lowerReturn ← query (λ ir, getOperation ir lowerReturnOp);
  upperReturn ← query (λ ir, getOperation ir upperReturnOp);
  (* Check both apply operations have the same unroll configuration if any *)
  mismatch ← query (λ _, unrollMismatch (op_kind lowerReturn) (op_kind upperReturn));
  if (mismatch : bool)
  then
    _ ← emitWarning combineOp "expected matching unroll configurations";
    mret failure
  else
    lowerTypes ← query (λ ir, getOperandTypes ir lowerReturnOp);
    upperTypes ← query (λ ir, getOperandTypes ir upperReturnOp);
    _ ← assert (bool_decide (lowerTypes = upperTypes))
               "expected both apply ops to return the same types";
    _ ← assert (negb (bool_decide (lowerTypes = [])))
               "expected apply ops to return at least one value";
    (* Introduce the if else op and return the results *)
    ifOp ← createIfOp lowerTypes (OpResult cmpOp 0);
    ifResults ← query (λ ir, getOpResults ir ifOp);
    _ ← createReturnOp ifResults (ReturnOp.unroll (op_kind lowerReturn));
    (* Replace the return ops by yield ops *)
    _ ← setInsertionPoint lowerReturnOp;
    combine ← query (λ ir, getOperation ir combineOp);
    lowerYield ← permuteReturnOpOperands lowerOp (CombineOp.lower combine) lowerReturnOp;
    _ ← createOperation YieldOp lowerYield [] [];
    _ ← replaceOp lowerReturnOp [];
    _ ← setInsertionPoint upperReturnOp;
    combine ← query (λ ir, getOperation ir combineOp);
    upperYield ← permuteReturnOpOperands upperOp (CombineOp.upper combine) upperReturnOp;
    _ ← createOperation YieldOp upperYield [] [];
    _ ← replaceOp upperReturnOp [];
    (* Move the computation to the new apply operation *)
    lowerBody ← query (λ ir, getBody ir lowerOp 0);
    thenBlock ← query (λ ir, getBody ir ifOp 0);
    newBody ← query (λ ir, getBody ir newOp 0);
    arguments ← query (λ ir, Ok (getArguments ir newBody));
    numLowerOperands ← query (λ ir, length <$> getOperands ir lowerOp);
    _ ← mergeBlocks lowerBody thenBlock (take numLowerOperands arguments);
    upperBody ← query (λ ir, getBody ir upperOp 0);
    elseBlock ← query (λ ir, getBody ir ifOp 1);
    newBody ← query (λ ir, getBody ir newOp 0);
    arguments ← query (λ ir, Ok (getArguments ir newBody));
    numUpperOperands ← query (λ ir, length <$> getOperands ir upperOp);
    _ ← mergeBlocks upperBody elseBlock (take numUpperOperands arguments);
    (* Remove the combine op and the attached apply ops *)
    results ← query (λ ir, getOpResults ir newOp);
    _ ← replaceOp combineOp results;
    _ ← eraseOp upperOp;
    _ ← eraseOp lowerOp;
    mret success.

Definition matchAndRewrite (combineOp : nat) : M LogicalResult :=
  combine ← query (λ ir, getOperation ir combineOp);
  (* Handle the extra operands first *)
  if negb (bool_decide (CombineOp.lowerext combine = [])) ||
     negb (bool_decide (CombineOp.upperext combine = []))
  then mret failure
  else
    (* Handle multiple input operations first *)
    match CombineOp.getLowerDefiningOps combine, CombineOp.getUpperDefiningOps combine with
    | [definingLowerOp], [definingUpperOp] =>
        (* Try to get the lower and the upper apply op *)
        lowerOp ← query (λ ir, dyn_cast ir isApplyOp definingLowerOp);
        upperOp ← query (λ ir, dyn_cast ir isApplyOp definingUpperOp);
        match lowerOp, upperOp with
        | Some lowerOp, Some upperOp =>
            (* Lower the combine op and its predecessors to a single apply *)
            lowerStencilCombine lowerOp upperOp combineOp
        | _, _ => mret failure
        end
    | _, _ => mret failure
    end.

End IfElseRewrite.

(** The users of the results of an operation, as [Operation::getUsers]. *)
Definition getOpUsers (ir : IR) (op : nat) : Outcome (list nat) :=
  results ← getOpResults ir op;
  mret (concat (getUsers ir <$> results)).

(** Pattern replacing stencil.combine ops by if/else, restricted to the
    combine trees consumed by an apply op. *)
Module InternalIfElseRewrite.
Section WithCombineTreeRoot.

(** [CombineOp::getCombineTreeRoot] is declared in StencilOps.td and
    defined in StencilOps.cpp, which is not among the sources. *)
Context (getCombineTreeRoot : IR → nat → Outcome nat).

Definition matchAndRewrite (combineOp : nat) : M LogicalResult :=
  (* Check the apply op is an internal op if the pass flag is set *)
  rootOp ← query (λ ir, getCombineTreeRoot ir combineOp);
  users ← query (λ ir, getOpUsers ir rootOp);
  noApplyUser ← query (λ ir,
    forallb negb <$> mapM (λ op, isa ir isApplyOp (Some op)) users);
  if (noApplyUser : bool)
  then mret failure
  else
    (* Run the standard if else rewrite *)
    IfElseRewrite.matchAndRewrite combineOp.

End WithCombineTreeRoot.
End InternalIfElseRewrite.

(** ** The pass driver *)

(** A function: the tag queried by [StencilDialect::isStencilProgram] and
    the operations nested in the function. *)
Record FuncOp := mkFuncOp {
  fn_isStencilProgram : bool;
  fn_ir : IR }.

(** What a run of the pass leaves behind: the graph, the diagnostics
    emitted, and whether [signalPassFailure] was called. *)
Record PassResult := mkPassResult {
  pass_ir : IR;
  pass_diags : list Diagnostic;
  pass_failed : bool }.

Section CombineToIfElsePass.

Context (getCombineTreeRoot : IR → nat → Outcome nat).

(** [applyPatternsAndFoldGreedily] of the host framework. *)
Context (applyPatternsAndFoldGreedily :
           list (nat → M LogicalResult) → PatternRewriter → Outcome PatternRewriter).

(** The walk over the combine ops of the function that sets
    [hasOperandsWithMultipleUses]. *)
Definition hasOperandsWithMultipleUses (ir : IR) : bool :=
  existsb (λ '(_, o),
      isCombineOp (op_kind o) &&
      existsb (λ operand, negb (hasOneUse ir operand)) (op_operands o))
    (map_to_list (ir_ops ir)).

Definition runOnFunction (internalOnly : bool) (funcOp : FuncOp) : Outcome PassResult :=
  (* Only run on functions marked as stencil programs *)
  if negb (fn_isStencilProgram funcOp)
  then mret (mkPassResult (fn_ir funcOp) [] false)
  else
    (* Check all combine op operands have one use *)
    if hasOperandsWithMultipleUses (fn_ir funcOp)
    then
      mret (mkPassResult (fn_ir funcOp)
              [OpError OnFunc "execute domain splitting before combine op conversion"]
              true)
    else
      (* Poppulate the pattern list depending on the config *)
      let patterns :=
        if internalOnly
        then [InternalIfElseRewrite.matchAndRewrite getCombineTreeRoot]
        else [IfElseRewrite.matchAndRewrite; MirrorRewrite.matchAndRewrite;
              FuseRewrite.matchAndRewrite] in
      rewriter ← applyPatternsAndFoldGreedily patterns (mkRewriter (fn_ir funcOp) IPNone []);
      mret (mkPassResult (rw_ir rewriter) (rw_diags rewriter) false).

End CombineToIfElsePass.

(** The driver hands every pattern a rewriter whose insertion point is set
    before the matched operation. *)
Definition applyPattern (pattern : nat → M LogicalResult) (op : nat) : M LogicalResult :=
  _ ← setInsertionPoint op; pattern op.

(** ** Vocabulary of the statements *)

(** Sequential substitution: what a sequence of [replaceAllUsesWith] does to
    a single operand. *)
Definition substList (pairs : list (Value * Value)) (v : Value) : Value :=
  fold_left (λ v p, substValue p.1 p.2 v) pairs v.

(** A value refers to an allocated operation or block. *)
Definition allocatedValue (ir : IR) (v : Value) : Prop :=
  match v with
  | OpResult o _ => o < ir_nextOp ir
  | BlockArgument b _ => b < ir_nextBlock ir
  end.

(** Handles are allocated below the counters of the graph. *)
Record Allocated (ir : IR) : Prop := mkAllocated {
  allocated_ops : map_Forall (λ id _, id < ir_nextOp ir) (ir_ops ir);
  allocated_blocks : map_Forall (λ b _, b < ir_nextBlock ir) (ir_blocks ir) }.

(** An apply op laid out: its handle and operation, the block of its region
    with the argument types, the operations of the block before the
    terminator, and the terminator. *)
Record ApplyBody := mkApplyBody {
  ab_op : nat;
  ab_apply : Operation;
  ab_block : nat;
  ab_args : list Ty;
  ab_body : list nat;
  ab_returnOp : nat;
  ab_return : Operation }.

(** The layout describes an apply op of the graph
    ([SingleBlockImplicitTerminator<"ReturnOp">]): one region with one
    block, which ends in a return op; the returned values are results of
    operations of the body; the block has one argument per operand of the
    apply op, and the return op has no result. *)
Record ApplyBodyIn (ir : IR) (x : ApplyBody) : Prop := mkApplyBodyIn {
  abi_op : ir_ops ir !! ab_op x = Some (ab_apply x);
  abi_isApply : isApplyOp (op_kind (ab_apply x)) = true;
  abi_regions : op_regions (ab_apply x) = [[ab_block x]];
  abi_block : ir_blocks ir !! ab_block x
              = Some (mkBlock (ab_args x) (ab_body x ++ [ab_returnOp x]));
  abi_returnOp : ir_ops ir !! ab_returnOp x = Some (ab_return x);
  abi_isReturn : isReturnOp (op_kind (ab_return x)) = true;
  abi_returnRegions : op_regions (ab_return x) = [];
  abi_body : Forall (λ y, is_Some (ir_ops ir !! y)) (ab_body x);
  abi_returned : Forall (λ v, ∃ y i, v = OpResult y i ∧ y ∈ ab_body x)
                        (op_operands (ab_return x));
  abi_args : length (ab_args x) = length (op_operands (ab_apply x));
  abi_returnResults : op_results (ab_return x) = [] }.

(** No operation of [ops] outside of [users] has a result of the operation
    [op] among its operands. *)
Definition usedOnlyBy (ops : gmap nat Operation) (op : nat) (users : list nat) : Prop :=
  map_Forall (λ u ou, u ∈ users
                      ∨ Forall (λ v, getDefiningOp v ≠ Some op) (op_operands ou)) ops.

(** A combine op and two distinct apply ops next to it: every operation is
    linked into one block only. *)
Record CombineSite (ir : IR) (combineOp : nat) (combine : Operation) (x1 x2 : ApplyBody)
  : Prop := mkCombineSite {
  site_allocated : Allocated ir;
  site_combine : ir_ops ir !! combineOp = Some combine;
  site_isCombine : isCombineOp (op_kind combine) = true;
  site_combineRegions : op_regions combine = [];
  site_apply1 : ApplyBodyIn ir x1;
  site_apply2 : ApplyBodyIn ir x2;
  site_blocks : ab_block x1 ≠ ab_block x2;
  site_distinct : NoDup (combineOp :: ab_op x1 :: ab_op x2 :: ab_returnOp x1
                           :: ab_returnOp x2 :: ab_body x1 ++ ab_body x2) }.

(** [OpResult::getResultNumber]. *)
Definition getResultNumber (v : Value) : nat :=
  match v with OpResult _ i => i | BlockArgument _ _ => 0 end.

(** The group of [unrollFac] consecutive operands of a return op at
    position [resultIndex * unrollFac]. *)
Definition returnSlice (ret : Operation) (resultIndex : nat) : list Value :=
  let unrollFac := Z.to_nat (ReturnOp.getUnrollFac (op_kind ret)) in
  take unrollFac (drop (resultIndex * unrollFac) (op_operands ret)).

(** The value [permuteReturnOpOperands] computes, as a function of the
    apply op, its return op and the combine operands. *)
Definition permuted (applyOp : nat) (apply ret : Operation) (values : list Value)
  : list Value :=
  concat ((λ value,
      let unrollFac := Z.to_nat (ReturnOp.getUnrollFac (op_kind ret)) in
      take unrollFac
        (drop (match list_find (λ r, r = value) (getResults applyOp apply) with
               | Some (_, OpResult _ resultNumber) => resultNumber
               | _ => 0
               end * unrollFac) (op_operands ret))) <$> values).

(** The kind the apply builder gives an op created with the bounds of
    [k]. *)
Definition rebuiltApply (k : OpKind) : OpKind :=
  if bool_decide (is_Some (lbAttr k)) && bool_decide (is_Some (ubAttr k))
  then ApplyOp (lbAttr k) (ubAttr k) else ApplyOp None None.

(** The result types [addEmptyStores] appends for extra operands of element
    types [es]. *)
Definition emptyTypes (apply : Operation) (es : list ElementType) : list Ty :=
  (λ e, TempType e
          (applyFunElementWise (getUB (op_kind apply)) (getLB (op_kind apply)) Z.sub))
    <$> es.

(** Both apply ops declare a bound pair, and neither their lower nor their
    upper bounds agree: the test that opens [fuseApplyOps]. *)
Definition shapeMismatch (k1 k2 : OpKind) : bool :=
  hasShape k1 && hasShape k2 &&
  (bool_decide (getLB k1 ≠ getLB k2) && bool_decide (getUB k1 ≠ getUB k2)).

(** The graph the Fuse rewrite leaves behind. *)
Record FuseResult (ir : IR) (x1 x2 : ApplyBody) (σ : Value → Value) (ir' : IR)
  : Prop := mkFuseResult {
  fr_nextOp : ir_nextOp ir' = 2 + ir_nextOp ir;
  fr_erased :
    Forall (λ x, ir_ops ir' !! x = None)
           [ab_op x1; ab_op x2; ab_returnOp x1; ab_returnOp x2];
  fr_fresh : ∀ id, 2 + ir_nextOp ir ≤ id → ir_ops ir' !! id = None;
  fr_absent : ∀ id, ir_ops ir !! id = None → id < ir_nextOp ir → ir_ops ir' !! id = None;
  fr_kept : ∀ u ou,
    ir_ops ir !! u = Some ou →
    u ∉ [ab_op x1; ab_op x2; ab_returnOp x1; ab_returnOp x2] →
    ir_ops ir' !! u
    = Some (mkOperation (op_kind ou) (σ <$> op_operands ou) (op_results ou)
              (filter (λ x, x ≠ ab_block x2)
                 <$> (filter (λ x, x ≠ ab_block x1) <$> op_regions ou)));
  fr_apply :
    ir_ops ir' !! ir_nextOp ir
    = Some (mkOperation
              (rebuiltApply (op_kind (ab_apply x1)))
              (σ <$> op_operands (ab_apply x1) ++ op_operands (ab_apply x2))
              (op_results (ab_apply x1) ++ op_results (ab_apply x2))
              [[ir_nextBlock ir]]);
  fr_return :
    ir_ops ir' !! (1 + ir_nextOp ir)
    = Some (mkOperation (ReturnOp (ReturnOp.unroll (op_kind (ab_return x1))))
              (σ <$> op_operands (ab_return x1) ++ op_operands (ab_return x2)) [] []);
  fr_body :
    ir_blocks ir' !! ir_nextBlock ir
    = Some (mkBlock
              (getType ir <$> op_operands (ab_apply x1) ++ op_operands (ab_apply x2))
              (ab_body x1 ++ ab_body x2 ++ [1 + ir_nextOp ir]));
  fr_subst_first : ∀ i,
    i < length (op_results (ab_apply x1)) →
    σ (OpResult (ab_op x1) i) = OpResult (ir_nextOp ir) i;
  fr_subst_second : ∀ j,
    j < length (op_results (ab_apply x2)) →
    σ (OpResult (ab_op x2) j)
    = OpResult (ir_nextOp ir) (length (op_results (ab_apply x1)) + j);
  fr_subst_arg1 : ∀ i,
    i < length (ab_args x1) → i < length (op_operands (ab_apply x1)) →
    σ (BlockArgument (ab_block x1) i) = BlockArgument (ir_nextBlock ir) i;
  fr_subst_arg2 : ∀ j,
    j < length (ab_args x2) → j < length (op_operands (ab_apply x2)) →
    σ (BlockArgument (ab_block x2) j)
    = BlockArgument (ir_nextBlock ir) (length (op_operands (ab_apply x1)) + j);
  fr_subst_other : ∀ v,
    getDefiningOp v ≠ Some (ab_op x1) → getDefiningOp v ≠ Some (ab_op x2) →
    (∀ i, v ≠ BlockArgument (ab_block x1) i) →
    (∀ i, v ≠ BlockArgument (ab_block x2) i) →
    σ v = v }.

(** The graph the IfElse rewrite leaves behind. *)
Record IfElseResult (ir : IR) (c : nat) (oc : Operation) (lower upper : ApplyBody)
    (σ : Value → Value) (ir' : IR) : Prop := mkIfElseResult {
  ier_nextOp : ir_nextOp ir' = 8 + ir_nextOp ir;
  ier_erased :
    Forall (λ x, ir_ops ir' !! x = None)
           [c; ab_op lower; ab_op upper; ab_returnOp lower; ab_returnOp upper];
  ier_fresh : ∀ id, 8 + ir_nextOp ir ≤ id → ir_ops ir' !! id = None;
  ier_absent : ∀ id, ir_ops ir !! id = None → id < ir_nextOp ir → ir_ops ir' !! id = None;
  ier_kept : ∀ u ou,
    ir_ops ir !! u = Some ou →
    u ∉ [c; ab_op lower; ab_op upper; ab_returnOp lower; ab_returnOp upper] →
    ir_ops ir' !! u
    = Some (mkOperation (op_kind ou) (σ <$> op_operands ou) (op_results ou)
              (filter (λ x, x ≠ ab_block upper)
                 <$> (filter (λ x, x ≠ ab_block lower) <$> op_regions ou)));
  ier_apply :
    ir_ops ir' !! ir_nextOp ir
    = Some (mkOperation
              (rebuiltApply (op_kind oc))
              (σ <$> op_operands (ab_apply lower) ++ op_operands (ab_apply upper))
              (op_results oc) [[ir_nextBlock ir]]);
  ier_index :
    ir_ops ir' !! (1 + ir_nextOp ir)
    = Some (mkOperation (IndexOp (CombineOp.dim (op_kind oc)) [0; 0; 0]%Z)
              [] [IndexType] []);
  ier_const :
    ir_ops ir' !! (2 + ir_nextOp ir)
    = Some (mkOperation (ConstantOp (CombineOp.index (op_kind oc))) [] [IndexType] []);
  ier_cmp :
    ir_ops ir' !! (3 + ir_nextOp ir)
    = Some (mkOperation (CmpIOp ult)
              [OpResult (1 + ir_nextOp ir) 0; OpResult (2 + ir_nextOp ir) 0] [I1Type] []);
  ier_if :
    ir_ops ir' !! (4 + ir_nextOp ir)
    = Some (mkOperation IfOp [OpResult (3 + ir_nextOp ir) 0]
              (getType ir <$> op_operands (ab_return lower))
              [[1 + ir_nextBlock ir]; [2 + ir_nextBlock ir]]);
  ier_return :
    ir_ops ir' !! (5 + ir_nextOp ir)
    = Some (mkOperation (ReturnOp (ReturnOp.unroll (op_kind (ab_return lower))))
              (OpResult (4 + ir_nextOp ir)
                 <$> seq 0 (length (op_operands (ab_return lower)))) [] []);
  ier_lowerYield :
    ir_ops ir' !! (6 + ir_nextOp ir)
    = Some (mkOperation YieldOp
              (σ <$> permuted (ab_op lower) (ab_apply lower) (ab_return lower)
                       (CombineOp.lower oc)) [] []);
  ier_upperYield :
    ir_ops ir' !! (7 + ir_nextOp ir)
    = Some (mkOperation YieldOp
              (σ <$> permuted (ab_op upper) (ab_apply upper) (ab_return upper)
                       (CombineOp.upper oc)) [] []);
  ier_body :
    ir_blocks ir' !! ir_nextBlock ir
    = Some (mkBlock
              (getType ir <$> op_operands (ab_apply lower) ++ op_operands (ab_apply upper))
              [1 + ir_nextOp ir; 2 + ir_nextOp ir; 3 + ir_nextOp ir; 4 + ir_nextOp ir;
               5 + ir_nextOp ir]);
  ier_then :
    ir_blocks ir' !! (1 + ir_nextBlock ir)
    = Some (mkBlock [] (ab_body lower ++ [6 + ir_nextOp ir]));
  ier_else :
    ir_blocks ir' !! (2 + ir_nextBlock ir)
    = Some (mkBlock [] (ab_body upper ++ [7 + ir_nextOp ir]));
  ier_subst_result : ∀ i,
    i < length (op_results oc) → σ (OpResult c i) = OpResult (ir_nextOp ir) i;
  ier_subst_lower : ∀ i,
    i < length (ab_args lower) → i < length (op_operands (ab_apply lower)) →
    σ (BlockArgument (ab_block lower) i) = BlockArgument (ir_nextBlock ir) i;
  ier_subst_upper : ∀ i,
    i < length (ab_args upper) → i < length (op_operands (ab_apply upper)) →
    σ (BlockArgument (ab_block upper) i) = BlockArgument (ir_nextBlock ir) i;
  ier_subst_other : ∀ v,
    getDefiningOp v ≠ Some c →
    (∀ i, v ≠ BlockArgument (ab_block lower) i) →
    (∀ i, v ≠ BlockArgument (ab_block upper) i) →
    σ v = v }.

(** The operation [addEmptyStores] creates for an extra operand of element
    type [e]: a store result without operand. *)
Definition emptyStore (e : ElementType) : Operation :=
  mkOperation StoreResultOp [] [ResultType e] [].

(** The operations of the store loop of [addEmptyStores], started at the
    handle [id]. *)
Fixpoint insertStores (id : nat) (es : list ElementType) (ops : gmap nat Operation)
  : gmap nat Operation :=
  match es with
  | [] => ops
  | e :: es' => insertStores (S id) es' (<[id := emptyStore e]> ops)
  end.

(** The blocks after [k] operations, with handles from [id] on, were linked
    in before [r] one after the other. *)
Fixpoint placeStores (r id k : nat) (blocks : gmap nat Block) : gmap nat Block :=
  match k with
  | 0 => blocks
  | S k' => placeStores r (S id) k' (setBlockOps (insertBefore r id) <$> blocks)
  end.

(** The values the store loop hands to the new return op: every store
    result repeated [unrollFac] times. *)
Definition storeOperands (id : nat) (unrollFac : nat) (k : nat) : list Value :=
  concat ((λ i, replicate unrollFac (OpResult (id + i) 0)) <$> seq 0 k).

(** The graph [addEmptyStores] leaves behind, for an apply op laid out as
    [x] and extra operands of element types [es]. *)
Record EmptyStoresResult (ir : IR) (x : ApplyBody) (es : list ElementType)
    (σ : Value → Value) (ir' : IR) : Prop := mkEmptyStoresResult {
  esr_nextOp : ir_nextOp ir' = 2 + length es + ir_nextOp ir;
  esr_nextBlock : ir_nextBlock ir' = 1 + ir_nextBlock ir;
  esr_fresh : ∀ id, 2 + length es + ir_nextOp ir ≤ id → ir_ops ir' !! id = None;
  esr_blocks_fresh : ∀ b, 1 + ir_nextBlock ir ≤ b → ir_blocks ir' !! b = None;
  esr_absent : ∀ id, ir_ops ir !! id = None → id < ir_nextOp ir → ir_ops ir' !! id = None;
  esr_erased : ir_ops ir' !! ab_returnOp x = None;
  esr_kept : ∀ u ou,
    ir_ops ir !! u = Some ou → u ≠ ab_returnOp x →
    ir_ops ir' !! u
    = Some (mkOperation (op_kind ou) (σ <$> op_operands ou) (op_results ou)
              (filter (λ b, b ≠ ab_block x) <$> op_regions ou));
  esr_apply :
    ir_ops ir' !! ir_nextOp ir
    = Some (mkOperation
              (rebuiltApply (op_kind (ab_apply x)))
              (σ <$> op_operands (ab_apply x))
              (op_results (ab_apply x) ++ emptyTypes (ab_apply x) es)
              [[ir_nextBlock ir]]);
  esr_store : ∀ i e,
    es !! i = Some e → ir_ops ir' !! (S (ir_nextOp ir) + i) = Some (emptyStore e);
  esr_return :
    ir_ops ir' !! (S (ir_nextOp ir) + length es)
    = Some (mkOperation (ReturnOp (ReturnOp.unroll (op_kind (ab_return x))))
              ((σ <$> op_operands (ab_return x))
                 ++ storeOperands (S (ir_nextOp ir))
                      (Z.to_nat (ReturnOp.getUnrollFac (op_kind (ab_return x))))
                      (length es)) [] []);
  esr_body :
    ir_blocks ir' !! ir_nextBlock ir
    = Some (mkBlock (getType ir <$> op_operands (ab_apply x))
              (ab_body x ++ seq (S (ir_nextOp ir)) (length es)
                 ++ [S (ir_nextOp ir) + length es]));
  esr_block_erased : ir_blocks ir' !! ab_block x = None;
  esr_blocks_kept : ∀ b blk,
    ir_blocks ir !! b = Some blk → b ≠ ab_block x →
    ab_op x ∉ blk_ops blk → ab_returnOp x ∉ blk_ops blk →
    ir_blocks ir' !! b = Some blk;
  esr_subst_arg : ∀ i,
    i < length (ab_args x) → i < length (op_operands (ab_apply x)) →
    σ (BlockArgument (ab_block x) i) = BlockArgument (ir_nextBlock ir) i;
  esr_subst_other : ∀ v, (∀ i, v ≠ BlockArgument (ab_block x) i) → σ v = v;
  esr_subst_defining : ∀ v, getDefiningOp (σ v) = getDefiningOp v }.

(** The operand of the new combine op that stands for [v]: the result of
    [newOp] with the result number of [v]. *)
Definition rerouted (newOp : nat) (v : Value) : Value :=
  OpResult newOp (getResultNumber v).

(** The graph the Mirror rewrite leaves behind: [es1] are the element types
    of the combine's [upperext] operands, [es2] those of its [lowerext]
    operands. *)
Record MirrorResult (ir : IR) (c : nat) (oc : Operation) (lower upper : ApplyBody)
    (es1 es2 : list ElementType) (σ : Value → Value) (ir' : IR) : Prop := mkMirrorResult {
  mr_nextOp : ir_nextOp ir' = 5 + length es1 + length es2 + ir_nextOp ir;
  mr_erased :
    Forall (λ x, ir_ops ir' !! x = None)
           [c; ab_op lower; ab_op upper; ab_returnOp lower; ab_returnOp upper];
  mr_fresh : ∀ id, 5 + length es1 + length es2 + ir_nextOp ir ≤ id → ir_ops ir' !! id = None;
  mr_absent : ∀ id, ir_ops ir !! id = None → id < ir_nextOp ir → ir_ops ir' !! id = None;
  mr_kept : ∀ u ou,
    ir_ops ir !! u = Some ou →
    u ∉ [c; ab_op lower; ab_op upper; ab_returnOp lower; ab_returnOp upper] →
    ir_ops ir' !! u
    = Some (mkOperation (op_kind ou) (σ <$> op_operands ou) (op_results ou)
              (filter (λ x, x ≠ ab_block upper)
                 <$> (filter (λ x, x ≠ ab_block lower) <$> op_regions ou)));
  mr_combine :
    let newLower :=
      (rerouted (ir_nextOp ir) <$> CombineOp.lower oc)
        ++ (rerouted (ir_nextOp ir) <$> CombineOp.lowerext oc)
        ++ (OpResult (ir_nextOp ir)
              <$> seq (length (op_results (ab_apply lower))) (length es1)) in
    let newUpper :=
      (rerouted (2 + length es1 + ir_nextOp ir) <$> CombineOp.upper oc)
        ++ (OpResult (2 + length es1 + ir_nextOp ir)
              <$> seq (length (op_results (ab_apply upper))) (length es2))
        ++ (rerouted (2 + length es1 + ir_nextOp ir) <$> CombineOp.upperext oc) in
    ir_ops ir' !! (4 + length es1 + length es2 + ir_nextOp ir)
    = Some (mkOperation
              (CombineOp (CombineOp.dim (op_kind oc)) (CombineOp.index (op_kind oc))
                 (mkSegments (length newLower) (length newUpper) 0 0)
                 (lbAttr (op_kind oc)) (ubAttr (op_kind oc)))
              (newLower ++ newUpper) (op_results oc) []);
  mr_lowerApply :
    ir_ops ir' !! ir_nextOp ir
    = Some (mkOperation (rebuiltApply (op_kind (ab_apply lower)))
              (σ <$> op_operands (ab_apply lower))
              (op_results (ab_apply lower) ++ emptyTypes (ab_apply lower) es1)
              [[ir_nextBlock ir]]);
  mr_upperApply :
    ir_ops ir' !! (2 + length es1 + ir_nextOp ir)
    = Some (mkOperation (rebuiltApply (op_kind (ab_apply upper)))
              (σ <$> op_operands (ab_apply upper))
              (op_results (ab_apply upper) ++ emptyTypes (ab_apply upper) es2)
              [[1 + ir_nextBlock ir]]);
  mr_lowerStore : ∀ i e,
    es1 !! i = Some e → ir_ops ir' !! (1 + ir_nextOp ir + i) = Some (emptyStore e);
  mr_upperStore : ∀ i e,
    es2 !! i = Some e →
    ir_ops ir' !! (3 + length es1 + ir_nextOp ir + i) = Some (emptyStore e);
  mr_lowerReturn :
    ir_ops ir' !! (1 + ir_nextOp ir + length es1)
    = Some (mkOperation (ReturnOp (ReturnOp.unroll (op_kind (ab_return lower))))
              ((σ <$> op_operands (ab_return lower))
                 ++ storeOperands (1 + ir_nextOp ir)
                      (Z.to_nat (ReturnOp.getUnrollFac (op_kind (ab_return lower))))
                      (length es1)) [] []);
  mr_upperReturn :
    ir_ops ir' !! (3 + length es1 + ir_nextOp ir + length es2)
    = Some (mkOperation (ReturnOp (ReturnOp.unroll (op_kind (ab_return upper))))
              ((σ <$> op_operands (ab_return upper))
                 ++ storeOperands (3 + length es1 + ir_nextOp ir)
                      (Z.to_nat (ReturnOp.getUnrollFac (op_kind (ab_return upper))))
                      (length es2)) [] []);
  mr_lowerBody :
    blockOps ir' (ir_nextBlock ir)
    = ab_body lower ++ seq (1 + ir_nextOp ir) (length es1)
        ++ [1 + ir_nextOp ir + length es1];
  mr_upperBody :
    blockOps ir' (1 + ir_nextBlock ir)
    = ab_body upper ++ seq (3 + length es1 + ir_nextOp ir) (length es2)
        ++ [3 + length es1 + ir_nextOp ir + length es2];
  mr_subst_result : ∀ i,
    i < length (op_results oc) →
    σ (OpResult c i) = OpResult (4 + length es1 + length es2 + ir_nextOp ir) i;
  mr_subst_lower : ∀ i,
    i < length (ab_args lower) → i < length (op_operands (ab_apply lower)) →
    σ (BlockArgument (ab_block lower) i) = BlockArgument (ir_nextBlock ir) i;
  mr_subst_upper : ∀ i,
    i < length (ab_args upper) → i < length (op_operands (ab_apply upper)) →
    σ (BlockArgument (ab_block upper) i) = BlockArgument (1 + ir_nextBlock ir) i;
  mr_subst_other : ∀ v,
    getDefiningOp v ≠ Some c →
    (∀ i, v ≠ BlockArgument (ab_block lower) i) →
    (∀ i, v ≠ BlockArgument (ab_block upper) i) →
    σ v = v }.

(** What the verifier of the return op establishes for the return op of an
    apply op laid out as [x]: every result of the apply op has
    [unrollFac] operands of the matching result type. *)
Record ReturnTyped (ir : IR) (x : ApplyBody) : Prop := mkReturnTyped {
  rt_count :
    length (op_operands (ab_return x))
    = length (op_results (ab_apply x))
      * Z.to_nat (ReturnOp.getUnrollFac (op_kind (ab_return x)));
  rt_types : ∀ i j v,
    j < Z.to_nat (ReturnOp.getUnrollFac (op_kind (ab_return x))) →
    op_operands (ab_return x)
      !! (i * Z.to_nat (ReturnOp.getUnrollFac (op_kind (ab_return x))) + j) = Some v →
    ∃ e shape,
      op_results (ab_apply x) !! i = Some (TempType e shape) ∧
      getType ir v = ResultType e }.

(** Modelled from the spec: the typing of a combine op, whose verifier is
    not among the sources: it has as many lower as upper operands, one
    result for every such pair and for every extra operand, and the [k]-th
    result has the element type of the [k]-th lower and of the [k]-th upper
    operand. *)
Record CombineTyped (ir : IR) (combine : Operation) : Prop := mkCombineTyped {
  ct_pairs : length (CombineOp.lower combine) = length (CombineOp.upper combine);
  ct_count :
    length (op_results combine)
    = length (CombineOp.lower combine) + length (CombineOp.lowerext combine)
      + length (CombineOp.upperext combine);
  ct_lower : ∀ k v t,
    CombineOp.lower combine !! k = Some v → op_results combine !! k = Some t →
    elementTypeOf (getType ir v) = elementTypeOf t;
  ct_upper : ∀ k v t,
    CombineOp.upper combine !! k = Some v → op_results combine !! k = Some t →
    elementTypeOf (getType ir v) = elementTypeOf t }.

(** A value of the combine op is a result of the apply op [x]. *)
Definition resultOf (x : ApplyBody) (v : Value) : Prop :=
  ∃ i, v = OpResult (ab_op x) i ∧ i < length (op_results (ab_apply x)).

(** The pair of defining ops the Fuse rewrite picks: the first two of the
    upper side when it has more than one, else the first two of the lower
    side. *)
Definition fusedPair (combine : Operation) : option (option nat * option nat) :=
  match CombineOp.getUpperDefiningOps combine with
  | first :: second :: _ => Some (first, second)
  | _ =>
      match CombineOp.getLowerDefiningOps combine with
      | first :: second :: _ => Some (first, second)
      | _ => None
      end
  end.

(** The operands of the yield op of a branch: for every combine operand in
    order, the group of return operands of its result number. *)
Definition yielded (ret : Operation) (values : list Value) : list Value :=
  concat ((λ v, returnSlice ret (getResultNumber v)) <$> values).


(** The product of the entries of the optional [unroll] attribute, [1]
    when the attribute is absent. *)
Definition unrollProduct (unroll : option Index) : Z :=
  match unroll with
  | Some u => foldr Z.mul 1%Z u
  | None => 1%Z
  end.

(** The operand count the specification has the return verifier demand:
    the result count of the apply op times the product of the unroll
    entries. *)
Definition returnVerifierAsSpecified (ir : IR) (op : nat) : Prop :=
  ∀ self applyOp apply,
    ir_ops ir !! op = Some self →
    getParentOp ir op = Some applyOp →
    ir_ops ir !! applyOp = Some apply →
    verifyReturnOp ir op = Ok Verified →
    Z.of_nat (length (op_operands self))
    = (Z.of_nat (length (op_results apply))
       * unrollProduct (ReturnOp.unroll (op_kind self)))%Z.

(** ** Example programs *)

Definition temp64 : Ty := TempType F64 [64; 64; 60]%Z.
Definition field70 : Ty := FieldType F64 [70; 70; 60]%Z.
Definition domainLB : option Index := Some [0; 0; 0]%Z.
Definition domainUB : option Index := Some [64; 64; 60]%Z.

(** [stencil.access %arg [0,0,0]] of the argument [arg] of block [blk]. *)
Definition accessOf (blk arg : nat) : Operation :=
  mkOperation (AccessOp [0; 0; 0]%Z) [BlockArgument blk arg] [FloatType F64] [].
(** [stencil.store_result] of the result of the operation [x]. *)
Definition storeResultOf (x : nat) : Operation :=
  mkOperation StoreResultOp [OpResult x 0] [ResultType F64] [].
(** [stencil.return] of the results of the operations [xs]. *)
Definition returnOf (unroll : option Index) (xs : list nat) : Operation :=
  mkOperation (ReturnOp unroll) ((λ x, OpResult x 0) <$> xs) [] [].
(** [stencil.apply] on [operands] with [k] results and the body [blk]. *)
Definition applyOf (operands : list Value) (k blk : nat) : Operation :=
  mkOperation (ApplyOp domainLB domainUB) operands (replicate k temp64) [[blk]].
(** [stencil.load] of the argument [arg] of the function. *)
Definition loadOf (arg : nat) : Operation :=
  mkOperation (LoadOp None None) [BlockArgument 0 arg] [temp64] [].

(** A stencil program that splits the domain along the third dimension at
    30: the apply op 2 computes the lower part from the first input, the
    apply op 6 the upper part from the second input, the combine op 10
    joins them.  [u1] and [u2] are the unroll attributes of the two return
    ops. *)
Definition exampleCombine : Operation :=
  mkOperation (CombineOp 2 30 (mkSegments 1 1 0 0) domainLB domainUB)
    [OpResult 2 0; OpResult 6 0] [temp64] [].

Definition exampleOps (u1 u2 : option Index) : gmap nat Operation :=
  list_to_map
    [ (0, loadOf 0); (1, loadOf 1);
      (2, applyOf [OpResult 0 0] 1 1);
      (3, accessOf 1 0); (4, storeResultOf 3); (5, returnOf u1 [4]);
      (6, applyOf [OpResult 1 0] 1 2);
      (7, accessOf 2 0); (8, storeResultOf 7); (9, returnOf u2 [8]);
      (10, exampleCombine);
      (11, mkOperation (StoreOp [0; 0; 0]%Z [64; 64; 60]%Z)
             [OpResult 10 0; BlockArgument 0 2] [] []) ].

Definition exampleBlocks : gmap nat Block :=
  list_to_map
    [ (0, mkBlock [field70; field70; field70] [0; 1; 2; 6; 10; 11]);
      (1, mkBlock [temp64] [3; 4; 5]);
      (2, mkBlock [temp64] [7; 8; 9]) ].

Definition exampleIR (u1 u2 : option Index) : IR :=
  mkIR (exampleOps u1 u2) exampleBlocks 12 3.

Definition exampleLower (u1 : option Index) : ApplyBody :=
  mkApplyBody 2 (applyOf [OpResult 0 0] 1 1) 1 [temp64] [3; 4] 5 (returnOf u1 [4]).
Definition exampleUpper (u2 : option Index) : ApplyBody :=
  mkApplyBody 6 (applyOf [OpResult 1 0] 1 2) 2 [temp64] [7; 8] 9 (returnOf u2 [8]).

(** A split whose apply ops have two results of different element types
    and are unrolled twice along the third dimension: the return op 9 of
    the lower apply op 2 returns the store results 5 and 6 for the first
    result and 7 and 8 for the second, the return op 17 of the upper apply
    op 10 the store results 13 and 14, and 15 and 16.  The combine op 18
    takes the results of either side in reverse order. *)
Definition temp32 : Ty := TempType F32 [64; 64; 60]%Z.
Definition access32 (blk arg : nat) : Operation :=
  mkOperation (AccessOp [0; 0; 0]%Z) [BlockArgument blk arg] [FloatType F32] [].
Definition storeResult32 (x : nat) : Operation :=
  mkOperation StoreResultOp [OpResult x 0] [ResultType F32] [].
Definition permutedApply (blk : nat) : Operation :=
  mkOperation (ApplyOp domainLB domainUB) [OpResult 0 0; OpResult 1 0]
    [temp32; temp64] [[blk]].
Definition permutedReturn (xs : list nat) : Operation :=
  returnOf (Some [1; 1; 2]%Z) xs.

Definition permutedCombine : Operation :=
  mkOperation (CombineOp 2 30 (mkSegments 2 2 0 0) domainLB domainUB)
    [OpResult 2 1; OpResult 2 0; OpResult 10 1; OpResult 10 0] [temp64; temp32] [].

Definition permutedOps : gmap nat Operation :=
  list_to_map
    [ (0, mkOperation (LoadOp None None) [BlockArgument 0 0] [temp32] []);
      (1, loadOf 1);
      (2, permutedApply 1);
      (3, access32 1 0); (4, accessOf 1 1);
      (5, storeResult32 3); (6, storeResult32 3);
      (7, storeResultOf 4); (8, storeResultOf 4);
      (9, permutedReturn [5; 6; 7; 8]);
      (10, permutedApply 2);
      (11, access32 2 0); (12, accessOf 2 1);
      (13, storeResult32 11); (14, storeResult32 11);
      (15, storeResultOf 12); (16, storeResultOf 12);
      (17, permutedReturn [13; 14; 15; 16]);
      (18, permutedCombine);
      (19, mkOperation (StoreOp [0; 0; 0]%Z [64; 64; 60]%Z)
             [OpResult 18 0; BlockArgument 0 2] [] []) ].

Definition permutedBlocks : gmap nat Block :=
  list_to_map
    [ (0, mkBlock [FieldType F32 [70; 70; 60]%Z; field70; field70] [0; 1; 2; 10; 18; 19]);
      (1, mkBlock [temp32; temp64] [3; 4; 5; 6; 7; 8; 9]);
      (2, mkBlock [temp32; temp64] [11; 12; 13; 14; 15; 16; 17]) ].

Definition permutedIR : IR := mkIR permutedOps permutedBlocks 20 3.

Definition permutedLower : ApplyBody :=
  mkApplyBody 2 (permutedApply 1) 1 [temp32; temp64] [3; 4; 5; 6; 7; 8] 9
    (permutedReturn [5; 6; 7; 8]).
Definition permutedUpper : ApplyBody :=
  mkApplyBody 10 (permutedApply 2) 2 [temp32; temp64] [11; 12; 13; 14; 15; 16] 17
    (permutedReturn [13; 14; 15; 16]).

(** The same split with an extra result: the lower apply op 2 has a second
    result, which the combine op takes as [lowerext] operand. *)
Definition mirrorCombine : Operation :=
  mkOperation (CombineOp 2 30 (mkSegments 1 1 1 0) domainLB domainUB)
    [OpResult 2 0; OpResult 7 0; OpResult 2 1] [temp64; temp64] [].

Definition mirrorOps : gmap nat Operation :=
  list_to_map
    [ (0, loadOf 0); (1, loadOf 1);
      (2, applyOf [OpResult 0 0] 2 1);
      (3, accessOf 1 0); (4, storeResultOf 3); (5, storeResultOf 3);
      (6, returnOf None [4; 5]);
      (7, applyOf [OpResult 1 0] 1 2);
      (8, accessOf 2 0); (9, storeResultOf 8); (10, returnOf None [9]);
      (11, mirrorCombine);
      (12, mkOperation (StoreOp [0; 0; 0]%Z [64; 64; 60]%Z)
             [OpResult 11 0; BlockArgument 0 2] [] []) ].

Definition mirrorBlocks : gmap nat Block :=
  list_to_map
    [ (0, mkBlock [field70; field70; field70] [0; 1; 2; 7; 11; 12]);
      (1, mkBlock [temp64] [3; 4; 5; 6]);
      (2, mkBlock [temp64] [8; 9; 10]) ].

Definition mirrorIR : IR := mkIR mirrorOps mirrorBlocks 13 3.

Definition mirrorLower : ApplyBody :=
  mkApplyBody 2 (applyOf [OpResult 0 0] 2 1) 1 [temp64] [3; 4; 5] 6 (returnOf None [4; 5]).
Definition mirrorUpper : ApplyBody :=
  mkApplyBody 7 (applyOf [OpResult 1 0] 1 2) 2 [temp64] [8; 9] 10 (returnOf None [9]).

(** A combine op whose upper side is produced by the two apply ops 2 and
    6, and whose lower side is produced by the apply op 10 with two
    results. *)
Definition fuseCombine : Operation :=
  mkOperation (CombineOp 2 30 (mkSegments 2 2 0 0) domainLB domainUB)
    [OpResult 10 0; OpResult 10 1; OpResult 2 0; OpResult 6 0] [temp64; temp64] [].

Definition fuseOps : gmap nat Operation :=
  list_to_map
    [ (0, loadOf 0); (1, loadOf 1);
      (2, applyOf [OpResult 0 0] 1 1);
      (3, accessOf 1 0); (4, storeResultOf 3); (5, returnOf None [4]);
      (6, applyOf [OpResult 1 0] 1 2);
      (7, accessOf 2 0); (8, storeResultOf 7); (9, returnOf None [8]);
      (10, applyOf [OpResult 0 0] 2 3);
      (11, accessOf 3 0); (12, storeResultOf 11); (13, storeResultOf 11);
      (14, returnOf None [12; 13]);
      (15, fuseCombine);
      (16, mkOperation (StoreOp [0; 0; 0]%Z [64; 64; 60]%Z)
             [OpResult 15 0; BlockArgument 0 2] [] []) ].

Definition fuseBlocks : gmap nat Block :=
  list_to_map
    [ (0, mkBlock [field70; field70; field70] [0; 1; 2; 6; 10; 15; 16]);
      (1, mkBlock [temp64] [3; 4; 5]);
      (2, mkBlock [temp64] [7; 8; 9]);
      (3, mkBlock [temp64] [11; 12; 13; 14]) ].

Definition fuseIR : IR := mkIR fuseOps fuseBlocks 17 4.

Definition fuseFirst : ApplyBody :=
  mkApplyBody 2 (applyOf [OpResult 0 0] 1 1) 1 [temp64] [3; 4] 5 (returnOf None [4]).
Definition fuseSecond : ApplyBody :=
  mkApplyBody 6 (applyOf [OpResult 1 0] 1 2) 2 [temp64] [7; 8] 9 (returnOf None [8]).

(** The same program with the second apply op of the upper side declared
    on the upper half of the domain only: the apply ops 2 and 6 agree in
    the upper bound [64,64,60] and differ in the lower bound, [0,0,0] and
    [0,0,30]. *)
Definition upperHalfApply : Operation :=
  mkOperation (ApplyOp (Some [0; 0; 30]%Z) domainUB) [OpResult 1 0]
    [TempType F64 [64; 64; 30]%Z] [[2]].

Definition upperHalfIR : IR := mkIR (<[6 := upperHalfApply]> fuseOps) fuseBlocks 17 4.

Definition upperHalfSecond : ApplyBody :=
  mkApplyBody 6 upperHalfApply 2 [temp64] [7; 8] 9 (returnOf None [8]).

(** The example split, with the result of the lower apply op stored as
    well: the first operand of the combine op has two uses. *)
Definition sharedOperandIR : IR :=
  mkIR (<[11 := mkOperation (StoreOp [0; 0; 0]%Z [64; 64; 60]%Z)
                  [OpResult 2 0; BlockArgument 0 2] [] []]> (exampleOps None None))
       exampleBlocks 12 3.

(** A return op with the unroll attribute [65536, 65536, 1] and no operand,
    in an apply op with one result. *)
Definition overflowIR : IR :=
  mkIR (list_to_map
          [ (0, mkOperation (ApplyOp None None) [] [temp64] [[0]]);
            (1, mkOperation (ReturnOp (Some [65536; 65536; 1]%Z)) [] [] []) ])
       (list_to_map [ (0, mkBlock [] [1]) ]) 2 1.

(** An apply op with two results, unrolled twice along the third
    dimension. *)
Definition unrolledReturn : Operation :=
  mkOperation (ReturnOp (Some [1; 1; 2]%Z))
    [OpResult 1 0; OpResult 1 0; OpResult 2 0; OpResult 2 0] [] [].

Definition unrolledIR : IR :=
  mkIR (list_to_map
          [ (0, mkOperation (ApplyOp None None) [] [temp64; temp64] [[0]]);
            (1, mkOperation StoreResultOp [] [ResultType F64] []);
            (2, mkOperation StoreResultOp [] [ResultType F64] []);
            (3, unrolledReturn) ])
       (list_to_map [ (0, mkBlock [] [1; 2; 3]) ]) 4 1.

(** A store into a statically shaped field that is an argument of the
    function, not the result of a cast. *)
Definition storeToArgumentIR : IR :=
  mkIR (list_to_map
          [ (0, applyOf [] 1 1);
            (1, mkOperation StoreResultOp [] [ResultType F64] []);
            (2, mkOperation (ReturnOp None) [OpResult 1 0] [] []);
            (3, mkOperation (StoreOp [0; 0; 0]%Z [64; 64; 60]%Z)
                  [OpResult 0 0; BlockArgument 0 0] [] []) ])
       (list_to_map [ (0, mkBlock [field70] [0; 3]); (1, mkBlock [] [1; 2]) ]) 4 2.

(** ** Further accessors of the combine op ([Stencil_CombineOp])

    The result numbers of a combine op run over the [lower]/[upper] pairs
    first, then over the [lowerext] and the [upperext] operands. *)

(** [Optional<unsigned> getLowerOperandNumber(unsigned resultNumber)]. *)
Definition getLowerOperandNumber (o : Operation) (resultNumber : nat) : option nat :=
  if bool_decide (resultNumber < length (CombineOp.lower o))
  then Some resultNumber
  else None.

(** [Optional<unsigned> getLowerExtraOperandNumber(unsigned resultNumber)]. *)
Definition getLowerExtraOperandNumber (o : Operation) (resultNumber : nat) : option nat :=
  if bool_decide (length (CombineOp.lower o) ≤ resultNumber) &&
     bool_decide (resultNumber < length (CombineOp.lower o) + length (CombineOp.lowerext o))
  then Some (resultNumber - length (CombineOp.lower o))
  else None.

(** [Optional<unsigned> getUpperExtraOperandNumber(unsigned resultNumber)]. *)
Definition getUpperExtraOperandNumber (o : Operation) (resultNumber : nat) : option nat :=
  if bool_decide (length (CombineOp.lower o) + length (CombineOp.lowerext o) ≤ resultNumber) &&
     bool_decide (resultNumber < length (CombineOp.lower o) + length (CombineOp.lowerext o)
                                 + length (CombineOp.upperext o))
  then Some (resultNumber - length (CombineOp.lower o) - length (CombineOp.lowerext o))
  else None.

(** [bool isLowerOperand(unsigned operandNumber)]. *)
Definition isLowerOperand (o : Operation) (operandNumber : nat) : bool :=
  bool_decide (operandNumber < length (CombineOp.lower o)) ||
  (bool_decide (length (CombineOp.lower o) + length (CombineOp.upper o) ≤ operandNumber) &&
   bool_decide (operandNumber < length (CombineOp.lower o) + length (CombineOp.upper o)
                                + length (CombineOp.lowerext o))).

(** [bool isUpperOperand(unsigned operandNumber)]. *)
Definition isUpperOperand (o : Operation) (operandNumber : nat) : bool :=
  negb (isLowerOperand o operandNumber) &&
  bool_decide (operandNumber < length (op_operands o)).

(** ** Further verifiers *)

Definition isBufferOp (k : OpKind) : bool :=
  match k with BufferOp _ _ => true | _ => false end.

Section OpVerifiers.

(** The GridType queries of StencilTypes.h and the rank of the ShapeOp
    interface, which are not among the sources; the verifiers are
    embedded for any implementation of them. *)
Context (hasDynamicShape : Ty → bool)
        (getRank : Ty → nat)
        (getAllocation : Ty → nat)
        (hasLargerOrEqualShape : Ty → Index → Index → bool)
        (hasEqualShape : Ty → Index → Index → bool)
        (getOpRank : OpKind → nat).

(** The verifier of [Stencil_LoadOp]; [field] is its operand, [res] its
    result. *)
Definition verifyLoadOp (ir : IR) (op : nat) : Outcome Verdict :=
  self ← getOperation ir op;
  field ← getOperand self 0;
  (* Check the field and result types *)
  fieldType ← castGridType (getType ir field);
  resType ← castGridType (getType ir (OpResult op 0));
  if hasDynamicShape fieldType
  then mret (EmitOpError "expected fields to have static shape")
  else if bool_decide (getRank fieldType ≠ getRank resType)
  then mret (EmitOpError "the field and temp types have different rank")
  else if bool_decide (getAllocation fieldType ≠ getAllocation resType)
  then mret (EmitOpError "the field and temp types have different allocation")
  else if bool_decide (elementTypeOf fieldType ≠ elementTypeOf resType)
  then mret (EmitOpError "the field and temp types have different element types")
  else
    (* Ensure the shape matches the field and result types *)
    let shape :=
      if hasShape (op_kind self)
      then
        if negb (hasLargerOrEqualShape fieldType (getLB (op_kind self))
                   (getUB (op_kind self)))
        then EmitOpError "expected the field type to be larger than the op shape"
        else if negb (hasEqualShape resType (getLB (op_kind self)) (getUB (op_kind self)))
        then EmitOpError "expected op and result type to have the same shape"
        else Verified
      else Verified in
    match shape with
    | EmitOpError msg => mret (EmitOpError msg)
    | Verified =>
        fromCast ← isa ir isCastOp (getDefiningOp field);
        if negb fromCast
        then mret (EmitOpError "expected the defining op of the field is a cast operation")
        else mret Verified
    end.

(** The verifier of [Stencil_BufferOp]; [temp] is its operand, [res] its
    result. *)
Definition verifyBufferOp (ir : IR) (op : nat) : Outcome Verdict :=
  self ← getOperation ir op;
  temp ← getOperand self 0;
  (* Check the temp and result types *)
  tempType ← castGridType (getType ir temp);
  resType ← castGridType (getType ir (OpResult op 0));
  if bool_decide (getRank resType ≠ getRank tempType)
  then mret (EmitOpError "the result and temp types have different rank")
  else if bool_decide (getAllocation resType ≠ getAllocation tempType)
  then mret (EmitOpError "the result and temp types have different allocation")
  else if bool_decide (elementTypeOf resType ≠ elementTypeOf tempType)
  then mret (EmitOpError "the result and temp types have different element types")
  else
    (* Ensure the shape matches the temp and result types *)
    let shape :=
      if hasShape (op_kind self)
      then
        if negb (hasLargerOrEqualShape tempType (getLB (op_kind self))
                   (getUB (op_kind self)))
        then EmitOpError "expected the temp type to be larger than the op shape"
        else if negb (hasEqualShape resType (getLB (op_kind self)) (getUB (op_kind self)))
        then EmitOpError "expected op and result type to have the same shape"
        else Verified
      else Verified in
    match shape with
    | EmitOpError msg => mret (EmitOpError msg)
    | Verified =>
        fromApply ← isa ir isApplyOp (getDefiningOp temp);
        fromCombine ← (if fromApply then mret true
                       else isa ir isCombineOp (getDefiningOp temp));
        if negb (fromApply || fromCombine)
        then mret (EmitOpError "expected buffer to connect to an apply or combine op")
        else
          buffers ← mapM (λ user, isa ir isBufferOp (Some user)) (getUsers ir temp);
          if negb (forallb id buffers)
          then mret (EmitOpError "expected only buffers use the same value")
          else mret Verified
    end.

(** The verifier of [Stencil_ApplyOp]. *)
Definition verifyApplyOp (ir : IR) (op : nat) : Outcome Verdict :=
  self ← getOperation ir op;
  front ← getBody ir op 0;
  (* Check the operands *)
  if bool_decide (length (blockArgTypes ir front) ≠ length (op_operands self))
  then mret (EmitOpError "operand and argument counts do not match")
  else
    operands ← forEach (λ i,
        operand ← getOperand self i;
        if bool_decide (getType ir (BlockArgument front i) ≠ getType ir operand)
        then mret (EmitOpError "operand and argument types do not match")
        else mret Verified)
      (seq 0 (length (op_operands self)));
    match operands with
    | EmitOpError msg => mret (EmitOpError msg)
    | Verified =>
        (* Check the results *)
        forEach (λ i,
            tempType ← castGridType (getType ir (OpResult op i));
            if hasShape (op_kind self)
            then
              if bool_decide (getOpRank (op_kind self) ≠ getRank tempType)
              then mret (EmitOpError "expected result rank to match the operation rank")
              else if negb (hasEqualShape tempType (getLB (op_kind self))
                              (getUB (op_kind self)))
              then mret (EmitOpError "expected temp type to have the shape of the op")
              else mret Verified
            else mret Verified)
          (seq 0 (length (op_results self)))
    end.

End OpVerifiers.

(** ** Vocabulary of the further statements *)

(** The product of the entries of an index. *)
Definition indexProduct (u : Index) : Z := foldr Z.mul 1%Z u.

(** The apply op the Fuse rewrite builds from the apply ops laid out as
    [x1] and [x2], laid out in the graph [ir'] the rewrite leaves behind;
    [ir] is the graph before the rewrite. *)
Definition fusedLayout (ir ir' : IR) (x1 x2 : ApplyBody) : option ApplyBody :=
  apply ← ir_ops ir' !! ir_nextOp ir;
  ret ← ir_ops ir' !! (1 + ir_nextOp ir);
  block ← ir_blocks ir' !! ir_nextBlock ir;
  Some (mkApplyBody (ir_nextOp ir) apply (ir_nextBlock ir) (blk_args block)
          (ab_body x1 ++ ab_body x2) (1 + ir_nextOp ir) ret).

(** The apply op [addEmptyStores] builds at the handle [newOp] with the
    body [newBlock] from the apply op laid out as [x], for [k] extra
    operands, laid out in the graph [ir']. *)
Definition mirroredLayout (ir' : IR) (x : ApplyBody) (newOp newBlock k : nat)
  : option ApplyBody :=
  apply ← ir_ops ir' !! newOp;
  ret ← ir_ops ir' !! (1 + newOp + k);
  Some (mkApplyBody newOp apply newBlock (blockArgTypes ir' newBlock)
          (ab_body x ++ seq (1 + newOp) k) (1 + newOp + k) ret).

(** Every operand of the operation is a result of an operation of the
    graph. *)
Definition operandsDefined (ir : IR) (o : Operation) : Prop :=
  Forall (λ v, ∃ a i oa, v = OpResult a i ∧ ir_ops ir !! a = Some oa ∧
                         i < length (op_results oa)) (op_operands o).

(** ** Further example programs *)

Definition dynamicField : Ty := FieldType F64 [-1; -1; -1]%Z.

(** A program that casts its argument, loads the field, applies a stencil
    and buffers the result. *)
Definition pipelineIR : IR :=
  mkIR (list_to_map
          [ (0, mkOperation (CastOp [-3; -3; 0]%Z [67; 67; 60]%Z)
                  [BlockArgument 0 0] [field70] []);
            (1, mkOperation (LoadOp None None) [OpResult 0 0] [temp64] []);
            (2, applyOf [OpResult 1 0] 1 1);
            (3, accessOf 1 0); (4, storeResultOf 3); (5, returnOf None [4]);
            (6, mkOperation (BufferOp None None) [OpResult 2 0] [temp64] []) ])
       (list_to_map
          [ (0, mkBlock [dynamicField] [0; 1; 2; 6]);
            (1, mkBlock [temp64] [3; 4; 5]) ])
       7 2.

(** A combine tree: the upper side of the combine op 11 is produced by the
    apply op 6 and by the combine op 10. *)
Definition nestedCombine : Operation :=
  mkOperation (CombineOp 1 20 (mkSegments 2 2 0 0) domainLB domainUB)
    [OpResult 2 0; OpResult 2 0; OpResult 6 0; OpResult 10 0] [temp64; temp64] [].

Definition nestedCombineIR : IR :=
  mkIR (<[11 := nestedCombine]> (exampleOps None None)) exampleBlocks 12 3.

(** * Properties *)

(** ** Substitutions, lists and the steps of a run of the rewriter *)

Lemma mapOperands_compose f g o :
  mapOperands f (mapOperands g o) = mapOperands (f ∘ g) o.
Proof. destruct o; unfold mapOperands; simpl. by rewrite <- list_fmap_compose. Qed.

Lemma mapOperands_id o : mapOperands id o = o.
Proof. destruct o; unfold mapOperands; simpl. by rewrite list_fmap_id. Qed.

Lemma mapOperands_ext f g o :
  (∀ v, f v = g v) → mapOperands f o = mapOperands g o.
Proof. intros H. destruct o; unfold mapOperands; simpl. f_equal. by apply list_fmap_ext. Qed.

Lemma replaceAllUsesWithList_eq froms tos ir :
  replaceAllUsesWithList froms tos ir
  = setOps (fmap (mapOperands (substList (zip froms tos)))) ir.
Proof.
  unfold replaceAllUsesWithList. generalize (zip froms tos) as pairs.
  intros pairs. revert ir. induction pairs as [|p pairs IH]; intros ir.
  - simpl. destruct ir as [ops blocks n nb]; unfold setOps; simpl. f_equal.
    rewrite <- (map_fmap_id ops) at 1. apply map_fmap_ext.
    intros ???. unfold substList; simpl. symmetry. apply mapOperands_id.
  - simpl. rewrite IH. destruct ir; unfold replaceAllUsesWith, setOps; simpl. f_equal.
    rewrite <- map_fmap_compose. apply map_fmap_ext. intros ???. simpl.
    rewrite mapOperands_compose. apply mapOperands_ext. done.
Qed.

Lemma substList_notin froms tos v : v ∉ froms → substList (zip froms tos) v = v.
Proof.
  revert tos. induction froms as [|f froms IH]; intros tos Hv; [done|].
  destruct tos as [|t tos]; [done|]. apply not_elem_of_cons in Hv as [Hne Hv].
  unfold substList in *. simpl. unfold substValue at 2. rewrite decide_False by done.
  by apply IH.
Qed.

Section SubstRange.
Context (f g : nat → Value).
Hypothesis f_inj : ∀ i j, f i = f j → i = j.
Hypothesis g_not_f : ∀ i j, g j ≠ f i.

Lemma substList_range_miss s t n m v :
  (∀ i, i < n → i < m → v ≠ f (s + i)) →
  substList (zip (f <$> seq s n) (g <$> seq t m)) v = v.
Proof using All.
  revert s t m v. induction n as [|n IH]; intros s t m v Hv; [done|].
  destruct m as [|m]; [done|]. simpl.
  unfold substList in *. simpl. unfold substValue at 2.
  rewrite decide_False.
  - apply IH. intros i Hi Hm. replace (S s + i) with (s + S i) by lia.
    apply Hv; lia.
  - specialize (Hv 0 ltac:(lia) ltac:(lia)). by rewrite Nat.add_0_r in Hv.
Qed.

Lemma substList_range_hit s t n m i :
  i < n → i < m →
  substList (zip (f <$> seq s n) (g <$> seq t m)) (f (s + i)) = g (t + i).
Proof using All.
  revert s t m i. induction n as [|n IH]; intros s t m i Hi Hm; [lia|].
  destruct m as [|m]; [lia|]. simpl.
  unfold substList in *. simpl. unfold substValue at 2.
  destruct i as [|i].
  - rewrite Nat.add_0_r, decide_True by done. rewrite Nat.add_0_r.
    apply (substList_range_miss (S s) (S t) n m (g t)).
    intros. apply g_not_f.
  - rewrite decide_False.
    + replace (s + S i) with (S s + i) by lia.
      replace (t + S i) with (S t + i) by lia. apply IH; lia.
    + intros H. apply f_inj in H. lia.
Qed.
End SubstRange.

Lemma take_getArguments ir b n :
  take n (getArguments ir b)
  = BlockArgument b <$> seq 0 (n `min` length (blockArgTypes ir b)).
Proof. unfold getArguments. by rewrite <- fmap_take, take_seq. Qed.

Lemma take_back_getArguments ir b n :
  take_back n (getArguments ir b)
  = BlockArgument b
    <$> seq (length (blockArgTypes ir b) - n) (n `min` length (blockArgTypes ir b)).
Proof.
  unfold take_back, getArguments. rewrite length_fmap, length_seq.
  rewrite <- fmap_drop, drop_seq. do 2 f_equal; lia.
Qed.

Lemma take_getResults id o n :
  take n (getResults id o) = OpResult id <$> seq 0 (n `min` length (op_results o)).
Proof. unfold getResults. by rewrite <- fmap_take, take_seq. Qed.

Lemma take_back_getResults id o n :
  take_back n (getResults id o)
  = OpResult id <$> seq (length (op_results o) - n) (n `min` length (op_results o)).
Proof.
  unfold take_back, getResults. rewrite length_fmap, length_seq.
  rewrite <- fmap_drop, drop_seq. do 2 f_equal; lia.
Qed.

(** Erasing an operation whose regions hold no block. *)
Lemma eraseNested_leaf fuel ir op o :
  ir_ops ir !! op = Some o → concat (op_regions o) = [] →
  eraseNested (S fuel) ir op = removeFromBlocks op (setOps (delete op) ir).
Proof. intros H1 H2. simpl. by rewrite H1, H2. Qed.

Lemma run_bind {A B} (m : M A) (k : A → M B) s a s' :
  m s = Ok (a, s') → (m ≫= k) s = k a s'.
Proof. intros H. unfold mbind, M_bind. by rewrite H. Qed.

Lemma run_query {A} (f : IR → Outcome A) s a :
  f (rw_ir s) = Ok a → query f s = Ok (a, s).
Proof. intros H. unfold query. by rewrite H. Qed.

Lemma getOperation_Some ir op o : ir_ops ir !! op = Some o → getOperation ir op = Ok o.
Proof. intros H. unfold getOperation. by rewrite H. Qed.

Lemma getBody_Some ir op o b rest idx :
  ir_ops ir !! op = Some o → op_regions o !! idx = Some (b :: rest) →
  getBody ir op idx = Ok b.
Proof.
  intros H1 H2. unfold getBody. rewrite (getOperation_Some _ _ _ H1). simpl.
  by rewrite H2.
Qed.

Lemma getTerminator_Some ir b blk l t :
  ir_blocks ir !! b = Some blk → blk_ops blk = l ++ [t] → getTerminator ir b = Ok t.
Proof.
  intros H1 H2. unfold getTerminator, blockOps. rewrite H1, H2. by rewrite last_snoc.
Qed.

Lemma cast_Some ir p op o :
  ir_ops ir !! op = Some o → p (op_kind o) = true → cast ir p (Some op) = Ok op.
Proof. intros H1 H2. unfold cast. rewrite (getOperation_Some _ _ _ H1). simpl. by rewrite H2. Qed.

Lemma getReturnOp_Some ir a o b rest blk l t ot :
  ir_ops ir !! a = Some o → op_regions o !! 0 = Some (b :: rest) →
  ir_blocks ir !! b = Some blk → blk_ops blk = l ++ [t] →
  ir_ops ir !! t = Some ot → isReturnOp (op_kind ot) = true →
  getReturnOp ir a = Ok t.
Proof.
  intros. unfold getReturnOp. erewrite getBody_Some by done. simpl.
  erewrite getTerminator_Some by done. simpl. by eapply cast_Some.
Qed.

Ltac qstep tac :=
  erewrite run_bind; [|apply run_query; cbn [rw_ir ir_ops ir_blocks ir_nextOp ir_nextBlock]; tac].

Lemma mergeBlocks_run source dest argValues ops blocks n nb ip d :
  length argValues = length (getArguments (mkIR ops blocks n nb) source) →
  mergeBlocks source dest argValues (mkRewriter (mkIR ops blocks n nb) ip d)
  = Ok (tt, mkRewriter
              (mkIR (removeBlockFromRegions source
                       <$> (mapOperands
                              (substList (zip (getArguments (mkIR ops blocks n nb) source)
                                              argValues)) <$> ops))
                    (delete source
                       (alter (setBlockOps (λ l, l ++ blockOps (mkIR ops blocks n nb) source))
                              dest blocks))
                    n nb) ip d).
Proof.
  intros Hlen. unfold mergeBlocks.
  erewrite run_bind by (by apply run_query).
  rewrite (bool_decide_true _ Hlen). erewrite run_bind by reflexivity.
  unfold modifyIR. cbn [rw_ir rw_ip rw_diags].
  rewrite replaceAllUsesWithList_eq. reflexivity.
Qed.

Lemma getUsers_nil ir v :
  map_Forall (λ _ o, v ∉ op_operands o) (ir_ops ir) → getUsers ir v = [].
Proof.
  intros H. unfold getUsers.
  assert (Forall (λ p : nat * Operation, v ∉ op_operands p.2) (map_to_list (ir_ops ir)))
    as HF.
  { apply Forall_forall. intros [id o] Hin%elem_of_map_to_list. exact (H id o Hin). }
  induction HF as [|[id o] l Hx _ IH]; [done|].
  cbn [fmap list_fmap concat]. rewrite IH, app_nil_r.
  replace (count_occ Value_eq_dec (op_operands o) v) with 0; [done|].
  symmetry. apply count_occ_not_In. rewrite <- list_elem_of_In. exact Hx.
Qed.

Lemma use_empty_true ops blocks n nb op o :
  ops !! op = Some o →
  map_Forall (λ _ ou, Forall (λ v, v ∉ getResults op o) (op_operands ou)) ops →
  use_empty (mkIR ops blocks n nb) op = Ok true.
Proof.
  intros Ho Hu. unfold use_empty, getOpResults.
  rewrite (getOperation_Some (mkIR ops blocks n nb) _ _ Ho).
  cbn [mbind Outcome_bind mret Outcome_ret]. f_equal.
  apply forallb_forall. intros v Hv%list_elem_of_In. apply bool_decide_eq_true.
  apply getUsers_nil. intros u ou Hou Hin. cbn [ir_ops] in Hou.
  pose proof (Hu u ou Hou) as HF. rewrite Forall_forall in HF. by apply (HF v).
Qed.

(** Erasing an operation without nested blocks none of whose results is an
    operand. *)
Lemma eraseOp_results_run op o ops blocks n nb ip d :
  ops !! op = Some o → concat (op_regions o) = [] →
  map_Forall (λ _ ou, Forall (λ v, v ∉ getResults op o) (op_operands ou)) ops →
  eraseOp op (mkRewriter (mkIR ops blocks n nb) ip d)
  = Ok (tt, mkRewriter
              (mkIR (delete op ops) (setBlockOps (filter (λ x, x ≠ op)) <$> blocks) n nb)
              ip d).
Proof.
  intros H1 H2 H3. unfold eraseOp.
  erewrite run_bind by (apply run_query; by eapply use_empty_true).
  erewrite run_bind by reflexivity.
  unfold modifyIR. cbn [rw_ir rw_ip rw_diags].
  by erewrite eraseNested_leaf.
Qed.

Lemma eraseOp_run op o ops blocks n nb ip d :
  ops !! op = Some o → concat (op_regions o) = [] → usedOnlyBy ops op [] →
  eraseOp op (mkRewriter (mkIR ops blocks n nb) ip d)
  = Ok (tt, mkRewriter
              (mkIR (delete op ops) (setBlockOps (filter (λ x, x ≠ op)) <$> blocks) n nb)
              ip d).
Proof.
  intros H1 H2 H3. apply (eraseOp_results_run _ o); [done|done|].
  intros u ou Hou. destruct (H3 u ou Hou) as [Hin|HF]; [by apply elem_of_nil in Hin|].
  eapply Forall_impl; [exact HF|]. intros v Hv (i & -> & _)%list_elem_of_fmap. by apply Hv.
Qed.

Lemma eraseOp_noresults_run op o ops blocks n nb ip d :
  ops !! op = Some o → concat (op_regions o) = [] → op_results o = [] →
  eraseOp op (mkRewriter (mkIR ops blocks n nb) ip d)
  = Ok (tt, mkRewriter
              (mkIR (delete op ops) (setBlockOps (filter (λ x, x ≠ op)) <$> blocks) n nb)
              ip d).
Proof.
  intros H1 H2 H3. apply (eraseOp_results_run _ o); [done|done|].
  intros u ou Hou. apply Forall_forall. intros v _. unfold getResults. rewrite H3.
  apply not_elem_of_nil.
Qed.

Lemma substList_cons f t pairs v :
  substList ((f, t) :: pairs) v = substList pairs (substValue f t v).
Proof. done. Qed.

(** A sequence of replacements leaves a value alone or yields one of the
    new values. *)
Lemma substList_cases froms tos v :
  substList (zip froms tos) v = v ∨ substList (zip froms tos) v ∈ tos.
Proof.
  revert tos v. induction froms as [|f froms IH]; intros [|t tos] v; try (by left).
  cbn [zip zip_with]. rewrite substList_cons. unfold substValue.
  destruct (decide (v = f)) as [->|Hne].
  - right. destruct (IH tos t) as [->|Hin]; [apply list_elem_of_here|].
    by apply list_elem_of_further.
  - destruct (IH tos v) as [->|Hin]; [by left|]. right. by apply list_elem_of_further.
Qed.

Lemma substList_preserves (P : Value → Prop) froms tos v :
  Forall P tos → P v → P (substList (zip froms tos) v).
Proof.
  intros Htos Hv. destruct (substList_cases froms tos v) as [->|Hin]; [done|].
  by apply (proj1 (Forall_forall _ _) Htos).
Qed.

(** After the replacement of [froms] by as many new values, none of which
    is among [froms], no value of [froms] is left. *)
Lemma substList_zip_replaced froms tos v :
  length froms ≤ length tos → Forall (λ w, w ∉ froms) tos →
  substList (zip froms tos) v ∉ froms.
Proof.
  revert tos v. induction froms as [|f froms IH]; intros tos v Hlen Htos.
  { apply not_elem_of_nil. }
  destruct tos as [|t tos]; [simpl in Hlen; lia|].
  apply Forall_cons in Htos as [Ht Htos].
  cbn [zip zip_with]. rewrite substList_cons. apply not_elem_of_cons. split.
  - destruct (substList_cases froms tos (substValue f t v)) as [->|Hin].
    + unfold substValue. destruct (decide (v = f)); [|done].
      intros ->. apply Ht, list_elem_of_here.
    + intros Heq. rewrite Heq in Hin.
      apply (proj1 (Forall_forall _ _) Htos f Hin), list_elem_of_here.
  - apply IH; [simpl in Hlen; lia|]. eapply Forall_impl; [exact Htos|].
    intros w Hw Hin. by apply Hw, list_elem_of_further.
Qed.

Lemma replaceOp_run op o newValues ops blocks n nb ip d :
  ops !! op = Some o → concat (op_regions o) = [] →
  length (op_results o) = length newValues →
  Forall (λ v, getDefiningOp v ≠ Some op) newValues →
  replaceOp op newValues (mkRewriter (mkIR ops blocks n nb) ip d)
  = Ok (tt, mkRewriter
              (mkIR (delete op
                       (mapOperands (substList (zip (getResults op o) newValues)) <$> ops))
                    (setBlockOps (filter (λ x, x ≠ op)) <$> blocks) n nb)
              ip d).
Proof.
  intros H1 H2 Hlen Hnew. unfold replaceOp.
  erewrite run_bind; [|apply run_query; cbn [rw_ir]; unfold getOpResults;
                       by rewrite (getOperation_Some (mkIR ops blocks n nb) _ _ H1)].
  rewrite bool_decide_true by (unfold getResults; by rewrite length_fmap, length_seq).
  erewrite run_bind by reflexivity.
  erewrite run_bind by reflexivity. cbn [rw_ir rw_ip rw_diags].
  rewrite replaceAllUsesWithList_eq. unfold setOps. cbn [ir_ops ir_blocks ir_nextOp ir_nextBlock].
  erewrite eraseOp_results_run; [done| | |].
  - rewrite lookup_fmap, H1. done.
  - done.
  - intros u ou' Hou'. rewrite lookup_fmap in Hou'.
    destruct (ops !! u) as [ou|]; [|done]. injection Hou' as <-.
    cbn [mapOperands op_operands op_results getResults]. rewrite Forall_fmap.
    apply Forall_forall. intros v _. cbn [compose].
    apply substList_zip_replaced.
    + unfold getResults. rewrite length_fmap, length_seq.
      cbn [mapOperands op_results]. lia.
    + eapply Forall_impl; [exact Hnew|].
      intros w Hw (i & -> & _)%list_elem_of_fmap. by apply Hw.
Qed.

Lemma insertBefore_notin x id (l : list nat) : x ∉ l → insertBefore x id l = l.
Proof.
  induction l as [|y l IH]; [done|]. intros Hx. simpl.
  apply not_elem_of_cons in Hx as [Hne Hx]. rewrite decide_False by done.
  by rewrite IH.
Qed.

Lemma insertBefore_in x id (l1 l2 : list nat) :
  x ∉ l1 → insertBefore x id (l1 ++ x :: l2) = l1 ++ id :: x :: l2.
Proof.
  induction l1 as [|y l IH]; intros Hx; simpl.
  - by rewrite decide_True.
  - apply not_elem_of_cons in Hx as [Hne Hx]. rewrite decide_False by done.
    by rewrite IH.
Qed.

Lemma filter_ne_notin (x : nat) (l : list nat) : x ∉ l → filter (λ y, y ≠ x) l = l.
Proof.
  induction l as [|y l IH]; [done|]. intros Hx.
  apply not_elem_of_cons in Hx as [Hne Hx].
  rewrite filter_cons_True by done. by rewrite IH.
Qed.

Lemma lookup_placeOp_before x id (blocks : gmap nat Block) b :
  placeOp (IPBefore x) id blocks !! b = setBlockOps (insertBefore x id) <$> blocks !! b.
Proof. unfold placeOp. by rewrite lookup_fmap. Qed.

Lemma filter_ne_singleton (b b' : nat) :
  b ≠ b' → filter (λ x, x ≠ b') [b] = [b].
Proof. intros H. by rewrite filter_cons_True. Qed.

Lemma filter_ne_singleton_eq (b : nat) : filter (λ x, x ≠ b) [b] = [].
Proof. rewrite filter_cons_False; [done|]. by intros H. Qed.

Ltac fast_lia :=
  repeat match goal with H : _ ≠ _ |- _ => clear H end; lia.

Ltac ne_tac :=
  match goal with
  | |- ?x ≠ ?x => fail 1
  | |- _ => solve [assumption | apply not_eq_sym; assumption | fast_lia]
  end.

Ltac regions_tac :=
  repeat match goal with x := mkOperation _ _ _ _ |- _ => unfold x end;
  cbn [op_regions removeBlockFromRegions mapOperands];
  repeat match goal with H : op_regions _ = _ |- _ => rewrite H end;
  cbn [fmap list_fmap];
  repeat first
    [ rewrite filter_ne_singleton_eq
    | rewrite filter_ne_singleton by ne_tac
    | rewrite filter_nil ];
  cbn [fmap list_fmap concat app].

Ltac rstep :=
  erewrite run_bind by reflexivity;
  cbn [rw_ir ir_ops ir_blocks ir_nextOp ir_nextBlock rw_ip rw_diags].

Ltac lookup_tac :=
  cbn [ir_ops ir_blocks];
  repeat first
    [ rewrite lookup_fmap
    | rewrite lookup_placeOp_before
    | rewrite lookup_insert_eq
    | rewrite lookup_insert_ne by ne_tac
    | rewrite lookup_delete_eq
    | rewrite lookup_delete_ne by ne_tac
    | rewrite lookup_alter_ne by ne_tac
    | rewrite lookup_alter_eq ];
  repeat match goal with H : _ !! _ = Some _ |- _ => rewrite H end;
  cbn [fmap option_fmap option_map].

Lemma mergeBlocks_run' source dest argValues ops blocks n nb ip d sargs sops :
  blocks !! source = Some (mkBlock sargs sops) →
  length argValues = length sargs →
  mergeBlocks source dest argValues (mkRewriter (mkIR ops blocks n nb) ip d)
  = Ok (tt, mkRewriter
              (mkIR (removeBlockFromRegions source
                       <$> (mapOperands
                              (substList (zip (BlockArgument source <$> seq 0 (length sargs))
                                              argValues)) <$> ops))
                    (delete source (alter (setBlockOps (λ l, l ++ sops)) dest blocks))
                    n nb) ip d).
Proof.
  intros H Hlen. rewrite mergeBlocks_run.
  - unfold getArguments, blockArgTypes, blockOps. cbn [ir_blocks]. by rewrite H.
  - unfold getArguments, blockArgTypes. cbn [ir_blocks]. rewrite H.
    by rewrite length_fmap, length_seq.
Qed.

Lemma getArguments_Some ir b blk :
  ir_blocks ir !! b = Some blk →
  getArguments ir b = BlockArgument b <$> seq 0 (length (blk_args blk)).
Proof. intros H. unfold getArguments, blockArgTypes. by rewrite H. Qed.

Lemma setBlockOps_notin f args l :
  f l = l → setBlockOps f (mkBlock args l) = mkBlock args l.
Proof. intros H. unfold setBlockOps. simpl. by rewrite H. Qed.

Lemma list_find_getResults id o i :
  i < length (op_results o) →
  list_find (λ r, r = OpResult id i) (getResults id o) = Some (i, OpResult id i).
Proof.
  intros Hi. apply list_find_Some. unfold getResults. split_and!.
  - rewrite list_lookup_fmap, lookup_seq_lt by done. done.
  - done.
  - intros j y Hj Hlt ->. rewrite list_lookup_fmap in Hj.
    rewrite lookup_seq_lt in Hj by lia. simpl in Hj. injection Hj as ->. lia.
Qed.

Lemma permuteReturnOpOperands_run applyOp apply returnOp ret values s :
  ir_ops (rw_ir s) !! applyOp = Some apply →
  ir_ops (rw_ir s) !! returnOp = Some ret →
  Forall (λ v, ∃ i, v = OpResult applyOp i ∧ i < length (op_results apply)) values →
  length (op_operands ret)
  = length (op_results apply) * Z.to_nat (ReturnOp.getUnrollFac (op_kind ret)) →
  IfElseRewrite.permuteReturnOpOperands applyOp values returnOp s
  = Ok (permuted applyOp apply ret values, s).
Proof.
  intros Ha Hr Hv Hcount. unfold IfElseRewrite.permuteReturnOpOperands.
  erewrite run_bind; [|apply run_query; unfold getOpResults;
                       by rewrite (getOperation_Some _ _ _ Ha)].
  erewrite run_bind; [|apply run_query; by apply getOperation_Some].
  unfold permuted.
  match goal with |- (forM ?f _ ≫= _) _ = _ => set (body := f) end.
  match goal with |- _ = Ok (concat (?g <$> _), _) => set (slice := g) end.
  assert (forM body values s = Ok (slice <$> values, s)) as Hf;
    [|by rewrite (run_bind _ _ _ _ _ Hf)].
  induction Hv as [|v values (i & -> & Hi) Hv IH]; [done|].
  simpl. erewrite run_bind.
  2:{ unfold body at 1. erewrite run_bind.
      2:{ unfold assert. by rewrite bool_decide_true. }
      erewrite run_bind.
      2:{ unfold assert. rewrite bool_decide_true; [done|].
          rewrite list_find_getResults by done. rewrite Hcount. nia. }
      reflexivity. }
  rewrite (run_bind _ _ _ _ _ IH). done.
Qed.

Lemma setInsertionPointToStart_empty b ir ip d :
  blockOps ir b = [] →
  setInsertionPointToStart b (mkRewriter ir ip d) = Ok (tt, mkRewriter ir (IPEnd b) d).
Proof. intros H. unfold setInsertionPointToStart. cbn [rw_ir rw_diags]. by rewrite H. Qed.

Lemma blockOps_Some ir b blk : ir_blocks ir !! b = Some blk → blockOps ir b = blk_ops blk.
Proof. intros H. unfold blockOps. by rewrite H. Qed.

Lemma assert_true msg s : assert true msg s = Ok (tt, s).
Proof. done. Qed.

Lemma replaceOp_nil_run op o ops blocks n nb ip d :
  ops !! op = Some o → concat (op_regions o) = [] → op_results o = [] →
  replaceOp op [] (mkRewriter (mkIR ops blocks n nb) ip d)
  = Ok (tt, mkRewriter
              (mkIR (delete op ops) (setBlockOps (filter (λ x, x ≠ op)) <$> blocks) n nb)
              ip d).
Proof.
  intros H1 H2 H3. erewrite replaceOp_run; [|done|done|by rewrite H3|done].
  do 4 f_equal. rewrite zip_with_nil_r.
  rewrite <- (map_fmap_id ops) at 2. f_equal. apply map_fmap_ext. intros ???.
  apply mapOperands_id.
Qed.

Lemma getType_insert_op ops blocks n nb n' nb' id o v :
  allocatedValue (mkIR ops blocks n nb) v → n ≤ id →
  getType (mkIR (<[id := o]> ops) blocks n' nb') v = getType (mkIR ops blocks n nb) v.
Proof.
  destruct v as [x i|x i]; simpl; [|done]. intros Hx Hid.
  by rewrite lookup_insert_ne by lia.
Qed.

Lemma getType_blocks ops blocks blocks' n nb n' nb' v :
  (∀ b, b < nb → blk_args <$> blocks' !! b = blk_args <$> blocks !! b) →
  allocatedValue (mkIR ops blocks n nb) v →
  getType (mkIR ops blocks' n' nb') v = getType (mkIR ops blocks n nb) v.
Proof.
  intros Hb. destruct v as [x i|x i]; simpl; [done|]. intros Hx.
  unfold blockArgTypes. cbn [ir_blocks]. specialize (Hb x Hx).
  destruct (blocks' !! x), (blocks !! x); simpl in Hb; congruence.
Qed.

Lemma replace_terminator (body : list nat) (r y : nat) :
  r ∉ body → y ≠ r →
  filter (λ x, x ≠ r) (insertBefore r y (body ++ [r])) = body ++ [y].
Proof.
  intros H1 H2. rewrite insertBefore_in by done.
  rewrite filter_app, filter_ne_notin by done. f_equal.
  rewrite filter_cons_True by done. rewrite filter_cons_False; [done|]. by intros H.
Qed.

Ltac notin_tac :=
  repeat first
    [ assumption
    | apply not_elem_of_nil
    | apply not_elem_of_app; split
    | apply not_elem_of_cons; split
    | ne_tac ].

Ltac block_tac :=
  lookup_tac; unfold setBlockOps; cbn [blk_args blk_ops];
  repeat match goal with
  | |- context [filter (λ x, x ≠ ?r) (insertBefore ?r ?y (?l ++ [?r]))] =>
      rewrite (replace_terminator l r y) by notin_tac
  | |- context [insertBefore ?x ?y (?l ++ [?r])] =>
      rewrite (insertBefore_notin x y (l ++ [r])) by notin_tac
  | |- context [filter (λ x, x ≠ ?z) (?l ++ [?r])] =>
      rewrite (filter_ne_notin z (l ++ [r])) by notin_tac
  end;
  try reflexivity.

Lemma NoDup_handles (x1 x2 x3 x4 x5 : nat) (l1 l2 : list nat) :
  NoDup (x1 :: x2 :: x3 :: x4 :: x5 :: l1 ++ l2) →
  (x1 ≠ x2 ∧ x1 ≠ x3 ∧ x1 ≠ x4 ∧ x1 ≠ x5 ∧ x2 ≠ x3 ∧ x2 ≠ x4 ∧ x2 ≠ x5 ∧
   x3 ≠ x4 ∧ x3 ≠ x5 ∧ x4 ≠ x5) ∧
  Forall (λ x, (x ∉ l1) ∧ (x ∉ l2)) [x1; x2; x3; x4; x5] ∧
  NoDup l1 ∧ NoDup l2 ∧ (∀ x, x ∈ l1 → x ∉ l2).
Proof.
  intros H.
  apply NoDup_cons in H as [H1 H]. apply NoDup_cons in H as [H2 H].
  apply NoDup_cons in H as [H3 H]. apply NoDup_cons in H as [H4 H].
  apply NoDup_cons in H as [H5 H]. apply NoDup_app in H as (Hl1 & Hd & Hl2).
  repeat rewrite not_elem_of_cons in H1. repeat rewrite not_elem_of_cons in H2.
  repeat rewrite not_elem_of_cons in H3. repeat rewrite not_elem_of_cons in H4.
  rewrite not_elem_of_app in H1, H2, H3, H4, H5.
  split_and!; try tauto.
  repeat (constructor; [cbv beta; tauto|]). constructor.
Qed.

Lemma not_elem_of_snoc (x y : nat) (l : list nat) : x ∉ l → x ≠ y → x ∉ l ++ [y].
Proof.
  intros H1 H2. apply not_elem_of_app. split; [done|].
  apply not_elem_of_cons. split; [done|]. apply not_elem_of_nil.
Qed.

Lemma substList_fmap_id (σ : Value → Value) (l : list Value) :
  Forall (λ v, σ v = v) l → σ <$> l = l.
Proof.
  intros H. rewrite <- (list_fmap_id l) at 2. by apply Forall_fmap_ext_1.
Qed.

Ltac list_tac :=
  unfold setBlockOps; cbn [blk_args blk_ops]; cbn beta;
  repeat first [ progress cbn [app] | match goal with
  | |- context [filter (λ x, x ≠ ?r) (insertBefore ?r ?y (?l ++ [?r]))] =>
      rewrite (replace_terminator l r y) by notin_tac
  | |- context [insertBefore ?x ?y ?l] =>
      lazymatch l with context [insertBefore] => fail | context [filter] => fail | _ => idtac end;
      rewrite (insertBefore_notin x y l) by notin_tac
  | |- context [filter (λ x, x ≠ ?z) ?l] =>
      lazymatch l with context [insertBefore] => fail | context [filter] => fail | _ => idtac end;
      rewrite (filter_ne_notin z l) by notin_tac
  end ].

Lemma take_seq_fmap {A} (f : nat → A) k m :
  take k (f <$> seq 0 m) = f <$> seq 0 (k `min` m).
Proof. by rewrite <- fmap_take, take_seq. Qed.

Lemma mapOperands_mk f k l r g :
  mapOperands f (mkOperation k l r g) = mkOperation k (f <$> l) r g.
Proof. done. Qed.

Lemma removeBlockFromRegions_mk b k l r g :
  removeBlockFromRegions b (mkOperation k l r g)
  = mkOperation k l r (filter (λ x, x ≠ b) <$> g).
Proof. done. Qed.

Ltac op_tac :=
  repeat first [rewrite mapOperands_mk | rewrite removeBlockFromRegions_mk];
  cbn [fmap list_fmap];
  repeat first
    [ rewrite filter_ne_singleton_eq
    | rewrite filter_ne_singleton by ne_tac
    | rewrite filter_nil ].

Ltac filter_tac :=
  rewrite ?filter_app;
  repeat match goal with
  | |- context [filter (λ x, x ≠ ?z) [?z]] => rewrite (filter_ne_singleton_eq z)
  | |- context [filter (λ x, x ≠ ?z) ?l] =>
      lazymatch l with context [filter] => fail | _ => idtac end;
      rewrite (filter_ne_notin z l) by notin_tac
  end;
  rewrite ?filter_nil, ?app_nil_r, <- ?app_assoc.

(** How the set of users of the results of an operation evolves under the
    steps of a run. *)
Lemma usedOnlyBy_delete_user ops op u users :
  usedOnlyBy ops op (u :: users) → usedOnlyBy (delete u ops) op users.
Proof.
  intros H x ox [Hne Hx]%lookup_delete_Some.
  destruct (H x ox Hx) as [Hin|HF]; [|by right].
  apply elem_of_cons in Hin as [->|Hin]; [done|by left].
Qed.

Lemma usedOnlyBy_delete ops op u users :
  usedOnlyBy ops op users → usedOnlyBy (delete u ops) op users.
Proof. apply map_Forall_delete. Qed.

Lemma usedOnlyBy_insert ops op id o users :
  Forall (λ v, getDefiningOp v ≠ Some op) (op_operands o) →
  usedOnlyBy ops op users → usedOnlyBy (<[id := o]> ops) op users.
Proof. intros Ho H. apply map_Forall_insert_2; [by right|done]. Qed.

Lemma usedOnlyBy_mapOperands ops op (σ : Value → Value) users :
  (∀ v, getDefiningOp v ≠ Some op → getDefiningOp (σ v) ≠ Some op) →
  usedOnlyBy ops op users → usedOnlyBy (mapOperands σ <$> ops) op users.
Proof.
  intros Hσ H. apply map_Forall_fmap. intros u ou Hou. cbn.
  destruct (H u ou Hou) as [?|HF]; [by left|right]. rewrite Forall_fmap.
  eapply Forall_impl; [exact HF|]. done.
Qed.

Lemma usedOnlyBy_removeBlock ops op b users :
  usedOnlyBy ops op users → usedOnlyBy (removeBlockFromRegions b <$> ops) op users.
Proof. intros H. apply map_Forall_fmap. intros u ou Hou. exact (H u ou Hou). Qed.

Lemma usedOnlyBy_operands ops op users u ou :
  usedOnlyBy ops op users → ops !! u = Some ou → u ∉ users →
  Forall (λ v, getDefiningOp v ≠ Some op) (op_operands ou).
Proof. intros H Hu Hnotin. by destruct (H u ou Hu). Qed.

Lemma permuted_defining op applyOp apply ret values :
  Forall (λ v, getDefiningOp v ≠ Some op) (op_operands ret) →
  Forall (λ v, getDefiningOp v ≠ Some op) (permuted applyOp apply ret values).
Proof.
  intros H. unfold permuted. apply Forall_concat. rewrite Forall_fmap.
  apply Forall_forall. intros v _. cbn. by apply Forall_take, Forall_drop.
Qed.

(** The new values of a replacement are arguments of a block, or results
    of an operation other than [op]. *)
Ltac defining_tac :=
  unfold take_back, getResults, getArguments;
  repeat first [apply Forall_take | apply Forall_drop];
  first
    [ apply Forall_nil_2
    | rewrite ?Forall_fmap; apply Forall_forall; intros ? _; cbn;
      first [discriminate | intros [=]; fast_lia] ].

Ltac preserved_tac :=
  let v := fresh "v" in
  let Hv := fresh "Hv" in
  intros v Hv; apply substList_preserves; [defining_tac|exact Hv].

(** The operands of a new operation are not results of [op]. *)
Ltac operands_tac :=
  cbn [op_operands];
  repeat first
    [ assumption
    | apply Forall_nil_2
    | apply Forall_app_2
    | apply permuted_defining
    | apply Forall_cons_2; [cbn; intros [=]; fast_lia|]
    | defining_tac ].

(** The results of an operation are unused after a run: [c] is the user
    whose removal frees them, [H] the fact on the initial graph. *)
Ltac unused_tac c H :=
  repeat first
    [ exact H
    | apply (usedOnlyBy_delete_user _ _ c)
    | apply usedOnlyBy_delete
    | apply usedOnlyBy_removeBlock
    | apply usedOnlyBy_mapOperands; [preserved_tac|]
    | apply usedOnlyBy_insert; [operands_tac|] ].

Ltac results_tac :=
  cbn [op_results mapOperands removeBlockFromRegions]; first [reflexivity | assumption].

Ltac length_tac :=
  unfold take_back, getResults;
  repeat (progress (cbn [op_results mapOperands removeBlockFromRegions];
                    rewrite ?length_take, ?length_drop, ?length_fmap, ?length_seq,
                      ?length_app));
  fast_lia.

(** The recurring steps of a symbolic run: reading an operation, one of
    its lists, the block of a region, the arguments of a block; erasing and
    replacing an operation without nested blocks. *)
Ltac q_known := qstep ltac:(apply getOperation_Some; eassumption).
Ltac q_operation := qstep ltac:(apply getOperation_Some; lookup_tac; reflexivity).
Ltac q_list :=
  qstep ltac:(unfold getOperands, getOpResults, getResultTypes;
              erewrite getOperation_Some by (lookup_tac; reflexivity); reflexivity).
Ltac q_body :=
  qstep ltac:(eapply getBody_Some; [lookup_tac; reflexivity | regions_tac; reflexivity]).
Ltac q_arguments :=
  qstep ltac:(erewrite getArguments_Some by (lookup_tac; reflexivity); reflexivity).
Ltac r_erase :=
  erewrite run_bind;
    [|eapply eraseOp_noresults_run;
      [lookup_tac; reflexivity | regions_tac; reflexivity | results_tac]].
Tactic Notation "r_erase_unused" constr(c) constr(H) :=
  erewrite run_bind;
    [|eapply eraseOp_run;
      [lookup_tac; reflexivity | regions_tac; reflexivity | unused_tac c H]].
Ltac r_replace :=
  erewrite run_bind;
    [|eapply replaceOp_run;
      [lookup_tac; reflexivity | regions_tac; reflexivity | length_tac | defining_tac]].
Ltac r_replace_nil :=
  erewrite run_bind;
    [|eapply replaceOp_nil_run;
      [lookup_tac; reflexivity | regions_tac; reflexivity | results_tac]].
Tactic Notation "r_merge" constr(args) constr(ops) :=
  erewrite run_bind;
    [|apply mergeBlocks_run' with (sargs := args) (sops := ops); [block_tac|length_tac]].
Ltac r_permute :=
  erewrite run_bind;
    [|eapply permuteReturnOpOperands_run; cbn [rw_ir];
      [lookup_tac; reflexivity | lookup_tac; reflexivity | eassumption | eassumption]].
(** The return op of an apply op laid out as [x], in a graph that still
    holds it. *)
Tactic Notation "q_return" constr(x) :=
  qstep ltac:(apply (getReturnOp_Some _ (ab_op x) (ab_apply x) (ab_block x) []
                       (mkBlock (ab_args x) (ab_body x ++ [ab_returnOp x]))
                       (ab_body x) (ab_returnOp x) (ab_return x));
              first [ done | reflexivity | lookup_tac; reflexivity
                    | match goal with H : op_regions _ = _ |- _ => by rewrite H end
                    | solve [block_tac] ]).

(** ** Symbolic run of [lowerStencilCombine] *)

Section IfElseRun.
Context (ops : gmap nat Operation) (blocks : gmap nat Block) (n nb : nat)
        (diags : list Diagnostic).
Context (c : nat) (oc : Operation) (lower upper : ApplyBody).

Local Abbreviation ir0 := (mkIR ops blocks n nb).
Local Abbreviation a := (ab_op lower).
Local Abbreviation b := (ab_op upper).
Local Abbreviation oa := (ab_apply lower).
Local Abbreviation ob := (ab_apply upper).
Local Abbreviation ba := (ab_block lower).
Local Abbreviation bb := (ab_block upper).
Local Abbreviation ra := (ab_returnOp lower).
Local Abbreviation rb := (ab_returnOp upper).
Local Abbreviation reta := (ab_return lower).
Local Abbreviation retb := (ab_return upper).
Local Abbreviation bodya := (ab_body lower).
Local Abbreviation bodyb := (ab_body upper).
Local Abbreviation argsa := (ab_args lower).
Local Abbreviation argsb := (ab_args upper).

Hypothesis Hsite : CombineSite ir0 c oc lower upper.

(** When the unroll configurations differ, the apply op, the index op,
    the constant op and the comparison are already created. *)
Lemma lowerStencilCombine_unroll_mismatch :
  unrollMismatch (op_kind reta) (op_kind retb) = Ok true →
  ∃ s',
    IfElseRewrite.lowerStencilCombine a b c (mkRewriter ir0 (IPBefore c) diags)
    = Ok (failure, s') ∧
    rw_diags s'
    = diags ++ [Warning (OnOp c) "expected matching unroll configurations"] ∧
    ir_nextOp (rw_ir s') = 4 + n ∧
    ir_ops (rw_ir s') !! n
    = Some (mkOperation
              (rebuiltApply (op_kind oc))
              (op_operands oa ++ op_operands ob) (op_results oc) [[nb]]) ∧
    ir_ops (rw_ir s') !! c = Some oc.
Proof using Hsite.
  intros Hmismatch.
  destruct Hsite as [[Hfresh Hfreshb] Hc Hcomb Hcreg
                     [Ha HaA Hrega Hba Hra Hreta Hrrega Hbodya Hreturneda Hargsa Hresa]
                     [Hb HbA Hregb Hbb Hrb Hretb Hrregb Hbodyb Hreturnedb Hargsb Hresb]
                     Hbne Hdistinct].
  cbn [ir_ops ir_blocks ir_nextOp ir_nextBlock] in *.
  pose proof (Hfresh _ _ Ha). pose proof (Hfresh _ _ Hb). pose proof (Hfresh _ _ Hc).
  pose proof (Hfresh _ _ Hra). pose proof (Hfresh _ _ Hrb).
  pose proof (Hfreshb _ _ Hba). pose proof (Hfreshb _ _ Hbb).
  cbn beta in *.
  destruct (NoDup_handles _ _ _ _ _ _ _ Hdistinct) as (Hne & Hnin & Hnda & Hndb & Hdisj).
  repeat rewrite Forall_cons in Hnin. destruct_and!.
  assert (c ∉ bodya ++ [ra]) by (by apply not_elem_of_snoc).
  assert (c ∉ bodyb ++ [rb]) by (by apply not_elem_of_snoc).
  eexists. split; [|split_and!].
  - unfold IfElseRewrite.lowerStencilCombine.
    q_known.
    q_list.
    q_list.
    rstep.
    q_body.
    erewrite run_bind; [|apply setInsertionPointToStart_empty;
                         erewrite blockOps_Some by (lookup_tac; reflexivity); reflexivity].
    rstep. rstep. rstep.
    cbn [placeOp].
    q_return lower.
    q_return upper.
    q_operation.
    q_operation.
    qstep ltac:(eassumption).
    cbv iota. reflexivity.
  - reflexivity.
  - reflexivity.
  - cbn [rw_ir ir_ops]. lookup_tac. reflexivity.
  - cbn [rw_ir ir_ops]. lookup_tac. reflexivity.
Qed.

Hypothesis Hlower : Forall (resultOf lower) (CombineOp.lower oc).
Hypothesis Hupper : Forall (resultOf upper) (CombineOp.upper oc).
Hypothesis Hcounta :
  length (op_operands reta)
  = length (op_results oa) * Z.to_nat (ReturnOp.getUnrollFac (op_kind reta)).
Hypothesis Hcountb :
  length (op_operands retb)
  = length (op_results ob) * Z.to_nat (ReturnOp.getUnrollFac (op_kind retb)).
Hypothesis Hunroll : unrollMismatch (op_kind reta) (op_kind retb) = Ok false.
Hypothesis Htypes : getType ir0 <$> op_operands reta = getType ir0 <$> op_operands retb.
Hypothesis Hnonempty : op_operands reta ≠ [].
Hypothesis Huseda : usedOnlyBy ops a [c].
Hypothesis Husedb : usedOnlyBy ops b [c].

Lemma lowerStencilCombine_run :
  ∃ σ s',
    IfElseRewrite.lowerStencilCombine a b c (mkRewriter ir0 (IPBefore c) diags)
    = Ok (success, s') ∧
    rw_diags s' = diags ∧
    IfElseResult ir0 c oc lower upper σ (rw_ir s').
Proof using All.
  destruct Hsite as [[Hfresh Hfreshb] Hc Hcomb Hcreg
                     [Ha HaA Hrega Hba Hra Hreta Hrrega Hbodya Hreturneda Hargsa Hresa]
                     [Hb HbA Hregb Hbb Hrb Hretb Hrregb Hbodyb Hreturnedb Hargsb Hresb]
                     Hbne Hdistinct].
  cbn [ir_ops ir_blocks ir_nextOp ir_nextBlock] in *.
  pose proof (Hfresh _ _ Ha). pose proof (Hfresh _ _ Hb). pose proof (Hfresh _ _ Hc).
  pose proof (Hfresh _ _ Hra). pose proof (Hfresh _ _ Hrb).
  pose proof (Hfreshb _ _ Hba). pose proof (Hfreshb _ _ Hbb).
  cbn beta in *.
  destruct (NoDup_handles _ _ _ _ _ _ _ Hdistinct) as (Hne & Hnin & Hnda & Hndb & Hdisj).
  repeat rewrite Forall_cons in Hnin. destruct_and!.
  assert (c ∉ bodya ++ [ra]) by (by apply not_elem_of_snoc).
  assert (c ∉ bodyb ++ [rb]) by (by apply not_elem_of_snoc).
  assert (Forall (λ y, y < n) bodya) as Hlta.
  { eapply Forall_impl; [exact Hbodya|]. intros y [oy Hy]. exact (Hfresh _ _ Hy). }
  assert (Forall (λ y, y < n) bodyb) as Hltb.
  { eapply Forall_impl; [exact Hbodyb|]. intros y [oy Hy]. exact (Hfresh _ _ Hy). }
  assert (Forall (allocatedValue ir0) (op_operands reta)) as Hva.
  { eapply Forall_impl; [exact Hreturneda|]. intros v (y & i & -> & Hy). simpl.
    by apply (proj1 (Forall_forall _ _) Hlta). }
  assert (Forall (allocatedValue ir0) (op_operands retb)) as Hvb.
  { eapply Forall_impl; [exact Hreturnedb|]. intros v (y & i & -> & Hy). simpl.
    by apply (proj1 (Forall_forall _ _) Hltb). }
  assert (∀ u ou, ops !! u = Some ou → u ≠ c →
                  Forall (λ v, getDefiningOp v ≠ Some a) (op_operands ou) ∧
                  Forall (λ v, getDefiningOp v ≠ Some b) (op_operands ou)) as Hother.
  { intros u ou Hu Huc.
    split; eapply usedOnlyBy_operands; try eassumption;
      by intros ->%list_elem_of_singleton. }
  destruct (Hother _ _ Ha ltac:(done)). destruct (Hother _ _ Hb ltac:(done)).
  destruct (Hother _ _ Hra ltac:(done)). destruct (Hother _ _ Hrb ltac:(done)).
  clear Hother.
  eexists ?[σ], _. split; [|split].
  - unfold IfElseRewrite.lowerStencilCombine.
    q_known.
    q_list.
    q_list.
    rstep.
    q_body.
    erewrite run_bind; [|apply setInsertionPointToStart_empty;
                         erewrite blockOps_Some by (lookup_tac; reflexivity); reflexivity].
    rstep. rstep. rstep.
    cbn [placeOp].
    q_return lower.
    q_return upper.
    q_operation.
    q_operation.
    qstep ltac:(eassumption).
    cbv iota.
    match goal with |- _ ?s = _ =>
      assert (∀ v, allocatedValue ir0 v → getType (rw_ir s) v = getType ir0 v) as Hty end.
    { intros [x i|x i] Hx; cbn in Hx; cbn [rw_ir getType ir_ops].
      - by rewrite !lookup_insert_ne by lia.
      - unfold blockArgTypes. lookup_tac. by destruct (blocks !! x). }
    match goal with |- _ ?s = _ =>
      assert (getOperandTypes (rw_ir s) ra = Ok (getType ir0 <$> op_operands reta)) as Hta;
      [|assert (getOperandTypes (rw_ir s) rb = Ok (getType ir0 <$> op_operands retb)) as Htb] end.
    { unfold getOperandTypes;
        erewrite getOperation_Some by (cbn [rw_ir]; lookup_tac; reflexivity).
      cbn [mbind Outcome_bind mret Outcome_ret]. f_equal.
      apply Forall_fmap_ext_1. eapply Forall_impl; [exact Hva|exact Hty]. }
    { unfold getOperandTypes;
        erewrite getOperation_Some by (cbn [rw_ir]; lookup_tac; reflexivity).
      cbn [mbind Outcome_bind mret Outcome_ret]. f_equal.
      apply Forall_fmap_ext_1. eapply Forall_impl; [exact Hvb|exact Hty]. }
    erewrite run_bind by (apply run_query; exact Hta).
    erewrite run_bind by (apply run_query; exact Htb).
    clear Hta Htb Hty.
    rewrite (bool_decide_true _ Htypes). erewrite run_bind by apply assert_true.
    rewrite bool_decide_false by (by intros ?%fmap_nil_inv).
    erewrite run_bind by apply assert_true.
    rstep.
    q_list.
    rstep. rstep.
    q_operation.
    r_permute.
    rstep.
    r_replace_nil.
    rstep.
    q_operation.
    r_permute.
    rstep.
    r_replace_nil.
    cbn [placeOp getResults op_results].
    q_body.
    q_body.
    q_body.
    q_arguments.
    q_list.
    cbn [blk_args setBlockOps op_operands mapOperands removeBlockFromRegions].
    r_merge argsa (bodya ++ [6 + n]).
    q_body.
    q_body.
    q_body.
    q_arguments.
    q_list.
    cbn [blk_args setBlockOps op_operands mapOperands removeBlockFromRegions].
    r_merge argsb (bodyb ++ [7 + n]).
    q_list.
    r_replace.
    r_erase_unused c Husedb.
    r_erase_unused c Huseda.
    reflexivity.
  - reflexivity.
  - cbn [rw_ir].
    match goal with
    | |- context [mapOperands (substList ?L3) <$>
                  (removeBlockFromRegions bb <$>
                   (mapOperands (substList ?L2) <$>
                    (removeBlockFromRegions ba <$> (mapOperands (substList ?L1) <$> _))))] =>
        instantiate (σ := λ v, substList L3 (substList L2 (substList L1 v)));
        set (σ1 := substList L1)
    end.
    match goal with
    | |- context [mapOperands (substList ?L2) <$> (removeBlockFromRegions ba <$> _)] =>
        set (σ2 := substList L2)
    end.
    match goal with
    | |- context [mapOperands (substList ?L3) <$> (removeBlockFromRegions bb <$> _)] =>
        set (σ3 := substList L3)
    end.
    assert (∀ x i, σ1 (OpResult x i) = OpResult x i) as Hσ1r.
    { intros. apply substList_notin. intros (? & ? & ?)%list_elem_of_fmap. done. }
    assert (∀ x i, σ2 (OpResult x i) = OpResult x i) as Hσ2r.
    { intros. apply substList_notin. intros (? & ? & ?)%list_elem_of_fmap. done. }
    assert (∀ x i, σ3 (BlockArgument x i) = BlockArgument x i) as Hσ3a.
    { intros. apply substList_notin. unfold getResults.
      intros (? & ? & ?)%list_elem_of_fmap. done. }
    assert (∀ v, getDefiningOp v ≠ Some c → σ3 v = v) as Hσ3o.
    { intros v Hv. apply substList_notin. unfold getResults.
      intros (? & -> & ?)%list_elem_of_fmap. by apply Hv. }
    assert (∀ v, (∀ i, v ≠ BlockArgument ba i) → σ1 v = v) as Hσ1o.
    { intros v Hv. apply substList_notin.
      intros (? & -> & ?)%list_elem_of_fmap. by eapply Hv. }
    assert (∀ v, (∀ i, v ≠ BlockArgument bb i) → σ2 v = v) as Hσ2o.
    { intros v Hv. apply substList_notin.
      intros (? & -> & ?)%list_elem_of_fmap. by eapply Hv. }
    assert (∀ x i, x ≠ c → σ3 (σ2 (σ1 (OpResult x i))) = OpResult x i) as Hres.
    { intros x i Hx. rewrite Hσ1r, Hσ2r. apply Hσ3o. simpl. congruence. }
    assert (∀ i, i < length (op_results oc) →
                 σ3 (σ2 (σ1 (OpResult c i))) = OpResult n i) as Hhit3.
    { intros i Hi. rewrite Hσ1r, Hσ2r. unfold σ3, getResults.
      cbn [op_results removeBlockFromRegions mapOperands].
      apply (substList_range_hit (OpResult c) (OpResult n)) with (s := 0) (t := 0); try lia.
      * by intros ?? [=].
      * intros ?? [=]. lia. }
    assert (∀ i, i < length argsa → i < length (op_operands oa) →
                 σ3 (σ2 (σ1 (BlockArgument ba i))) = BlockArgument nb i) as Hhit1.
    { intros i Hi1 Hi2.
      assert (σ1 (BlockArgument ba i) = BlockArgument nb i) as ->.
      { unfold σ1. rewrite take_seq_fmap.
        apply (substList_range_hit (BlockArgument ba) (BlockArgument nb)) with (s := 0) (t := 0).
        * by intros ?? [=].
        * intros ?? [=]. lia.
        * lia.
        * rewrite length_fmap, length_app. lia. }
      rewrite Hσ2o by (intros j [=]; lia). apply Hσ3a. }
    assert (∀ i, i < length argsb → i < length (op_operands ob) →
                 σ3 (σ2 (σ1 (BlockArgument bb i))) = BlockArgument nb i) as Hhit2.
    { intros i Hi1 Hi2. rewrite Hσ1o by (intros j [=]; congruence).
      assert (σ2 (BlockArgument bb i) = BlockArgument nb i) as ->.
      { unfold σ2. rewrite take_seq_fmap.
        apply (substList_range_hit (BlockArgument bb) (BlockArgument nb)) with (s := 0) (t := 0).
        * by intros ?? [=].
        * intros ?? [=]. lia.
        * lia.
        * rewrite !length_fmap, length_app. lia. }
      apply Hσ3a. }
    clearbody σ1 σ2 σ3.
    constructor; cbn [ir_ops ir_blocks ir_nextOp ir_nextBlock Nat.add].
    + reflexivity.
    + repeat constructor; lookup_tac; reflexivity.
    + intros id Hid. lookup_tac.
      destruct (ops !! id) as [o|] eqn:Hoid; [|done].
      pose proof (Hfresh _ _ Hoid). cbn beta in *. lia.
    + intros id Hnone Hid.
      assert (id ≠ c ∧ id ≠ a ∧ id ≠ b ∧ id ≠ ra ∧ id ≠ rb)
        as (? & ? & ? & ? & ?) by (split_and!; intros ->; congruence).
      lookup_tac. by rewrite Hnone.
    + intros u ou Hu Hx. pose proof (Hfresh _ _ Hu). cbn beta in *.
      repeat (apply not_elem_of_cons in Hx as [? Hx]).
      lookup_tac. destruct ou. op_tac. do 2 f_equal.
      rewrite <- !list_fmap_compose. done.
    + lookup_tac. op_tac. do 2 f_equal. rewrite <- !list_fmap_compose. done.
    + lookup_tac. op_tac. done.
    + lookup_tac. op_tac. done.
    + lookup_tac. op_tac. rewrite !Hres by lia. done.
    + lookup_tac. op_tac. rewrite !Hres by lia. done.
    + lookup_tac. unfold getResults. cbn [op_results]. rewrite !length_fmap.
      op_tac. do 2 f_equal. rewrite <- !list_fmap_compose.
      apply list_fmap_ext. intros ? i _. cbn [compose]. apply Hres. lia.
    + lookup_tac. op_tac. do 2 f_equal. rewrite <- !list_fmap_compose. done.
    + lookup_tac. op_tac. do 2 f_equal. rewrite <- !list_fmap_compose. done.
    + lookup_tac. list_tac. done.
    + lookup_tac. list_tac. done.
    + lookup_tac. list_tac. done.
    + exact Hhit3.
    + exact Hhit1.
    + exact Hhit2.
    + intros v Hv1 Hv2 Hv3. rewrite Hσ1o, Hσ2o by done. by apply Hσ3o.
Qed.
End IfElseRun.

(** ** Symbolic run of [fuseApplyOps] *)

Section FuseRun.
Context (ops : gmap nat Operation) (blocks : gmap nat Block) (n nb : nat)
        (diags : list Diagnostic).
Context (c : nat) (oc : Operation) (x1 x2 : ApplyBody).

Local Abbreviation ir0 := (mkIR ops blocks n nb).
Local Abbreviation a1 := (ab_op x1).
Local Abbreviation a2 := (ab_op x2).
Local Abbreviation o1 := (ab_apply x1).
Local Abbreviation o2 := (ab_apply x2).
Local Abbreviation b1 := (ab_block x1).
Local Abbreviation b2 := (ab_block x2).
Local Abbreviation r1 := (ab_returnOp x1).
Local Abbreviation r2 := (ab_returnOp x2).
Local Abbreviation ret1 := (ab_return x1).
Local Abbreviation ret2 := (ab_return x2).
Local Abbreviation body1 := (ab_body x1).
Local Abbreviation body2 := (ab_body x2).
Local Abbreviation args1 := (ab_args x1).
Local Abbreviation args2 := (ab_args x2).

Hypothesis Hsite : CombineSite ir0 c oc x1 x2.

Lemma fuseApplyOps_shape_mismatch :
  shapeMismatch (op_kind o1) (op_kind o2) = true →
  FuseRewrite.fuseApplyOps a1 a2 c (mkRewriter ir0 (IPBefore c) diags)
  = Ok (failure, mkRewriter ir0 (IPBefore c)
                   (diags ++ [Warning (OnOp c) "expected shapes to match"])).
Proof using All.
  intros Hshape.
  destruct Hsite as [_ _ _ _ [Ha1 _ _ _ _ _ _ _ _ _ _] [Ha2 _ _ _ _ _ _ _ _ _ _] _ _].
  unfold FuseRewrite.fuseApplyOps.
  q_known.
  q_known.
  unfold shapeMismatch in Hshape. rewrite Hshape. reflexivity.
Qed.

Lemma fuseApplyOps_unroll_mismatch :
  shapeMismatch (op_kind o1) (op_kind o2) = false →
  unrollMismatch (op_kind ret1) (op_kind ret2) = Ok true →
  FuseRewrite.fuseApplyOps a1 a2 c (mkRewriter ir0 (IPBefore c) diags)
  = Ok (failure, mkRewriter ir0 (IPBefore c)
                   (diags ++ [Warning (OnOp c) "expected matching unroll configurations"])).
Proof using All.
  intros Hshape Hunroll.
  destruct Hsite as [_ _ _ _
                     [Ha1 HaA Hreg1 Hb1 Hr1 Hret1 Hrreg1 Hbody1 _ Hargs1 Hres1]
                     [Ha2 HbA Hreg2 Hb2 Hr2 Hret2 Hrreg2 Hbody2 _ Hargs2 Hres2] _ _].
  cbn [ir_ops ir_blocks ir_nextOp ir_nextBlock] in *.
  unfold FuseRewrite.fuseApplyOps.
  q_known.
  q_known.
  unfold shapeMismatch in Hshape. rewrite Hshape.
  q_return x1.
  q_return x2.
  q_known.
  q_known.
  qstep ltac:(eassumption).
  reflexivity.
Qed.

Hypothesis Hshape : shapeMismatch (op_kind o1) (op_kind o2) = false.
Hypothesis Hunroll : unrollMismatch (op_kind ret1) (op_kind ret2) = Ok false.

Lemma fuseApplyOps_run :
  ∃ σ s',
    FuseRewrite.fuseApplyOps a1 a2 c (mkRewriter ir0 (IPBefore c) diags)
    = Ok (success, s') ∧
    rw_diags s' = diags ∧
    FuseResult ir0 x1 x2 σ (rw_ir s').
Proof using All.
  destruct Hsite as [[Hfresh Hfreshb] Hc Hcomb Hcreg
                     [Ha1 HaA Hreg1 Hb1 Hr1 Hret1 Hrreg1 Hbody1 _ Hargs1 Hres1]
                     [Ha2 HbA Hreg2 Hb2 Hr2 Hret2 Hrreg2 Hbody2 _ Hargs2 Hres2]
                     Hbne Hdistinct].
  cbn [ir_ops ir_blocks ir_nextOp ir_nextBlock] in *.
  pose proof (Hfresh _ _ Ha1). pose proof (Hfresh _ _ Ha2). pose proof (Hfresh _ _ Hc).
  pose proof (Hfresh _ _ Hr1). pose proof (Hfresh _ _ Hr2).
  pose proof (Hfreshb _ _ Hb1). pose proof (Hfreshb _ _ Hb2).
  cbn beta in *.
  destruct (NoDup_handles _ _ _ _ _ _ _ Hdistinct) as (Hne & Hnin & Hnd1 & Hnd2 & Hdisj).
  repeat rewrite Forall_cons in Hnin. destruct_and!.
  assert (c ∉ body1 ++ [r1]) by (by apply not_elem_of_snoc).
  assert (c ∉ body2 ++ [r2]) by (by apply not_elem_of_snoc).
  assert (Forall (λ y, y < n) body1) as Hlt1.
  { eapply Forall_impl; [exact Hbody1|]. intros y [oy Hy]. exact (Hfresh _ _ Hy). }
  assert (Forall (λ y, y < n) body2) as Hlt2.
  { eapply Forall_impl; [exact Hbody2|]. intros y [oy Hy]. exact (Hfresh _ _ Hy). }
  eexists ?[σ], _. split; [|split].
  - unfold FuseRewrite.fuseApplyOps.
    q_known.
    q_known.
    unfold shapeMismatch in Hshape. rewrite Hshape.
    q_return x1.
    q_return x2.
    q_known.
    q_known.
    qstep ltac:(eassumption).
    cbv iota.
    rstep.
    q_body.
    q_body.
    q_arguments.
    q_list.
    cbn [blk_args setBlockOps].
    r_merge args1 (body1 ++ [r1]).
    q_body.
    q_body.
    q_arguments.
    q_list.
    cbn [blk_args setBlockOps op_operands mapOperands removeBlockFromRegions].
    r_merge args2 (body2 ++ [r2]).
    q_list.
    q_list.
    q_body.
    rstep.
    qstep ltac:(erewrite getOperation_Some by (lookup_tac; reflexivity); reflexivity).
    rstep.
    cbn [op_operands op_kind mapOperands removeBlockFromRegions compose placeOp].
    r_erase.
    r_erase.
    q_list.
    q_list.
    cbn [op_results mapOperands removeBlockFromRegions].
    r_replace.
    q_list.
    q_list.
    cbn [op_results mapOperands removeBlockFromRegions].
    r_replace.
    reflexivity.
  - reflexivity.
  - cbn [rw_ir].
    match goal with
    | |- context [delete a2 (mapOperands (substList ?L4) <$>
                  delete a1 (mapOperands (substList ?L3) <$>
                   delete r2 (delete r1 (<[_ := _]>
                    (removeBlockFromRegions b2 <$>
                     (mapOperands (substList ?L2) <$>
                      (removeBlockFromRegions b1 <$>
                       (mapOperands (substList ?L1) <$> _))))))))] =>
        instantiate (σ := λ v, substList L4 (substList L3 (substList L2 (substList L1 v))));
        set (σ1 := substList L1)
    end.
    match goal with
    | |- context [mapOperands (substList ?L2) <$> (removeBlockFromRegions b1 <$> _)] =>
        set (σ2 := substList L2)
    end.
    match goal with
    | |- context [delete a1 (mapOperands (substList ?L3) <$> _)] =>
        set (σ3 := substList L3)
    end.
    match goal with
    | |- context [delete a2 (mapOperands (substList ?L4) <$> _)] =>
        set (σ4 := substList L4)
    end.
    assert (∀ x i, σ1 (OpResult x i) = OpResult x i) as Hσ1r.
    { intros. apply substList_notin. intros (? & ? & ?)%list_elem_of_fmap. done. }
    assert (∀ x i, σ2 (OpResult x i) = OpResult x i) as Hσ2r.
    { intros. apply substList_notin. intros (? & ? & ?)%list_elem_of_fmap. done. }
    assert (∀ x i, σ3 (BlockArgument x i) = BlockArgument x i) as Hσ3a.
    { intros. apply substList_notin. unfold getResults.
      intros (? & ? & ?)%list_elem_of_fmap. done. }
    assert (∀ x i, σ4 (BlockArgument x i) = BlockArgument x i) as Hσ4a.
    { intros. apply substList_notin. unfold getResults.
      intros (? & ? & ?)%list_elem_of_fmap. done. }
    assert (∀ v, getDefiningOp v ≠ Some a1 → σ3 v = v) as Hσ3o.
    { intros v Hv. apply substList_notin. unfold getResults.
      intros (? & -> & ?)%list_elem_of_fmap. by apply Hv. }
    assert (∀ v, getDefiningOp v ≠ Some a2 → σ4 v = v) as Hσ4o.
    { intros v Hv. apply substList_notin. unfold getResults.
      intros (? & -> & ?)%list_elem_of_fmap. by apply Hv. }
    assert (∀ v, (∀ i, v ≠ BlockArgument b1 i) → σ1 v = v) as Hσ1o.
    { intros v Hv. apply substList_notin.
      intros (? & -> & ?)%list_elem_of_fmap. by eapply Hv. }
    assert (∀ v, (∀ i, v ≠ BlockArgument b2 i) → σ2 v = v) as Hσ2o.
    { intros v Hv. apply substList_notin.
      intros (? & -> & ?)%list_elem_of_fmap. by eapply Hv. }
    assert (∀ i, i < length (op_results o1) →
                 σ4 (σ3 (σ2 (σ1 (OpResult a1 i)))) = OpResult n i) as Hhit3.
    { intros i Hi. rewrite Hσ1r, Hσ2r.
      assert (σ3 (OpResult a1 i) = OpResult n i) as ->.
      { unfold σ3. rewrite take_getResults. unfold getResults.
        cbn [op_results removeBlockFromRegions mapOperands]. rewrite length_app.
        apply (substList_range_hit (OpResult a1) (OpResult n)) with (s := 0) (t := 0);
          try lia.
        - by intros ?? [=].
        - intros ?? [=]. lia. }
      apply Hσ4o. simpl. intros [=]. lia. }
    assert (∀ j, j < length (op_results o2) →
                 σ4 (σ3 (σ2 (σ1 (OpResult a2 j))))
                 = OpResult n (length (op_results o1) + j)) as Hhit4.
    { intros j Hj. rewrite Hσ1r, Hσ2r. rewrite Hσ3o by (simpl; congruence).
      unfold σ4. rewrite take_back_getResults. unfold getResults.
      cbn [op_results removeBlockFromRegions mapOperands]. rewrite length_app.
      replace (length (op_results o1) + length (op_results o2) - length (op_results o2))
        with (length (op_results o1)) by lia.
      rewrite <- (Nat.add_0_l j) at 1.
      apply (substList_range_hit (OpResult a2) (OpResult n)); try lia.
      - by intros ?? [=].
      - intros ?? [=]. lia. }
    assert (∀ i, i < length args1 → i < length (op_operands o1) →
                 σ4 (σ3 (σ2 (σ1 (BlockArgument b1 i)))) = BlockArgument nb i) as Hhit1.
    { intros i Hi1 Hi2.
      assert (σ1 (BlockArgument b1 i) = BlockArgument nb i) as ->.
      { unfold σ1. rewrite take_seq_fmap.
        apply (substList_range_hit (BlockArgument b1) (BlockArgument nb)) with (s := 0) (t := 0).
        - by intros ?? [=].
        - intros ?? [=]. lia.
        - lia.
        - rewrite length_fmap, length_app. lia. }
      rewrite Hσ2o by (intros j [=]; lia). by rewrite Hσ3a, Hσ4a. }
    assert (∀ j, j < length args2 → j < length (op_operands o2) →
                 σ4 (σ3 (σ2 (σ1 (BlockArgument b2 j))))
                 = BlockArgument nb (length (op_operands o1) + j)) as Hhit2.
    { intros j Hj1 Hj2. rewrite Hσ1o by (intros i [=]; congruence).
      assert (σ2 (BlockArgument b2 j) = BlockArgument nb (length (op_operands o1) + j)) as ->.
      { unfold σ2. unfold take_back. rewrite !length_fmap, length_seq, length_app.
        rewrite <- fmap_drop, drop_seq.
        replace (length (op_operands o1) + length (op_operands o2) - length (op_operands o2))
          with (length (op_operands o1)) by lia.
        rewrite <- (Nat.add_0_l j) at 1. rewrite Nat.add_0_l at 1.
        apply (substList_range_hit (BlockArgument b2) (BlockArgument nb)).
        - by intros ?? [=].
        - intros ?? [=]. lia.
        - lia.
        - lia. }
      by rewrite Hσ3a, Hσ4a. }
    assert (∀ x i, x ≠ a1 → x ≠ a2 →
                   σ4 (σ3 (σ2 (σ1 (OpResult x i)))) = OpResult x i) as Hres.
    { intros x i Hx1 Hx2. rewrite Hσ1r, Hσ2r.
      rewrite Hσ3o by (simpl; congruence). apply Hσ4o. simpl. congruence. }
    clearbody σ1 σ2 σ3 σ4.
    constructor; cbn [ir_ops ir_blocks ir_nextOp ir_nextBlock Nat.add].
    + reflexivity.
    + repeat constructor; lookup_tac; reflexivity.
    + intros id Hid. lookup_tac.
      destruct (ops !! id) as [o|] eqn:Hoid; [|done].
      pose proof (Hfresh _ _ Hoid). cbn beta in *. lia.
    + intros id Hnone Hid.
      assert (id ≠ a1 ∧ id ≠ a2 ∧ id ≠ r1 ∧ id ≠ r2) as (? & ? & ? & ?)
        by (split_and!; intros ->; congruence).
      lookup_tac. by rewrite Hnone.
    + intros u ou Hu Hx. pose proof (Hfresh _ _ Hu). cbn beta in *.
      repeat (apply not_elem_of_cons in Hx as [? Hx]).
      lookup_tac. destruct ou. op_tac. do 2 f_equal.
      rewrite <- !list_fmap_compose. done.
    + lookup_tac. op_tac. do 2 f_equal. rewrite <- !list_fmap_compose. done.
    + lookup_tac. op_tac. do 2 f_equal. rewrite !fmap_app, <- !list_fmap_compose. done.
    + lookup_tac. list_tac. filter_tac. done.
    + exact Hhit3.
    + exact Hhit4.
    + exact Hhit1.
    + exact Hhit2.
    + intros v Hv1 Hv2 Hv3 Hv4. rewrite Hσ1o, Hσ2o, Hσ3o by done. by apply Hσ4o.
Qed.
End FuseRun.

(** ** Symbolic run of [addEmptyStores] and [mirrorExtraResults] *)

Lemma lookup_insertStores_lt id es ops id' :
  id' < id → insertStores id es ops !! id' = ops !! id'.
Proof.
  revert id ops. induction es as [|e es IH]; intros id ops H; [done|].
  simpl. rewrite IH by lia. by rewrite lookup_insert_ne by lia.
Qed.

Lemma lookup_insertStores_ge id es ops id' :
  id + length es ≤ id' → insertStores id es ops !! id' = ops !! id'.
Proof.
  revert id ops. induction es as [|e es IH]; intros id ops H; [done|].
  simpl in *. rewrite IH by lia. by rewrite lookup_insert_ne by lia.
Qed.

Lemma lookup_insertStores_hit id es ops i e :
  es !! i = Some e → insertStores id es ops !! (id + i) = Some (emptyStore e).
Proof.
  revert id ops i. induction es as [|e' es IH]; intros id ops i H; [done|].
  destruct i as [|i]; simpl in *.
  - injection H as ->. rewrite lookup_insertStores_lt by lia.
    rewrite Nat.add_0_r. by rewrite lookup_insert_eq.
  - replace (id + S i) with (S id + i) by lia. by apply IH.
Qed.

Lemma lookup_placeStores_None r id k blocks b :
  blocks !! b = None → placeStores r id k blocks !! b = None.
Proof.
  revert id blocks. induction k as [|k IH]; intros id blocks H; [done|].
  simpl. apply IH. by rewrite lookup_fmap, H.
Qed.

Lemma lookup_placeStores_notin r id k blocks b args l :
  blocks !! b = Some (mkBlock args l) → r ∉ l →
  placeStores r id k blocks !! b = Some (mkBlock args l).
Proof.
  revert id blocks. induction k as [|k IH]; intros id blocks H Hr; [done|].
  simpl. apply IH; [|done]. rewrite lookup_fmap, H. simpl.
  unfold setBlockOps. simpl. by rewrite insertBefore_notin.
Qed.

Lemma lookup_placeStores_in r id k blocks b args pre :
  blocks !! b = Some (mkBlock args (pre ++ [r])) → r ∉ pre → r < id →
  placeStores r id k blocks !! b = Some (mkBlock args (pre ++ seq id k ++ [r])).
Proof.
  revert id blocks pre. induction k as [|k IH]; intros id blocks pre H Hr Hid; [done|].
  simpl. rewrite (IH (S id) _ (pre ++ [id])).
  - by rewrite <- app_assoc.
  - rewrite lookup_fmap, H. simpl. unfold setBlockOps. simpl.
    rewrite insertBefore_in by done. by rewrite <- app_assoc.
  - apply not_elem_of_snoc; [done|lia].
  - lia.
Qed.

Lemma mapM_Outcome_Forall2 {A B} (f : A → Outcome B) (l : list A) (k : list B) :
  Forall2 (λ x y, f x = Ok y) l k → mapM f l = Ok k.
Proof.
  induction 1 as [|x y l k H _ IH]; [done|].
  simpl. rewrite H. simpl. rewrite IH. done.
Qed.

Lemma storeOperands_S id uf k :
  storeOperands id uf (S k) = replicate uf (OpResult id 0) ++ storeOperands (S id) uf k.
Proof.
  unfold storeOperands. simpl. rewrite Nat.add_0_r. f_equal. f_equal.
  rewrite <- fmap_S_seq, <- list_fmap_compose. apply list_fmap_ext.
  intros ???. simpl. do 2 f_equal. lia.
Qed.

(** The store loop of [addEmptyStores]. *)
Lemma forM_stores (uf : nat) (r : nat) (vs : list Value) (es : list ElementType) :
  ∀ ops blocks n nb d,
  Forall2 (λ v e, tempElementType (getType (mkIR ops blocks n nb) v) = Ok e) vs es →
  Forall (λ v, ∃ y i, v = OpResult y i ∧ y < n) vs →
  ∃ stores,
    forM (λ operand,
        e ← query (λ ir, tempElementType (getType ir operand));
        resultOp ← createOperation StoreResultOp [] [ResultType e] [];
        mret (replicate uf (OpResult resultOp 0))) vs
      (mkRewriter (mkIR ops blocks n nb) (IPBefore r) d)
    = Ok (stores,
          mkRewriter (mkIR (insertStores n es ops) (placeStores r n (length es) blocks)
                           (n + length es) nb) (IPBefore r) d) ∧
    concat stores = storeOperands n uf (length es).
Proof.
  intros ops blocks n nb d H. revert ops blocks n H.
  induction vs as [|v vs IH] in es |- *; intros ops blocks n H Hvs.
  - apply Forall2_nil_inv_l in H as ->. eexists. split; [simpl; by rewrite Nat.add_0_r|done].
  - apply Forall2_cons_inv_l in H as (e & es' & He & H & ->).
    apply Forall_cons in Hvs as [Hv Hvs].
    edestruct (IH es' (<[n := emptyStore e]> ops)
                 (setBlockOps (insertBefore r n) <$> blocks) (S n)) as (stores & Hrun & Hst).
    + eapply Forall2_impl; [|intros ?? Hx; exact Hx].
      apply Forall2_same_length_lookup. apply Forall2_same_length_lookup in H as [Hlen H].
      split; [done|]. intros i x y Hx Hy. rewrite <- (H i x y Hx Hy).
      rewrite Forall_lookup in Hvs. destruct (Hvs i x Hx) as (y' & j & -> & Hlt).
      simpl. by rewrite lookup_insert_ne by lia.
    + eapply Forall_impl; [exact Hvs|]. intros ? (y & i & -> & ?). eexists _, _.
      split; [done|lia].
    + eexists. split.
      * cbn [forM]. erewrite run_bind.
        2:{ erewrite run_bind; [|apply run_query; cbn [rw_ir]; exact He].
            erewrite run_bind by reflexivity. reflexivity. }
        cbn [rw_ir ir_ops ir_blocks ir_nextOp ir_nextBlock rw_ip rw_diags placeOp].
        erewrite run_bind by exact Hrun. cbn [mret M_ret length].
        replace (n + S (length es')) with (S n + length es') by lia. reflexivity.
      * simpl. rewrite Hst. by rewrite storeOperands_S.
Qed.

Lemma unchanged_operation (σ : Value → Value) b o :
  σ <$> op_operands o = op_operands o → op_regions o = [] →
  removeBlockFromRegions b (mapOperands σ o) = o.
Proof. destruct o. unfold removeBlockFromRegions, mapOperands. simpl. by intros -> ->. Qed.

Section AddEmptyStoresRun.
Context (ops : gmap nat Operation) (blocks : gmap nat Block) (n nb : nat)
        (ip : InsertPoint) (diags : list Diagnostic).
Context (x : ApplyBody) (range : Operation → list Value) (c : nat) (oc : Operation)
        (es : list ElementType).

Local Abbreviation ir0 := (mkIR ops blocks n nb).
Local Abbreviation a := (ab_op x).
Local Abbreviation oa := (ab_apply x).
Local Abbreviation b := (ab_block x).
Local Abbreviation r := (ab_returnOp x).
Local Abbreviation ret := (ab_return x).
Local Abbreviation body := (ab_body x).
Local Abbreviation args := (ab_args x).

Hypothesis Halloc : Allocated ir0.
Hypothesis Hx : ApplyBodyIn ir0 x.
Hypothesis Hdistinct : NoDup (a :: r :: body).
Hypothesis Hc : ops !! c = Some oc.
Hypothesis Hcr : c ≠ r.
Hypothesis Hcregions : op_regions oc = [].
Hypothesis Hcops : Forall (λ v, is_Some (getDefiningOp v)) (op_operands oc).
Hypothesis Hrange : Forall (λ v, is_Some (getDefiningOp v)) (range oc).
Hypothesis Htypes :
  Forall2 (λ v e, tempElementType (getType ir0 v) = Ok e) (range oc) es.

Lemma addEmptyStores_run :
  ∃ σ s',
    MirrorRewrite.addEmptyStores a range c (mkRewriter ir0 ip diags) = Ok (n, s') ∧
    rw_diags s' = diags ∧
    EmptyStoresResult ir0 x es σ (rw_ir s').
Proof using All.
  destruct Halloc as [Hfresh Hfreshb].
  destruct Hx as [Ha HaA Hreg Hb Hr Hret Hrreg Hbody _ Hargs Hres].
  cbn [ir_ops ir_blocks ir_nextOp ir_nextBlock] in *.
  pose proof (Hfresh _ _ Ha). pose proof (Hfresh _ _ Hc).
  pose proof (Hfresh _ _ Hr). pose proof (Hfreshb _ _ Hb).
  cbn beta in *.
  apply NoDup_cons in Hdistinct as [Har Hnd]. apply NoDup_cons in Hnd as [Hrb Hnd].
  apply not_elem_of_cons in Har as [Har Hab].
  assert (a ∉ body ++ [r]) by (by apply not_elem_of_snoc).
  assert (Forall (λ y, y < n) body) as Hlt.
  { eapply Forall_impl; [exact Hbody|]. intros y [oy Hy]. exact (Hfresh _ _ Hy). }
  assert (Forall (λ v, ∃ y i, v = OpResult y i ∧ y < n) (range oc)) as Hvs.
  { apply Forall_forall. intros v Hv.
    pose proof (proj1 (Forall_forall _ _) Hrange v Hv) as [y Hy].
    apply list_elem_of_lookup in Hv as [i Hi].
    destruct (Forall2_lookup_l _ _ _ _ _ Htypes Hi) as (e & _ & He).
    destruct v as [y' j|]; [|done]. exists y', j. split; [done|].
    simpl in He. destruct (ops !! y') as [oy|] eqn:Hoy; [|done].
    exact (Hfresh _ _ Hoy). }
  eexists ?[σ], _. split; [|split].
  - unfold MirrorRewrite.addEmptyStores.
    q_known.
    qstep ltac:(erewrite getOperation_Some by eassumption; cbn [mbind Outcome_bind];
                apply (mapM_Outcome_Forall2 _ _
                         ((λ e, TempType e
                                  (applyFunElementWise (getUB (op_kind oa))
                                     (getLB (op_kind oa)) Z.sub)) <$> es));
                rewrite Forall2_fmap_r; eapply Forall2_impl; [exact Htypes|];
                intros v e He; cbn beta; rewrite He; reflexivity).
    rstep. rstep.
    q_body.
    q_body.
    q_arguments.
    cbn [blk_args setBlockOps].
    r_merge args (body ++ [r]).
    qstep ltac:(eapply (getReturnOp_Some _ _ _ _ _ _ body r);
                [lookup_tac; reflexivity | regions_tac; reflexivity
                | lookup_tac; reflexivity | reflexivity
                | lookup_tac; reflexivity | exact Hret]).
    rstep.
    qstep ltac:(erewrite getOperation_Some by (lookup_tac; reflexivity); reflexivity).
    qstep ltac:(erewrite getOperation_Some by (lookup_tac; reflexivity);
                cbn [fmap Outcome_fmap]; reflexivity).
    match goal with
    | |- context [mapOperands (substList ?L) ret] =>
        assert (substList L <$> op_operands oc = op_operands oc) as Hσc
    end.
    { apply substList_fmap_id. eapply Forall_impl; [exact Hcops|].
      intros v [y Hy]. apply substList_notin.
      intros (? & -> & ?)%list_elem_of_fmap. done. }
    rewrite (unchanged_operation _ b oc Hσc Hcregions).
    cbn [op_kind op_operands removeBlockFromRegions mapOperands].
    match goal with
    | |- (forM _ _ ≫= _) (mkRewriter (mkIR ?OPS ?BLOCKS _ _) _ _) = _ =>
        destruct (forM_stores (Z.to_nat (ReturnOp.getUnrollFac (op_kind ret)))
                    r (range oc) es OPS BLOCKS (S n) (S nb) diags)
          as (stores & Hrun & Hst)
    end.
    { apply Forall2_same_length_lookup. split; [by eapply Forall2_length|].
      intros i v e Hv He.
      destruct (Forall2_lookup_l _ _ _ _ _ Htypes Hv) as (e' & He' & Hty).
      assert (e' = e) as -> by congruence. rewrite <- Hty. f_equal.
      destruct (proj1 (Forall_lookup _ _) Hvs i v Hv) as (y & j & -> & Hy).
      cbn [getType ir_ops]. lookup_tac. destruct (ops !! y) as [[]|]; reflexivity. }
    { eapply Forall_impl; [exact Hvs|]. intros v (y & i & -> & Hy).
      eexists _, _. split; [done|lia]. }
    erewrite run_bind by exact Hrun. rewrite Hst. clear Hrun Hst stores.
    rstep.
    erewrite run_bind;
      [|eapply eraseOp_noresults_run;
        [rewrite lookup_insert_ne by fast_lia;
         rewrite lookup_insertStores_lt by fast_lia; lookup_tac; reflexivity
        | regions_tac; reflexivity
        | results_tac]].
    reflexivity.
  - reflexivity.
  - cbn [rw_ir].
    match goal with
    | |- context [mapOperands (substList ?L) <$> _] =>
        instantiate (σ := substList L); set (σ := substList L)
    end.
    assert (∀ v, (∀ i, v ≠ BlockArgument b i) → σ v = v) as Hσo.
    { intros v Hv. apply substList_notin.
      intros (? & -> & ?)%list_elem_of_fmap. by eapply Hv. }
    assert (∀ i, i < length args → i < length (op_operands oa) →
                 σ (BlockArgument b i) = BlockArgument nb i) as Hhit.
    { intros i Hi1 Hi2. unfold σ.
      apply (substList_range_hit (BlockArgument b) (BlockArgument nb)) with (s := 0) (t := 0).
      - by intros ?? [=].
      - intros ?? [=]. lia.
      - lia.
      - rewrite length_fmap. lia. }
    assert (∀ v, getDefiningOp (σ v) = getDefiningOp v) as Hσd.
    { intros v. unfold σ.
      match goal with
      | |- context [substList (zip ?froms ?tos)] =>
          destruct (substList_cases froms tos v) as [->|Hin]; [done|];
          destruct (decide (v ∈ froms)) as [Hv|Hv];
          [|by rewrite substList_notin by done]
      end.
      apply list_elem_of_fmap in Hin as (i & -> & _).
      by apply list_elem_of_fmap in Hv as (j & -> & _). }
    clearbody σ.
    constructor; cbn [ir_ops ir_blocks ir_nextOp ir_nextBlock].
    + lia.
    + reflexivity.
    + intros id Hid. rewrite lookup_delete_ne by fast_lia.
      rewrite lookup_insert_ne by fast_lia.
      rewrite lookup_insertStores_ge by fast_lia. lookup_tac.
      destruct (ops !! id) as [o|] eqn:Hoid; [|done].
      pose proof (Hfresh _ _ Hoid). cbn beta in *. lia.
    + intros b' Hb'. rewrite lookup_fmap, lookup_placeOp_before.
      rewrite lookup_placeStores_None; [done|]. lookup_tac.
      destruct (blocks !! b') as [o|] eqn:Hob; [|done].
      pose proof (Hfreshb _ _ Hob). cbn beta in *. lia.
    + intros id Hnone Hid. assert (id ≠ r) by (intros ->; congruence).
      rewrite lookup_delete_ne by done. rewrite lookup_insert_ne by fast_lia.
      rewrite lookup_insertStores_lt by fast_lia. lookup_tac. by rewrite Hnone.
    + by rewrite lookup_delete_eq.
    + intros u ou Hu Hur. pose proof (Hfresh _ _ Hu). cbn beta in *.
      rewrite lookup_delete_ne by done. rewrite lookup_insert_ne by fast_lia.
      rewrite lookup_insertStores_lt by fast_lia. lookup_tac. by destruct ou.
    + rewrite lookup_delete_ne by fast_lia. rewrite lookup_insert_ne by fast_lia.
      rewrite lookup_insertStores_lt by fast_lia. lookup_tac. op_tac. done.
    + intros i e Hi. pose proof (lookup_lt_Some _ _ _ Hi).
      rewrite lookup_delete_ne by fast_lia. rewrite lookup_insert_ne by fast_lia.
      by apply lookup_insertStores_hit.
    + rewrite lookup_delete_ne by fast_lia. by rewrite lookup_insert_eq.
    + rewrite lookup_fmap, lookup_placeOp_before.
      rewrite (lookup_placeStores_in _ _ _ _ _ (getType ir0 <$> op_operands oa) body);
        [| lookup_tac; reflexivity | done | fast_lia].
      cbn [fmap option_fmap option_map]. unfold setBlockOps. cbn [blk_args blk_ops].
      rewrite (app_assoc body). rewrite replace_terminator.
      * by rewrite <- app_assoc.
      * apply not_elem_of_app. split; [done|]. rewrite elem_of_seq. lia.
      * fast_lia.
    + rewrite lookup_fmap, lookup_placeOp_before.
      rewrite lookup_placeStores_None; [done|]. by rewrite lookup_delete_eq.
    + intros b' [bargs bops] Hb' Hne Hnota Hnotr. pose proof (Hfreshb _ _ Hb').
      cbn beta in *. cbn [blk_ops] in *.
      rewrite lookup_fmap, lookup_placeOp_before.
      rewrite (lookup_placeStores_notin _ _ _ _ _ bargs bops); [| |done].
      * cbn [fmap option_fmap option_map]. unfold setBlockOps. cbn [blk_args blk_ops].
        rewrite insertBefore_notin by done. by rewrite filter_ne_notin.
      * lookup_tac. unfold setBlockOps. cbn [blk_args blk_ops].
        by rewrite insertBefore_notin.
    + exact Hhit.
    + exact Hσo.
    + exact Hσd.
Qed.
End AddEmptyStoresRun.

Lemma appendOperandRange_run oldOp newOp o range acc s :
  ir_ops (rw_ir s) !! oldOp = Some o →
  Forall (λ v, ∃ i, v = OpResult oldOp i ∧ i < length (op_results o)) range →
  MirrorRewrite.appendOperandRange oldOp newOp range acc s
  = Ok (acc ++ (rerouted newOp <$> range), s).
Proof.
  intros Ho Hr. unfold MirrorRewrite.appendOperandRange.
  erewrite run_bind; [|apply run_query; unfold getOpResults;
                       by rewrite (getOperation_Some _ _ _ Ho)].
  erewrite run_bind; [reflexivity|]. apply run_query.
  apply mapM_Outcome_Forall2. rewrite Forall2_fmap_r.
  apply Forall_Forall2_diag. eapply Forall_impl; [exact Hr|].
  intros v (i & -> & Hi). cbn beta. by rewrite list_find_getResults.
Qed.

Lemma EmptyStoresResult_allocated ir x es σ ir' :
  EmptyStoresResult ir x es σ ir' → Allocated ir'.
Proof.
  intros R. split.
  - intros id o Hid. rewrite (esr_nextOp _ _ _ _ _ R).
    destruct (decide (id < 2 + length es + ir_nextOp ir)) as [|Hge]; [done|].
    rewrite (esr_fresh _ _ _ _ _ R) in Hid by lia. done.
  - intros b o Hb. rewrite (esr_nextBlock _ _ _ _ _ R).
    destruct (decide (b < 1 + ir_nextBlock ir)) as [|Hge]; [done|].
    rewrite (esr_blocks_fresh _ _ _ _ _ R) in Hb by lia. done.
Qed.

Lemma operation_eta o :
  op_regions o = [] → mkOperation (op_kind o) (op_operands o) (op_results o) [] = o.
Proof. destruct o. simpl. by intros ->. Qed.

Lemma storeOperands_results id uf k :
  Forall (λ v, ∃ y, v = OpResult y 0 ∧ id ≤ y < id + k) (storeOperands id uf k).
Proof.
  unfold storeOperands. apply Forall_concat. rewrite Forall_fmap.
  apply Forall_forall. intros i Hi%elem_of_seq. cbn.
  apply Forall_replicate. eexists. split; [done|lia].
Qed.

Lemma take_back_app_length {A} (l k : list A) m : length k = m → take_back m (l ++ k) = k.
Proof.
  intros <-. unfold take_back. rewrite length_app.
  replace (length l + length k - length k) with (length l) by lia.
  by rewrite drop_app_length.
Qed.

(** [addEmptyStores] adds no user of the results of another operation. *)
Lemma EmptyStoresResult_usedOnlyBy ir x es σ ir' op users :
  EmptyStoresResult ir x es σ ir' → ApplyBodyIn ir x →
  op < ir_nextOp ir → ab_op x ∉ users → ab_returnOp x ∉ users →
  usedOnlyBy (ir_ops ir) op users → usedOnlyBy (ir_ops ir') op users.
Proof.
  intros R Hx Hop Hnu1 Hnu2 H u ou' Hou'.
  assert (∀ l, Forall (λ v, getDefiningOp v ≠ Some op) l →
               Forall (λ v, getDefiningOp v ≠ Some op) (σ <$> l)) as Hσ.
  { intros l Hl. rewrite Forall_fmap. eapply Forall_impl; [exact Hl|].
    intros v Hv. cbn. by rewrite (esr_subst_defining _ _ _ _ _ R). }
  destruct (decide (2 + length es + ir_nextOp ir ≤ u)) as [Hge|Hlt].
  { rewrite (esr_fresh _ _ _ _ _ R) in Hou' by done. done. }
  destruct (decide (u < ir_nextOp ir)) as [Hold|Hnew].
  - destruct (ir_ops ir !! u) as [ou|] eqn:Hu.
    + destruct (decide (u = ab_returnOp x)) as [->|Hne].
      { rewrite (esr_erased _ _ _ _ _ R) in Hou'. done. }
      rewrite (esr_kept _ _ _ _ _ R _ _ Hu Hne) in Hou'. injection Hou' as <-.
      cbn [op_operands]. destruct (H u ou Hu) as [?|HF]; [by left|right]. by apply Hσ.
    + rewrite (esr_absent _ _ _ _ _ R) in Hou' by done. done.
  - right. destruct (decide (u = ir_nextOp ir)) as [->|Hne1].
    { rewrite (esr_apply _ _ _ _ _ R) in Hou'. injection Hou' as <-.
      cbn [op_operands]. apply Hσ.
      exact (usedOnlyBy_operands _ _ _ _ _ H (abi_op _ _ Hx) Hnu1). }
    destruct (decide (u = S (ir_nextOp ir) + length es)) as [->|Hne2].
    { rewrite (esr_return _ _ _ _ _ R) in Hou'. injection Hou' as <-.
      cbn [op_operands]. apply Forall_app_2.
      - apply Hσ. exact (usedOnlyBy_operands _ _ _ _ _ H (abi_returnOp _ _ Hx) Hnu2).
      - eapply Forall_impl; [apply storeOperands_results|].
        intros v (y & -> & Hy). cbn. intros [=]. lia. }
    assert (∃ i, u = S (ir_nextOp ir) + i ∧ i < length es) as (i & -> & Hi).
    { exists (u - S (ir_nextOp ir)). lia. }
    destruct (lookup_lt_is_Some_2 es i Hi) as [e He].
    rewrite (esr_store _ _ _ _ _ R _ _ He) in Hou'. injection Hou' as <-.
    constructor.
Qed.

Ltac mnotin_tac :=
  repeat first
    [ assumption
    | apply not_elem_of_nil
    | apply not_elem_of_app; split
    | apply not_elem_of_cons; split
    | rewrite elem_of_seq; fast_lia
    | ne_tac ].

Section MirrorRun.
Context (ops : gmap nat Operation) (blocks : gmap nat Block) (n nb : nat)
        (diags : list Diagnostic).
Context (c : nat) (oc : Operation) (lower upper : ApplyBody)
        (es1 es2 : list ElementType).

Local Abbreviation ir0 := (mkIR ops blocks n nb).
Local Abbreviation a := (ab_op lower).
Local Abbreviation b := (ab_op upper).
Local Abbreviation oa := (ab_apply lower).
Local Abbreviation ob := (ab_apply upper).
Local Abbreviation ba := (ab_block lower).
Local Abbreviation bb := (ab_block upper).
Local Abbreviation ra := (ab_returnOp lower).
Local Abbreviation rb := (ab_returnOp upper).
Local Abbreviation reta := (ab_return lower).
Local Abbreviation retb := (ab_return upper).
Local Abbreviation bodya := (ab_body lower).
Local Abbreviation bodyb := (ab_body upper).
Local Abbreviation argsa := (ab_args lower).
Local Abbreviation argsb := (ab_args upper).

Hypothesis Hsite : CombineSite ir0 c oc lower upper.
Hypothesis Hoperands :
  op_operands oc
  = CombineOp.lower oc ++ CombineOp.upper oc
      ++ CombineOp.lowerext oc ++ CombineOp.upperext oc.
Hypothesis Hlower : Forall (resultOf lower) (CombineOp.lower oc ++ CombineOp.lowerext oc).
Hypothesis Hupper : Forall (resultOf upper) (CombineOp.upper oc ++ CombineOp.upperext oc).
Hypothesis Htypes1 :
  Forall2 (λ v e, tempElementType (getType ir0 v) = Ok e) (CombineOp.upperext oc) es1.
Hypothesis Htypes2 :
  Forall2 (λ v e, tempElementType (getType ir0 v) = Ok e) (CombineOp.lowerext oc) es2.
Hypothesis Huseda : usedOnlyBy ops a [c].
Hypothesis Husedb : usedOnlyBy ops b [c].

Lemma mirrorExtraResults_run :
  ∃ σ s',
    MirrorRewrite.mirrorExtraResults a b c (mkRewriter ir0 (IPBefore c) diags)
    = Ok (success, s') ∧
    rw_diags s' = diags ∧
    MirrorResult ir0 c oc lower upper es1 es2 σ (rw_ir s').
Proof using All.
  pose proof Hsite as [Halloc Hc Hcomb Hcreg Hx1 Hx2 Hbne Hdistinct].
  pose proof Halloc as [Hfresh Hfreshb].
  pose proof Hx1 as [Ha HaA Hrega Hba Hra Hreta Hrrega Hbodya Hreturneda Hargsa Hresa].
  pose proof Hx2 as [Hb HbA Hregb Hbb Hrb Hretb Hrregb Hbodyb Hreturnedb Hargsb Hresb].
  cbn [ir_ops ir_blocks ir_nextOp ir_nextBlock] in *.
  pose proof (Hfresh _ _ Ha). pose proof (Hfresh _ _ Hb). pose proof (Hfresh _ _ Hc).
  pose proof (Hfresh _ _ Hra). pose proof (Hfresh _ _ Hrb).
  pose proof (Hfreshb _ _ Hba). pose proof (Hfreshb _ _ Hbb).
  cbn beta in *.
  destruct (NoDup_handles _ _ _ _ _ _ _ Hdistinct) as (Hne & Hnin & Hnda & Hndb & Hdisj).
  repeat rewrite Forall_cons in Hnin. destruct_and!.
  apply Forall_app in Hlower as [Hlow Hlowext].
  apply Forall_app in Hupper as [Hupp Huppext].
  assert (Forall (λ v, is_Some (getDefiningOp v)) (op_operands oc)) as Hcops.
  { rewrite Hoperands. rewrite !Forall_app. split_and!;
      (eapply Forall_impl; [eassumption|]; by intros v (i & -> & _)). }
  assert (∀ (σ : Value → Value) x, Forall (λ v, is_Some (getDefiningOp v)) x →
            (∀ v, is_Some (getDefiningOp v) → σ v = v) → σ <$> x = x) as Hfix.
  { intros σ x Hx Hσ. apply substList_fmap_id. eapply Forall_impl; [exact Hx|]. done. }
  (* the lower apply op *)
  destruct (addEmptyStores_run ops blocks n nb (IPBefore c) diags lower
              CombineOp.upperext c oc es1) as (σ1 & s1 & Hrun1 & Hd1 & R1); try done.
  { repeat constructor; notin_tac. }
  { eapply Forall_impl; [exact Huppext|]. by intros v (i & -> & _). }
  destruct s1 as [[ops1 blocks1 n1 nb1] ip1 d1]. cbn [rw_ir rw_diags] in *. subst d1.
  pose proof (EmptyStoresResult_allocated _ _ _ _ _ R1) as Halloc1.
  assert ((a ∉ [c]) ∧ (b ∉ [c]) ∧ (ra ∉ [c]) ∧ (rb ∉ [c])) as (Hac & Hbc & Hrac & Hrbc).
  { split_and!; notin_tac. }
  pose proof (EmptyStoresResult_usedOnlyBy _ _ _ _ _ a [c] R1 Hx1 ltac:(done) Hac Hrac
                Huseda) as Huseda1.
  pose proof (EmptyStoresResult_usedOnlyBy _ _ _ _ _ b [c] R1 Hx1 ltac:(done) Hac Hrac
                Husedb) as Husedb1.
  destruct R1 as [Hn1 Hnb1 Hfresh1 Hbfresh1 Habsent1 Herased1 Hkept1 Happly1 Hstore1
                  Hreturn1 Hbody1 Hberased1 Hbkept1 Hσ1a Hσ1o Hσ1d].
  cbn [ir_ops ir_blocks ir_nextOp ir_nextBlock] in *. subst n1 nb1.
  assert (∀ v, is_Some (getDefiningOp v) → σ1 v = v) as Hσ1r.
  { intros [y i|] [? Hy]; [|done]. by apply Hσ1o. }
  (* the upper apply op *)
  set (upper' := mkApplyBody b (mkOperation (op_kind ob) (σ1 <$> op_operands ob)
                                  (op_results ob) [[bb]])
                   bb argsb bodyb rb (mapOperands σ1 retb)).
  assert (ops1 !! c = Some oc) as Hc1.
  { rewrite (Hkept1 _ _ Hc) by done. rewrite Hcreg. rewrite Hfix by done.
    cbn [fmap list_fmap]. by rewrite operation_eta. }
  assert (ApplyBodyIn (mkIR ops1 blocks1 (2 + length es1 + n) (1 + nb)) upper') as Hx2'.
  { constructor; unfold upper';
      cbn [ir_ops ir_blocks ab_op ab_apply ab_block ab_args ab_body
                      ab_returnOp ab_return op_kind op_regions mapOperands op_operands].
    - rewrite (Hkept1 _ _ Hb) by done. rewrite Hregb. by op_tac.
    - done.
    - done.
    - apply Hbkept1; [done|done|by notin_tac|by notin_tac].
    - rewrite (Hkept1 _ _ Hrb) by done. unfold mapOperands. rewrite Hrregb. done.
    - done.
    - done.
    - rewrite Forall_forall in Hbodyb |- *. intros y Hy.
      destruct (Hbodyb y Hy) as [oy Hoy]. rewrite (Hkept1 _ _ Hoy); [done|].
      intros ->. done.
    - rewrite Forall_fmap. eapply Forall_impl; [exact Hreturnedb|].
      intros v (y & i & -> & Hy). cbn. rewrite Hσ1o by done. eauto.
    - by rewrite length_fmap.
    - done. }
  destruct (addEmptyStores_run ops1 blocks1 (2 + length es1 + n) (1 + nb) ip1 diags upper'
              CombineOp.lowerext c oc es2) as (σ2 & s2 & Hrun2 & Hd2 & R2); try done.
  { repeat constructor; notin_tac. }
  { eapply Forall_impl; [exact Hlowext|]. by intros v (i & -> & _). }
  { apply Forall2_same_length_lookup. split; [by eapply Forall2_length|].
    intros i v e Hv He.
    destruct (Forall2_lookup_l _ _ _ _ _ Htypes2 Hv) as (e' & He' & Hty).
    assert (e' = e) as -> by congruence. rewrite <- Hty. f_equal.
    destruct (proj1 (Forall_lookup _ _) Hlowext i v Hv) as (j & -> & Hj).
    cbn [getType ir_ops]. rewrite (Hkept1 _ _ Ha) by done. by rewrite Ha. }
  destruct s2 as [[ops2 blocks2 n2 nb2] ip2 d2]. cbn [rw_ir rw_diags] in *. subst d2.
  pose proof (EmptyStoresResult_usedOnlyBy _ _ _ _ _ a [c] R2 Hx2' ltac:(cbn; fast_lia)
                Hbc Hrbc Huseda1) as Huseda2.
  pose proof (EmptyStoresResult_usedOnlyBy _ _ _ _ _ b [c] R2 Hx2' ltac:(cbn; fast_lia)
                Hbc Hrbc Husedb1) as Husedb2.
  destruct R2 as [Hn2 Hnb2 Hfresh2 Hbfresh2 Habsent2 Herased2 Hkept2 Happly2 Hstore2
                  Hreturn2 Hbody2 Hberased2 Hbkept2 Hσ2a Hσ2o Hσ2d].
  cbn [ir_ops ir_blocks ir_nextOp ir_nextBlock ab_op ab_apply ab_block ab_args ab_body
       ab_returnOp ab_return op_kind op_regions mapOperands op_operands op_results upper'] in *.
  subst n2 nb2.
  assert (∀ v, is_Some (getDefiningOp v) → σ2 v = v) as Hσ2r.
  { intros [y i|] [? Hy]; [|done]. by apply Hσ2o. }
  assert (ops2 !! c = Some oc) as Hc2.
  { rewrite (Hkept2 _ _ Hc1) by done. rewrite Hcreg. rewrite Hfix by done.
    cbn [fmap list_fmap]. by rewrite operation_eta. }
  pose proof (Hkept1 _ _ Ha ltac:(done)) as Ha1. rewrite Hrega in Ha1.
  pose proof (Hkept2 _ _ Ha1 ltac:(done)) as Ha2.
  pose proof (Hkept1 _ _ Hb ltac:(done)) as Hb1. rewrite Hregb in Hb1.
  pose proof (Hkept2 _ _ Hb1 ltac:(done)) as Hb2.
  pose proof (Hkept2 _ _ Happly1 ltac:(fast_lia)) as HnA.
  cbn [op_kind op_operands op_results op_regions fmap list_fmap] in Ha2, Hb2, HnA.
  rewrite filter_ne_singleton_eq, ?filter_nil in Ha2.
  rewrite (filter_ne_singleton bb ba), filter_ne_singleton_eq, ?filter_nil in Hb2 by done.
  rewrite (filter_ne_singleton nb bb) in HnA by fast_lia.
  assert (length (CombineOp.upperext oc) = length es1) as Hlen1 by (by eapply Forall2_length).
  assert (length (CombineOp.lowerext oc) = length es2) as Hlen2 by (by eapply Forall2_length).
  eexists (λ v, ?[σ3] (σ2 (σ1 v))), _. split; [|split].
  - unfold MirrorRewrite.mirrorExtraResults.
    erewrite run_bind by exact Hrun1. erewrite run_bind by exact Hrun2.
    q_known.
    erewrite run_bind; [|eapply appendOperandRange_run; [exact Ha2|exact Hlow]].
    erewrite run_bind; [|eapply appendOperandRange_run; [exact Hb2|exact Hupp]].
    erewrite run_bind; [|eapply appendOperandRange_run; [exact Ha2|exact Hlowext]].
    qstep ltac:(unfold getOpResults; erewrite getOperation_Some by eassumption; reflexivity).
    qstep ltac:(unfold getOpResults; erewrite getOperation_Some by eassumption; reflexivity).
    erewrite run_bind; [|eapply appendOperandRange_run; [exact Hb2|exact Huppext]].
    rstep. rstep.
    q_list.
    r_replace.
    r_erase_unused c Huseda2.
    r_erase_unused c Husedb2.
    reflexivity.
  - reflexivity.
  - cbn [rw_ir].
    match goal with
    | |- context [mapOperands (substList ?L) <$> <[_ := _]> ops2] =>
        instantiate (σ3 := substList L); set (σ3 := substList L)
    end.
    assert (∀ v, getDefiningOp v ≠ Some c → σ3 v = v) as Hσ3o.
    { intros v Hv. apply substList_notin. unfold getResults.
      intros (? & -> & ?)%list_elem_of_fmap. by apply Hv. }
    assert (∀ i, i < length (op_results oc) →
                 σ3 (OpResult c i) = OpResult (4 + length es1 + length es2 + n) i) as Hσ3c.
    { intros i Hi. unfold σ3, getResults. cbn [op_results].
      replace (2 + length es2 + (2 + length es1 + n))
        with (4 + length es1 + length es2 + n) by lia.
      apply (substList_range_hit (OpResult c) (OpResult _)) with (s := 0) (t := 0);
        try lia.
      - by intros ?? [=].
      - intros ?? [=]. lia. }
    assert (Forall (λ v, is_Some (getDefiningOp v) ∧ getDefiningOp v ≠ Some c)
              (storeOperands (1 + n) (Z.to_nat (ReturnOp.getUnrollFac (op_kind reta)))
                 (length es1))) as Hst1.
    { eapply Forall_impl; [apply storeOperands_results|].
      intros v (y & -> & Hy). split; [done|]. cbn. intros [=]. fast_lia. }
    assert (Forall (λ v, is_Some (getDefiningOp v) ∧ getDefiningOp v ≠ Some c)
              (storeOperands (3 + length es1 + n)
                 (Z.to_nat (ReturnOp.getUnrollFac (op_kind retb)))
                 (length es2))) as Hst2.
    { eapply Forall_impl; [apply storeOperands_results|].
      intros v (y & -> & Hy). split; [done|]. cbn. intros [=]. fast_lia. }
    clearbody σ3.
    constructor; cbn [ir_ops ir_blocks ir_nextOp ir_nextBlock].
    + lia.
    + repeat constructor; lookup_tac; try reflexivity.
      * rewrite (Habsent2 _ Herased1) by fast_lia. done.
      * rewrite Herased2. done.
    + intros id Hid. lookup_tac. rewrite Hfresh2 by fast_lia. done.
    + intros id Hnone Hid.
      assert (id ≠ c ∧ id ≠ a ∧ id ≠ b) as (? & ? & ?)
        by (split_and!; intros ->; congruence).
      lookup_tac. rewrite (Habsent2 id) by (try apply Habsent1; done || fast_lia). done.
    + intros u ou Hu Hx. pose proof (Hfresh _ _ Hu). cbn beta in *.
      repeat (apply not_elem_of_cons in Hx as [? Hx]).
      lookup_tac. rewrite (Hkept2 _ _ (Hkept1 _ _ Hu ltac:(done))) by done.
      cbn [fmap option_fmap option_map op_kind op_operands op_results op_regions].
      op_tac. do 2 f_equal. rewrite <- !list_fmap_compose. done.
    + cbv zeta.
      replace (4 + length es1 + length es2 + n)
        with (2 + length es2 + (2 + length es1 + n)) by lia.
      lookup_tac. op_tac. unfold getResults, emptyTypes. cbn [op_results].
      rewrite !length_app, !(length_fmap _ es1), !(length_fmap _ es2), Hlen1, Hlen2.
      rewrite !seq_app, !fmap_app.
      rewrite !take_back_app_length by (by rewrite length_fmap, length_seq).
      cbn [app Nat.add]. rewrite <- !app_assoc.
      f_equal. f_equal; [do 2 f_equal; cbn [length]; fast_lia|].
      cbn [fmap list_fmap app].
      repeat match goal with |- _ ++ _ = _ ++ _ => f_equal end;
        (apply substList_fmap_id; rewrite Forall_fmap; apply Forall_forall;
         intros v _; cbn; apply Hσ3o; cbn; intros [=]; fast_lia).
    + lookup_tac. unfold rebuiltApply, emptyTypes. op_tac. do 2 f_equal.
      rewrite <- !list_fmap_compose. done.
    + lookup_tac.
      unfold rebuiltApply, emptyTypes. op_tac. do 2 f_equal.
      rewrite <- !list_fmap_compose. done.
    + intros i e Hi. pose proof (lookup_lt_Some _ _ _ Hi).
      lookup_tac. change (1 + n + i) with (S n + i).
      rewrite (Hkept2 _ _ (Hstore1 _ _ Hi)) by fast_lia. done.
    + intros i e Hi. pose proof (lookup_lt_Some _ _ _ Hi).
      lookup_tac. replace (3 + length es1 + n + i) with (S (2 + length es1 + n) + i) by lia.
      rewrite (Hstore2 _ _ Hi). done.
    + lookup_tac. change (1 + n + length es1) with (S n + length es1).
      change (1 + n) with (S n) in *.
      rewrite (Hkept2 _ _ Hreturn1) by fast_lia.
      cbn [fmap option_fmap option_map op_kind op_operands op_results op_regions].
      op_tac. do 2 f_equal. rewrite !fmap_app, <- !list_fmap_compose. f_equal.
      apply substList_fmap_id. eapply Forall_impl; [exact Hst1|].
      intros v [Hv1 Hv2]. cbn. rewrite Hσ2r by done. by apply Hσ3o.
    + lookup_tac.
      replace (3 + length es1 + n + length es2)
        with (S (2 + length es1 + n) + length es2) by lia.
      rewrite Hreturn2. cbn [fmap option_fmap option_map].
      op_tac. do 2 f_equal. rewrite !fmap_app, <- !list_fmap_compose. f_equal.
      apply substList_fmap_id. eapply Forall_impl; [exact Hst2|].
      intros v [Hv1 Hv2]. by apply Hσ3o.
    + erewrite blockOps_Some.
      2:{ cbn [ir_blocks]. lookup_tac.
          rewrite (Hbkept2 _ _ Hbody1) by (cbn [blk_ops]; mnotin_tac). reflexivity. }
      unfold setBlockOps. cbn [blk_ops].
      rewrite insertBefore_notin by mnotin_tac.
      rewrite (filter_ne_notin c), (filter_ne_notin a), (filter_ne_notin b) by mnotin_tac.
      done.
    + erewrite blockOps_Some.
      2:{ cbn [ir_blocks]. lookup_tac. reflexivity. }
      unfold setBlockOps. cbn [blk_ops].
      rewrite insertBefore_notin by mnotin_tac.
      rewrite (filter_ne_notin c), (filter_ne_notin a), (filter_ne_notin b) by mnotin_tac.
      done.
    + intros i Hi. rewrite Hσ1o, Hσ2o by done. by apply Hσ3c.
    + intros i Hi1 Hi2. rewrite Hσ1a by done.
      rewrite Hσ2o by (intros j [=]; fast_lia). by apply Hσ3o.
    + intros i Hi1 Hi2. rewrite Hσ1o by (intros j [=]; done).
      rewrite Hσ2a by (by rewrite ?length_fmap). by apply Hσ3o.
    + intros v Hv1 Hv2 Hv3. rewrite Hσ1o, Hσ2o by done. by apply Hσ3o.
Qed.
End MirrorRun.

(** ** The IfElse rewrite *)

Lemma collectDefiningOps_spec acc vs :
  (∀ d, d ∈ acc → d ∈ CombineOp.collectDefiningOps acc vs) ∧
  (∀ v, v ∈ vs → getDefiningOp v ∈ CombineOp.collectDefiningOps acc vs).
Proof.
  unfold CombineOp.collectDefiningOps. revert acc.
  induction vs as [|v vs IH]; intros acc; simpl.
  - split; [done|]. intros v Hv. by apply elem_of_nil in Hv.
  - case_bool_decide as Hin.
    + destruct (IH acc) as [IH1 IH2]. split; [done|].
      intros w [->|Hw]%elem_of_cons; auto.
    + destruct (IH (acc ++ [getDefiningOp v])) as [IH1 IH2]. split.
      * intros d Hd. apply IH1. apply elem_of_app. by left.
      * intros w [->|Hw]%elem_of_cons; [|auto].
        apply IH1. apply elem_of_app. right. by apply list_elem_of_singleton.
Qed.

Lemma getLowerDefiningOps_single o d :
  CombineOp.getLowerDefiningOps o = [d] →
  Forall (λ v, getDefiningOp v = d) (CombineOp.lower o ++ CombineOp.lowerext o).
Proof.
  intros H. apply Forall_forall. intros v Hv.
  assert (getDefiningOp v ∈ CombineOp.getLowerDefiningOps o) as Hin.
  { unfold CombineOp.getLowerDefiningOps. apply elem_of_app in Hv as [Hv|Hv].
    - apply (proj1 (collectDefiningOps_spec _ _)).
      by apply (proj2 (collectDefiningOps_spec _ _)).
    - by apply (proj2 (collectDefiningOps_spec _ _)). }
  rewrite H in Hin. by apply list_elem_of_singleton in Hin.
Qed.

Lemma getUpperDefiningOps_single o d :
  CombineOp.getUpperDefiningOps o = [d] →
  Forall (λ v, getDefiningOp v = d) (CombineOp.upper o ++ CombineOp.upperext o).
Proof.
  intros H. apply Forall_forall. intros v Hv.
  assert (getDefiningOp v ∈ CombineOp.getUpperDefiningOps o) as Hin.
  { unfold CombineOp.getUpperDefiningOps. apply elem_of_app in Hv as [Hv|Hv].
    - apply (proj1 (collectDefiningOps_spec _ _)).
      by apply (proj2 (collectDefiningOps_spec _ _)).
    - by apply (proj2 (collectDefiningOps_spec _ _)). }
  rewrite H in Hin. by apply list_elem_of_singleton in Hin.
Qed.

Lemma dyn_cast_Some ir p op o :
  ir_ops ir !! op = Some o → p (op_kind o) = true → dyn_cast ir p (Some op) = Ok (Some op).
Proof.
  intros H1 H2. unfold dyn_cast, isa. rewrite (getOperation_Some _ _ _ H1). simpl.
  by rewrite H2.
Qed.

(** The IfElse pattern hands a combine op without extra operands and with
    one apply op on each side to [lowerStencilCombine]. *)
Lemma IfElseRewrite_matchAndRewrite_lowers ir c oc lower upper ip diags :
  CombineSite ir c oc lower upper →
  CombineOp.lowerext oc = [] → CombineOp.upperext oc = [] →
  CombineOp.getLowerDefiningOps oc = [Some (ab_op lower)] →
  CombineOp.getUpperDefiningOps oc = [Some (ab_op upper)] →
  applyPattern IfElseRewrite.matchAndRewrite c (mkRewriter ir ip diags)
  = IfElseRewrite.lowerStencilCombine (ab_op lower) (ab_op upper) c
      (mkRewriter ir (IPBefore c) diags).
Proof.
  intros Hsite Hle Hue Hl Hu.
  destruct Hsite as [_ Hc _ _ [Ha HaA _ _ _ _ _ _ _ _ _] [Hb HbA _ _ _ _ _ _ _ _ _] _ _].
  unfold applyPattern. rstep. unfold IfElseRewrite.matchAndRewrite.
  qstep ltac:(apply getOperation_Some; eassumption).
  rewrite Hle, Hue, Hl, Hu. cbn [negb orb bool_decide decide_rel]. 
  rewrite !bool_decide_true by done. cbn [negb orb].
  qstep ltac:(eapply dyn_cast_Some; eassumption).
  qstep ltac:(eapply dyn_cast_Some; eassumption).
  reflexivity.
Qed.

Lemma rebuiltApply_boundPair k : boundPair (rebuiltApply k) = boundPair k.
Proof.
  unfold boundPair, rebuiltApply. by destruct (lbAttr k) as [lb|], (ubAttr k) as [ub|].
Qed.

Lemma rebuiltApply_isApplyOp k : isApplyOp (rebuiltApply k) = true.
Proof. unfold rebuiltApply. by destruct (_ && _). Qed.

(** The run of the IfElse pattern on a combine op it accepts, in a graph
    that meets the assertions of the rewrite and of the rewriter. *)
Lemma IfElseRewrite_matchAndRewrite_run ir c oc lower upper ip diags :
  CombineSite ir c oc lower upper →
  CombineOp.lowerext oc = [] → CombineOp.upperext oc = [] →
  CombineOp.getLowerDefiningOps oc = [Some (ab_op lower)] →
  CombineOp.getUpperDefiningOps oc = [Some (ab_op upper)] →
  unrollMismatch (op_kind (ab_return lower)) (op_kind (ab_return upper)) = Ok false →
  getType ir <$> op_operands (ab_return lower)
  = getType ir <$> op_operands (ab_return upper) →
  op_operands (ab_return lower) ≠ [] →
  usedOnlyBy (ir_ops ir) (ab_op lower) [c] → usedOnlyBy (ir_ops ir) (ab_op upper) [c] →
  Forall (resultOf lower) (CombineOp.lower oc) →
  Forall (resultOf upper) (CombineOp.upper oc) →
  ReturnTyped ir lower → ReturnTyped ir upper →
  ∃ σ s',
    applyPattern IfElseRewrite.matchAndRewrite c (mkRewriter ir ip diags)
    = Ok (success, s') ∧
    rw_diags s' = diags ∧
    IfElseResult ir c oc lower upper σ (rw_ir s').
Proof.
  intros Hsite Hle Hue Hl Hu Hunroll Htypes Hne Huseda Husedb Hlow Hupp Hrt1 Hrt2.
  rewrite (IfElseRewrite_matchAndRewrite_lowers _ _ _ _ _ _ _ Hsite Hle Hue Hl Hu).
  destruct ir as [ops blocks n nb].
  apply (lowerStencilCombine_run ops blocks n nb diags c oc lower upper); try done.
  - exact (rt_count _ _ Hrt1).
  - exact (rt_count _ _ Hrt2).
Qed.

(** C1: on a combine op without extra operands whose lower and upper
    operands are produced by one apply op each, with matching unroll
    configurations (and, as the rewrite asserts, return ops of the same,
    non-empty operand types), in a well-formed graph (the operands of the
    combine op are results of the two apply ops, whose return ops are typed
    as their verifier demands; no operation but the combine op uses the
    results of the two apply ops, which [eraseOp] asserts when it erases
    them), the IfElse rewrite succeeds; the combine op
    is gone; the only apply op created is the one with the next handle,
    which carries the bound pair and the result types of the combine op
    and takes over the uses of its results; its body is the index op
    along the dimension of the combine op at offset [0,0,0], the constant
    split index, their unsigned-less-than comparison, the conditional and
    the return op; the two branches of the conditional hold the
    operations of the bodies of the lower and of the upper apply op,
    closed by a yield. *)
Theorem ifElse_replaces_combine ir c oc lower upper ip diags :
  CombineSite ir c oc lower upper →
  CombineOp.lowerext oc = [] → CombineOp.upperext oc = [] →
  CombineOp.getLowerDefiningOps oc = [Some (ab_op lower)] →
  CombineOp.getUpperDefiningOps oc = [Some (ab_op upper)] →
  unrollMismatch (op_kind (ab_return lower)) (op_kind (ab_return upper)) = Ok false →
  getType ir <$> op_operands (ab_return lower)
  = getType ir <$> op_operands (ab_return upper) →
  op_operands (ab_return lower) ≠ [] →
  usedOnlyBy (ir_ops ir) (ab_op lower) [c] → usedOnlyBy (ir_ops ir) (ab_op upper) [c] →
  Forall (resultOf lower) (CombineOp.lower oc) →
  Forall (resultOf upper) (CombineOp.upper oc) →
  ReturnTyped ir lower → ReturnTyped ir upper →
  ∃ s',
    applyPattern IfElseRewrite.matchAndRewrite c (mkRewriter ir ip diags)
    = Ok (success, s') ∧
    let ir' := rw_ir s' in
    let newOp := ir_nextOp ir in
    let body := ir_nextBlock ir in
    ir_ops ir' !! c = None ∧
    ir_ops ir' !! ab_op lower = None ∧ ir_ops ir' !! ab_op upper = None ∧
    (∀ id o, ir_ops ir !! id = None → ir_ops ir' !! id = Some o →
             isApplyOp (op_kind o) = true → id = newOp) ∧
    (∃ apply,
        ir_ops ir' !! newOp = Some apply ∧ isApplyOp (op_kind apply) = true ∧
        boundPair (op_kind apply) = boundPair (op_kind oc) ∧
        op_results apply = op_results oc ∧ op_regions apply = [[body]]) ∧
    (∀ u ou p i,
        ir_ops ir !! u = Some ou →
        u ∉ [c; ab_op lower; ab_op upper; ab_returnOp lower; ab_returnOp upper] →
        op_operands ou !! p = Some (OpResult c i) → i < length (op_results oc) →
        ∃ ou', ir_ops ir' !! u = Some ou' ∧ op_operands ou' !! p = Some (OpResult newOp i)) ∧
    (∃ indexOp constOp cmpOp ifOp returnOp thenBlock elseBlock lowerYield upperYield,
        blockOps ir' body = [indexOp; constOp; cmpOp; ifOp; returnOp] ∧
        ir_ops ir' !! indexOp
        = Some (mkOperation (IndexOp (CombineOp.dim (op_kind oc)) [0; 0; 0]%Z)
                  [] [IndexType] []) ∧
        ir_ops ir' !! constOp
        = Some (mkOperation (ConstantOp (CombineOp.index (op_kind oc))) [] [IndexType] []) ∧
        ir_ops ir' !! cmpOp
        = Some (mkOperation (CmpIOp ult) [OpResult indexOp 0; OpResult constOp 0]
                  [I1Type] []) ∧
        (∃ types, ir_ops ir' !! ifOp
                  = Some (mkOperation IfOp [OpResult cmpOp 0] types
                            [[thenBlock]; [elseBlock]])) ∧
        (∃ ret, ir_ops ir' !! returnOp = Some ret ∧ isReturnOp (op_kind ret) = true) ∧
        blockOps ir' thenBlock = ab_body lower ++ [lowerYield] ∧
        blockOps ir' elseBlock = ab_body upper ++ [upperYield] ∧
        op_kind <$> ir_ops ir' !! lowerYield = Some YieldOp ∧
        op_kind <$> ir_ops ir' !! upperYield = Some YieldOp ∧
        ∀ y, y ∈ ab_body lower ++ ab_body upper →
             is_Some (ir_ops ir !! y) ∧
             op_kind <$> ir_ops ir' !! y = op_kind <$> ir_ops ir !! y).
Proof.
  intros Hsite Hle Hue Hl Hu Hunroll Htypes Hne Huseda Husedb Hlow Hupp Hrt1 Hrt2.
  destruct (IfElseRewrite_matchAndRewrite_run ir c oc lower upper ip diags)
    as (σ & s' & Hrun & _ & R); try done.
  exists s'. split; [done|]. cbv zeta.
  destruct R as [Hier_nextOp Hier_erased Hier_fresh Hier_absent Hier_kept Hier_apply Hier_index
                  Hier_const Hier_cmp Hier_if Hier_return Hier_lowerYield Hier_upperYield Hier_body
                  Hier_then Hier_else Hier_subst_result Hier_subst_lower Hier_subst_upper
                  Hier_subst_other].
  apply Forall_cons in Hier_erased as [Hec Hier_erased].
  apply Forall_cons in Hier_erased as [Hea Hier_erased].
  apply Forall_cons in Hier_erased as [Heb _].
  split_and!.
  - done.
  - done.
  - done.
  - intros id o Hnone Hid Happly.
    destruct (decide (id < ir_nextOp ir)) as [Hlt|Hge].
    { rewrite Hier_absent in Hid by done. done. }
    destruct (decide (8 + ir_nextOp ir ≤ id)) as [Hlt|Hge'].
    { rewrite Hier_fresh in Hid by done. done. }
    assert (id = ir_nextOp ir ∨ id = 1 + ir_nextOp ir ∨ id = 2 + ir_nextOp ir ∨
            id = 3 + ir_nextOp ir ∨ id = 4 + ir_nextOp ir ∨ id = 5 + ir_nextOp ir ∨
            id = 6 + ir_nextOp ir ∨ id = 7 + ir_nextOp ir) as Hcases by lia.
    destruct_or!; subst id; [done|..]; simplify_eq; done.
  - eexists. split_and!; [exact Hier_apply|..]; cbn [op_kind op_results op_regions].
    + apply rebuiltApply_isApplyOp.
    + apply rebuiltApply_boundPair.
    + done.
    + done.
  - intros u ou p i Hou Hnotin Hp Hi. eexists. split; [by apply Hier_kept|].
    cbn [op_operands]. rewrite list_lookup_fmap, Hp. cbn. f_equal. by apply Hier_subst_result.
  - eexists _, _, _, _, _, _, _, _, _. split_and!.
    + rewrite (blockOps_Some _ _ _ Hier_body). reflexivity.
    + exact Hier_index.
    + exact Hier_const.
    + exact Hier_cmp.
    + eexists. exact Hier_if.
    + eexists. split; [exact Hier_return|done].
    + rewrite (blockOps_Some _ _ _ Hier_then). reflexivity.
    + rewrite (blockOps_Some _ _ _ Hier_else). reflexivity.
    + by rewrite Hier_lowerYield.
    + by rewrite Hier_upperYield.
    + intros y Hy. destruct Hsite as [_ _ _ _ Hx1 Hx2 _ Hnd].
      assert (is_Some (ir_ops ir !! y)) as [oy Hoy].
      { apply elem_of_app in Hy as [Hy|Hy].
        - by apply (proj1 (Forall_forall _ _) (abi_body _ _ Hx1)).
        - by apply (proj1 (Forall_forall _ _) (abi_body _ _ Hx2)). }
      split; [done|]. rewrite Hoy. erewrite Hier_kept; [done|done|].
      destruct (NoDup_handles _ _ _ _ _ _ _ Hnd) as (_ & Hnin & _).
      intros Hin. rewrite Forall_forall in Hnin. specialize (Hnin y Hin).
      apply elem_of_app in Hy. tauto.
Qed.

Lemma exampleIR_site u1 u2 :
  CombineSite (exampleIR u1 u2) 10 exampleCombine (exampleLower u1) (exampleUpper u2).
Proof.
  constructor.
  - split; compute_done.
  - reflexivity.
  - reflexivity.
  - reflexivity.
  - constructor; try reflexivity.
    + repeat constructor; eexists; reflexivity.
    + repeat constructor. eexists _, _. split; [reflexivity|]. compute_done.
  - constructor; try reflexivity.
    + repeat constructor; eexists; reflexivity.
    + repeat constructor. eexists _, _. split; [reflexivity|]. compute_done.
  - done.
  - compute_done.
Qed.

Lemma exampleIR_used u1 u2 :
  usedOnlyBy (ir_ops (exampleIR u1 u2)) 2 [10] ∧ usedOnlyBy (ir_ops (exampleIR u1 u2)) 6 [10].
Proof. split; compute_done. Qed.

Lemma exampleLower_typed : ReturnTyped (exampleIR None None) (exampleLower None).
Proof.
  constructor; [reflexivity|]. intros i j v Hj Hv.
  change (j < 1) in Hj. assert (j = 0) as -> by lia.
  destruct i as [|i]; [|destruct i; discriminate].
  injection Hv as <-. by exists F64, [64; 64; 60]%Z.
Qed.

Lemma exampleUpper_typed : ReturnTyped (exampleIR None None) (exampleUpper None).
Proof.
  constructor; [reflexivity|]. intros i j v Hj Hv.
  change (j < 1) in Hj. assert (j = 0) as -> by lia.
  destruct i as [|i]; [|destruct i; discriminate].
  injection Hv as <-. by exists F64, [64; 64; 60]%Z.
Qed.

Lemma exampleIR_results u1 u2 :
  Forall (resultOf (exampleLower u1)) (CombineOp.lower exampleCombine) ∧
  Forall (resultOf (exampleUpper u2)) (CombineOp.upper exampleCombine).
Proof.
  split; repeat constructor; exists 0; (split; [reflexivity|]); vm_compute; lia.
Qed.

Lemma ifElse_replaces_combine_witness :
  ∃ s',
    applyPattern IfElseRewrite.matchAndRewrite 10 (mkRewriter (exampleIR None None) IPNone [])
    = Ok (success, s') ∧
    ir_ops (rw_ir s') !! 10 = None.
Proof.
  destruct (ifElse_replaces_combine (exampleIR None None) 10 exampleCombine
              (exampleLower None) (exampleUpper None) IPNone [])
    as (s' & Hrun & Hgone & _).
  - apply exampleIR_site.
  - reflexivity.
  - reflexivity.
  - reflexivity.
  - reflexivity.
  - reflexivity.
  - reflexivity.
  - discriminate.
  - apply exampleIR_used.
  - apply exampleIR_used.
  - apply (exampleIR_results None None).
  - apply (exampleIR_results None None).
  - apply exampleLower_typed.
  - apply exampleUpper_typed.
  - exists s'. split; [exact Hrun|exact Hgone].
Defined.

(** C2: on the example split, where the lower apply op 2 reads the first
    input (result of op 0) and the upper apply op 6 the second input
    (result of op 1), the rewrite succeeds and the new apply op 12 takes
    the operands of op 2 followed by those of op 6; the access op 3 of the
    then-branch reads argument 0 of the new body, bound to the first
    input; but the access op 7 of the else-branch, which read the argument
    of the upper body, reads argument 0 of the new body as well, not
    argument 1, to which the operand of the upper apply op is bound. *)
Theorem ifElse_else_branch_reads_lower_operand :
  ∃ s',
    applyPattern IfElseRewrite.matchAndRewrite 10
      (mkRewriter (exampleIR None None) IPNone []) = Ok (success, s') ∧
    op_operands <$> ir_ops (exampleIR None None) !! 2 = Some [OpResult 0 0] ∧
    op_operands <$> ir_ops (exampleIR None None) !! 6 = Some [OpResult 1 0] ∧
    op_operands <$> ir_ops (exampleIR None None) !! 3 = Some [BlockArgument 1 0] ∧
    op_operands <$> ir_ops (exampleIR None None) !! 7 = Some [BlockArgument 2 0] ∧
    op_operands <$> ir_ops (rw_ir s') !! 12 = Some [OpResult 0 0; OpResult 1 0] ∧
    op_regions <$> ir_ops (rw_ir s') !! 12 = Some [[3]] ∧
    op_regions <$> ir_ops (rw_ir s') !! 16 = Some [[4]; [5]] ∧
    blockOps (rw_ir s') 4 = [3; 4; 18] ∧
    blockOps (rw_ir s') 5 = [7; 8; 19] ∧
    op_operands <$> ir_ops (rw_ir s') !! 3 = Some [BlockArgument 3 0] ∧
    op_operands <$> ir_ops (rw_ir s') !! 7 = Some [BlockArgument 3 0].
Proof. eexists. split; [vm_compute; reflexivity|]. vm_compute. by repeat split. Qed.

(** C3: on the example split with the unroll attribute [1,1,2] on the
    return op of the upper apply op only, the IfElse rewrite emits the
    warning and returns failure, but the graph is not what it was: the
    apply op 12, the index op 13, the constant op 14 and the comparison
    op 15 were created before the test and stay behind. *)
Theorem ifElse_unroll_mismatch_leaves_operations :
  ∃ s',
    applyPattern IfElseRewrite.matchAndRewrite 10
      (mkRewriter (exampleIR None (Some [1; 1; 2]%Z)) IPNone []) = Ok (failure, s') ∧
    rw_diags s' = [Warning (OnOp 10) "expected matching unroll configurations"] ∧
    ir_nextOp (exampleIR None (Some [1; 1; 2]%Z)) = 12 ∧
    ir_nextOp (rw_ir s') = 16 ∧
    op_kind <$> ir_ops (rw_ir s') !! 12 = Some (ApplyOp domainLB domainUB) ∧
    op_kind <$> ir_ops (rw_ir s') !! 13 = Some (IndexOp 2 [0; 0; 0]%Z) ∧
    op_kind <$> ir_ops (rw_ir s') !! 14 = Some (ConstantOp 30) ∧
    op_kind <$> ir_ops (rw_ir s') !! 15 = Some (CmpIOp ult) ∧
    blockOps (exampleIR None (Some [1; 1; 2]%Z)) 0 = [0; 1; 2; 6; 10; 11] ∧
    blockOps (rw_ir s') 0 = [0; 1; 2; 6; 12; 10; 11] ∧
    rw_ir s' ≠ exampleIR None (Some [1; 1; 2]%Z).
Proof.
  eexists. split; [vm_compute; reflexivity|]. split_and!; try (vm_compute; reflexivity).
  intros H. apply (f_equal ir_nextOp) in H. vm_compute in H. discriminate.
Qed.

(** The remapping of the block arguments in general: an operand that was
    the j-th argument of the body of the upper apply op becomes the j-th
    argument of the new body, as for the lower apply op, where the j-th
    operand of the upper apply op is the operand number
    [length (op_operands lower) + j] of the new apply op. *)
Lemma IfElseRewrite_remaps_arguments_to_front ir c oc lower upper ip diags :
  CombineSite ir c oc lower upper →
  CombineOp.lowerext oc = [] → CombineOp.upperext oc = [] →
  CombineOp.getLowerDefiningOps oc = [Some (ab_op lower)] →
  CombineOp.getUpperDefiningOps oc = [Some (ab_op upper)] →
  unrollMismatch (op_kind (ab_return lower)) (op_kind (ab_return upper)) = Ok false →
  getType ir <$> op_operands (ab_return lower)
  = getType ir <$> op_operands (ab_return upper) →
  op_operands (ab_return lower) ≠ [] →
  usedOnlyBy (ir_ops ir) (ab_op lower) [c] → usedOnlyBy (ir_ops ir) (ab_op upper) [c] →
  Forall (resultOf lower) (CombineOp.lower oc) →
  Forall (resultOf upper) (CombineOp.upper oc) →
  ReturnTyped ir lower → ReturnTyped ir upper →
  ∃ s',
    applyPattern IfElseRewrite.matchAndRewrite c (mkRewriter ir ip diags)
    = Ok (success, s') ∧
    ∀ x, x = lower ∨ x = upper →
      ∀ u ou p j,
        ir_ops ir !! u = Some ou →
        u ∉ [c; ab_op lower; ab_op upper; ab_returnOp lower; ab_returnOp upper] →
        op_operands ou !! p = Some (BlockArgument (ab_block x) j) →
        j < length (ab_args x) → j < length (op_operands (ab_apply x)) →
        ∃ ou', ir_ops (rw_ir s') !! u = Some ou' ∧
               op_operands ou' !! p = Some (BlockArgument (ir_nextBlock ir) j).
Proof.
  intros Hsite Hle Hue Hl Hu Hunroll Htypes Hne Huseda Husedb Hlow Hupp Hrt1 Hrt2.
  destruct (IfElseRewrite_matchAndRewrite_run ir c oc lower upper ip diags)
    as (σ & s' & Hrun & _ & R); try done.
  exists s'. split; [done|].
  intros x Hx u ou p j Hou Hnotin Hp Hj1 Hj2.
  eexists. split; [by apply (ier_kept _ _ _ _ _ _ _ R)|].
  cbn [op_operands]. rewrite list_lookup_fmap, Hp. cbn. f_equal.
  destruct Hx as [-> | ->].
  - by apply (ier_subst_lower _ _ _ _ _ _ _ R).
  - by apply (ier_subst_upper _ _ _ _ _ _ _ R).
Qed.

(** The operations left behind on a mismatch, in general. *)
Lemma IfElseRewrite_unroll_mismatch_creates_operations ir c oc lower upper ip diags :
  CombineSite ir c oc lower upper →
  CombineOp.lowerext oc = [] → CombineOp.upperext oc = [] →
  CombineOp.getLowerDefiningOps oc = [Some (ab_op lower)] →
  CombineOp.getUpperDefiningOps oc = [Some (ab_op upper)] →
  unrollMismatch (op_kind (ab_return lower)) (op_kind (ab_return upper)) = Ok true →
  ∃ s',
    applyPattern IfElseRewrite.matchAndRewrite c (mkRewriter ir ip diags)
    = Ok (failure, s') ∧
    rw_diags s'
    = diags ++ [Warning (OnOp c) "expected matching unroll configurations"] ∧
    ir_nextOp (rw_ir s') = 4 + ir_nextOp ir ∧
    ir_ops ir !! ir_nextOp ir = None ∧
    is_Some (ir_ops (rw_ir s') !! ir_nextOp ir).
Proof.
  intros Hsite Hle Hue Hl Hu Hunroll.
  rewrite (IfElseRewrite_matchAndRewrite_lowers _ _ _ _ _ _ _ Hsite Hle Hue Hl Hu).
  destruct ir as [ops blocks n nb].
  destruct (lowerStencilCombine_unroll_mismatch ops blocks n nb diags c oc lower upper
              Hsite Hunroll) as (s' & Hrun & Hd & Hn & Happly & _).
  exists s'. split_and!; try done.
  cbn. destruct (ops !! n) as [o|] eqn:Ho; [|done].
  pose proof (allocated_ops _ (site_allocated _ _ _ _ _ Hsite) _ _ Ho) as Hlt.
  cbn in Hlt. lia.
Qed.

Lemma permuted_yielded x ret vs :
  Forall (resultOf x) vs → permuted (ab_op x) (ab_apply x) ret vs = yielded ret vs.
Proof.
  intros H. unfold permuted, yielded. f_equal. apply Forall_fmap_ext_1.
  eapply Forall_impl; [exact H|]. intros v (i & -> & Hi). cbn beta.
  by rewrite list_find_getResults.
Qed.

Lemma lookup_concat_uniform {A} (ls : list (list A)) m k l j y :
  Forall (λ l, length l = m) ls → ls !! k = Some l → l !! j = Some y →
  concat ls !! (k * m + j) = Some y.
Proof.
  intros H. revert k. induction H as [|l' ls Hl' H IH]; intros k Hk Hj; [done|].
  destruct k as [|k]; simpl in *.
  - injection Hk as ->. by apply lookup_app_l_Some.
  - rewrite lookup_app_r by lia. rewrite <- (IH k Hk Hj). f_equal. lia.
Qed.

Lemma returnSlice_lookup ret i j :
  j < Z.to_nat (ReturnOp.getUnrollFac (op_kind ret)) →
  returnSlice ret i !! j
  = op_operands ret !! (i * Z.to_nat (ReturnOp.getUnrollFac (op_kind ret)) + j).
Proof. intros Hj. unfold returnSlice. cbv zeta. by rewrite lookup_take_lt, lookup_drop by done. Qed.

Lemma returnSlice_length ret i :
  (i + 1) * Z.to_nat (ReturnOp.getUnrollFac (op_kind ret)) ≤ length (op_operands ret) →
  length (returnSlice ret i) = Z.to_nat (ReturnOp.getUnrollFac (op_kind ret)).
Proof. intros H. unfold returnSlice. cbv zeta. rewrite length_take, length_drop. lia. Qed.

(** The types of the values a branch yields. *)
Lemma yielded_types ir ir' x vs k v j :
  ApplyBodyIn ir x → ReturnTyped ir x → Forall (resultOf x) vs →
  (∀ y i, y ∈ ab_body x → getType ir' (OpResult y i) = getType ir (OpResult y i)) →
  vs !! k = Some v →
  j < Z.to_nat (ReturnOp.getUnrollFac (op_kind (ab_return x))) →
  ∃ y e shape,
    yielded (ab_return x) vs
      !! (k * Z.to_nat (ReturnOp.getUnrollFac (op_kind (ab_return x))) + j) = Some y ∧
    getType ir v = TempType e shape ∧
    getType ir' y = ResultType e.
Proof.
  intros Hx [Hcount Htypes] Hvs Hkept Hk Hj.
  destruct (proj1 (Forall_lookup _ _) Hvs k v Hk) as (i & -> & Hi).
  set (uf := Z.to_nat (ReturnOp.getUnrollFac (op_kind (ab_return x)))) in *.
  assert ((i + 1) * uf ≤ length (op_operands (ab_return x))) as Hle by (rewrite Hcount; nia).
  destruct (lookup_lt_is_Some_2 (op_operands (ab_return x)) (i * uf + j)) as [y Hy]; [nia|].
  destruct (Htypes i j y Hj Hy) as (e & shape & Hres & Hty).
  exists y, e, shape. split_and!.
  - unfold yielded. eapply (lookup_concat_uniform _ uf k).
    + rewrite Forall_fmap. eapply Forall_impl; [exact Hvs|].
      intros w (i' & -> & Hi'). cbn. apply returnSlice_length. fold uf. rewrite Hcount.
      fold uf. nia.
    + rewrite list_lookup_fmap, Hk. reflexivity.
    + cbn. by rewrite returnSlice_lookup.
  - cbn. rewrite (abi_op _ _ Hx). by rewrite Hres.
  - pose proof (abi_returned _ _ Hx) as Hret. rewrite Forall_forall in Hret.
    destruct (Hret y) as (yy & ii & -> & Hyy); [by eapply list_elem_of_lookup_2|].
    rewrite Hkept by done. done.
Qed.

Lemma length_concat_uniform {A} (ls : list (list A)) m :
  Forall (λ l, length l = m) ls → length (concat ls) = length ls * m.
Proof.
  induction 1 as [|l ls Hl _ IH]; [done|]. cbn. rewrite length_app, IH, Hl. lia.
Qed.

(** The number of the values a branch yields. *)
Lemma yielded_length x vs :
  length (op_operands (ab_return x))
  = length (op_results (ab_apply x))
    * Z.to_nat (ReturnOp.getUnrollFac (op_kind (ab_return x))) →
  Forall (resultOf x) vs →
  length (yielded (ab_return x) vs)
  = length vs * Z.to_nat (ReturnOp.getUnrollFac (op_kind (ab_return x))).
Proof.
  intros Hcount Hvs. unfold yielded.
  rewrite (length_concat_uniform _ (Z.to_nat (ReturnOp.getUnrollFac (op_kind (ab_return x))))).
  - by rewrite length_fmap.
  - rewrite Forall_fmap. eapply Forall_impl; [exact Hvs|].
    intros w (i & -> & Hi). cbn. apply returnSlice_length. rewrite Hcount. nia.
Qed.

Lemma permutedIR_site : CombineSite permutedIR 18 permutedCombine permutedLower permutedUpper.
Proof.
  constructor.
  - split; compute_done.
  - reflexivity.
  - reflexivity.
  - reflexivity.
  - constructor; try reflexivity.
    + repeat constructor; eexists; reflexivity.
    + repeat constructor; eexists _, _; (split; [reflexivity|]); compute_done.
  - constructor; try reflexivity.
    + repeat constructor; eexists; reflexivity.
    + repeat constructor; eexists _, _; (split; [reflexivity|]); compute_done.
  - done.
  - compute_done.
Qed.

Lemma permutedIR_used :
  usedOnlyBy (ir_ops permutedIR) 2 [18] ∧ usedOnlyBy (ir_ops permutedIR) 10 [18].
Proof. split; compute_done. Qed.

Lemma permutedIR_results :
  Forall (resultOf permutedLower) (CombineOp.lower permutedCombine) ∧
  Forall (resultOf permutedUpper) (CombineOp.upper permutedCombine).
Proof.
  split; repeat constructor; eexists; (split; [reflexivity|]); vm_compute; lia.
Qed.

Lemma permutedLower_typed : ReturnTyped permutedIR permutedLower.
Proof.
  constructor; [reflexivity|]. intros i j v Hj Hv.
  change (j < 2) in Hj. change (Z.to_nat _) with 2 in Hv.
  destruct i as [|[|i]].
  - exists F32, [64; 64; 60]%Z. split; [reflexivity|].
    destruct j as [|[|j]]; [| |lia]; injection Hv as <-; reflexivity.
  - exists F64, [64; 64; 60]%Z. split; [reflexivity|].
    destruct j as [|[|j]]; [| |lia]; injection Hv as <-; reflexivity.
  - apply lookup_lt_Some in Hv. cbn in Hv. lia.
Qed.

Lemma permutedUpper_typed : ReturnTyped permutedIR permutedUpper.
Proof.
  constructor; [reflexivity|]. intros i j v Hj Hv.
  change (j < 2) in Hj. change (Z.to_nat _) with 2 in Hv.
  destruct i as [|[|i]].
  - exists F32, [64; 64; 60]%Z. split; [reflexivity|].
    destruct j as [|[|j]]; [| |lia]; injection Hv as <-; reflexivity.
  - exists F64, [64; 64; 60]%Z. split; [reflexivity|].
    destruct j as [|[|j]]; [| |lia]; injection Hv as <-; reflexivity.
  - apply lookup_lt_Some in Hv. cbn in Hv. lia.
Qed.

Lemma permutedCombine_typed : CombineTyped permutedIR permutedCombine.
Proof.
  constructor; [reflexivity|reflexivity|..]; intros k v t Hv Ht;
    (destruct k as [|[|k]]; [| |discriminate]); injection Hv as <-; injection Ht as <-;
    reflexivity.
Qed.

(** C5: when the IfElse rewrite fires (on a combine op as in C1, under the
    same conditions), the terminator of each branch is a yield op whose
    operands are, for each entry of the lower (respectively upper) operand
    list of the combine op in order, the group of [unrollFac] consecutive
    operands of the original return op at position
    [resultNumber * unrollFac].  With return ops typed as their verifier
    demands and a combine op whose results are typed as its operands, each
    branch yields [unrollFac] values for every result of the combine op,
    and every value yielded for the [k]-th entry has the type
    [!stencil.result<T>] of the element type [T] of the [k]-th result of
    the combine op, which is the element type of that entry. *)
Theorem ifElse_yields_permuted_returns ir c oc lower upper ip diags :
  CombineSite ir c oc lower upper →
  CombineOp.lowerext oc = [] → CombineOp.upperext oc = [] →
  CombineOp.getLowerDefiningOps oc = [Some (ab_op lower)] →
  CombineOp.getUpperDefiningOps oc = [Some (ab_op upper)] →
  unrollMismatch (op_kind (ab_return lower)) (op_kind (ab_return upper)) = Ok false →
  getType ir <$> op_operands (ab_return lower)
  = getType ir <$> op_operands (ab_return upper) →
  op_operands (ab_return lower) ≠ [] →
  usedOnlyBy (ir_ops ir) (ab_op lower) [c] → usedOnlyBy (ir_ops ir) (ab_op upper) [c] →
  Forall (resultOf lower) (CombineOp.lower oc) →
  Forall (resultOf upper) (CombineOp.upper oc) →
  ReturnTyped ir lower → ReturnTyped ir upper →
  CombineTyped ir oc →
  ∃ s' ifOp cond types thenBlock elseBlock lowerYield upperYield,
    applyPattern IfElseRewrite.matchAndRewrite c (mkRewriter ir ip diags)
    = Ok (success, s') ∧
    let ir' := rw_ir s' in
    let lowerFac := Z.to_nat (ReturnOp.getUnrollFac (op_kind (ab_return lower))) in
    let upperFac := Z.to_nat (ReturnOp.getUnrollFac (op_kind (ab_return upper))) in
    ir_ops ir' !! ifOp
    = Some (mkOperation IfOp [cond] types [[thenBlock]; [elseBlock]]) ∧
    getTerminator ir' thenBlock = Ok lowerYield ∧
    getTerminator ir' elseBlock = Ok upperYield ∧
    ir_ops ir' !! lowerYield
    = Some (mkOperation YieldOp (yielded (ab_return lower) (CombineOp.lower oc)) [] []) ∧
    ir_ops ir' !! upperYield
    = Some (mkOperation YieldOp (yielded (ab_return upper) (CombineOp.upper oc)) [] []) ∧
    length (yielded (ab_return lower) (CombineOp.lower oc))
    = length (op_results oc) * lowerFac ∧
    length (yielded (ab_return upper) (CombineOp.upper oc))
    = length (op_results oc) * upperFac ∧
    (∀ k v j,
        CombineOp.lower oc !! k = Some v → j < lowerFac →
        ∃ y e shape t,
          yielded (ab_return lower) (CombineOp.lower oc) !! (k * lowerFac + j) = Some y ∧
          getType ir v = TempType e shape ∧
          op_results oc !! k = Some t ∧ elementTypeOf t = Some e ∧
          getType ir' y = ResultType e) ∧
    (∀ k v j,
        CombineOp.upper oc !! k = Some v → j < upperFac →
        ∃ y e shape t,
          yielded (ab_return upper) (CombineOp.upper oc) !! (k * upperFac + j) = Some y ∧
          getType ir v = TempType e shape ∧
          op_results oc !! k = Some t ∧ elementTypeOf t = Some e ∧
          getType ir' y = ResultType e).
Proof.
  intros Hsite Hle Hue Hl Hu Hunroll Htypes Hne Huseda Husedb Hlow Hupp Hrt1 Hrt2 Hct.
  destruct (IfElseRewrite_matchAndRewrite_run ir c oc lower upper ip diags)
    as (σ & s' & Hrun & _ & R); try done.
  destruct R as [Hier_nextOp Hier_erased Hier_fresh Hier_absent Hier_kept Hier_apply Hier_index
                  Hier_const Hier_cmp Hier_if Hier_return Hier_lowerYield Hier_upperYield Hier_body
                  Hier_then Hier_else Hier_subst_result Hier_subst_lower Hier_subst_upper
                  Hier_subst_other].
  pose proof Hsite as [_ _ _ _ Hx1 Hx2 _ Hnd].
  destruct (NoDup_handles _ _ _ _ _ _ _ Hnd) as (_ & Hnin & _).
  assert (∀ y, y ∈ ab_body lower ++ ab_body upper →
               y ∉ [c; ab_op lower; ab_op upper; ab_returnOp lower; ab_returnOp upper])
    as Hbody.
  { intros y Hy Hin. rewrite Forall_forall in Hnin. specialize (Hnin y Hin).
    apply elem_of_app in Hy. tauto. }
  assert (∀ x vs, ApplyBodyIn ir x → ab_body x ⊆ ab_body lower ++ ab_body upper →
                  σ <$> yielded (ab_return x) vs = yielded (ab_return x) vs) as Hσy.
  { intros x vs Hx Hsub. apply substList_fmap_id. unfold yielded.
    apply Forall_concat. rewrite Forall_fmap. apply Forall_forall. intros v _. cbn.
    unfold returnSlice. cbv zeta. apply Forall_take, Forall_drop.
    eapply Forall_impl; [exact (abi_returned _ _ Hx)|].
    intros w (y & i & -> & Hy). apply Hier_subst_other; try done.
    cbn. intros [= ->]. apply (Hbody c); [by apply Hsub|]. apply list_elem_of_here. }
  assert (∀ y i, y ∈ ab_body lower ++ ab_body upper →
                 getType (rw_ir s') (OpResult y i) = getType ir (OpResult y i)) as Hty.
  { intros y i Hy. cbn.
    assert (is_Some (ir_ops ir !! y)) as [oy Hoy].
    { apply elem_of_app in Hy as [Hy|Hy].
      - by apply (proj1 (Forall_forall _ _) (abi_body _ _ Hx1)).
      - by apply (proj1 (Forall_forall _ _) (abi_body _ _ Hx2)). }
    rewrite Hoy. erewrite Hier_kept; [done|done|]. by apply Hbody. }
  destruct Hct as [Hpairs Hcount Hctl Hctu]. rewrite Hle, Hue in Hcount. cbn in Hcount.
  eexists s', _, _, _, _, _, _, _. split; [done|]. cbv zeta. split_and!.
  - exact Hier_if.
  - eapply getTerminator_Some; [exact Hier_then|done].
  - eapply getTerminator_Some; [exact Hier_else|done].
  - rewrite Hier_lowerYield. rewrite permuted_yielded by done.
    rewrite Hσy; [done|done|]. intros y Hy. apply elem_of_app. by left.
  - rewrite Hier_upperYield. rewrite permuted_yielded by done.
    rewrite Hσy; [done|done|]. intros y Hy. apply elem_of_app. by right.
  - rewrite yielded_length; [|exact (rt_count _ _ Hrt1)|done]. f_equal. lia.
  - rewrite yielded_length; [|exact (rt_count _ _ Hrt2)|done]. f_equal. lia.
  - intros k v j Hk Hj.
    destruct (yielded_types ir (rw_ir s') lower (CombineOp.lower oc) k v j)
      as (y & e & shape & Hy & Hv & Hyt); try done.
    { intros y i Hy. apply Hty. apply elem_of_app. by left. }
    destruct (lookup_lt_is_Some_2 (op_results oc) k) as [t Ht].
    { apply lookup_lt_Some in Hk. lia. }
    exists y, e, shape, t. split_and!; try done.
    rewrite <- (Hctl k v t Hk Ht), Hv. done.
  - intros k v j Hk Hj.
    destruct (yielded_types ir (rw_ir s') upper (CombineOp.upper oc) k v j)
      as (y & e & shape & Hy & Hv & Hyt); try done.
    { intros y i Hy. apply Hty. apply elem_of_app. by right. }
    destruct (lookup_lt_is_Some_2 (op_results oc) k) as [t Ht].
    { apply lookup_lt_Some in Hk. lia. }
    exists y, e, shape, t. split_and!; try done.
    rewrite <- (Hctu k v t Hk Ht), Hv. done.
Qed.

Lemma ifElse_yields_permuted_returns_witness :
  ∃ s' lowerYield upperYield y,
    applyPattern IfElseRewrite.matchAndRewrite 18 (mkRewriter permutedIR IPNone [])
    = Ok (success, s') ∧
    ir_ops (rw_ir s') !! lowerYield
    = Some (mkOperation YieldOp
              [OpResult 7 0; OpResult 8 0; OpResult 5 0; OpResult 6 0] [] []) ∧
    ir_ops (rw_ir s') !! upperYield
    = Some (mkOperation YieldOp
              [OpResult 15 0; OpResult 16 0; OpResult 13 0; OpResult 14 0] [] []) ∧
    op_results permutedCombine = [temp64; temp32] ∧
    [OpResult 7 0; OpResult 8 0; OpResult 5 0; OpResult 6 0] !! 3 = Some y ∧
    getType (rw_ir s') y = ResultType F32.
Proof.
  destruct (ifElse_yields_permuted_returns permutedIR 18 permutedCombine
              permutedLower permutedUpper IPNone [])
    as (s' & ifOp & cond & types & thenBlock & elseBlock & lowerYield & upperYield
        & Hrun & _ & _ & _ & Hlower & Hupper & _ & _ & Hlt & _).
  - apply permutedIR_site.
  - reflexivity.
  - reflexivity.
  - reflexivity.
  - reflexivity.
  - reflexivity.
  - reflexivity.
  - discriminate.
  - apply permutedIR_used.
  - apply permutedIR_used.
  - apply permutedIR_results.
  - apply permutedIR_results.
  - apply permutedLower_typed.
  - apply permutedUpper_typed.
  - apply permutedCombine_typed.
  - destruct (Hlt 1 (OpResult 2 0) 1 eq_refl) as (y & e & shape & t & Hy & Hv & _ & _ & Hyt).
    { change (1 < 2). lia. }
    vm_compute in Hv. injection Hv as <- _.
    exists s', lowerYield, upperYield, y. split; [exact Hrun|]. split; [exact Hlower|].
    split; [exact Hupper|]. split; [reflexivity|]. split; [exact Hy|exact Hyt].
Defined.

(** ** The Fuse rewrite *)

(** The Fuse pattern hands the first two defining ops of the side it
    picks to [fuseApplyOps]. *)
Lemma FuseRewrite_matchAndRewrite_fuses ir c oc x1 x2 ip diags :
  CombineSite ir c oc x1 x2 →
  fusedPair oc = Some (Some (ab_op x1), Some (ab_op x2)) →
  applyPattern FuseRewrite.matchAndRewrite c (mkRewriter ir ip diags)
  = FuseRewrite.fuseApplyOps (ab_op x1) (ab_op x2) c (mkRewriter ir (IPBefore c) diags).
Proof.
  intros Hsite Hpair.
  destruct Hsite as [_ Hc _ _ [Ha HaA _ _ _ _ _ _ _ _ _] [Hb HbA _ _ _ _ _ _ _ _ _] _ _].
  unfold applyPattern. rstep. unfold FuseRewrite.matchAndRewrite.
  qstep ltac:(apply getOperation_Some; eassumption).
  unfold fusedPair in Hpair. cbn [FuseRewrite.fuseFirstPair].
  destruct (CombineOp.getUpperDefiningOps oc) as [|f1 [|s1 rest1]].
  - destruct (CombineOp.getLowerDefiningOps oc) as [|f2 [|s2 rest2]]; try done.
    injection Hpair as -> ->.
    qstep ltac:(eapply cast_Some; eassumption).
    qstep ltac:(eapply cast_Some; eassumption). reflexivity.
  - destruct (CombineOp.getLowerDefiningOps oc) as [|f2 [|s2 rest2]]; try done.
    injection Hpair as -> ->.
    qstep ltac:(eapply cast_Some; eassumption).
    qstep ltac:(eapply cast_Some; eassumption). reflexivity.
  - injection Hpair as -> ->.
    qstep ltac:(eapply cast_Some; eassumption).
    qstep ltac:(eapply cast_Some; eassumption). reflexivity.
Qed.


(** On a mismatch of the unroll configurations the Fuse rewrite warns and
    fails before it touches the graph. *)
Lemma FuseRewrite_unroll_mismatch_unchanged ir c oc x1 x2 ip diags :
  CombineSite ir c oc x1 x2 →
  fusedPair oc = Some (Some (ab_op x1), Some (ab_op x2)) →
  shapeMismatch (op_kind (ab_apply x1)) (op_kind (ab_apply x2)) = false →
  unrollMismatch (op_kind (ab_return x1)) (op_kind (ab_return x2)) = Ok true →
  applyPattern FuseRewrite.matchAndRewrite c (mkRewriter ir ip diags)
  = Ok (failure,
        mkRewriter ir (IPBefore c)
          (diags ++ [Warning (OnOp c) "expected matching unroll configurations"])).
Proof.
  intros Hsite Hpair Hshape Hunroll.
  rewrite (FuseRewrite_matchAndRewrite_fuses _ _ _ _ _ _ _ Hsite Hpair).
  destruct ir as [ops blocks n nb].
  by apply (fuseApplyOps_unroll_mismatch _ _ _ _ _ _ oc).
Qed.

Lemma fuseIR_site : CombineSite fuseIR 15 fuseCombine fuseFirst fuseSecond.
Proof.
  constructor.
  - split; compute_done.
  - reflexivity.
  - reflexivity.
  - reflexivity.
  - constructor; try reflexivity.
    + repeat constructor; eexists; reflexivity.
    + repeat constructor. eexists _, _. split; [reflexivity|]. compute_done.
  - constructor; try reflexivity.
    + repeat constructor; eexists; reflexivity.
    + repeat constructor. eexists _, _. split; [reflexivity|]. compute_done.
  - done.
  - compute_done.
Qed.


(** A declared bound pair survives the rebuilding of an apply op. *)
Lemma rebuiltApply_hasShape k :
  hasShape k = true →
  hasShape (rebuiltApply k) = true ∧
  getLB (rebuiltApply k) = getLB k ∧ getUB (rebuiltApply k) = getUB k.
Proof.
  unfold hasShape, rebuiltApply, getLB, getUB. intros H. rewrite H. cbn.
  by rewrite H.
Qed.

Lemma upperHalfIR_site : CombineSite upperHalfIR 15 fuseCombine fuseFirst upperHalfSecond.
Proof.
  constructor.
  - split; compute_done.
  - reflexivity.
  - reflexivity.
  - reflexivity.
  - constructor; try reflexivity.
    + repeat constructor; eexists; reflexivity.
    + repeat constructor. eexists _, _. split; [reflexivity|]. compute_done.
  - constructor; try reflexivity.
    + repeat constructor; eexists; reflexivity.
    + repeat constructor. eexists _, _. split; [reflexivity|]. compute_done.
  - done.
  - compute_done.
Qed.

(** C10: when the Fuse rewrite considers two apply ops that both declare a
    bound pair, it emits the warning about the shapes and fails, leaving
    the graph as it was, when their lower bounds differ and their upper
    bounds differ; when the lower bounds agree or the upper bounds agree,
    whatever the other bound is, it goes on to the unroll test and the
    shapes draw no warning.  If the unroll configurations differ, the
    rewrite fails with the warning about them and the graph is as it was.
    If they match, the two apply ops are fused without any diagnostic: both
    are gone, and the apply op with the next handle, which the graph did
    not hold, declares the bound pair of the first apply op, has the result
    types of the first followed by those of the second and as many operands
    as both together, and its body holds the operations of the first body,
    those of the second, and a return op. *)
Theorem fuse_shape_warning ir c oc x1 x2 ip diags :
  CombineSite ir c oc x1 x2 →
  fusedPair oc = Some (Some (ab_op x1), Some (ab_op x2)) →
  hasShape (op_kind (ab_apply x1)) = true →
  hasShape (op_kind (ab_apply x2)) = true →
  let run := applyPattern FuseRewrite.matchAndRewrite c (mkRewriter ir ip diags) in
  let lb1 := getLB (op_kind (ab_apply x1)) in
  let lb2 := getLB (op_kind (ab_apply x2)) in
  let ub1 := getUB (op_kind (ab_apply x1)) in
  let ub2 := getUB (op_kind (ab_apply x2)) in
  (lb1 ≠ lb2 ∧ ub1 ≠ ub2 →
   run = Ok (failure,
             mkRewriter ir (IPBefore c)
               (diags ++ [Warning (OnOp c) "expected shapes to match"]))) ∧
  (lb1 = lb2 ∨ ub1 = ub2 →
   ∀ mismatch,
     unrollMismatch (op_kind (ab_return x1)) (op_kind (ab_return x2)) = Ok mismatch →
     ∃ s',
       run = Ok (if mismatch : bool then failure else success, s') ∧
       rw_diags s'
       = diags ++ (if mismatch
                   then [Warning (OnOp c) "expected matching unroll configurations"]
                   else []) ∧
       if mismatch then rw_ir s' = ir
       else
         let ir' := rw_ir s' in
         let newOp := ir_nextOp ir in
         ir_ops ir' !! ab_op x1 = None ∧ ir_ops ir' !! ab_op x2 = None ∧
         ir_ops ir !! newOp = None ∧
         ∃ apply returnOp ret,
           ir_ops ir' !! newOp = Some apply ∧
           isApplyOp (op_kind apply) = true ∧
           hasShape (op_kind apply) = true ∧
           getLB (op_kind apply) = lb1 ∧ getUB (op_kind apply) = ub1 ∧
           op_results apply = op_results (ab_apply x1) ++ op_results (ab_apply x2) ∧
           length (op_operands apply)
           = length (op_operands (ab_apply x1)) + length (op_operands (ab_apply x2)) ∧
           op_regions apply = [[ir_nextBlock ir]] ∧
           blockOps ir' (ir_nextBlock ir) = ab_body x1 ++ ab_body x2 ++ [returnOp] ∧
           ir_ops ir' !! returnOp = Some ret ∧
           isReturnOp (op_kind ret) = true ∧
           length (op_operands ret)
           = length (op_operands (ab_return x1)) + length (op_operands (ab_return x2))).
Proof.
  intros Hsite Hpair Hs1 Hs2. cbv zeta.
  rewrite (FuseRewrite_matchAndRewrite_fuses _ _ _ _ _ _ _ Hsite Hpair).
  destruct ir as [ops blocks n nb]. split.
  - intros [Hlb Hub]. apply (fuseApplyOps_shape_mismatch _ _ _ _ _ _ oc); [done|].
    unfold shapeMismatch. rewrite Hs1, Hs2. by rewrite !bool_decide_true.
  - intros Hagree mismatch Hunroll.
    assert (shapeMismatch (op_kind (ab_apply x1)) (op_kind (ab_apply x2)) = false) as Hshape.
    { unfold shapeMismatch. rewrite Hs1, Hs2. cbn [andb].
      destruct Hagree as [Heq|Heq]; rewrite Heq.
      - by rewrite (bool_decide_false (_ ≠ _)) by (by intros H).
      - rewrite (bool_decide_false (getUB _ ≠ getUB _)) by (by intros H).
        by rewrite andb_false_r. }
    destruct mismatch.
    + eexists. split; [by apply (fuseApplyOps_unroll_mismatch _ _ _ _ _ _ oc)|done].
    + destruct (fuseApplyOps_run ops blocks n nb diags c oc x1 x2 Hsite Hshape Hunroll)
        as (σ & s' & Hrun & Hd & R).
      exists s'. split; [done|]. split; [by rewrite app_nil_r|].
      destruct R as [_ Hfr_erased _ _ _ Hfr_apply Hfr_return Hfr_body _ _ _ _ _].
      cbn [ir_ops ir_nextOp ir_nextBlock] in *.
      apply Forall_cons in Hfr_erased as [He1 Hfr_erased].
      apply Forall_cons in Hfr_erased as [He2 _].
      destruct (rebuiltApply_hasShape _ Hs1) as (Hs & Hlb & Hub).
      split_and!; [done|done|..].
      * destruct (ops !! n) as [o|] eqn:Ho; [|done].
        pose proof (allocated_ops _ (site_allocated _ _ _ _ _ Hsite) _ _ Ho) as Hlt.
        cbn in Hlt. lia.
      * eexists _, _, _. split_and!; [exact Hfr_apply|..];
          cbn [op_kind op_results op_operands op_regions].
        -- apply rebuiltApply_isApplyOp.
        -- done.
        -- done.
        -- done.
        -- done.
        -- by rewrite length_fmap, length_app.
        -- done.
        -- rewrite (blockOps_Some _ _ _ Hfr_body). reflexivity.
        -- exact Hfr_return.
        -- done.
        -- cbn [op_operands]. by rewrite length_fmap, length_app.
Qed.

Lemma fuse_shape_warning_witness :
  getLB (op_kind (ab_apply fuseFirst)) ≠ getLB (op_kind (ab_apply upperHalfSecond)) ∧
  ∃ s' apply,
    applyPattern FuseRewrite.matchAndRewrite 15 (mkRewriter upperHalfIR IPNone [])
    = Ok (success, s') ∧
    rw_diags s' = [] ∧
    ir_ops (rw_ir s') !! 2 = None ∧ ir_ops (rw_ir s') !! 6 = None ∧
    ir_ops (rw_ir s') !! 17 = Some apply ∧
    getLB (op_kind apply) = [0; 0; 0]%Z ∧ getUB (op_kind apply) = [64; 64; 60]%Z ∧
    op_results apply = [temp64; TempType F64 [64; 64; 30]%Z].
Proof.
  split; [discriminate|].
  destruct (fuse_shape_warning upperHalfIR 15 fuseCombine fuseFirst upperHalfSecond IPNone [])
    as [_ Hagree].
  - apply upperHalfIR_site.
  - reflexivity.
  - reflexivity.
  - reflexivity.
  - destruct (Hagree (or_intror eq_refl) false eq_refl)
      as (s' & Hrun & Hd & Hgone1 & Hgone2 & _ & apply & returnOp & ret & Happly & _ & _
          & Hlb & Hub & Hres & _).
    exists s', apply. split; [exact Hrun|]. split; [exact Hd|].
    split; [exact Hgone1|]. split; [exact Hgone2|]. split; [exact Happly|].
    split; [exact Hlb|]. split; [exact Hub|exact Hres].
Defined.

(** ** The Mirror rewrite *)

(** The Mirror pattern hands a combine op with extra operands and one
    apply op on each side to [mirrorExtraResults]. *)
Lemma MirrorRewrite_matchAndRewrite_mirrors ir c oc lower upper ip diags :
  CombineSite ir c oc lower upper →
  CombineOp.lowerext oc ≠ [] ∨ CombineOp.upperext oc ≠ [] →
  CombineOp.getLowerDefiningOps oc = [Some (ab_op lower)] →
  CombineOp.getUpperDefiningOps oc = [Some (ab_op upper)] →
  applyPattern MirrorRewrite.matchAndRewrite c (mkRewriter ir ip diags)
  = MirrorRewrite.mirrorExtraResults (ab_op lower) (ab_op upper) c
      (mkRewriter ir (IPBefore c) diags).
Proof.
  intros Hsite Hext Hl Hu.
  destruct Hsite as [_ Hc _ _ [Ha HaA _ _ _ _ _ _ _ _ _] [Hb HbA _ _ _ _ _ _ _ _ _] _ _].
  unfold applyPattern. rstep. unfold MirrorRewrite.matchAndRewrite.
  qstep ltac:(apply getOperation_Some; eassumption).
  rewrite Hl, Hu.
  assert (bool_decide (CombineOp.lowerext oc = []) && bool_decide (CombineOp.upperext oc = [])
          = false) as ->.
  { destruct Hext as [H|H]; rewrite (bool_decide_false _ H); [done|apply andb_false_r]. }
  qstep ltac:(eapply dyn_cast_Some; eassumption).
  qstep ltac:(eapply dyn_cast_Some; eassumption).
  reflexivity.
Qed.

(** C6: on a combine op with extra operands whose two sides are produced
    by one apply op each, the Mirror rewrite succeeds and replaces the
    combine op by a new one with the same result types, in the same
    order, which takes over the uses of its results and has no extra
    operands: its lower operands are the rerouted [lower] and [lowerext]
    operands followed by the results added to the lower apply op, its
    upper operands the rerouted [upper] operands, the results added to the
    upper apply op and the rerouted [upperext] operands.  The lower apply
    op is replaced by one with an additional temp result for every
    [upperext] operand; its body is the old one followed by one store
    result op without operand per [upperext] operand, of the result type
    of the element type of that operand, and by a return op with the
    unroll attribute and the operands of the old one followed by each new
    store result [unrollFac] times.  Likewise for the upper apply op and
    the [lowerext] operands.  The two apply ops are taken to declare their
    bounds, which [addEmptyStores] reads, the extra operands to be results
    of temp type of the apply op of their side, and the results of the two
    apply ops to have no user but the combine op, which [eraseOp] asserts
    when it erases them. *)
Theorem mirror_adds_empty_stores ir c oc lower upper es1 es2 ip diags :
  CombineSite ir c oc lower upper →
  CombineOp.lowerext oc ≠ [] ∨ CombineOp.upperext oc ≠ [] →
  CombineOp.getLowerDefiningOps oc = [Some (ab_op lower)] →
  CombineOp.getUpperDefiningOps oc = [Some (ab_op upper)] →
  op_operands oc
  = CombineOp.lower oc ++ CombineOp.upper oc
      ++ CombineOp.lowerext oc ++ CombineOp.upperext oc →
  Forall (resultOf lower) (CombineOp.lower oc ++ CombineOp.lowerext oc) →
  Forall (resultOf upper) (CombineOp.upper oc ++ CombineOp.upperext oc) →
  hasShape (op_kind (ab_apply lower)) = true →
  hasShape (op_kind (ab_apply upper)) = true →
  Forall2 (λ v e, tempElementType (getType ir v) = Ok e) (CombineOp.upperext oc) es1 →
  Forall2 (λ v e, tempElementType (getType ir v) = Ok e) (CombineOp.lowerext oc) es2 →
  usedOnlyBy (ir_ops ir) (ab_op lower) [c] → usedOnlyBy (ir_ops ir) (ab_op upper) [c] →
  ∃ s',
    applyPattern MirrorRewrite.matchAndRewrite c (mkRewriter ir ip diags)
    = Ok (success, s') ∧
    let ir' := rw_ir s' in
    let n := ir_nextOp ir in
    let newLower := n in
    let newUpper := 2 + length es1 + n in
    let newCombine := 4 + length es1 + length es2 + n in
    let lowerFac := Z.to_nat (ReturnOp.getUnrollFac (op_kind (ab_return lower))) in
    let upperFac := Z.to_nat (ReturnOp.getUnrollFac (op_kind (ab_return upper))) in
    ir_ops ir' !! c = None ∧
    (∃ combine,
        ir_ops ir' !! newCombine = Some combine ∧
        isCombineOp (op_kind combine) = true ∧
        CombineOp.lowerext combine = [] ∧ CombineOp.upperext combine = [] ∧
        op_results combine = op_results oc ∧
        CombineOp.dim (op_kind combine) = CombineOp.dim (op_kind oc) ∧
        CombineOp.index (op_kind combine) = CombineOp.index (op_kind oc) ∧
        CombineOp.lower combine
        = (rerouted newLower <$> CombineOp.lower oc)
            ++ (rerouted newLower <$> CombineOp.lowerext oc)
            ++ (OpResult newLower
                  <$> seq (length (op_results (ab_apply lower))) (length es1)) ∧
        CombineOp.upper combine
        = (rerouted newUpper <$> CombineOp.upper oc)
            ++ (OpResult newUpper
                  <$> seq (length (op_results (ab_apply upper))) (length es2))
            ++ (rerouted newUpper <$> CombineOp.upperext oc)) ∧
    (∀ u ou p i,
        ir_ops ir !! u = Some ou →
        u ∉ [c; ab_op lower; ab_op upper; ab_returnOp lower; ab_returnOp upper] →
        op_operands ou !! p = Some (OpResult c i) → i < length (op_results oc) →
        ∃ ou', ir_ops ir' !! u = Some ou' ∧
               op_operands ou' !! p = Some (OpResult newCombine i)) ∧
    (∃ apply body ret,
        ir_ops ir' !! newLower = Some apply ∧ isApplyOp (op_kind apply) = true ∧
        op_results apply
        = op_results (ab_apply lower) ++ emptyTypes (ab_apply lower) es1 ∧
        op_regions apply = [[body]] ∧
        blockOps ir' body
        = ab_body lower ++ seq (1 + n) (length es1) ++ [1 + n + length es1] ∧
        (∀ i e, es1 !! i = Some e → ir_ops ir' !! (1 + n + i) = Some (emptyStore e)) ∧
        ir_ops ir' !! (1 + n + length es1) = Some ret ∧
        op_kind ret = ReturnOp (ReturnOp.unroll (op_kind (ab_return lower))) ∧
        op_operands ret
        = op_operands (ab_return lower) ++ storeOperands (1 + n) lowerFac (length es1)) ∧
    (∃ apply body ret,
        ir_ops ir' !! newUpper = Some apply ∧ isApplyOp (op_kind apply) = true ∧
        op_results apply
        = op_results (ab_apply upper) ++ emptyTypes (ab_apply upper) es2 ∧
        op_regions apply = [[body]] ∧
        blockOps ir' body
        = ab_body upper ++ seq (1 + newUpper) (length es2) ++ [1 + newUpper + length es2] ∧
        (∀ i e, es2 !! i = Some e →
                ir_ops ir' !! (1 + newUpper + i) = Some (emptyStore e)) ∧
        ir_ops ir' !! (1 + newUpper + length es2) = Some ret ∧
        op_kind ret = ReturnOp (ReturnOp.unroll (op_kind (ab_return upper))) ∧
        op_operands ret
        = op_operands (ab_return upper)
            ++ storeOperands (1 + newUpper) upperFac (length es2)).
Proof.
  intros Hsite Hext Hl Hu Hoperands Hlow Hupp _ _ Ht1 Ht2 Huseda Husedb.
  rewrite (MirrorRewrite_matchAndRewrite_mirrors _ _ _ _ _ _ _ Hsite Hext Hl Hu).
  destruct ir as [ops blocks n nb].
  destruct (mirrorExtraResults_run ops blocks n nb diags c oc lower upper es1 es2)
    as (σ & s' & Hrun & _ & R); try done.
  exists s'. split; [done|]. cbv zeta.
  destruct R as [Hmr_nextOp Hmr_erased Hmr_fresh Hmr_absent Hmr_kept Hmr_combine Hmr_lowerApply
                  Hmr_upperApply Hmr_lowerStore Hmr_upperStore Hmr_lowerReturn Hmr_upperReturn
                  Hmr_lowerBody Hmr_upperBody Hmr_subst_result Hmr_subst_lower Hmr_subst_upper
                  Hmr_subst_other].
  cbn [ir_ops ir_nextOp ir_nextBlock] in *.
  pose proof Hsite as [_ _ _ _ Hx1 Hx2 _ Hnd].
  destruct (NoDup_handles _ _ _ _ _ _ _ Hnd) as (_ & Hnin & _).
  assert (∀ x, ApplyBodyIn (mkIR ops blocks n nb) x →
               ab_body x ⊆ ab_body lower ++ ab_body upper →
               σ <$> op_operands (ab_return x) = op_operands (ab_return x)) as Hσ.
  { intros x Hx Hsub. apply substList_fmap_id.
    eapply Forall_impl; [exact (abi_returned _ _ Hx)|].
    intros v (y & i & -> & Hy). apply Hmr_subst_other; try done.
    cbn. intros [= ->]. rewrite Forall_forall in Hnin.
    specialize (Hnin c (list_elem_of_here _ _)). apply Hsub, elem_of_app in Hy. tauto. }
  split_and!.
  - by apply Forall_cons in Hmr_erased as [? _].
  - cbv zeta in Hmr_combine. eexists. split_and!; [exact Hmr_combine|..];
      unfold CombineOp.lowerext, CombineOp.upperext, CombineOp.lower, CombineOp.upper;
      cbn [op_kind op_results op_operands CombineOp.segments CombineOp.dim CombineOp.index
           seg_lower seg_upper seg_lowerext seg_upperext isCombineOp]; try done.
    + by rewrite take_app_length.
    + by rewrite drop_app_length, take_ge by lia.
  - intros u ou p i Hou Hnotin Hp Hi. eexists. split; [by apply Hmr_kept|].
    cbn [op_operands]. rewrite list_lookup_fmap, Hp. cbn. f_equal. by apply Hmr_subst_result.
  - eexists _, _, _. split_and!; [exact Hmr_lowerApply| | | |exact Hmr_lowerBody
                                  |exact Hmr_lowerStore|exact Hmr_lowerReturn| |];
      cbn [op_kind op_results op_regions op_operands]; try done.
    + apply rebuiltApply_isApplyOp.
    + rewrite Hσ; [done|done|]. intros y Hy. apply elem_of_app. by left.
  - eexists _, _, _. split_and!; [exact Hmr_upperApply| | | |exact Hmr_upperBody
                                  |exact Hmr_upperStore|exact Hmr_upperReturn| |];
      cbn [op_kind op_results op_regions op_operands]; try done.
    + apply rebuiltApply_isApplyOp.
    + rewrite Hσ; [done|done|]. intros y Hy. apply elem_of_app. by right.
Qed.

Lemma mirrorIR_site : CombineSite mirrorIR 11 mirrorCombine mirrorLower mirrorUpper.
Proof.
  constructor.
  - split; compute_done.
  - reflexivity.
  - reflexivity.
  - reflexivity.
  - constructor; try reflexivity.
    + repeat constructor; eexists; reflexivity.
    + repeat constructor; eexists _, _; (split; [reflexivity|compute_done]).
  - constructor; try reflexivity.
    + repeat constructor; eexists; reflexivity.
    + repeat constructor. eexists _, _. split; [reflexivity|]. compute_done.
  - done.
  - compute_done.
Qed.

Lemma mirrorIR_used :
  usedOnlyBy (ir_ops mirrorIR) 2 [11] ∧ usedOnlyBy (ir_ops mirrorIR) 7 [11].
Proof. split; compute_done. Qed.

Lemma mirror_adds_empty_stores_witness :
  ∃ s',
    applyPattern MirrorRewrite.matchAndRewrite 11 (mkRewriter mirrorIR IPNone [])
    = Ok (success, s') ∧
    ir_ops (rw_ir s') !! 16 = Some (emptyStore F64).
Proof.
  destruct (mirror_adds_empty_stores mirrorIR 11 mirrorCombine mirrorLower mirrorUpper
              [] [F64] IPNone [])
    as (s' & Hrun & _ & _ & _ & _ & (apply & body & ret & _ & _ & _ & _ & _ & Hstore & _)).
  - apply mirrorIR_site.
  - left. discriminate.
  - reflexivity.
  - reflexivity.
  - reflexivity.
  - repeat constructor; eexists; (split; [reflexivity|vm_compute; lia]).
  - repeat constructor; eexists; (split; [reflexivity|vm_compute; lia]).
  - reflexivity.
  - reflexivity.
  - constructor.
  - repeat constructor.
  - apply mirrorIR_used.
  - apply mirrorIR_used.
  - exists s'. split; [exact Hrun|]. exact (Hstore 0 F64 eq_refl).
Defined.

(** ** The verifiers and the pass *)

Lemma wrapS32_mod z : (wrapS32 z mod 2 ^ 32 = z mod 2 ^ 32)%Z.
Proof.
  unfold wrapS32.
  rewrite Zminus_mod, Zmod_mod, <- Zminus_mod.
  f_equal. lia.
Qed.

Lemma wrapS64_mod z : (wrapS64 z mod 2 ^ 32 = z mod 2 ^ 32)%Z.
Proof.
  unfold wrapS64.
  replace ((z + 2 ^ 63) mod 2 ^ 64 - 2 ^ 63)%Z
    with (z - 2 ^ 64 * ((z + 2 ^ 63) / 2 ^ 64))%Z.
  - replace (2 ^ 64)%Z with (2 ^ 32 * 2 ^ 32)%Z by reflexivity.
    rewrite <- Z.mul_assoc.
    replace (z - 2 ^ 32 * (2 ^ 32 * ((z + 2 ^ 63) / (2 ^ 32 * 2 ^ 32))))%Z
      with (z + (- (2 ^ 32 * ((z + 2 ^ 63) / (2 ^ 32 * 2 ^ 32)))) * 2 ^ 32)%Z by lia.
    apply Z_mod_plus_full.
  - pose proof (Z.div_mod (z + 2 ^ 63) (2 ^ 64) ltac:(lia)). lia.
Qed.

Lemma accumulate_from (u : Index) (a : Z) :
  (fold_left (λ acc x, wrapS32 (wrapS64 (acc * x))) u a mod 2 ^ 32
   = (a * foldr Z.mul 1 u) mod 2 ^ 32)%Z.
Proof.
  revert a. induction u as [|x u IH]; intros a; simpl.
  - f_equal. lia.
  - rewrite IH.
    rewrite Z.mul_mod by lia. rewrite wrapS32_mod, wrapS64_mod.
    rewrite <- Z.mul_mod by lia. f_equal. lia.
Qed.

Lemma getUnrollFac_product k :
  ReturnOp.getUnrollFac k
  = match ReturnOp.unroll k with
    | Some u => (foldr Z.mul 1 u mod 2 ^ 32)%Z
    | None => 1%Z
    end.
Proof.
  unfold ReturnOp.getUnrollFac. destruct (ReturnOp.unroll k) as [u|]; [|done].
  unfold wrapU32, ReturnOp.accumulate. rewrite accumulate_from. f_equal. lia.
Qed.

Lemma forEach_Verified {A} (f : A → Outcome Verdict) l :
  forEach f l = Ok Verified → ∀ x, x ∈ l → f x = Ok Verified.
Proof.
  induction l as [|y l IH]; intros H x Hx.
  - by apply elem_of_nil in Hx.
  - simpl in H. destruct (f y) as [[|msg]|msg] eqn:E; simpl in H; try discriminate.
    apply elem_of_cons in Hx as [->|Hx]; auto.
Qed.

Lemma bind_Ok {A B} (m : Outcome A) (f : A → Outcome B) b :
  m ≫= f = Ok b → ∃ a, m = Ok a ∧ f a = Ok b.
Proof. destruct m; simpl; [eauto | discriminate]. Qed.

Lemma getOperation_Ok ir op o : getOperation ir op = Ok o ↔ ir_ops ir !! op = Some o.
Proof.
  unfold getOperation. destruct (ir_ops ir !! op); split; intros H; inversion H; done.
Qed.

Lemma cast_Ok ir p op id :
  cast ir p op = Ok id →
  op = Some id ∧ ∃ o, ir_ops ir !! id = Some o ∧ p (op_kind o) = true.
Proof.
  unfold cast. destruct op as [x|]; [|discriminate].
  intros H. apply bind_Ok in H as (o & Ho & H).
  apply getOperation_Ok in Ho.
  destruct (p (op_kind o)) eqn:E; [|discriminate].
  inversion H; subst. eauto.
Qed.

(** C8, amended: the verifier of the return op succeeds only if the
    operand count equals the result count of the enclosing apply op
    multiplied by the unroll factor, where the unroll factor is the
    product of the entries of the optional unroll attribute taken modulo
    2^32, and 1 when the attribute is absent; and only if, for every
    result i of the apply op and every j below the unroll factor, the
    operand at position i * factor + j has the result type of the element
    type of the i-th result. *)
Theorem verifyReturnOp_sound ir op self :
  ir_ops ir !! op = Some self →
  verifyReturnOp ir op = Ok Verified →
  ∃ applyOp apply,
    getParentOp ir op = Some applyOp ∧
    ir_ops ir !! applyOp = Some apply ∧
    isApplyOp (op_kind apply) = true ∧
    let unrollFactor := ReturnOp.getUnrollFac (op_kind self) in
    unrollFactor = match ReturnOp.unroll (op_kind self) with
                   | Some u => (foldr Z.mul 1 u mod 2 ^ 32)%Z
                   | None => 1%Z
                   end ∧
    Z.of_nat (length (op_operands self))
    = (Z.of_nat (length (op_results apply)) * unrollFactor)%Z ∧
    ∀ i j, i < length (op_results apply) → j < Z.to_nat unrollFactor →
      ∃ v e shape,
        op_operands self !! (i * Z.to_nat unrollFactor + j) = Some v ∧
        getType ir v = ResultType e ∧
        (op_results apply !! i = Some (TempType e shape) ∨
         op_results apply !! i = Some (FieldType e shape)).
Proof.
  intros Hself H. unfold verifyReturnOp in H.
  apply bind_Ok in H as (self' & Hs & H).
  apply getOperation_Ok in Hs. rewrite Hself in Hs. inversion Hs; subst self'; clear Hs.
  apply bind_Ok in H as (applyOp & Hc & H).
  apply cast_Ok in Hc as (Hp & apply' & Ha & Hk).
  apply bind_Ok in H as (apply & Ha' & H).
  apply getOperation_Ok in Ha'. rewrite Ha in Ha'. inversion Ha'; subst apply'; clear Ha'.
  exists applyOp, apply. cbv zeta. split_and!; try done.
  - apply getUnrollFac_product.
  - case_bool_decide as Hn; [discriminate|]. lia.
  - intros i j Hi Hj.
    case_bool_decide as Hn; [discriminate|].
    pose proof (forEach_Verified _ _ H i) as Hi'.
    destruct (lookup_lt_is_Some_2 (op_results apply) i Hi) as [t Ht].
    assert (i ∈ seq 0 (length (op_results apply))) as Hin
      by (apply elem_of_seq; lia).
    specialize (Hi' Hin). simpl in Hi'. rewrite Ht in Hi'. simpl in Hi'.
    apply bind_Ok in Hi' as (te & Hte & Hi').
    pose proof (forEach_Verified _ _ Hi' j) as Hj'.
    assert (j ∈ seq 0 (Z.to_nat (ReturnOp.getUnrollFac (op_kind self)))) as Hjn
      by (apply elem_of_seq; lia).
    specialize (Hj' Hjn).
    apply bind_Ok in Hj' as (v & Hv & Hj').
    apply bind_Ok in Hj' as (e & He & Hj').
    case_bool_decide as Hne; [discriminate|]. subst te.
    unfold getOperand in Hv.
    destruct (op_operands self !! _) as [v'|] eqn:Ev; [|discriminate].
    inversion Hv; subst v'.
    destruct (getType ir v) eqn:Et; try discriminate.
    simpl in He. inversion He; subst.
    destruct t; try discriminate; simpl in Hte; inversion Hte; subst; eauto 10.
Qed.

(** With the unroll attribute [65536, 65536, 1] the product of the entries
    is 2^32, but the verifier accepts the return op without operand in an
    apply op with one result. *)
Lemma verifyReturnOp_overflow_counterexample : ¬ returnVerifierAsSpecified overflowIR 1.
Proof.
  intros H.
  specialize (H (mkOperation (ReturnOp (Some [65536; 65536; 1]%Z)) [] [] []) 0
                (mkOperation (ApplyOp None None) [] [temp64] [[0]])).
  discriminate H; by vm_compute.
Qed.

Lemma verifyReturnOp_sound_witness :
  ∃ applyOp apply,
    getParentOp unrolledIR 3 = Some applyOp ∧
    ir_ops unrolledIR !! applyOp = Some apply ∧
    Z.of_nat (length (op_operands unrolledReturn))
    = (Z.of_nat (length (op_results apply))
       * ReturnOp.getUnrollFac (op_kind unrolledReturn))%Z.
Proof.
  destruct (verifyReturnOp_sound unrolledIR 3 unrolledReturn)
    as (applyOp & apply & H1 & H2 & H3 & H4 & H5 & _).
  - by vm_compute.
  - by vm_compute.
  - exists applyOp, apply. split_and!; done.
Defined.

Lemma isa_Ok ir p op b :
  isa ir p op = Ok b →
  ∃ id o, op = Some id ∧ ir_ops ir !! id = Some o ∧ p (op_kind o) = b.
Proof.
  unfold isa. destruct op as [id|]; [|discriminate].
  intros H. apply bind_Ok in H as (o & Ho & H). apply getOperation_Ok in Ho.
  inversion H; subst. eauto.
Qed.

Section Store.
Context (hasDynamicShape : Ty → bool) (getRank : Ty → nat) (getAllocation : Ty → nat)
        (hasLargerOrEqualShape : Ty → Index → Index → bool).

Lemma verifyStoreOp_sound ir op self :
  ir_ops ir !! op = Some self →
  verifyStoreOp hasDynamicShape getRank getAllocation hasLargerOrEqualShape ir op
    = Ok Verified →
  ∃ temp field tempOp tempDef fieldOp fieldDef,
    op_operands self !! 0 = Some temp ∧
    op_operands self !! 1 = Some field ∧
    getDefiningOp temp = Some tempOp ∧
    ir_ops ir !! tempOp = Some tempDef ∧
    (isApplyOp (op_kind tempDef) = true ∨ isCombineOp (op_kind tempDef) = true) ∧
    countUsers ir isLoadOp field = 0 ∧
    countUsers ir isStoreOp field = 1 ∧
    getDefiningOp field = Some fieldOp ∧
    ir_ops ir !! fieldOp = Some fieldDef ∧
    isCastOp (op_kind fieldDef) = true.
Proof.
  intros Hself H. unfold verifyStoreOp in H.
  apply bind_Ok in H as (self' & Hs & H).
  apply getOperation_Ok in Hs. rewrite Hself in Hs. inversion Hs; subst self'; clear Hs.
  apply bind_Ok in H as (temp & Ht & H).
  apply bind_Ok in H as (field & Hf & H).
  apply bind_Ok in H as (fieldType & _ & H).
  apply bind_Ok in H as (tempType & _ & H).
  repeat (match type of H with (if ?c then _ else _) = _ =>
            destruct c; [discriminate|] end).
  apply bind_Ok in H as (fromApply & Ha & H).
  apply bind_Ok in H as (fromCombine & Hc & H).
  destruct (negb (fromApply || fromCombine)) eqn:Eac; [discriminate|].
  case_bool_decide as Hl; [discriminate|].
  case_bool_decide as Hst; [discriminate|].
  apply bind_Ok in H as (fromCast & Hk & H).
  destruct fromCast; [|discriminate]. simpl in H.
  apply isa_Ok in Ha as (tempOp & tempDef & Hd & Hto & Hta).
  apply isa_Ok in Hk as (fieldOp & fieldDef & Hfd & Hfo & Hfk).
  unfold getOperand in Ht, Hf.
  destruct (op_operands self !! 0) eqn:E0; [|discriminate].
  destruct (op_operands self !! 1) eqn:E1; [|discriminate].
  inversion Ht; inversion Hf; subst.
  exists temp, field, tempOp, tempDef, fieldOp, fieldDef.
  split_and!; try done.
  destruct (isApplyOp (op_kind tempDef)) eqn:Ea; [by left|right].
    rewrite Hd in Hc. apply isa_Ok in Hc as (? & ? & Hx & Hy & Hz).
    inversion Hx; subst. rewrite Hto in Hy. inversion Hy; subst.
    by destruct (isCombineOp (op_kind _)).
Qed.
End Store.

(** C9: the store op 3 writes the result of the apply op 0 into the first
    argument of the function, a statically shaped field; the field has no
    defining op, so that the cast-op test of the verifier, an [isa] on a
    null operation, aborts where an op error was to be emitted. *)
Theorem verifyStoreOp_argument_field_aborts :
  getDefiningOp (BlockArgument 0 0) = None ∧
  (op_operands <$> ir_ops storeToArgumentIR !! 3)
  = Some [OpResult 0 0; BlockArgument 0 0] ∧
  verifyStoreOp (λ _, false) (λ _, 3) (λ _, 0) (λ _ _ _, true) storeToArgumentIR 3
  = Abort "isa<> used on a null pointer".
Proof. by vm_compute. Qed.

Section PassRun.
Context (getCombineTreeRoot : IR → nat → Outcome nat).
Context (applyPatternsAndFoldGreedily :
           list (nat → M LogicalResult) → PatternRewriter → Outcome PatternRewriter).

Lemma hasOperandsWithMultipleUses_true ir c oc v :
  ir_ops ir !! c = Some oc → isCombineOp (op_kind oc) = true →
  v ∈ op_operands oc → 1 < length (getUsers ir v) →
  hasOperandsWithMultipleUses ir = true.
Proof.
  intros Hc Hk Hv Hlen. unfold hasOperandsWithMultipleUses.
  apply existsb_exists. exists (c, oc). split.
  - apply list_elem_of_In. by apply elem_of_map_to_list.
  - rewrite Hk. cbn [andb]. apply existsb_exists. exists v. split.
    + by apply list_elem_of_In.
    + unfold hasOneUse. rewrite bool_decide_false by lia. done.
Qed.

(** C4: on a function tagged as a stencil program that contains a combine
    op one of whose operands has more than one use, the pass emits the
    error on the function and signals failure; the graph it leaves is the
    graph it was given, and the pattern driver takes no part in the
    result, whatever it is. *)
Theorem runOnFunction_multiple_uses internalOnly funcOp c oc v :
  fn_isStencilProgram funcOp = true →
  ir_ops (fn_ir funcOp) !! c = Some oc → isCombineOp (op_kind oc) = true →
  v ∈ op_operands oc → 1 < length (getUsers (fn_ir funcOp) v) →
  runOnFunction getCombineTreeRoot applyPatternsAndFoldGreedily internalOnly funcOp
  = Ok (mkPassResult (fn_ir funcOp)
          [OpError OnFunc "execute domain splitting before combine op conversion"]
          true).
Proof using Type.
  intros Hs Hc Hk Hv Hlen. unfold runOnFunction. rewrite Hs. cbn [negb].
  by rewrite (hasOperandsWithMultipleUses_true _ _ _ _ Hc Hk Hv Hlen).
Qed.
End PassRun.

Lemma runOnFunction_multiple_uses_witness :
  runOnFunction (λ _ c, Ok c) (λ _ s, Ok s) false (mkFuncOp true sharedOperandIR)
  = Ok (mkPassResult sharedOperandIR
          [OpError OnFunc "execute domain splitting before combine op conversion"]
          true).
Proof.
  apply (runOnFunction_multiple_uses (λ _ c, Ok c) (λ _ s, Ok s) false
           (mkFuncOp true sharedOperandIR) 10 exampleCombine (OpResult 2 0)).
  - reflexivity.
  - reflexivity.
  - reflexivity.
  - compute_done.
  - vm_compute. lia.
Defined.

(** ** The accessors of the combine op *)

Lemma collectDefiningOps_nil acc : CombineOp.collectDefiningOps acc [] = acc.
Proof. done. Qed.

Lemma collectDefiningOps_cons acc v vs :
  CombineOp.collectDefiningOps acc (v :: vs)
  = CombineOp.collectDefiningOps
      (if bool_decide (getDefiningOp v ∈ acc) then acc else acc ++ [getDefiningOp v]) vs.
Proof. done. Qed.

Lemma collectDefiningOps_NoDup acc vs :
  NoDup acc → NoDup (CombineOp.collectDefiningOps acc vs).
Proof.
  revert acc. induction vs as [|v vs IH]; intros acc Hacc; [done|].
  rewrite collectDefiningOps_cons. apply IH. case_bool_decide as Hin; [done|].
  apply NoDup_app. split_and!; [done| |apply NoDup_singleton].
  intros d Hd ->%list_elem_of_singleton. done.
Qed.

Lemma collectDefiningOps_elem acc vs d :
  d ∈ CombineOp.collectDefiningOps acc vs
  ↔ d ∈ acc ∨ ∃ v, v ∈ vs ∧ getDefiningOp v = d.
Proof.
  revert acc. induction vs as [|v vs IH]; intros acc.
  - rewrite collectDefiningOps_nil. split; [by left|].
    intros [?|(v & Hv & _)]; [done|]. by apply elem_of_nil in Hv.
  - rewrite collectDefiningOps_cons, IH. case_bool_decide as Hin.
    + split.
      * intros [?|(w & Hw & Hd)]; [by left|]. right. exists w. split; [|done].
        by apply list_elem_of_further.
      * intros [?|(w & [->|Hw]%elem_of_cons & Hd)]; [by left| |].
        -- left. by rewrite <- Hd.
        -- right. by exists w.
    + rewrite elem_of_app, list_elem_of_singleton. split.
      * intros [[?| ->]|(w & Hw & Hd)]; [by left| |].
        -- right. exists v. split; [apply list_elem_of_here|done].
        -- right. exists w. split; [by apply list_elem_of_further|done].
      * intros [?|(w & [->|Hw]%elem_of_cons & Hd)]; [by left; left| |].
        -- left. by right.
        -- right. by exists w.
Qed.

(** X1: the defining ops of a side of a combine op are listed without
    repetition, and a (possibly null) operation is listed exactly when it
    defines one of the operands of the side, extra operands included. *)
Theorem definingOps_listed_once o :
  NoDup (CombineOp.getLowerDefiningOps o) ∧
  NoDup (CombineOp.getUpperDefiningOps o) ∧
  (∀ d, d ∈ CombineOp.getLowerDefiningOps o
        ↔ ∃ v, v ∈ CombineOp.lower o ++ CombineOp.lowerext o ∧ getDefiningOp v = d) ∧
  (∀ d, d ∈ CombineOp.getUpperDefiningOps o
        ↔ ∃ v, v ∈ CombineOp.upper o ++ CombineOp.upperext o ∧ getDefiningOp v = d).
Proof.
  unfold CombineOp.getLowerDefiningOps, CombineOp.getUpperDefiningOps. split_and!.
  - apply collectDefiningOps_NoDup, collectDefiningOps_NoDup, NoDup_nil_2.
  - apply collectDefiningOps_NoDup, collectDefiningOps_NoDup, NoDup_nil_2.
  - intros d. rewrite !collectDefiningOps_elem. setoid_rewrite elem_of_app. split.
    + intros [[Hd|(v & Hv & Hd)]|(v & Hv & Hd)]; [by apply elem_of_nil in Hd|eauto..].
    + intros (v & [Hv|Hv] & Hd); eauto.
  - intros d. rewrite !collectDefiningOps_elem. setoid_rewrite elem_of_app. split.
    + intros [[Hd|(v & Hv & Hd)]|(v & Hv & Hd)]; [by apply elem_of_nil in Hd|eauto..].
    + intros (v & [Hv|Hv] & Hd); eauto.
Qed.

(** X2: the three result-number maps of a combine op split the result
    numbers below [|lower| + |lowerext| + |upperext|] into three
    consecutive ranges: exactly one of them answers, with the position in
    its operand segment; for a larger result number none of them does. *)
Theorem result_numbers_partition o r :
  let l := length (CombineOp.lower o) in
  let le := length (CombineOp.lowerext o) in
  let ue := length (CombineOp.upperext o) in
  (r < l →
   getLowerOperandNumber o r = Some r ∧
   getLowerExtraOperandNumber o r = None ∧ getUpperExtraOperandNumber o r = None) ∧
  (l ≤ r < l + le →
   getLowerOperandNumber o r = None ∧
   getLowerExtraOperandNumber o r = Some (r - l) ∧ getUpperExtraOperandNumber o r = None) ∧
  (l + le ≤ r < l + le + ue →
   getLowerOperandNumber o r = None ∧
   getLowerExtraOperandNumber o r = None ∧
   getUpperExtraOperandNumber o r = Some (r - l - le)) ∧
  (l + le + ue ≤ r →
   getLowerOperandNumber o r = None ∧
   getLowerExtraOperandNumber o r = None ∧ getUpperExtraOperandNumber o r = None).
Proof.
  cbv zeta. unfold getLowerOperandNumber, getLowerExtraOperandNumber,
    getUpperExtraOperandNumber.
  split_and!; intros Hr;
    repeat case_bool_decide; cbn [andb]; split_and!; try done; lia.
Qed.

Lemma result_numbers_partition_witness :
  getLowerOperandNumber mirrorCombine 1 = None ∧
  getLowerExtraOperandNumber mirrorCombine 1 = Some 0 ∧
  getUpperExtraOperandNumber mirrorCombine 1 = None.
Proof.
  destruct (result_numbers_partition mirrorCombine 1) as (_ & Hext & _).
  apply Hext. vm_compute. lia.
Defined.

Lemma segment_lengths o :
  let s := CombineOp.segments (op_kind o) in
  (∀ j v, CombineOp.lower o !! j = Some v → op_operands o !! j = Some v) ∧
  (∀ j v, CombineOp.upper o !! j = Some v →
          op_operands o !! (length (CombineOp.lower o) + j) = Some v) ∧
  (∀ j v, CombineOp.lowerext o !! j = Some v →
          op_operands o !! (length (CombineOp.lower o) + length (CombineOp.upper o) + j)
          = Some v) ∧
  (∀ j v, CombineOp.upperext o !! j = Some v →
          op_operands o !! (length (CombineOp.lower o) + length (CombineOp.upper o)
                            + length (CombineOp.lowerext o) + j) = Some v).
Proof.
  cbv zeta. unfold CombineOp.lower, CombineOp.upper, CombineOp.lowerext, CombineOp.upperext.
  cbv zeta. set (s := CombineOp.segments (op_kind o)). set (l := op_operands o).
  split_and!; intros j v Hj.
  - by apply lookup_take_Some in Hj as [? _].
  - apply lookup_take_Some in Hj as [Hj Hlt]. rewrite lookup_drop in Hj.
    pose proof (lookup_lt_Some _ _ _ Hj). rewrite length_take.
    replace (seg_lower s `min` length l) with (seg_lower s) by lia. done.
  - apply lookup_take_Some in Hj as [Hj Hlt]. rewrite lookup_drop in Hj.
    pose proof (lookup_lt_Some _ _ _ Hj). rewrite !length_take, length_drop.
    replace (seg_lower s `min` length l) with (seg_lower s) by lia.
    replace (seg_upper s `min` (length l - seg_lower s)) with (seg_upper s) by lia. done.
  - apply lookup_take_Some in Hj as [Hj Hlt]. rewrite lookup_drop in Hj.
    pose proof (lookup_lt_Some _ _ _ Hj). rewrite !length_take, !length_drop.
    replace (seg_lower s `min` length l) with (seg_lower s) by lia.
    replace (seg_upper s `min` (length l - seg_lower s)) with (seg_upper s) by lia.
    replace (seg_lowerext s `min` (length l - (seg_lower s + seg_upper s)))
      with (seg_lowerext s) by lia.
    done.
Qed.

Lemma segment_total o :
  length (CombineOp.lower o) + length (CombineOp.upper o) + length (CombineOp.lowerext o)
  ≤ length (op_operands o).
Proof.
  unfold CombineOp.lower, CombineOp.upper, CombineOp.lowerext. cbv zeta.
  rewrite !length_take, !length_drop. lia.
Qed.

(** X3: [isLowerOperand] and [isUpperOperand] tell the side of an operand
    position: the positions of the [lower] and [lowerext] operands are
    lower and not upper, those of the [upper] and [upperext] operands are
    upper and not lower, and a position beyond the operand list is on
    neither side. *)
Theorem operand_sides o :
  let l := length (CombineOp.lower o) in
  let u := length (CombineOp.upper o) in
  let le := length (CombineOp.lowerext o) in
  (∀ j v, CombineOp.lower o !! j = Some v →
          op_operands o !! j = Some v ∧
          isLowerOperand o j = true ∧ isUpperOperand o j = false) ∧
  (∀ j v, CombineOp.upper o !! j = Some v →
          op_operands o !! (l + j) = Some v ∧
          isLowerOperand o (l + j) = false ∧ isUpperOperand o (l + j) = true) ∧
  (∀ j v, CombineOp.lowerext o !! j = Some v →
          op_operands o !! (l + u + j) = Some v ∧
          isLowerOperand o (l + u + j) = true ∧ isUpperOperand o (l + u + j) = false) ∧
  (∀ j v, CombineOp.upperext o !! j = Some v →
          op_operands o !! (l + u + le + j) = Some v ∧
          isLowerOperand o (l + u + le + j) = false ∧
          isUpperOperand o (l + u + le + j) = true) ∧
  (∀ i, length (op_operands o) ≤ i →
        isLowerOperand o i = false ∧ isUpperOperand o i = false).
Proof.
  cbv zeta. destruct (segment_lengths o) as (H1 & H2 & H3 & H4).
  pose proof (segment_total o) as Htotal.
  unfold isUpperOperand, isLowerOperand. split_and!.
  - intros j v Hj. pose proof (lookup_lt_Some _ _ _ Hj).
    split; [by apply H1|].
    repeat case_bool_decide; cbn [orb andb negb]; split; (done || lia).
  - intros j v Hj. pose proof (lookup_lt_Some _ _ _ Hj).
    pose proof (lookup_lt_Some _ _ _ (H2 _ _ Hj)).
    split; [by apply H2|].
    repeat case_bool_decide; cbn [orb andb negb]; split; (done || lia).
  - intros j v Hj. pose proof (lookup_lt_Some _ _ _ Hj).
    split; [by apply H3|].
    repeat case_bool_decide; cbn [orb andb negb]; split; (done || lia).
  - intros j v Hj. pose proof (lookup_lt_Some _ _ _ Hj).
    pose proof (lookup_lt_Some _ _ _ (H4 _ _ Hj)).
    split; [by apply H4|].
    repeat case_bool_decide; cbn [orb andb negb]; split; (done || lia).
  - intros i Hi.
    repeat case_bool_decide; cbn [orb andb negb]; split; (done || lia).
Qed.

Lemma operand_sides_witness :
  op_operands mirrorCombine !! 2 = Some (OpResult 2 1) ∧
  isLowerOperand mirrorCombine 2 = true ∧ isUpperOperand mirrorCombine 2 = false.
Proof.
  destruct (operand_sides mirrorCombine) as (_ & _ & Hext & _).
  apply (Hext 0 (OpResult 2 1)). reflexivity.
Defined.

(** ** The unroll helpers of the return op *)

(** X4: [getUnrollDim] answers 0 without unroll attribute; with the
    attribute it answers the position of the first entry equal to the
    unroll factor, and no other position. *)
Theorem getUnrollDim_first_match k d :
  ReturnOp.getUnrollDim k = Ok d
  ↔ match ReturnOp.unroll k with
    | None => d = 0
    | Some u =>
        u !! d = Some (ReturnOp.getUnrollFac k) ∧
        ∀ j x, j < d → u !! j = Some x → x ≠ ReturnOp.getUnrollFac k
    end.
Proof.
  unfold ReturnOp.getUnrollDim. destruct (ReturnOp.unroll k) as [u|] eqn:Hu.
  - destruct (list_find _ u) as [[i x]|] eqn:Hfind.
    + apply list_find_Some in Hfind as (Hi & -> & Hbefore). split.
      * intros [= <-]. split; [done|]. intros j x Hj Hx. by eapply Hbefore.
      * intros [Hd Hfirst]. f_equal.
        destruct (Nat.lt_trichotomy i d) as [Hlt|[->|Hgt]]; [|done|].
        -- by destruct (Hfirst i _ Hlt Hi).
        -- by destruct (Hbefore d _ Hd Hgt).
    + split; [done|]. intros [Hd _].
      apply list_find_None in Hfind. rewrite Forall_forall in Hfind.
      destruct (Hfind _ (list_elem_of_lookup_2 _ _ _ Hd)). done.
  - split; [by intros [= <-]|by intros ->].
Qed.

Lemma indexProduct_ge u : Forall (λ x, 1 ≤ x)%Z u → (1 ≤ indexProduct u)%Z.
Proof.
  unfold indexProduct. induction 1 as [|x u Hx Hu IH]; simpl; [lia|nia].
Qed.

Lemma indexProduct_elem u x :
  Forall (λ x, 1 ≤ x)%Z u → x ∈ u → (x ≤ indexProduct u)%Z.
Proof.
  unfold indexProduct. induction 1 as [|y u Hy Hu IH]; intros Hx.
  - by apply elem_of_nil in Hx.
  - pose proof (indexProduct_ge u Hu) as Hge. unfold indexProduct in Hge. simpl.
    apply elem_of_cons in Hx as [->|Hx]; [nia|]. specialize (IH Hx). nia.
Qed.

Lemma indexProduct_delete u i x :
  u !! i = Some x → indexProduct u = (x * indexProduct (delete i u))%Z.
Proof.
  unfold indexProduct. revert i. induction u as [|y u IH]; intros i Hi; [done|].
  destruct i as [|i]; simpl in *.
  - by injection Hi as ->.
  - rewrite (IH i Hi). lia.
Qed.

Lemma lookup_delete_other {A} (l : list A) i j y :
  i ≠ j → l !! j = Some y → y ∈ delete i l.
Proof.
  intros Hne Hj. destruct (decide (j < i)) as [Hlt|Hge].
  - apply (list_elem_of_lookup_2 _ j). by rewrite list_lookup_delete_lt.
  - apply (list_elem_of_lookup_2 _ (j - 1)). rewrite list_lookup_delete_ge by lia.
    rewrite <- Hj. f_equal. lia.
Qed.

(** X5: when the unroll attribute has entries greater than one in two
    positions (all entries positive, the product below 2^32), no entry
    equals the unroll factor: [getUnrollDim] fails its assertion, and with
    it the unroll test of the Fuse and IfElse rewrites against every
    return op of the same unroll factor. *)
Theorem getUnrollDim_two_dimensions u p q a b :
  Forall (λ x, 1 ≤ x)%Z u → (indexProduct u < 2 ^ 32)%Z →
  p ≠ q → u !! p = Some a → u !! q = Some b → (1 < a)%Z → (1 < b)%Z →
  ReturnOp.getUnrollFac (ReturnOp (Some u)) = indexProduct u ∧
  ReturnOp.getUnrollDim (ReturnOp (Some u)) = Abort "expected to find unroll factor" ∧
  ∀ k, ReturnOp.getUnrollFac k = indexProduct u →
       unrollMismatch (ReturnOp (Some u)) k = Abort "expected to find unroll factor".
Proof.
  intros Hpos Hlt Hpq Hp Hq Ha Hb.
  pose proof (indexProduct_ge u Hpos) as Hge.
  assert (ReturnOp.getUnrollFac (ReturnOp (Some u)) = indexProduct u) as Hfac.
  { rewrite getUnrollFac_product. cbn. fold (indexProduct u).
    apply Z.mod_small. lia. }
  assert (ReturnOp.getUnrollDim (ReturnOp (Some u)) = Abort "expected to find unroll factor")
    as Hdim.
  { unfold ReturnOp.getUnrollDim. cbn [ReturnOp.unroll]. rewrite Hfac.
    destruct (list_find _ u) as [[i x]|] eqn:Hfind; [|done].
    apply list_find_Some in Hfind as (Hi & Hx & _). exfalso.
    rewrite (indexProduct_delete u i x Hi) in Hx.
    assert (Forall (λ x, 1 ≤ x)%Z (delete i u)) as Hpos'.
    { apply Forall_forall. intros y Hy. rewrite Forall_forall in Hpos. apply Hpos.
      by eapply list_elem_of_delete_inv. }
    pose proof (proj1 (Forall_forall _ _) Hpos x (list_elem_of_lookup_2 _ _ _ Hi)) as Hx1.
    cbv beta in Hx1.
    assert (2 ≤ indexProduct (delete i u))%Z as Hrest.
    { destruct (decide (i = p)) as [->|Hip].
      - pose proof (indexProduct_elem _ b Hpos' (lookup_delete_other u p q b Hpq Hq)). lia.
      - pose proof (indexProduct_elem _ a Hpos' (lookup_delete_other u i p a Hip Hp)). lia. }
    nia. }
  split_and!; [done|done|].
  intros k Hk. unfold unrollMismatch. rewrite Hfac, Hk.
  rewrite bool_decide_false by (by intros H). by rewrite Hdim.
Qed.

Lemma getUnrollDim_two_dimensions_witness :
  ReturnOp.getUnrollFac (ReturnOp (Some [2; 2; 1]%Z)) = 4%Z ∧
  ReturnOp.getUnrollDim (ReturnOp (Some [2; 2; 1]%Z)) = Abort "expected to find unroll factor".
Proof.
  destruct (getUnrollDim_two_dimensions [2; 2; 1]%Z 0 1 2%Z 2%Z) as (Hfac & Hdim & _).
  - repeat constructor; lia.
  - reflexivity.
  - lia.
  - reflexivity.
  - reflexivity.
  - lia.
  - lia.
  - split; [exact Hfac|exact Hdim].
Defined.

(** ** The guards of the three patterns *)

Lemma dyn_cast_lookup ir p a o :
  ir_ops ir !! a = Some o →
  dyn_cast ir p (Some a) = Ok (if p (op_kind o) then Some a else None).
Proof.
  intros H. unfold dyn_cast, isa. rewrite (getOperation_Some _ _ _ H). done.
Qed.

Lemma dyn_cast_Ok ir p d r :
  dyn_cast ir p d = Ok r →
  ∃ a o, d = Some a ∧ ir_ops ir !! a = Some o ∧ r = if p (op_kind o) then Some a else None.
Proof.
  unfold dyn_cast. intros H. apply bind_Ok in H as (b & Hb & H).
  apply isa_Ok in Hb as (a & o & -> & Ho & <-). injection H as <-. eauto.
Qed.

Lemma run_query_bind {A B} (f : IR → Outcome A) (k : A → M B) s :
  (query f ≫= k) s
  = match f (rw_ir s) with Ok a => k a s | Abort msg => Abort msg end.
Proof. unfold mbind, M_bind, query. by destruct (f (rw_ir s)). Qed.

Ltac guard_tac :=
  repeat first
    [ rewrite run_query_bind; cbn [rw_ir]
    | match goal with
      | H : ir_ops ?ir !! ?c = Some _ |- context [getOperation ?ir ?c] =>
          rewrite (getOperation_Some ir c _ H)
      | H : ir_ops ?ir !! ?a = Some _ |- context [dyn_cast ?ir ?p (Some ?a)] =>
          rewrite (dyn_cast_lookup ir p a _ H)
      | H : ir_ops ?ir !! ?a = Some _ |- context [cast ?ir ?p (Some ?a)] =>
          unfold cast; rewrite (getOperation_Some ir a _ H);
          cbn [mbind Outcome_bind mret Outcome_ret]
      end ].

(** X6: the IfElse pattern leaves the rewriter as it is and fails when the
    combine op has an extra operand, or a side whose operands do not have
    exactly one defining op between them; with one existing defining op on
    each side it runs [lowerStencilCombine] when both are apply ops and
    fails without a change when one is not; it never succeeds on any other
    combine op. *)
Theorem ifElse_guard ir c oc ip diags :
  ir_ops ir !! c = Some oc →
  let s := mkRewriter ir ip diags in
  let run := IfElseRewrite.matchAndRewrite c s in
  (CombineOp.lowerext oc ≠ [] ∨ CombineOp.upperext oc ≠ [] ∨
   length (CombineOp.getLowerDefiningOps oc) ≠ 1 ∨
   length (CombineOp.getUpperDefiningOps oc) ≠ 1 →
   run = Ok (failure, s)) ∧
  (∀ a b oa ob,
     CombineOp.lowerext oc = [] → CombineOp.upperext oc = [] →
     CombineOp.getLowerDefiningOps oc = [Some a] →
     CombineOp.getUpperDefiningOps oc = [Some b] →
     ir_ops ir !! a = Some oa → ir_ops ir !! b = Some ob →
     run = if isApplyOp (op_kind oa) && isApplyOp (op_kind ob)
           then IfElseRewrite.lowerStencilCombine a b c s
           else Ok (failure, s)) ∧
  (∀ s', run = Ok (success, s') →
     CombineOp.lowerext oc = [] ∧ CombineOp.upperext oc = [] ∧
     ∃ a b oa ob,
       CombineOp.getLowerDefiningOps oc = [Some a] ∧
       CombineOp.getUpperDefiningOps oc = [Some b] ∧
       ir_ops ir !! a = Some oa ∧ ir_ops ir !! b = Some ob ∧
       isApplyOp (op_kind oa) = true ∧ isApplyOp (op_kind ob) = true ∧
       IfElseRewrite.lowerStencilCombine a b c s = Ok (success, s')).
Proof.
  intros Hc. cbv zeta. unfold IfElseRewrite.matchAndRewrite. guard_tac. split_and!.
  - intros Hcases.
    destruct (decide (CombineOp.lowerext oc = [])) as [Hle|Hle];
      [|by rewrite (bool_decide_false _ Hle)].
    destruct (decide (CombineOp.upperext oc = [])) as [Hue|Hue];
      [|by rewrite (bool_decide_false _ Hue), orb_true_r].
    rewrite (bool_decide_true _ Hle), (bool_decide_true _ Hue). cbn [negb orb].
    destruct Hcases as [?|[?|[Hl|Hu]]]; [done|done|..].
    + by destruct (CombineOp.getLowerDefiningOps oc) as [|dl [|??]].
    + destruct (CombineOp.getLowerDefiningOps oc) as [|dl [|??]]; [done| |done].
      by destruct (CombineOp.getUpperDefiningOps oc) as [|du [|??]].
  - intros a b oa ob Hle Hue Hl Hu Ha Hb.
    rewrite (bool_decide_true _ Hle), (bool_decide_true _ Hue), Hl, Hu. cbn [negb orb].
    guard_tac. by destruct (isApplyOp (op_kind oa)), (isApplyOp (op_kind ob)).
  - intros s' Hrun.
    destruct (decide (CombineOp.lowerext oc = [])) as [Hle|Hle];
      [|by rewrite (bool_decide_false _ Hle) in Hrun].
    destruct (decide (CombineOp.upperext oc = [])) as [Hue|Hue];
      [|by rewrite (bool_decide_false _ Hue), orb_true_r in Hrun].
    rewrite (bool_decide_true _ Hle), (bool_decide_true _ Hue) in Hrun.
    cbn [negb orb] in Hrun. split_and!; [done|done|].
    destruct (CombineOp.getLowerDefiningOps oc) as [|dl [|??]]; [done| |done].
    destruct (CombineOp.getUpperDefiningOps oc) as [|du [|??]]; [done| |done].
    rewrite run_query_bind in Hrun. cbn [rw_ir] in Hrun.
    destruct (dyn_cast ir isApplyOp dl) as [lo|] eqn:Hdl; [|done].
    rewrite run_query_bind in Hrun. cbn [rw_ir] in Hrun.
    destruct (dyn_cast ir isApplyOp du) as [uo|] eqn:Hdu; [|done].
    apply dyn_cast_Ok in Hdl as (a & oa & -> & Ha & ->).
    apply dyn_cast_Ok in Hdu as (b & ob & -> & Hb & ->).
    exists a, b, oa, ob.
    destruct (isApplyOp (op_kind oa)); [|done].
    destruct (isApplyOp (op_kind ob)); [|done]. done.
Qed.

Lemma ifElse_guard_witness :
  IfElseRewrite.matchAndRewrite 11 (mkRewriter mirrorIR IPNone [])
  = Ok (failure, mkRewriter mirrorIR IPNone []).
Proof.
  destruct (ifElse_guard mirrorIR 11 mirrorCombine IPNone []) as (Hdecline & _).
  - reflexivity.
  - apply Hdecline. left. discriminate.
Defined.

(** X7: the Mirror pattern leaves the rewriter as it is and fails when the
    combine op has no extra operand, or a side whose operands do not have
    exactly one defining op between them; with one existing defining op on
    each side it runs [mirrorExtraResults] when both are apply ops and
    fails without a change when one is not; it never succeeds on any other
    combine op. *)
Theorem mirror_guard ir c oc ip diags :
  ir_ops ir !! c = Some oc →
  let s := mkRewriter ir ip diags in
  let run := MirrorRewrite.matchAndRewrite c s in
  ((CombineOp.lowerext oc = [] ∧ CombineOp.upperext oc = []) ∨
   length (CombineOp.getLowerDefiningOps oc) ≠ 1 ∨
   length (CombineOp.getUpperDefiningOps oc) ≠ 1 →
   run = Ok (failure, s)) ∧
  (∀ a b oa ob,
     CombineOp.lowerext oc ≠ [] ∨ CombineOp.upperext oc ≠ [] →
     CombineOp.getLowerDefiningOps oc = [Some a] →
     CombineOp.getUpperDefiningOps oc = [Some b] →
     ir_ops ir !! a = Some oa → ir_ops ir !! b = Some ob →
     run = if isApplyOp (op_kind oa) && isApplyOp (op_kind ob)
           then MirrorRewrite.mirrorExtraResults a b c s
           else Ok (failure, s)) ∧
  (∀ s', run = Ok (success, s') →
     (CombineOp.lowerext oc ≠ [] ∨ CombineOp.upperext oc ≠ []) ∧
     ∃ a b oa ob,
       CombineOp.getLowerDefiningOps oc = [Some a] ∧
       CombineOp.getUpperDefiningOps oc = [Some b] ∧
       ir_ops ir !! a = Some oa ∧ ir_ops ir !! b = Some ob ∧
       isApplyOp (op_kind oa) = true ∧ isApplyOp (op_kind ob) = true ∧
       MirrorRewrite.mirrorExtraResults a b c s = Ok (success, s')).
Proof.
  intros Hc. cbv zeta. unfold MirrorRewrite.matchAndRewrite. guard_tac.
  assert (∀ P : Prop, CombineOp.lowerext oc ≠ [] ∨ CombineOp.upperext oc ≠ [] →
            bool_decide (CombineOp.lowerext oc = []) && bool_decide (CombineOp.upperext oc = [])
            = false) as Hext.
  { intros _ [H|H]; rewrite (bool_decide_false _ H); [done|apply andb_false_r]. }
  split_and!.
  - intros Hcases.
    destruct (decide (CombineOp.lowerext oc = [])) as [Hle|Hle];
      [|destruct Hcases as [[? _]|Hcases]; [done|]; rewrite (Hext True) by (by left)].
    + destruct (decide (CombineOp.upperext oc = [])) as [Hue|Hue];
        [by rewrite (bool_decide_true _ Hle), (bool_decide_true _ Hue)|].
      destruct Hcases as [[_ ?]|Hcases]; [done|]. rewrite (Hext True) by (by right).
      destruct Hcases as [Hl|Hu].
      * by destruct (CombineOp.getLowerDefiningOps oc) as [|dl [|??]].
      * destruct (CombineOp.getLowerDefiningOps oc) as [|dl [|??]]; [done| |done].
        by destruct (CombineOp.getUpperDefiningOps oc) as [|du [|??]].
    + destruct Hcases as [Hl|Hu].
      * by destruct (CombineOp.getLowerDefiningOps oc) as [|dl [|??]].
      * destruct (CombineOp.getLowerDefiningOps oc) as [|dl [|??]]; [done| |done].
        by destruct (CombineOp.getUpperDefiningOps oc) as [|du [|??]].
  - intros a b oa ob Hne Hl Hu Ha Hb. rewrite (Hext True Hne), Hl, Hu.
    guard_tac. by destruct (isApplyOp (op_kind oa)), (isApplyOp (op_kind ob)).
  - intros s' Hrun.
    destruct (bool_decide (CombineOp.lowerext oc = []) &&
              bool_decide (CombineOp.upperext oc = [])) eqn:Hboth; [done|].
    split.
    { apply andb_false_iff in Hboth as [H|H]; apply bool_decide_eq_false in H; auto. }
    destruct (CombineOp.getLowerDefiningOps oc) as [|dl [|??]]; [done| |done].
    destruct (CombineOp.getUpperDefiningOps oc) as [|du [|??]]; [done| |done].
    rewrite run_query_bind in Hrun. cbn [rw_ir] in Hrun.
    destruct (dyn_cast ir isApplyOp dl) as [lo|] eqn:Hdl; [|done].
    rewrite run_query_bind in Hrun. cbn [rw_ir] in Hrun.
    destruct (dyn_cast ir isApplyOp du) as [uo|] eqn:Hdu; [|done].
    apply dyn_cast_Ok in Hdl as (a & oa & -> & Ha & ->).
    apply dyn_cast_Ok in Hdu as (b & ob & -> & Hb & ->).
    exists a, b, oa, ob.
    destruct (isApplyOp (op_kind oa)); [|done].
    destruct (isApplyOp (op_kind ob)); [|done]. done.
Qed.

Lemma mirror_guard_witness :
  MirrorRewrite.matchAndRewrite 10 (mkRewriter (exampleIR None None) IPNone [])
  = Ok (failure, mkRewriter (exampleIR None None) IPNone []).
Proof.
  destruct (mirror_guard (exampleIR None None) 10 exampleCombine IPNone [])
    as (Hdecline & _).
  - reflexivity.
  - apply Hdecline. left. split; reflexivity.
Defined.

(** X8: the Fuse pattern leaves the rewriter as it is and fails when
    neither side of the combine op has more than one defining op; it looks
    at the upper side first: with two or more defining ops on the upper
    side it hands the first two of them to [fuseApplyOps], whatever the
    lower side holds, and only with at most one defining op on the upper
    side the first two of the lower side. *)
Theorem fuse_guard ir c oc ip diags :
  ir_ops ir !! c = Some oc →
  let s := mkRewriter ir ip diags in
  let run := FuseRewrite.matchAndRewrite c s in
  (length (CombineOp.getUpperDefiningOps oc) ≤ 1 →
   length (CombineOp.getLowerDefiningOps oc) ≤ 1 →
   run = Ok (failure, s)) ∧
  (∀ a1 a2 rest o1 o2,
     CombineOp.getUpperDefiningOps oc = Some a1 :: Some a2 :: rest →
     ir_ops ir !! a1 = Some o1 → ir_ops ir !! a2 = Some o2 →
     isApplyOp (op_kind o1) = true → isApplyOp (op_kind o2) = true →
     run = FuseRewrite.fuseApplyOps a1 a2 c s) ∧
  (∀ a1 a2 rest o1 o2,
     length (CombineOp.getUpperDefiningOps oc) ≤ 1 →
     CombineOp.getLowerDefiningOps oc = Some a1 :: Some a2 :: rest →
     ir_ops ir !! a1 = Some o1 → ir_ops ir !! a2 = Some o2 →
     isApplyOp (op_kind o1) = true → isApplyOp (op_kind o2) = true →
     run = FuseRewrite.fuseApplyOps a1 a2 c s).
Proof.
  intros Hc. cbv zeta. unfold FuseRewrite.matchAndRewrite. guard_tac.
  cbn [FuseRewrite.fuseFirstPair]. split_and!.
  - intros Hu Hl.
    destruct (CombineOp.getUpperDefiningOps oc) as [|? [|??]]; [| |simpl in Hu; lia];
      (destruct (CombineOp.getLowerDefiningOps oc) as [|? [|??]];
         [done|done|simpl in Hl; lia]).
  - intros a1 a2 rest o1 o2 Hu H1 H2 Hk1 Hk2. rewrite Hu. guard_tac.
    rewrite Hk1. cbn [mret Outcome_ret]. guard_tac. cbn [mbind Outcome_bind].
    rewrite Hk2. done.
  - intros a1 a2 rest o1 o2 Hu Hl H1 H2 Hk1 Hk2. rewrite Hl.
    destruct (CombineOp.getUpperDefiningOps oc) as [|? [|??]]; [| |simpl in Hu; lia];
      guard_tac; rewrite Hk1; cbn [mret Outcome_ret]; guard_tac; cbn [mbind Outcome_bind];
      rewrite Hk2; done.
Qed.

Lemma fuse_guard_witness :
  FuseRewrite.matchAndRewrite 10 (mkRewriter (exampleIR None None) IPNone [])
  = Ok (failure, mkRewriter (exampleIR None None) IPNone []).
Proof.
  destruct (fuse_guard (exampleIR None None) 10 exampleCombine IPNone [])
    as (Hdecline & _).
  - reflexivity.
  - apply Hdecline; vm_compute; lia.
Defined.

(** X9: on every combine op at most one of the three patterns does
    anything: at least two of IfElse, Mirror and Fuse fail and leave the
    rewriter as it is. *)
Theorem patterns_exclusive ir c oc ip diags :
  ir_ops ir !! c = Some oc →
  let s := mkRewriter ir ip diags in
  (IfElseRewrite.matchAndRewrite c s = Ok (failure, s) ∧
   MirrorRewrite.matchAndRewrite c s = Ok (failure, s)) ∨
  (IfElseRewrite.matchAndRewrite c s = Ok (failure, s) ∧
   FuseRewrite.matchAndRewrite c s = Ok (failure, s)) ∨
  (MirrorRewrite.matchAndRewrite c s = Ok (failure, s) ∧
   FuseRewrite.matchAndRewrite c s = Ok (failure, s)).
Proof.
  intros Hc. cbv zeta.
  unfold IfElseRewrite.matchAndRewrite, MirrorRewrite.matchAndRewrite,
    FuseRewrite.matchAndRewrite.
  guard_tac. cbn [FuseRewrite.fuseFirstPair].
  destruct (bool_decide (CombineOp.lowerext oc = [])),
    (bool_decide (CombineOp.upperext oc = [])); cbn [negb orb andb];
    destruct (CombineOp.getLowerDefiningOps oc) as [|dl [|??]],
      (CombineOp.getUpperDefiningOps oc) as [|du [|??]]; auto.
Qed.

Lemma patterns_exclusive_witness :
  MirrorRewrite.matchAndRewrite 10 (mkRewriter (exampleIR None None) IPNone [])
  = Ok (failure, mkRewriter (exampleIR None None) IPNone []) ∧
  FuseRewrite.matchAndRewrite 10 (mkRewriter (exampleIR None None) IPNone [])
  = Ok (failure, mkRewriter (exampleIR None None) IPNone []).
Proof.
  destruct (patterns_exclusive (exampleIR None None) 10 exampleCombine IPNone [])
    as [[H _]|[[H _]|H]].
  - reflexivity.
  - vm_compute in H. discriminate H.
  - vm_compute in H. discriminate H.
  - exact H.
Defined.

(** ** The verifiers of the load, buffer and apply ops *)

Lemma mapM_Ok {A B} (f : A → Outcome B) l bs :
  mapM f l = Ok bs → Forall2 (λ x b, f x = Ok b) l bs.
Proof.
  revert bs. induction l as [|x l IH]; intros bs H.
  - injection H as <-. constructor.
  - cbn in H. apply bind_Ok in H as (b & Hb & H). apply bind_Ok in H as (k & Hk & H).
    injection H as <-. constructor; auto.
Qed.

Lemma getOperand_Ok o i v : getOperand o i = Ok v ↔ op_operands o !! i = Some v.
Proof.
  unfold getOperand. destruct (op_operands o !! i); split; intros H; inversion H; done.
Qed.

Lemma castGridType_Ok t t' : castGridType t = Ok t' → t' = t ∧ is_Some (elementTypeOf t).
Proof.
  unfold castGridType. intros H. apply bind_Ok in H as (e & He & H). injection H as <-.
  split; [done|]. destruct t; try discriminate; by eexists.
Qed.

Ltac verifier_open H self Hself :=
  let self' := fresh "self'" in
  let Hs := fresh "Hs" in
  apply bind_Ok in H as (self' & Hs & H);
  apply getOperation_Ok in Hs; rewrite Hself in Hs; inversion Hs; subst self'; clear Hs.

Ltac verifier_checks H :=
  repeat match type of H with
         | (if bool_decide ?P then _ else _) = _ =>
             let Hc := fresh "Hcheck" in
             destruct (decide P) as [Hc|Hc];
             [rewrite (bool_decide_true _ Hc) in H; discriminate
             |rewrite (bool_decide_false _ Hc) in H; apply dec_stable in Hc]
         | (if negb ?c then _ else _) = _ =>
             let Hc := fresh "Hcheck" in
             destruct c eqn:Hc; cbn [negb] in H; [|discriminate]
         | (if ?c then _ else _) = _ =>
             let Hc := fresh "Hcheck" in
             destruct c eqn:Hc; [discriminate|]
         end.

Section Verifiers.
Context (hasDynamicShape : Ty → bool) (getRank : Ty → nat) (getAllocation : Ty → nat)
        (hasLargerOrEqualShape : Ty → Index → Index → bool)
        (hasEqualShape : Ty → Index → Index → bool)
        (getOpRank : OpKind → nat).

(** X10: a load op passes its verifier only if its field is a grid of
    static shape, of the rank, the allocation and the element type of the
    result, if with a declared bound pair the field is at least as large
    as the bounds and the result has their shape, and if the field is the
    result of a cast op. *)
Theorem verifyLoadOp_sound ir op self :
  ir_ops ir !! op = Some self →
  verifyLoadOp hasDynamicShape getRank getAllocation hasLargerOrEqualShape hasEqualShape
    ir op = Ok Verified →
  ∃ field castOp castDef,
    op_operands self !! 0 = Some field ∧
    let fieldType := getType ir field in
    let resType := getType ir (OpResult op 0) in
    is_Some (elementTypeOf fieldType) ∧ is_Some (elementTypeOf resType) ∧
    hasDynamicShape fieldType = false ∧
    getRank fieldType = getRank resType ∧
    getAllocation fieldType = getAllocation resType ∧
    elementTypeOf fieldType = elementTypeOf resType ∧
    (hasShape (op_kind self) = true →
     hasLargerOrEqualShape fieldType (getLB (op_kind self)) (getUB (op_kind self)) = true ∧
     hasEqualShape resType (getLB (op_kind self)) (getUB (op_kind self)) = true) ∧
    getDefiningOp field = Some castOp ∧
    ir_ops ir !! castOp = Some castDef ∧
    isCastOp (op_kind castDef) = true.
Proof.
  intros Hself H. unfold verifyLoadOp in H. verifier_open H self Hself.
  apply bind_Ok in H as (field & Hf & H). apply getOperand_Ok in Hf.
  apply bind_Ok in H as (fieldType & Hft & H). apply castGridType_Ok in Hft as [-> Hfe].
  apply bind_Ok in H as (resType & Hrt & H). apply castGridType_Ok in Hrt as [-> Hre].
  verifier_checks H.
  destruct (hasShape (op_kind self)) eqn:Hshape.
  - destruct (hasLargerOrEqualShape _ _ _) eqn:Hlarger; cbn [negb] in H; [|discriminate].
    destruct (hasEqualShape _ _ _) eqn:Hequal; cbn [negb] in H; [|discriminate].
    apply bind_Ok in H as (fromCast & Hk & H). destruct fromCast; [|discriminate].
    apply isa_Ok in Hk as (castOp & castDef & Hd & Ho & Hc).
    exists field, castOp, castDef. cbv zeta. split_and!; done.
  - apply bind_Ok in H as (fromCast & Hk & H). destruct fromCast; [|discriminate].
    apply isa_Ok in Hk as (castOp & castDef & Hd & Ho & Hc).
    exists field, castOp, castDef. cbv zeta. split_and!; done.
Qed.

(** X11: for a load op whose field has no defining op, an argument of the
    function, the verifier neither accepts the op nor emits the error
    about the missing cast op: when the checks of the types and of the
    shape pass, the cast-op test, an [isa] on a null operation, aborts. *)
Theorem verifyLoadOp_field_without_defining_op ir op self field :
  ir_ops ir !! op = Some self →
  op_operands self !! 0 = Some field →
  getDefiningOp field = None →
  let verdict :=
    verifyLoadOp hasDynamicShape getRank getAllocation hasLargerOrEqualShape hasEqualShape
      ir op in
  let fieldType := getType ir field in
  let resType := getType ir (OpResult op 0) in
  verdict ≠ Ok Verified ∧
  verdict ≠ Ok (EmitOpError "expected the defining op of the field is a cast operation") ∧
  (is_Some (elementTypeOf fieldType) → is_Some (elementTypeOf resType) →
   hasDynamicShape fieldType = false →
   getRank fieldType = getRank resType →
   getAllocation fieldType = getAllocation resType →
   elementTypeOf fieldType = elementTypeOf resType →
   (hasShape (op_kind self) = true →
    hasLargerOrEqualShape fieldType (getLB (op_kind self)) (getUB (op_kind self)) = true ∧
    hasEqualShape resType (getLB (op_kind self)) (getUB (op_kind self)) = true) →
   verdict = Abort "isa<> used on a null pointer").
Proof.
  intros Hself Hfield Hnull. cbv zeta. split_and!.
  - intros H. destruct (verifyLoadOp_sound ir op self Hself H)
      as (field' & castOp & castDef & Hf & _ & _ & _ & _ & _ & _ & _ & Hd & _).
    congruence.
  - unfold verifyLoadOp. rewrite (getOperation_Some _ _ _ Hself). cbn [mbind Outcome_bind].
    rewrite (proj2 (getOperand_Ok _ _ _) Hfield). cbn [mbind Outcome_bind].
    destruct (castGridType (getType ir field)) as [ft|]; [|done]. cbn [mbind Outcome_bind].
    destruct (castGridType (getType ir (OpResult op 0))) as [rt|]; [|done].
    cbn [mbind Outcome_bind mret Outcome_ret].
    repeat match goal with
           | |- (if ?c then _ else _) ≠ _ => destruct c; [done|]
           end.
    rewrite Hnull.
    destruct (hasShape (op_kind self)); [|done].
    repeat match goal with
           | |- match (if ?c then _ else _) with _ => _ end ≠ _ => destruct c; [done|]
           end.
    done.
  - intros [e1 He1] [e2 He2] Hdyn Hrank Halloc Helem Hshape.
    unfold verifyLoadOp. rewrite (getOperation_Some _ _ _ Hself). cbn [mbind Outcome_bind].
    rewrite (proj2 (getOperand_Ok _ _ _) Hfield). cbn [mbind Outcome_bind].
    assert (∀ t e, elementTypeOf t = Some e → castGridType t = Ok t) as Hcast.
    { intros t e Ht. by destruct t. }
    rewrite (Hcast _ _ He1), (Hcast _ _ He2). cbn [mbind Outcome_bind mret Outcome_ret].
    rewrite Hdyn, (bool_decide_false (getRank _ ≠ _)) by (by intros ?).
    rewrite (bool_decide_false (getAllocation _ ≠ _)) by (by intros ?).
    rewrite (bool_decide_false (elementTypeOf _ ≠ _)) by (by intros ?).
    rewrite Hnull. destruct (hasShape (op_kind self)); [|done].
    destruct Hshape as [-> ->]; done.
Qed.

(** X12: a buffer op passes its verifier only if its result is a grid of
    the rank, the allocation and the element type of its operand, if with
    a declared bound pair the operand is at least as large as the bounds
    and the result has their shape, if the operand is the result of an
    apply or a combine op, and if every user of the operand is a buffer
    op. *)
Theorem verifyBufferOp_sound ir op self :
  ir_ops ir !! op = Some self →
  verifyBufferOp getRank getAllocation hasLargerOrEqualShape hasEqualShape ir op
    = Ok Verified →
  ∃ temp tempOp tempDef,
    op_operands self !! 0 = Some temp ∧
    let tempType := getType ir temp in
    let resType := getType ir (OpResult op 0) in
    is_Some (elementTypeOf tempType) ∧ is_Some (elementTypeOf resType) ∧
    getRank resType = getRank tempType ∧
    getAllocation resType = getAllocation tempType ∧
    elementTypeOf resType = elementTypeOf tempType ∧
    (hasShape (op_kind self) = true →
     hasLargerOrEqualShape tempType (getLB (op_kind self)) (getUB (op_kind self)) = true ∧
     hasEqualShape resType (getLB (op_kind self)) (getUB (op_kind self)) = true) ∧
    getDefiningOp temp = Some tempOp ∧
    ir_ops ir !! tempOp = Some tempDef ∧
    (isApplyOp (op_kind tempDef) = true ∨ isCombineOp (op_kind tempDef) = true) ∧
    ∀ user, user ∈ getUsers ir temp →
      ∃ o, ir_ops ir !! user = Some o ∧ isBufferOp (op_kind o) = true.
Proof.
  intros Hself H. unfold verifyBufferOp in H. verifier_open H self Hself.
  apply bind_Ok in H as (temp & Ht & H). apply getOperand_Ok in Ht.
  apply bind_Ok in H as (tempType & Htt & H). apply castGridType_Ok in Htt as [-> Hte].
  apply bind_Ok in H as (resType & Hrt & H). apply castGridType_Ok in Hrt as [-> Hre].
  verifier_checks H.
  assert (∀ rest : Outcome Verdict,
            (fromApply ← isa ir isApplyOp (getDefiningOp temp);
             fromCombine ← (if fromApply then mret true
                            else isa ir isCombineOp (getDefiningOp temp));
             if negb (fromApply || fromCombine)
             then mret (EmitOpError "expected buffer to connect to an apply or combine op")
             else
               buffers ← mapM (λ user, isa ir isBufferOp (Some user)) (getUsers ir temp);
               if negb (forallb id buffers)
               then mret (EmitOpError "expected only buffers use the same value")
               else mret Verified) = Ok Verified →
            ∃ tempOp tempDef,
              getDefiningOp temp = Some tempOp ∧ ir_ops ir !! tempOp = Some tempDef ∧
              (isApplyOp (op_kind tempDef) = true ∨ isCombineOp (op_kind tempDef) = true) ∧
              ∀ user, user ∈ getUsers ir temp →
                ∃ o, ir_ops ir !! user = Some o ∧ isBufferOp (op_kind o) = true) as Htail.
  { intros _ H'.
    apply bind_Ok in H' as (fromApply & Ha & H').
    apply bind_Ok in H' as (fromCombine & Hc & H').
    destruct (negb (fromApply || fromCombine)) eqn:Eac; [discriminate|].
    apply bind_Ok in H' as (buffers & Hb & H').
    destruct (forallb id buffers) eqn:Hall; [|discriminate].
    apply isa_Ok in Ha as (tempOp & tempDef & Hd & Hto & Hta).
    exists tempOp, tempDef. split_and!; [done|done| |].
    - destruct (isApplyOp (op_kind tempDef)) eqn:Ea; [by left|right].
      subst fromApply. rewrite Hd in Hc. apply isa_Ok in Hc as (? & ? & Hx & Hy & Hz).
      inversion Hx; subst. rewrite Hto in Hy. inversion Hy; subst.
      by destruct (isCombineOp (op_kind _)).
    - intros user Huser. apply mapM_Ok in Hb.
      apply list_elem_of_lookup in Huser as [i Hi].
      destruct (Forall2_lookup_l _ _ _ _ _ Hb Hi) as (b & Hbi & Hisa).
      apply isa_Ok in Hisa as (id' & o & [= <-] & Ho & Hk).
      exists o. split; [done|]. rewrite Hk.
      apply Is_true_true_2, forallb_True in Hall.
      pose proof (proj1 (Forall_lookup _ _) Hall i b Hbi) as Hid.
      by destruct b. }
  destruct (hasShape (op_kind self)) eqn:Hshape.
  - destruct (hasLargerOrEqualShape _ _ _) eqn:Hlarger; cbn [negb] in H; [|discriminate].
    destruct (hasEqualShape _ _ _) eqn:Hequal; cbn [negb] in H; [|discriminate].
    destruct (Htail (Ok Verified) H) as (tempOp & tempDef & Hd & Ho & Hk & Husers).
    exists temp, tempOp, tempDef. cbv zeta. split_and!; done.
  - destruct (Htail (Ok Verified) H) as (tempOp & tempDef & Hd & Ho & Hk & Husers).
    exists temp, tempOp, tempDef. cbv zeta. split_and!; done.
Qed.

(** X13: an apply op passes its verifier only if its body has one argument
    per operand, of the type of the operand, and every result is a grid
    that, if the op declares a bound pair, has the rank of the op and the
    shape of the bounds. *)
Theorem verifyApplyOp_sound ir op self :
  ir_ops ir !! op = Some self →
  verifyApplyOp getRank hasEqualShape getOpRank ir op = Ok Verified →
  ∃ front,
    getBody ir op 0 = Ok front ∧
    length (blockArgTypes ir front) = length (op_operands self) ∧
    (∀ i operand, op_operands self !! i = Some operand →
                  getType ir (BlockArgument front i) = getType ir operand) ∧
    (∀ i t, op_results self !! i = Some t →
            is_Some (elementTypeOf t) ∧
            (hasShape (op_kind self) = true →
             getOpRank (op_kind self) = getRank t ∧
             hasEqualShape t (getLB (op_kind self)) (getUB (op_kind self)) = true)).
Proof.
  intros Hself H. unfold verifyApplyOp in H. verifier_open H self Hself.
  apply bind_Ok in H as (front & Hfront & H).
  verifier_checks H.
  apply bind_Ok in H as (operands & Hoperands & H).
  destruct operands as [|msg]; [|discriminate].
  exists front. split_and!; [done|done|..].
  - intros i operand Hi.
    pose proof (forEach_Verified _ _ Hoperands i) as Hat.
    cbn beta in Hat. rewrite (proj2 (getOperand_Ok _ _ _) Hi) in Hat.
    cbn [mbind Outcome_bind] in Hat.
    destruct (decide (getType ir (BlockArgument front i) = getType ir operand)) as [|Hne];
      [done|].
    rewrite (bool_decide_true _ Hne) in Hat. discriminate Hat.
    apply elem_of_seq. apply lookup_lt_Some in Hi. lia.
  - intros i t Hi.
    pose proof (forEach_Verified _ _ H i) as Hat. cbn beta in Hat.
    assert (getType ir (OpResult op i) = t) as Hty by (cbn; by rewrite Hself, Hi).
    rewrite Hty in Hat.
    assert (i ∈ seq 0 (length (op_results self))) as Hin.
    { apply elem_of_seq. apply lookup_lt_Some in Hi. lia. }
    specialize (Hat Hin). apply bind_Ok in Hat as (t' & Ht' & Hat).
    apply castGridType_Ok in Ht' as [-> He]. split; [done|].
    intros Hshape. rewrite Hshape in Hat.
    destruct (decide (getOpRank (op_kind self) = getRank t)) as [Hrank|Hrank];
      [|rewrite (bool_decide_true (_ ≠ _)) in Hat by done; discriminate].
    rewrite (bool_decide_false (_ ≠ _)) in Hat by (by intros ?).
    destruct (hasEqualShape _ _ _); [done|discriminate].
Qed.

End Verifiers.

Lemma verifyLoadOp_sound_witness :
  ∃ field castOp castDef,
    op_operands (mkOperation (LoadOp None None) [OpResult 0 0] [temp64] []) !! 0 = Some field ∧
    getDefiningOp field = Some castOp ∧
    ir_ops pipelineIR !! castOp = Some castDef ∧
    isCastOp (op_kind castDef) = true.
Proof.
  destruct (verifyLoadOp_sound (λ _, false) (λ _, 3) (λ _, 0) (λ _ _ _, true) (λ _ _ _, true)
              pipelineIR 1 (mkOperation (LoadOp None None) [OpResult 0 0] [temp64] []))
    as (field & castOp & castDef & Hf & _ & _ & _ & _ & _ & _ & _ & Hd & Ho & Hk).
  - reflexivity.
  - vm_compute. reflexivity.
  - exists field, castOp, castDef. split; [exact Hf|]. split; [exact Hd|].
    split; [exact Ho|exact Hk].
Defined.

Lemma verifyLoadOp_field_without_defining_op_witness :
  verifyLoadOp (λ _, false) (λ _, 3) (λ _, 0) (λ _ _ _, true) (λ _ _ _, true)
    (exampleIR None None) 0
  = Abort "isa<> used on a null pointer".
Proof.
  destruct (verifyLoadOp_field_without_defining_op
              (λ _, false) (λ _, 3) (λ _, 0) (λ _ _ _, true) (λ _ _ _, true)
              (exampleIR None None) 0 (loadOf 0) (BlockArgument 0 0))
    as (_ & _ & Habort).
  - reflexivity.
  - reflexivity.
  - reflexivity.
  - apply Habort.
    + vm_compute. eexists. reflexivity.
    + vm_compute. eexists. reflexivity.
    + reflexivity.
    + reflexivity.
    + reflexivity.
    + reflexivity.
    + intros _. split; reflexivity.
Defined.

Lemma verifyBufferOp_sound_witness :
  ∃ temp tempDef,
    op_operands (mkOperation (BufferOp None None) [OpResult 2 0] [temp64] []) !! 0 = Some temp ∧
    ir_ops pipelineIR !! 2 = Some tempDef ∧
    getDefiningOp temp = Some 2 ∧
    (isApplyOp (op_kind tempDef) = true ∨ isCombineOp (op_kind tempDef) = true).
Proof.
  destruct (verifyBufferOp_sound (λ _, 3) (λ _, 0) (λ _ _ _, true) (λ _ _ _, true)
              pipelineIR 6 (mkOperation (BufferOp None None) [OpResult 2 0] [temp64] []))
    as (temp & tempOp & tempDef & Ht & _ & _ & _ & _ & _ & _ & Hd & Ho & Hk & _).
  - reflexivity.
  - vm_compute. reflexivity.
  - injection Ht as <-. injection Hd as <-.
    exists (OpResult 2 0), tempDef. split; [reflexivity|]. split; [exact Ho|].
    split; [reflexivity|exact Hk].
Defined.

Lemma verifyApplyOp_sound_witness :
  ∃ front,
    getBody pipelineIR 2 0 = Ok front ∧
    length (blockArgTypes pipelineIR front) = 1.
Proof.
  destruct (verifyApplyOp_sound (λ _, 3) (λ _ _ _, true) (λ _, 3)
              pipelineIR 2 (applyOf [OpResult 1 0] 1 1))
    as (front & Hfront & Hcount & _).
  - reflexivity.
  - vm_compute. reflexivity.
  - exists front. split; [exact Hfront|exact Hcount].
Defined.

(** ** The pass driver and the restricted IfElse pattern *)

Lemma elem_of_concat {A} (ls : list (list A)) x :
  x ∈ concat ls ↔ ∃ l, l ∈ ls ∧ x ∈ l.
Proof.
  induction ls as [|l ls IH]; simpl.
  - split; [by intros ?%elem_of_nil|]. by intros (l & ?%elem_of_nil & _).
  - rewrite elem_of_app, IH. split.
    + intros [Hx|(l' & Hl' & Hx)].
      * exists l. split; [apply list_elem_of_here|done].
      * exists l'. split; [by apply list_elem_of_further|done].
    + intros (l' & [->|Hl']%elem_of_cons & Hx); [by left|]. right. eauto.
Qed.

(** A user of a value is an operation of the graph that has the value
    among its operands. *)
Lemma getUsers_elem ir v u :
  u ∈ getUsers ir v ↔ ∃ o, ir_ops ir !! u = Some o ∧ v ∈ op_operands o.
Proof.
  unfold getUsers. rewrite elem_of_concat. split.
  - intros (l & Hl & Hu). apply list_elem_of_fmap in Hl as ([id o] & -> & Hin).
    apply elem_of_map_to_list in Hin. apply elem_of_replicate in Hu as [-> Hn].
    exists o. split; [done|]. apply list_elem_of_In.
    apply (count_occ_In Value_eq_dec). lia.
  - intros (o & Ho & Hv). exists (replicate (count_occ Value_eq_dec (op_operands o) v) u).
    split.
    + apply list_elem_of_fmap. exists (u, o). split; [done|].
      by apply elem_of_map_to_list.
    + apply elem_of_replicate. split; [done|].
      apply list_elem_of_In, (count_occ_In Value_eq_dec) in Hv. lia.
Qed.

Lemma hasOperandsWithMultipleUses_iff ir :
  hasOperandsWithMultipleUses ir = true
  ↔ ∃ c oc v, ir_ops ir !! c = Some oc ∧ isCombineOp (op_kind oc) = true ∧
              v ∈ op_operands oc ∧ length (getUsers ir v) ≠ 1.
Proof.
  unfold hasOperandsWithMultipleUses. rewrite existsb_exists. split.
  - intros ([c oc] & Hin & H). apply andb_true_iff in H as [Hk H].
    apply existsb_exists in H as (v & Hv & H).
    exists c, oc, v. split_and!.
    + by apply elem_of_map_to_list, list_elem_of_In.
    + done.
    + by apply list_elem_of_In.
    + unfold hasOneUse in H. apply negb_true_iff, bool_decide_eq_false in H. done.
  - intros (c & oc & v & Hc & Hk & Hv & Hlen). exists (c, oc). split.
    + by apply list_elem_of_In, elem_of_map_to_list.
    + rewrite Hk. cbn [andb]. apply existsb_exists. exists v. split.
      * by apply list_elem_of_In.
      * unfold hasOneUse. by rewrite bool_decide_false.
Qed.

Lemma mapM_total {A B} (f : A → Outcome B) (g : A → B) l :
  Forall (λ x, f x = Ok (g x)) l → mapM f l = Ok (g <$> l).
Proof.
  induction 1 as [|x l Hx _ IH]; [done|].
  change (mapM f (x :: l)) with (y ← f x; k ← mapM f l; mret (y :: k)).
  rewrite Hx, IH. done.
Qed.

Section PassOutcome.
Context (getCombineTreeRoot : IR → nat → Outcome nat).
Context (applyPatternsAndFoldGreedily :
           list (nat → M LogicalResult) → PatternRewriter → Outcome PatternRewriter).

(** X14: whenever the pass returns, it has signalled failure exactly
    when the function is tagged as a stencil program and holds a combine
    op with an operand that does not have exactly one use; it has then
    emitted the one error on the function and left the graph as it was.
    A function that is not tagged is left as it was, without any
    diagnostic. *)
Theorem runOnFunction_failure internalOnly funcOp r :
  runOnFunction getCombineTreeRoot applyPatternsAndFoldGreedily internalOnly funcOp
  = Ok r →
  (pass_failed r = true
   ↔ fn_isStencilProgram funcOp = true ∧
     ∃ c oc v, ir_ops (fn_ir funcOp) !! c = Some oc ∧
               isCombineOp (op_kind oc) = true ∧
               v ∈ op_operands oc ∧ length (getUsers (fn_ir funcOp) v) ≠ 1) ∧
  (pass_failed r = true →
   pass_ir r = fn_ir funcOp ∧
   pass_diags r
   = [OpError OnFunc "execute domain splitting before combine op conversion"]) ∧
  (fn_isStencilProgram funcOp = false → r = mkPassResult (fn_ir funcOp) [] false).
Proof.
  unfold runOnFunction. intros H.
  destruct (fn_isStencilProgram funcOp) eqn:Hs; cbn [negb] in H.
  - destruct (hasOperandsWithMultipleUses (fn_ir funcOp)) eqn:Hm.
    + injection H as <-. cbn. split_and!; [|done|done].
      split; [|done]. intros _. split; [done|].
      by apply hasOperandsWithMultipleUses_iff.
    + apply bind_Ok in H as (rewriter & _ & H). injection H as <-. cbn.
      split_and!; [|done|done]. split; [done|].
      intros [_ Hex]. apply hasOperandsWithMultipleUses_iff in Hex. congruence.
  - injection H as <-. cbn. split_and!; [|done|done]. split; [done|]. by intros [? _].
Qed.

(** X15: the restricted IfElse pattern fails and leaves the rewriter as
    it is when no user of the results of the root of the combine tree is
    an apply op, and is the IfElse pattern when one is. *)
Theorem internalIfElse_guard ir c root oroot ip diags :
  getCombineTreeRoot ir c = Ok root →
  ir_ops ir !! root = Some oroot →
  let s := mkRewriter ir ip diags in
  let run := InternalIfElseRewrite.matchAndRewrite getCombineTreeRoot c s in
  let applyUser u :=
    ∃ i o, i < length (op_results oroot) ∧ u ∈ getUsers ir (OpResult root i) ∧
           ir_ops ir !! u = Some o ∧ isApplyOp (op_kind o) = true in
  ((∀ u, ¬ applyUser u) → run = Ok (failure, s)) ∧
  ((∃ u, applyUser u) → run = IfElseRewrite.matchAndRewrite c s).
Proof.
  intros Hroot Horoot. cbv zeta. unfold InternalIfElseRewrite.matchAndRewrite.
  rewrite run_query_bind. cbn [rw_ir]. rewrite Hroot.
  rewrite run_query_bind. cbn [rw_ir].
  unfold getOpUsers, getOpResults. rewrite (getOperation_Some _ _ _ Horoot).
  cbn [mbind Outcome_bind mret Outcome_ret].
  set (users := concat (getUsers ir <$> getResults root oroot)).
  rewrite run_query_bind. cbn [rw_ir].
  assert (Forall (λ u, isa ir isApplyOp (Some u)
                       = Ok (isa_and_nonnull ir isApplyOp (Some u))) users) as Hisa.
  { apply Forall_forall. intros u Hu. unfold users in Hu.
    apply elem_of_concat in Hu as (l & Hl & Hu).
    apply list_elem_of_fmap in Hl as (v & -> & _).
    apply getUsers_elem in Hu as (o & Ho & _).
    unfold isa, isa_and_nonnull. by rewrite (getOperation_Some _ _ _ Ho), Ho. }
  rewrite (mapM_total _ _ _ Hisa). cbn [fmap Outcome_fmap].
  assert (∀ u, u ∈ users ∧ isa_and_nonnull ir isApplyOp (Some u) = true
               ↔ ∃ i o, i < length (op_results oroot) ∧
                        u ∈ getUsers ir (OpResult root i) ∧
                        ir_ops ir !! u = Some o ∧ isApplyOp (op_kind o) = true) as Huser.
  { intros u. unfold users. rewrite elem_of_concat. split.
    - intros [(l & Hl & Hu) Hk]. apply list_elem_of_fmap in Hl as (v & -> & Hv).
      unfold getResults in Hv. apply list_elem_of_fmap in Hv as (i & -> & Hi).
      apply elem_of_seq in Hi. unfold isa_and_nonnull in Hk.
      destruct (ir_ops ir !! u) as [o|] eqn:Ho; [|done].
      exists i, o. split_and!; [lia|done|done|done].
    - intros (i & o & Hi & Hu & Ho & Hk). split.
      + exists (getUsers ir (OpResult root i)). split; [|done].
        apply list_elem_of_fmap. exists (OpResult root i). split; [done|].
        unfold getResults. apply list_elem_of_fmap. exists i. split; [done|].
        apply elem_of_seq. lia.
      + unfold isa_and_nonnull. by rewrite Ho. }
  split.
  - intros Hnone.
    assert (forallb negb ((λ u, isa_and_nonnull ir isApplyOp (Some u)) <$> users) = true) as ->;
      [|done].
    apply forallb_forall. intros b Hb.
    apply list_elem_of_In, list_elem_of_fmap in Hb as (u & -> & Hu). cbn beta.
    destruct (isa_and_nonnull ir isApplyOp (Some u)) eqn:Hk; [|done].
    destruct (Hnone u). apply Huser. by split.
  - intros (u & Hu). apply Huser in Hu as [Hu Hk].
    assert (forallb negb ((λ u, isa_and_nonnull ir isApplyOp (Some u)) <$> users) = false) as ->;
      [|done].
    apply not_true_is_false. intros Hall. rewrite forallb_forall in Hall.
    specialize (Hall (isa_and_nonnull ir isApplyOp (Some u))).
    rewrite Hk in Hall. discriminate Hall.
    apply list_elem_of_In, list_elem_of_fmap. by exists u.
Qed.

End PassOutcome.

Lemma runOnFunction_failure_witness :
  ∃ c oc v,
    ir_ops nestedCombineIR !! c = Some oc ∧ isCombineOp (op_kind oc) = true ∧
    v ∈ op_operands oc ∧ length (getUsers nestedCombineIR v) ≠ 1.
Proof.
  destruct (runOnFunction_failure (λ _ c, Ok c) (λ _ s, Ok s) false
              (mkFuncOp true nestedCombineIR)
              (mkPassResult nestedCombineIR
                 [OpError OnFunc "execute domain splitting before combine op conversion"]
                 true))
    as (Hiff & _).
  - vm_compute. reflexivity.
  - apply Hiff. reflexivity.
Defined.

Lemma internalIfElse_guard_witness :
  InternalIfElseRewrite.matchAndRewrite (λ _ c, Ok c) 10
    (mkRewriter (exampleIR None None) IPNone [])
  = Ok (failure, mkRewriter (exampleIR None None) IPNone []).
Proof.
  destruct (internalIfElse_guard (λ _ c, Ok c) (exampleIR None None) 10 10 exampleCombine
              IPNone []) as [Hnone _].
  - reflexivity.
  - reflexivity.
  - apply Hnone. intros u (i & o & Hi & Hu & Ho & Hk).
    change (i < 1) in Hi. assert (i = 0) as -> by lia.
    vm_compute in Hu. apply list_elem_of_singleton in Hu as ->.
    vm_compute in Ho. injection Ho as <-. discriminate Hk.
Defined.

(** ** The typing of the return op across the Fuse rewrite *)

Lemma unrollMismatch_false k1 k2 :
  unrollMismatch k1 k2 = Ok false → ReturnOp.getUnrollFac k1 = ReturnOp.getUnrollFac k2.
Proof.
  unfold unrollMismatch. case_bool_decide as H; [discriminate|]. intros _.
  destruct (decide (ReturnOp.getUnrollFac k1 = ReturnOp.getUnrollFac k2)); [done|].
  by destruct H.
Qed.

(** The values a return op returns are untouched by a substitution that
    leaves the results of the operations of the body alone, and keep their
    types where these operations keep their results. *)
Lemma returned_values_kept ir ir' x (σ : Value → Value) :
  ApplyBodyIn ir x →
  (∀ y i, y ∈ ab_body x → σ (OpResult y i) = OpResult y i) →
  (∀ y o, y ∈ ab_body x → ir_ops ir !! y = Some o →
          ∃ o', ir_ops ir' !! y = Some o' ∧ op_results o' = op_results o) →
  σ <$> op_operands (ab_return x) = op_operands (ab_return x) ∧
  ∀ v, v ∈ op_operands (ab_return x) → getType ir' v = getType ir v.
Proof.
  intros Hx Hσ Hkept. pose proof (abi_returned _ _ Hx) as Hret.
  pose proof (abi_body _ _ Hx) as Hbody.
  rewrite Forall_forall in Hret. rewrite Forall_forall in Hbody. split.
  - apply substList_fmap_id, Forall_forall. intros v Hv.
    destruct (Hret v Hv) as (y & i & -> & Hy). by apply Hσ.
  - intros v Hv. destruct (Hret v Hv) as (y & i & -> & Hy).
    destruct (Hbody y Hy) as [o Ho]. destruct (Hkept y o Hy Ho) as (o' & Ho' & Hres).
    cbn. by rewrite Ho, Ho', Hres.
Qed.

(** X16: the Fuse rewrite preserves the typing the verifier of the return
    op demands: when the return ops of the two apply ops have, for every
    result, [unrollFac] operands of the matching result type, then the
    apply op the rewrite builds is again laid out as an apply op whose
    body ends in its return op, and its return op has, for every result of
    the new apply op, [unrollFac] operands of the matching result type. *)
Theorem fuse_preserves_return_typing ir c oc x1 x2 ip diags :
  CombineSite ir c oc x1 x2 →
  fusedPair oc = Some (Some (ab_op x1), Some (ab_op x2)) →
  shapeMismatch (op_kind (ab_apply x1)) (op_kind (ab_apply x2)) = false →
  unrollMismatch (op_kind (ab_return x1)) (op_kind (ab_return x2)) = Ok false →
  ReturnTyped ir x1 → ReturnTyped ir x2 →
  ∃ s' y,
    applyPattern FuseRewrite.matchAndRewrite c (mkRewriter ir ip diags)
    = Ok (success, s') ∧
    fusedLayout ir (rw_ir s') x1 x2 = Some y ∧
    op_results (ab_apply y) = op_results (ab_apply x1) ++ op_results (ab_apply x2) ∧
    op_operands (ab_return y) = op_operands (ab_return x1) ++ op_operands (ab_return x2) ∧
    ApplyBodyIn (rw_ir s') y ∧ ReturnTyped (rw_ir s') y.
Proof.
  intros Hsite Hpair Hshape Hunroll [Hcount1 Htypes1] [Hcount2 Htypes2].
  rewrite (FuseRewrite_matchAndRewrite_fuses _ _ _ _ _ _ _ Hsite Hpair).
  pose proof (unrollMismatch_false _ _ Hunroll) as Hfac.
  destruct ir as [ops blocks n nb].
  destruct (fuseApplyOps_run ops blocks n nb diags c oc x1 x2 Hsite Hshape Hunroll)
    as (σ & s' & Hrun & _ & R).
  destruct R as [_ _ _ _ Hfr_kept Hfr_apply Hfr_return Hfr_body _ _ _ _ Hfr_subst_other].
  pose proof Hsite as [_ _ _ _ Hx1 Hx2 _ Hnd].
  destruct (NoDup_handles _ _ _ _ _ _ _ Hnd) as (_ & Hnin & _).
  cbn [ir_ops ir_blocks ir_nextOp ir_nextBlock] in *.
  assert (∀ y, y ∈ ab_body x1 ++ ab_body x2 →
               y ∉ [ab_op x1; ab_op x2; ab_returnOp x1; ab_returnOp x2]) as Hbody.
  { intros y Hy Hin. rewrite Forall_forall in Hnin.
    assert (y ∈ [c; ab_op x1; ab_op x2; ab_returnOp x1; ab_returnOp x2]) as Hin'
      by (by apply list_elem_of_further).
    specialize (Hnin y Hin'). apply elem_of_app in Hy. tauto. }
  assert (∀ y i, y ∈ ab_body x1 ++ ab_body x2 → σ (OpResult y i) = OpResult y i) as Hσ.
  { intros y i Hy. apply Hfr_subst_other; try done; cbn; intros [= ->];
      apply (Hbody _ Hy); [apply list_elem_of_here|].
    apply list_elem_of_further, list_elem_of_here. }
  assert (∀ y o, y ∈ ab_body x1 ++ ab_body x2 → ops !! y = Some o →
                 ∃ o', ir_ops (rw_ir s') !! y = Some o' ∧ op_results o' = op_results o)
    as Hkept.
  { intros y o Hy Ho. eexists. split; [apply Hfr_kept; [done|by apply Hbody]|done]. }
  destruct (returned_values_kept (mkIR ops blocks n nb) (rw_ir s') x1 σ Hx1) as [Hσ1 Hty1].
  { intros y i Hy. apply Hσ, elem_of_app. by left. }
  { intros y o Hy. apply Hkept, elem_of_app. by left. }
  destruct (returned_values_kept (mkIR ops blocks n nb) (rw_ir s') x2 σ Hx2) as [Hσ2 Hty2].
  { intros y i Hy. apply Hσ, elem_of_app. by right. }
  { intros y o Hy. apply Hkept, elem_of_app. by right. }
  rewrite fmap_app, Hσ1, Hσ2 in Hfr_return.
  eexists s', _. split; [done|]. split.
  { unfold fusedLayout. cbn [ir_nextOp ir_nextBlock].
    rewrite Hfr_apply, Hfr_return, Hfr_body. reflexivity. }
  cbn [ab_apply ab_return op_results op_operands blk_args].
  split; [done|]. split; [done|]. split.
  - constructor; cbn [ab_op ab_apply ab_block ab_args ab_body ab_returnOp ab_return
                      op_kind op_regions op_results op_operands blk_args].
    + exact Hfr_apply.
    + apply rebuiltApply_isApplyOp.
    + done.
    + rewrite Hfr_body. by rewrite <- (assoc_L (++)).
    + exact Hfr_return.
    + done.
    + done.
    + apply Forall_forall. intros y Hy.
      assert (is_Some (ops !! y)) as [o Ho].
      { apply elem_of_app in Hy as [Hy|Hy].
        - by apply (proj1 (Forall_forall _ _) (abi_body _ _ Hx1)).
        - by apply (proj1 (Forall_forall _ _) (abi_body _ _ Hx2)). }
      destruct (Hkept y o Hy Ho) as (o' & Ho' & _). by eexists.
    + apply Forall_app. split.
      * eapply Forall_impl; [exact (abi_returned _ _ Hx1)|].
        intros v (y & i & -> & Hy). exists y, i. split; [done|]. apply elem_of_app. by left.
      * eapply Forall_impl; [exact (abi_returned _ _ Hx2)|].
        intros v (y & i & -> & Hy). exists y, i. split; [done|]. apply elem_of_app. by right.
    + by rewrite !length_fmap.
    + done.
  - set (uf := Z.to_nat (ReturnOp.getUnrollFac (op_kind (ab_return x1)))) in *.
    assert (Z.to_nat (ReturnOp.getUnrollFac (op_kind (ab_return x2))) = uf) as Huf2
      by (unfold uf; by rewrite Hfac).
    rewrite Huf2 in Hcount2, Htypes2.
    constructor; cbn [ab_apply ab_return op_kind op_results op_operands ReturnOp.getUnrollFac].
    + change (ReturnOp.getUnrollFac (ReturnOp (ReturnOp.unroll (op_kind (ab_return x1)))))
        with (ReturnOp.getUnrollFac (op_kind (ab_return x1))).
      rewrite !length_app, Hcount1, Hcount2. fold uf. lia.
    + change (ReturnOp.getUnrollFac (ReturnOp (ReturnOp.unroll (op_kind (ab_return x1)))))
        with (ReturnOp.getUnrollFac (op_kind (ab_return x1))). fold uf.
      intros i j v Hj Hv.
      destruct (decide (i < length (op_results (ab_apply x1)))) as [Hi|Hi].
      * rewrite lookup_app_l in Hv by (rewrite Hcount1; nia).
        destruct (Htypes1 i j v Hj Hv) as (e & shape & Hres & Hty).
        exists e, shape. split; [by apply lookup_app_l_Some|].
        rewrite Hty1; [done|]. by eapply list_elem_of_lookup_2.
      * rewrite lookup_app_r in Hv by (rewrite Hcount1; nia).
        replace (i * uf + j - length (op_operands (ab_return x1)))
          with ((i - length (op_results (ab_apply x1))) * uf + j) in Hv
          by (rewrite Hcount1; nia).
        destruct (Htypes2 _ j v Hj Hv) as (e & shape & Hres & Hty).
        exists e, shape. split; [by rewrite lookup_app_r by lia|].
        rewrite Hty2; [done|]. by eapply list_elem_of_lookup_2.
Qed.

Lemma fuseFirst_typed : ReturnTyped fuseIR fuseFirst.
Proof.
  constructor; [reflexivity|]. intros i j v Hj Hv.
  change (j < 1) in Hj. assert (j = 0) as -> by lia.
  destruct i as [|i]; [|destruct i; discriminate].
  injection Hv as <-. by exists F64, [64; 64; 60]%Z.
Qed.

Lemma fuseSecond_typed : ReturnTyped fuseIR fuseSecond.
Proof.
  constructor; [reflexivity|]. intros i j v Hj Hv.
  change (j < 1) in Hj. assert (j = 0) as -> by lia.
  destruct i as [|i]; [|destruct i; discriminate].
  injection Hv as <-. by exists F64, [64; 64; 60]%Z.
Qed.

Lemma fuse_preserves_return_typing_witness :
  ∃ s' y,
    applyPattern FuseRewrite.matchAndRewrite 15 (mkRewriter fuseIR IPNone [])
    = Ok (success, s') ∧
    op_operands (ab_return y) = [OpResult 4 0; OpResult 8 0] ∧
    ReturnTyped (rw_ir s') y.
Proof.
  destruct (fuse_preserves_return_typing fuseIR 15 fuseCombine fuseFirst fuseSecond IPNone [])
    as (s' & y & Hrun & _ & _ & Hoperands & _ & Htyped).
  - apply fuseIR_site.
  - reflexivity.
  - reflexivity.
  - reflexivity.
  - apply fuseFirst_typed.
  - apply fuseSecond_typed.
  - exists s', y. split; [exact Hrun|]. split; [exact Hoperands|exact Htyped].
Defined.

(** ** The permutation of the return operands and the types of the conditional *)

Lemma concat_slices {A} (l : list A) uf k i0 :
  length l = (i0 + k) * uf →
  concat ((λ i, take uf (drop (i * uf) l)) <$> seq i0 k) = drop (i0 * uf) l.
Proof.
  revert i0. induction k as [|k IH]; intros i0 Hlen.
  - cbn. rewrite drop_ge; [done|lia].
  - cbn [seq fmap list_fmap concat]. rewrite IH by lia.
    replace (S i0 * uf) with (i0 * uf + uf) by lia.
    rewrite <- drop_drop. apply take_drop.
Qed.

(** Taken for all results of the apply op in order, the groups of return
    operands are the operand list of the return op. *)
Lemma yielded_in_order id apply ret :
  length (op_operands ret)
  = length (op_results apply) * Z.to_nat (ReturnOp.getUnrollFac (op_kind ret)) →
  yielded ret (getResults id apply) = op_operands ret.
Proof.
  intros Hcount. unfold yielded, getResults, returnSlice. cbv zeta.
  rewrite <- list_fmap_compose.
  pose proof (concat_slices (op_operands ret) _ (length (op_results apply)) 0 Hcount) as H.
  exact H.
Qed.

Lemma getResults_resultOf x : Forall (resultOf x) (getResults (ab_op x) (ab_apply x)).
Proof.
  unfold getResults. rewrite Forall_fmap. apply Forall_forall. intros i Hi.
  apply elem_of_seq in Hi. exists i. split; [done|lia].
Qed.

(** X17: handed all results of the apply op in their order,
    [permuteReturnOpOperands] answers the operand list of the return op
    as it is and leaves the rewriter alone, given a return op with
    [unrollFac] operands for every result of the apply op. *)
Theorem permuteReturnOpOperands_in_order applyOp apply returnOp ret s :
  ir_ops (rw_ir s) !! applyOp = Some apply →
  ir_ops (rw_ir s) !! returnOp = Some ret →
  length (op_operands ret)
  = length (op_results apply) * Z.to_nat (ReturnOp.getUnrollFac (op_kind ret)) →
  IfElseRewrite.permuteReturnOpOperands applyOp (getResults applyOp apply) returnOp s
  = Ok (op_operands ret, s).
Proof.
  intros Ha Hr Hcount.
  rewrite (permuteReturnOpOperands_run applyOp apply returnOp ret); try done.
  - f_equal. f_equal.
    rewrite <- (yielded_in_order applyOp apply ret Hcount).
    apply (permuted_yielded (mkApplyBody applyOp apply 0 [] [] returnOp ret)).
    apply (getResults_resultOf (mkApplyBody applyOp apply 0 [] [] returnOp ret)).
  - unfold getResults. rewrite Forall_fmap. apply Forall_forall. intros i Hi.
    apply elem_of_seq in Hi. exists i. split; [done|lia].
Qed.

Lemma permuteReturnOpOperands_in_order_witness :
  IfElseRewrite.permuteReturnOpOperands 2 [OpResult 2 0; OpResult 2 1] 9
    (mkRewriter permutedIR IPNone [])
  = Ok ([OpResult 5 0; OpResult 6 0; OpResult 7 0; OpResult 8 0],
        mkRewriter permutedIR IPNone []).
Proof.
  apply (permuteReturnOpOperands_in_order 2 (permutedApply 1) 9
           (permutedReturn [5; 6; 7; 8]) (mkRewriter permutedIR IPNone [])).
  - reflexivity.
  - reflexivity.
  - reflexivity.
Defined.

(** X18: when the combine op takes the results of the lower and of the
    upper apply op in their order, the conditional the IfElse rewrite
    builds is well typed: it declares the operand types of the lower
    return op as result types, the yield op of the then-branch yields the
    operands of the lower return op and that of the else-branch the
    operands of the upper return op, and the types of the values either
    branch yields are the result types of the conditional; the new return
    op returns the results of the conditional in order. *)
Theorem ifElse_in_order_conditional_typed ir c oc lower upper ip diags :
  CombineSite ir c oc lower upper →
  CombineOp.lowerext oc = [] → CombineOp.upperext oc = [] →
  CombineOp.getLowerDefiningOps oc = [Some (ab_op lower)] →
  CombineOp.getUpperDefiningOps oc = [Some (ab_op upper)] →
  unrollMismatch (op_kind (ab_return lower)) (op_kind (ab_return upper)) = Ok false →
  getType ir <$> op_operands (ab_return lower)
  = getType ir <$> op_operands (ab_return upper) →
  op_operands (ab_return lower) ≠ [] →
  usedOnlyBy (ir_ops ir) (ab_op lower) [c] → usedOnlyBy (ir_ops ir) (ab_op upper) [c] →
  CombineOp.lower oc = getResults (ab_op lower) (ab_apply lower) →
  CombineOp.upper oc = getResults (ab_op upper) (ab_apply upper) →
  ReturnTyped ir lower → ReturnTyped ir upper →
  ∃ s' ifOp conditional returnOp ret lowerYield upperYield thenBlock elseBlock,
    applyPattern IfElseRewrite.matchAndRewrite c (mkRewriter ir ip diags)
    = Ok (success, s') ∧
    let ir' := rw_ir s' in
    ir_ops ir' !! ifOp = Some conditional ∧
    op_kind conditional = IfOp ∧
    op_regions conditional = [[thenBlock]; [elseBlock]] ∧
    op_results conditional = getType ir <$> op_operands (ab_return lower) ∧
    getTerminator ir' thenBlock = Ok lowerYield ∧
    getTerminator ir' elseBlock = Ok upperYield ∧
    ir_ops ir' !! lowerYield
    = Some (mkOperation YieldOp (op_operands (ab_return lower)) [] []) ∧
    ir_ops ir' !! upperYield
    = Some (mkOperation YieldOp (op_operands (ab_return upper)) [] []) ∧
    getType ir' <$> op_operands (ab_return lower) = op_results conditional ∧
    getType ir' <$> op_operands (ab_return upper) = op_results conditional ∧
    ir_ops ir' !! returnOp = Some ret ∧
    op_kind ret = ReturnOp (ReturnOp.unroll (op_kind (ab_return lower))) ∧
    op_operands ret = getResults ifOp conditional.
Proof.
  intros Hsite Hle Hue Hl Hu Hunroll Htypes Hne Huseda Husedb Hlow Hupp Hrt1 Hrt2.
  destruct (IfElseRewrite_matchAndRewrite_run ir c oc lower upper ip diags)
    as (σ & s' & Hrun & _ & R); try done.
  { rewrite Hlow. apply getResults_resultOf. }
  { rewrite Hupp. apply getResults_resultOf. }
  destruct R as [_ _ _ _ Hier_kept _ _ _ _ Hier_if Hier_return Hier_lowerYield Hier_upperYield
                  _ Hier_then Hier_else _ _ _ Hier_subst_other].
  pose proof Hsite as [_ _ _ _ Hx1 Hx2 _ Hnd].
  destruct (NoDup_handles _ _ _ _ _ _ _ Hnd) as (_ & Hnin & _).
  assert (∀ y, y ∈ ab_body lower ++ ab_body upper →
               y ∉ [c; ab_op lower; ab_op upper; ab_returnOp lower; ab_returnOp upper])
    as Hbody.
  { intros y Hy Hin. rewrite Forall_forall in Hnin. specialize (Hnin y Hin).
    apply elem_of_app in Hy. tauto. }
  assert (∀ y i, y ∈ ab_body lower ++ ab_body upper → σ (OpResult y i) = OpResult y i)
    as Hσ.
  { intros y i Hy. apply Hier_subst_other; try done.
    cbn. intros [= ->]. apply (Hbody c Hy). apply list_elem_of_here. }
  assert (∀ y o, y ∈ ab_body lower ++ ab_body upper → ir_ops ir !! y = Some o →
                 ∃ o', ir_ops (rw_ir s') !! y = Some o' ∧ op_results o' = op_results o)
    as Hkept.
  { intros y o Hy Ho. eexists. split; [apply Hier_kept; [done|by apply Hbody]|done]. }
  destruct (returned_values_kept ir (rw_ir s') lower σ Hx1) as [Hσ1 Hty1].
  { intros y i Hy. apply Hσ, elem_of_app. by left. }
  { intros y o Hy. apply Hkept, elem_of_app. by left. }
  destruct (returned_values_kept ir (rw_ir s') upper σ Hx2) as [Hσ2 Hty2].
  { intros y i Hy. apply Hσ, elem_of_app. by right. }
  { intros y o Hy. apply Hkept, elem_of_app. by right. }
  rewrite Hlow, permuted_yielded, yielded_in_order, Hσ1 in Hier_lowerYield;
    [|exact (rt_count _ _ Hrt1)|apply getResults_resultOf].
  rewrite Hupp, permuted_yielded, yielded_in_order, Hσ2 in Hier_upperYield;
    [|exact (rt_count _ _ Hrt2)|apply getResults_resultOf].
  assert (∀ x, (∀ v, v ∈ op_operands (ab_return x) → getType (rw_ir s') v = getType ir v) →
               getType (rw_ir s') <$> op_operands (ab_return x)
               = getType ir <$> op_operands (ab_return x)) as Hsame.
  { intros x Hx. apply Forall_fmap_ext_1, Forall_forall. exact Hx. }
  eexists s', _, _, _, _, _, _, _, _. split; [done|]. cbv zeta.
  split_and!; [exact Hier_if|..]; cbn [op_kind op_regions op_results op_operands].
  - done.
  - done.
  - done.
  - eapply getTerminator_Some; [exact Hier_then|done].
  - eapply getTerminator_Some; [exact Hier_else|done].
  - exact Hier_lowerYield.
  - exact Hier_upperYield.
  - by apply Hsame.
  - rewrite Htypes. by apply Hsame.
  - exact Hier_return.
  - done.
  - unfold getResults. cbn [op_results]. by rewrite length_fmap.
Qed.

Lemma ifElse_in_order_conditional_typed_witness :
  ∃ s' ifOp conditional,
    applyPattern IfElseRewrite.matchAndRewrite 10 (mkRewriter (exampleIR None None) IPNone [])
    = Ok (success, s') ∧
    ir_ops (rw_ir s') !! ifOp = Some conditional ∧
    op_results conditional = [ResultType F64].
Proof.
  destruct (ifElse_in_order_conditional_typed (exampleIR None None) 10 exampleCombine
              (exampleLower None) (exampleUpper None) IPNone [])
    as (s' & ifOp & conditional & returnOp & ret & lowerYield & upperYield & thenBlock
        & elseBlock & Hrun & Hif & _ & _ & Hresults & _).
  - apply exampleIR_site.
  - reflexivity.
  - reflexivity.
  - reflexivity.
  - reflexivity.
  - reflexivity.
  - reflexivity.
  - discriminate.
  - apply exampleIR_used.
  - apply exampleIR_used.
  - reflexivity.
  - reflexivity.
  - apply exampleLower_typed.
  - apply exampleUpper_typed.
  - exists s', ifOp, conditional. split; [exact Hrun|]. split; [exact Hif|exact Hresults].
Defined.

(** ** The typing of the return op across the Mirror rewrite *)

Lemma storeOperands_length id uf k : length (storeOperands id uf k) = k * uf.
Proof.
  unfold storeOperands. rewrite (length_concat_uniform _ uf).
  - by rewrite length_fmap, length_seq.
  - rewrite Forall_fmap. apply Forall_forall. intros i _. cbn. by rewrite length_replicate.
Qed.

Lemma storeOperands_lookup id uf k m j :
  m < k → j < uf → storeOperands id uf k !! (m * uf + j) = Some (OpResult (id + m) 0).
Proof.
  intros Hm Hj. unfold storeOperands. eapply (lookup_concat_uniform _ uf m).
  - rewrite Forall_fmap. apply Forall_forall. intros i _. cbn. by rewrite length_replicate.
  - rewrite list_lookup_fmap, lookup_seq_lt by done. reflexivity.
  - by apply lookup_replicate_2.
Qed.

(** The return op [addEmptyStores] builds is typed as the verifier of the
    return op demands when the return op it replaces is. *)
Lemma emptyStores_typed ir ir' x es newOp y :
  ReturnTyped ir x →
  op_results (ab_apply y) = op_results (ab_apply x) ++ emptyTypes (ab_apply x) es →
  op_kind (ab_return y) = ReturnOp (ReturnOp.unroll (op_kind (ab_return x))) →
  op_operands (ab_return y)
  = op_operands (ab_return x)
      ++ storeOperands (1 + newOp)
           (Z.to_nat (ReturnOp.getUnrollFac (op_kind (ab_return x)))) (length es) →
  (∀ v, v ∈ op_operands (ab_return x) → getType ir' v = getType ir v) →
  (∀ i e, es !! i = Some e → ir_ops ir' !! (1 + newOp + i) = Some (emptyStore e)) →
  ReturnTyped ir' y.
Proof.
  intros [Hcount Htypes] Hres Hkind Hops Hty Hstore.
  assert (ReturnOp.getUnrollFac (op_kind (ab_return y))
          = ReturnOp.getUnrollFac (op_kind (ab_return x))) as Hfac by (by rewrite Hkind).
  set (uf := Z.to_nat (ReturnOp.getUnrollFac (op_kind (ab_return x)))) in *.
  assert (length (emptyTypes (ab_apply x) es) = length es) as Hlen
    by (unfold emptyTypes; by rewrite length_fmap).
  constructor; rewrite Hfac, Hres, Hops; fold uf.
  - rewrite !length_app, storeOperands_length, Hcount, Hlen. fold uf. lia.
  - intros i j v Hj Hv.
    destruct (decide (i < length (op_results (ab_apply x)))) as [Hi|Hi].
    + rewrite lookup_app_l in Hv by (rewrite Hcount; fold uf; nia).
      destruct (Htypes i j v Hj Hv) as (e & shape & Hr & Ht).
      exists e, shape. split; [by apply lookup_app_l_Some|].
      rewrite Hty; [done|]. by eapply list_elem_of_lookup_2.
    + pose proof (lookup_lt_Some _ _ _ Hv) as Hlt.
      rewrite length_app, storeOperands_length, Hcount in Hlt. fold uf in Hlt.
      rewrite lookup_app_r in Hv by (rewrite Hcount; fold uf; nia).
      replace (i * uf + j - length (op_operands (ab_return x)))
        with ((i - length (op_results (ab_apply x))) * uf + j) in Hv
        by (rewrite Hcount; fold uf; nia).
      set (m := i - length (op_results (ab_apply x))) in *.
      assert (m < length es) as Hm by (unfold m; nia).
      rewrite storeOperands_lookup in Hv by done. injection Hv as <-.
      destruct (lookup_lt_is_Some_2 es m Hm) as [e He].
      exists e, (applyFunElementWise (getUB (op_kind (ab_apply x)))
                   (getLB (op_kind (ab_apply x))) Z.sub).
      split.
      * rewrite lookup_app_r by lia. fold m. unfold emptyTypes.
        by rewrite list_lookup_fmap, He.
      * cbn. replace (S (newOp + m)) with (1 + newOp + m) by lia.
        by rewrite (Hstore m e He).
Qed.

(** X19: the Mirror rewrite preserves the typing the verifier of the
    return op demands: when the return ops of the lower and of the upper
    apply op have, for every result, [unrollFac] operands of the matching
    result type, so have the return ops of the two apply ops the rewrite
    builds, whose results are the old ones followed by one temp per extra
    operand of the other side. *)
Theorem mirror_preserves_return_typing ir c oc lower upper es1 es2 ip diags :
  CombineSite ir c oc lower upper →
  CombineOp.lowerext oc ≠ [] ∨ CombineOp.upperext oc ≠ [] →
  CombineOp.getLowerDefiningOps oc = [Some (ab_op lower)] →
  CombineOp.getUpperDefiningOps oc = [Some (ab_op upper)] →
  op_operands oc
  = CombineOp.lower oc ++ CombineOp.upper oc
      ++ CombineOp.lowerext oc ++ CombineOp.upperext oc →
  Forall (resultOf lower) (CombineOp.lower oc ++ CombineOp.lowerext oc) →
  Forall (resultOf upper) (CombineOp.upper oc ++ CombineOp.upperext oc) →
  hasShape (op_kind (ab_apply lower)) = true →
  hasShape (op_kind (ab_apply upper)) = true →
  Forall2 (λ v e, tempElementType (getType ir v) = Ok e) (CombineOp.upperext oc) es1 →
  Forall2 (λ v e, tempElementType (getType ir v) = Ok e) (CombineOp.lowerext oc) es2 →
  usedOnlyBy (ir_ops ir) (ab_op lower) [c] → usedOnlyBy (ir_ops ir) (ab_op upper) [c] →
  ReturnTyped ir lower → ReturnTyped ir upper →
  ∃ s' newLower newUpper,
    applyPattern MirrorRewrite.matchAndRewrite c (mkRewriter ir ip diags)
    = Ok (success, s') ∧
    let ir' := rw_ir s' in
    mirroredLayout ir' lower (ir_nextOp ir) (ir_nextBlock ir) (length es1)
    = Some newLower ∧
    mirroredLayout ir' upper (2 + length es1 + ir_nextOp ir) (1 + ir_nextBlock ir)
      (length es2)
    = Some newUpper ∧
    op_results (ab_apply newLower)
    = op_results (ab_apply lower) ++ emptyTypes (ab_apply lower) es1 ∧
    op_results (ab_apply newUpper)
    = op_results (ab_apply upper) ++ emptyTypes (ab_apply upper) es2 ∧
    ReturnTyped ir' newLower ∧ ReturnTyped ir' newUpper.
Proof.
  intros Hsite Hext Hl Hu Hoperands Hlow Hupp _ _ Ht1 Ht2 Huseda Husedb Hrt1 Hrt2.
  rewrite (MirrorRewrite_matchAndRewrite_mirrors _ _ _ _ _ _ _ Hsite Hext Hl Hu).
  destruct ir as [ops blocks n nb].
  destruct (mirrorExtraResults_run ops blocks n nb diags c oc lower upper es1 es2)
    as (σ & s' & Hrun & _ & R); try done.
  destruct R as [_ _ _ _ Hmr_kept _ Hmr_lowerApply Hmr_upperApply Hmr_lowerStore
                  Hmr_upperStore Hmr_lowerReturn Hmr_upperReturn _ _ _ _ _ Hmr_subst_other].
  cbn [ir_ops ir_nextOp ir_nextBlock] in *.
  pose proof Hsite as [_ _ _ _ Hx1 Hx2 _ Hnd].
  destruct (NoDup_handles _ _ _ _ _ _ _ Hnd) as (_ & Hnin & _).
  assert (∀ y, y ∈ ab_body lower ++ ab_body upper →
               y ∉ [c; ab_op lower; ab_op upper; ab_returnOp lower; ab_returnOp upper])
    as Hbody.
  { intros y Hy Hin. rewrite Forall_forall in Hnin. specialize (Hnin y Hin).
    apply elem_of_app in Hy. tauto. }
  assert (∀ y i, y ∈ ab_body lower ++ ab_body upper → σ (OpResult y i) = OpResult y i)
    as Hσ.
  { intros y i Hy. apply Hmr_subst_other; try done.
    cbn. intros [= ->]. apply (Hbody c Hy). apply list_elem_of_here. }
  assert (∀ y o, y ∈ ab_body lower ++ ab_body upper → ops !! y = Some o →
                 ∃ o', ir_ops (rw_ir s') !! y = Some o' ∧ op_results o' = op_results o)
    as Hkept.
  { intros y o Hy Ho. eexists. split; [apply Hmr_kept; [done|by apply Hbody]|done]. }
  destruct (returned_values_kept (mkIR ops blocks n nb) (rw_ir s') lower σ Hx1)
    as [Hσ1 Hty1].
  { intros y i Hy. apply Hσ, elem_of_app. by left. }
  { intros y o Hy. apply Hkept, elem_of_app. by left. }
  destruct (returned_values_kept (mkIR ops blocks n nb) (rw_ir s') upper σ Hx2)
    as [Hσ2 Hty2].
  { intros y i Hy. apply Hσ, elem_of_app. by right. }
  { intros y o Hy. apply Hkept, elem_of_app. by right. }
  rewrite Hσ1 in Hmr_lowerReturn. rewrite Hσ2 in Hmr_upperReturn.
  eexists s', _, _. split; [done|]. cbv zeta. split_and!.
  - unfold mirroredLayout.
    rewrite Hmr_lowerApply. cbn [mbind option_bind].
    rewrite Hmr_lowerReturn. reflexivity.
  - unfold mirroredLayout. rewrite Hmr_upperApply. cbn [mbind option_bind].
    replace (1 + (2 + length es1 + n) + length es2)
      with (3 + length es1 + n + length es2) by lia.
    rewrite Hmr_upperReturn. reflexivity.
  - done.
  - done.
  - eapply (emptyStores_typed _ _ lower es1 n); [done|done|done|done|done|].
    intros i e He. exact (Hmr_lowerStore i e He).
  - eapply (emptyStores_typed _ _ upper es2 (2 + length es1 + n));
      [done|done|done|done|done|].
    intros i e He. exact (Hmr_upperStore i e He).
Qed.

Lemma mirrorLower_typed : ReturnTyped mirrorIR mirrorLower.
Proof.
  constructor; [reflexivity|]. intros i j v Hj Hv.
  change (j < 1) in Hj. assert (j = 0) as -> by lia.
  destruct i as [|[|i]]; [| |destruct i; discriminate];
    injection Hv as <-; by exists F64, [64; 64; 60]%Z.
Qed.

Lemma mirrorUpper_typed : ReturnTyped mirrorIR mirrorUpper.
Proof.
  constructor; [reflexivity|]. intros i j v Hj Hv.
  change (j < 1) in Hj. assert (j = 0) as -> by lia.
  destruct i as [|i]; [|destruct i; discriminate].
  injection Hv as <-. by exists F64, [64; 64; 60]%Z.
Qed.

Lemma mirror_preserves_return_typing_witness :
  ∃ s' newUpper,
    applyPattern MirrorRewrite.matchAndRewrite 11 (mkRewriter mirrorIR IPNone [])
    = Ok (success, s') ∧
    op_results (ab_apply newUpper) = [temp64; temp64] ∧
    ReturnTyped (rw_ir s') newUpper.
Proof.
  destruct (mirror_preserves_return_typing mirrorIR 11 mirrorCombine mirrorLower mirrorUpper
              [] [F64] IPNone [])
    as (s' & newLower & newUpper & Hrun & _ & _ & _ & Hres & _ & Htyped).
  - apply mirrorIR_site.
  - left. discriminate.
  - reflexivity.
  - reflexivity.
  - reflexivity.
  - repeat constructor; eexists; (split; [reflexivity|vm_compute; lia]).
  - repeat constructor; eexists; (split; [reflexivity|vm_compute; lia]).
  - reflexivity.
  - reflexivity.
  - constructor.
  - repeat constructor.
  - apply mirrorIR_used.
  - apply mirrorIR_used.
  - apply mirrorLower_typed.
  - apply mirrorUpper_typed.
  - exists s', newUpper. split; [exact Hrun|]. split; [exact Hres|exact Htyped].
Defined.

(** ** From the Mirror rewrite to the IfElse rewrite *)

Lemma collectDefiningOps_same d acc vs :
  Forall (λ v, getDefiningOp v = d) vs → d ∈ acc →
  CombineOp.collectDefiningOps acc vs = acc.
Proof.
  induction 1 as [|v vs Hv _ IH]; intros Hd; [done|].
  rewrite collectDefiningOps_cons, Hv, bool_decide_true by done. by apply IH.
Qed.

Lemma collectDefiningOps_single d vs :
  vs ≠ [] → Forall (λ v, getDefiningOp v = d) vs →
  CombineOp.collectDefiningOps [] vs = [d].
Proof.
  intros Hne H. destruct H as [|v vs Hv H]; [done|].
  rewrite collectDefiningOps_cons, Hv, bool_decide_false by apply not_elem_of_nil.
  apply (collectDefiningOps_same d); [done|]. apply list_elem_of_here.
Qed.

Lemma collectDefiningOps_nonempty vs ws d :
  CombineOp.collectDefiningOps (CombineOp.collectDefiningOps [] vs) ws = [d] →
  vs ++ ws ≠ [].
Proof. intros H Hnil. apply app_eq_nil in Hnil as [-> ->]. discriminate H. Qed.

(** The operand segments of a combine op without extra operands. *)
Lemma cleanCombine_segments d i lows ups lb ub res regs :
  let o := mkOperation (CombineOp d i (mkSegments (length lows) (length ups) 0 0) lb ub)
             (lows ++ ups) res regs in
  CombineOp.lower o = lows ∧ CombineOp.upper o = ups ∧
  CombineOp.lowerext o = [] ∧ CombineOp.upperext o = [].
Proof.
  cbv zeta. unfold CombineOp.lowerext, CombineOp.upperext, CombineOp.lower, CombineOp.upper.
  cbn [op_kind op_operands CombineOp.segments seg_lower seg_upper seg_lowerext seg_upperext].
  split_and!; [|by rewrite drop_app_length, take_ge by lia|done|done].
  by rewrite take_app_length.
Qed.

(** X20: the combine op the Mirror rewrite builds is one the IfElse
    pattern accepts: it has no extra operands, and each of its sides has
    exactly one defining op, an apply op the rewrite has built; it has an
    operand on either side for every lower or upper operand and every
    extra operand of the old combine op. *)
Theorem mirror_result_accepted_by_ifElse ir c oc lower upper es1 es2 ip diags :
  CombineSite ir c oc lower upper →
  CombineOp.lowerext oc ≠ [] ∨ CombineOp.upperext oc ≠ [] →
  CombineOp.getLowerDefiningOps oc = [Some (ab_op lower)] →
  CombineOp.getUpperDefiningOps oc = [Some (ab_op upper)] →
  op_operands oc
  = CombineOp.lower oc ++ CombineOp.upper oc
      ++ CombineOp.lowerext oc ++ CombineOp.upperext oc →
  Forall (resultOf lower) (CombineOp.lower oc ++ CombineOp.lowerext oc) →
  Forall (resultOf upper) (CombineOp.upper oc ++ CombineOp.upperext oc) →
  hasShape (op_kind (ab_apply lower)) = true →
  hasShape (op_kind (ab_apply upper)) = true →
  Forall2 (λ v e, tempElementType (getType ir v) = Ok e) (CombineOp.upperext oc) es1 →
  Forall2 (λ v e, tempElementType (getType ir v) = Ok e) (CombineOp.lowerext oc) es2 →
  usedOnlyBy (ir_ops ir) (ab_op lower) [c] → usedOnlyBy (ir_ops ir) (ab_op upper) [c] →
  ∃ s' combine lowerApply upperApply,
    applyPattern MirrorRewrite.matchAndRewrite c (mkRewriter ir ip diags)
    = Ok (success, s') ∧
    let ir' := rw_ir s' in
    let newLower := ir_nextOp ir in
    let newUpper := 2 + length es1 + ir_nextOp ir in
    ir_ops ir' !! (4 + length es1 + length es2 + ir_nextOp ir) = Some combine ∧
    isCombineOp (op_kind combine) = true ∧
    CombineOp.lowerext combine = [] ∧ CombineOp.upperext combine = [] ∧
    CombineOp.getLowerDefiningOps combine = [Some newLower] ∧
    CombineOp.getUpperDefiningOps combine = [Some newUpper] ∧
    ir_ops ir' !! newLower = Some lowerApply ∧ isApplyOp (op_kind lowerApply) = true ∧
    ir_ops ir' !! newUpper = Some upperApply ∧ isApplyOp (op_kind upperApply) = true ∧
    length (CombineOp.lower combine)
    = length (CombineOp.lower oc) + length (CombineOp.lowerext oc)
      + length (CombineOp.upperext oc) ∧
    length (CombineOp.upper combine)
    = length (CombineOp.upper oc) + length (CombineOp.lowerext oc)
      + length (CombineOp.upperext oc).
Proof.
  intros Hsite Hext Hl Hu Hoperands Hlow Hupp _ _ Ht1 Ht2 Huseda Husedb.
  rewrite (MirrorRewrite_matchAndRewrite_mirrors _ _ _ _ _ _ _ Hsite Hext Hl Hu).
  destruct ir as [ops blocks n nb].
  destruct (mirrorExtraResults_run ops blocks n nb diags c oc lower upper es1 es2)
    as (σ & s' & Hrun & _ & R); try done.
  destruct R as [_ _ _ _ _ Hmr_combine Hmr_lowerApply Hmr_upperApply _ _ _ _ _ _ _ _ _ _].
  cbn [ir_ops ir_nextOp ir_nextBlock] in *. cbv zeta in Hmr_combine.
  pose proof (Forall2_length _ _ _ Ht1) as Hlen1.
  pose proof (Forall2_length _ _ _ Ht2) as Hlen2.
  apply collectDefiningOps_nonempty in Hl. apply collectDefiningOps_nonempty in Hu.
  match type of Hmr_combine with
  | _ = Some (mkOperation (CombineOp ?d ?i (mkSegments (length ?lows) (length ?ups) 0 0)
                             ?lb ?ub) _ ?res ?regs) =>
      destruct (cleanCombine_segments d i lows ups lb ub res regs)
        as (Hlower & Hupper & Hlowerext & Hupperext)
  end.
  eexists s', _, _, _. split; [done|]. cbv zeta.
  split_and!; [exact Hmr_combine| | | | | |exact Hmr_lowerApply| |exact Hmr_upperApply| | | ].
  - done.
  - exact Hlowerext.
  - exact Hupperext.
  - unfold CombineOp.getLowerDefiningOps. rewrite Hlower, Hlowerext.
    rewrite collectDefiningOps_nil. apply collectDefiningOps_single.
    + intros Hnil. apply Hl. apply app_eq_nil in Hnil as [H1 H2].
      apply fmap_nil_inv in H1. apply app_eq_nil in H2 as [H2 _].
      apply fmap_nil_inv in H2. by rewrite H1, H2.
    + rewrite !Forall_app, !Forall_fmap. split_and!; by apply Forall_forall.
  - unfold CombineOp.getUpperDefiningOps. rewrite Hupper, Hupperext.
    rewrite collectDefiningOps_nil. apply collectDefiningOps_single.
    + intros Hnil. apply Hu. apply app_eq_nil in Hnil as [H1 H2].
      apply fmap_nil_inv in H1. apply app_eq_nil in H2 as [_ H2].
      apply fmap_nil_inv in H2. by rewrite H1, H2.
    + rewrite !Forall_app, !Forall_fmap. split_and!; by apply Forall_forall.
  - apply rebuiltApply_isApplyOp.
  - apply rebuiltApply_isApplyOp.
  - rewrite Hlower, !length_app, !length_fmap, length_seq. lia.
  - rewrite Hupper, !length_app, !length_fmap, length_seq. lia.
Qed.

Lemma mirror_result_accepted_by_ifElse_witness :
  ∃ s' combine,
    applyPattern MirrorRewrite.matchAndRewrite 11 (mkRewriter mirrorIR IPNone [])
    = Ok (success, s') ∧
    ir_ops (rw_ir s') !! 18 = Some combine ∧
    CombineOp.getLowerDefiningOps combine = [Some 13] ∧
    CombineOp.getUpperDefiningOps combine = [Some 15].
Proof.
  destruct (mirror_result_accepted_by_ifElse mirrorIR 11 mirrorCombine mirrorLower
              mirrorUpper [] [F64] IPNone [])
    as (s' & combine & lowerApply & upperApply & Hrun & Hcombine & _ & _ & _
        & Hlower & Hupper & _).
  - apply mirrorIR_site.
  - left. discriminate.
  - reflexivity.
  - reflexivity.
  - reflexivity.
  - repeat constructor; eexists; (split; [reflexivity|vm_compute; lia]).
  - repeat constructor; eexists; (split; [reflexivity|vm_compute; lia]).
  - reflexivity.
  - reflexivity.
  - constructor.
  - repeat constructor.
  - apply mirrorIR_used.
  - apply mirrorIR_used.
  - exists s', combine. split; [exact Hrun|]. split; [exact Hcombine|].
    split; [exact Hlower|exact Hupper].
Defined.

(** ** The progress of the Fuse rewrite *)

(** The defining ops of a list of values, collected from nothing. *)
Lemma collectDefiningOps_sides vs ws d :
  d ∈ CombineOp.collectDefiningOps (CombineOp.collectDefiningOps [] vs) ws
  ↔ ∃ v, v ∈ vs ++ ws ∧ getDefiningOp v = d.
Proof.
  rewrite !collectDefiningOps_elem. setoid_rewrite elem_of_app. split.
  - intros [[Hd|(v & Hv & Hd)]|(v & Hv & Hd)]; [by apply elem_of_nil in Hd|eauto..].
  - intros (v & [Hv|Hv] & Hd); eauto.
Qed.

(** Where a substitution renames the defining ops of the values by [F],
    the defining ops collected after the substitution are the images
    under [F] of those collected before. *)
Lemma collectDefiningOps_renamed (σ : Value → Value) (F : option nat → option nat) vs ws :
  Forall (λ v, getDefiningOp (σ v) = F (getDefiningOp v)) (vs ++ ws) →
  let before := CombineOp.collectDefiningOps (CombineOp.collectDefiningOps [] vs) ws in
  let after :=
    CombineOp.collectDefiningOps (CombineOp.collectDefiningOps [] (σ <$> vs)) (σ <$> ws) in
  NoDup after ∧ ∀ d, d ∈ after ↔ ∃ d0, d0 ∈ before ∧ F d0 = d.
Proof.
  intros HF. cbv zeta. split.
  { apply collectDefiningOps_NoDup, collectDefiningOps_NoDup, NoDup_nil_2. }
  intros d. rewrite collectDefiningOps_sides, <- fmap_app. rewrite Forall_forall in HF. split.
  - intros (v' & Hv' & Hd). apply list_elem_of_fmap in Hv' as (v & -> & Hv).
    exists (getDefiningOp v). split.
    + apply collectDefiningOps_sides. eauto.
    + by rewrite <- HF.
  - intros (d0 & Hd0 & Hd). apply collectDefiningOps_sides in Hd0 as (v & Hv & <-).
    exists (σ v). split; [by apply list_elem_of_fmap_2|]. by rewrite HF.
Qed.

Lemma renamed_length (F : option nat → option nat) (before after : list (option nat)) :
  NoDup after → (∀ d, d ∈ after → ∃ d0, d0 ∈ before ∧ F d0 = d) →
  length after ≤ length before.
Proof.
  intros Hnd Hin. rewrite <- (length_fmap F before).
  apply submseteq_length, NoDup_submseteq; [done|].
  intros d Hd. destruct (Hin d Hd) as (d0 & Hd0 & <-). by apply list_elem_of_fmap_2.
Qed.

Lemma renamed_length_merged (F : option nat → option nat) before after d1 d2 :
  NoDup after → (∀ d, d ∈ after → ∃ d0, d0 ∈ before ∧ F d0 = d) →
  d1 ∈ before → d2 ∈ before → d1 ≠ d2 → F d1 = F d2 →
  length after < length before.
Proof.
  intros Hnd Hin H1 H2 Hne HF.
  apply Nat.le_lt_trans with (length (filter (λ d, d ≠ d2) before)).
  - apply (renamed_length F); [done|]. intros d Hd.
    destruct (Hin d Hd) as (d0 & Hd0 & <-).
    destruct (decide (d0 = d2)) as [->|Hd2].
    + exists d1. split; [|done]. by apply list_elem_of_filter.
    + exists d0. split; [|done]. by apply list_elem_of_filter.
  - apply (length_filter_lt _ _ d2); [done|]. by intros H.
Qed.

(** X21: the Fuse rewrite makes progress.  In a graph in which every
    operand of the combine op is a result of an operation, the combine op
    stays in the graph with its kind and its result types; the two fused
    apply ops are no longer among the defining ops of either of its
    sides; no side has more defining ops than before, and together the
    two sides have fewer defining ops than before. *)
Theorem fuse_reduces_defining_ops ir c oc x1 x2 ip diags :
  CombineSite ir c oc x1 x2 →
  fusedPair oc = Some (Some (ab_op x1), Some (ab_op x2)) →
  shapeMismatch (op_kind (ab_apply x1)) (op_kind (ab_apply x2)) = false →
  unrollMismatch (op_kind (ab_return x1)) (op_kind (ab_return x2)) = Ok false →
  operandsDefined ir oc →
  ∃ s' oc',
    applyPattern FuseRewrite.matchAndRewrite c (mkRewriter ir ip diags)
    = Ok (success, s') ∧
    ir_ops (rw_ir s') !! c = Some oc' ∧
    op_kind oc' = op_kind oc ∧ op_results oc' = op_results oc ∧
    Forall (λ a, (Some a ∉ CombineOp.getLowerDefiningOps oc') ∧
                 (Some a ∉ CombineOp.getUpperDefiningOps oc')) [ab_op x1; ab_op x2] ∧
    length (CombineOp.getLowerDefiningOps oc') ≤ length (CombineOp.getLowerDefiningOps oc) ∧
    length (CombineOp.getUpperDefiningOps oc') ≤ length (CombineOp.getUpperDefiningOps oc) ∧
    length (CombineOp.getLowerDefiningOps oc') + length (CombineOp.getUpperDefiningOps oc')
    < length (CombineOp.getLowerDefiningOps oc) + length (CombineOp.getUpperDefiningOps oc).
Proof.
  intros Hsite Hpair Hshape Hunroll Hdefined.
  rewrite (FuseRewrite_matchAndRewrite_fuses _ _ _ _ _ _ _ Hsite Hpair).
  destruct ir as [ops blocks n nb].
  destruct (fuseApplyOps_run ops blocks n nb diags c oc x1 x2 Hsite Hshape Hunroll)
    as (σ & s' & Hrun & _ & R).
  destruct R as [_ _ _ _ Hfr_kept _ _ _ Hfr_subst_first Hfr_subst_second _ _
                  Hfr_subst_other].
  pose proof Hsite as [Halloc Hc _ _ Hx1 Hx2 _ Hnd].
  destruct (NoDup_handles _ _ _ _ _ _ _ Hnd)
    as ((Hca1 & Hca2 & Hcr1 & Hcr2 & Ha12 & _) & _).
  cbn [ir_ops ir_blocks ir_nextOp ir_nextBlock] in *.
  set (F := λ d : option nat,
         if bool_decide (d = Some (ab_op x1) ∨ d = Some (ab_op x2)) then Some n else d).
  assert (Forall (λ v, getDefiningOp (σ v) = F (getDefiningOp v)) (op_operands oc)) as HF.
  { eapply Forall_impl; [exact Hdefined|]. intros v (a & i & oa & -> & Ha & Hi). unfold F.
    cbn [getDefiningOp]. case_bool_decide as Hcase.
    - destruct Hcase as [[= ->]|[= ->]].
      + rewrite (abi_op _ _ Hx1) in Ha. injection Ha as <-.
        by rewrite Hfr_subst_first.
      + rewrite (abi_op _ _ Hx2) in Ha. injection Ha as <-.
        by rewrite Hfr_subst_second.
    - rewrite Hfr_subst_other; [done|..]; cbn; try done.
      + intros [= ->]. apply Hcase. by left.
      + intros [= ->]. apply Hcase. by right. }
  assert (∀ d, F d ≠ Some (ab_op x1) ∧ F d ≠ Some (ab_op x2)) as Hfresh.
  { intros d. unfold F.
    pose proof (allocated_ops _ Halloc _ _ (abi_op _ _ Hx1)) as Hlt1.
    pose proof (allocated_ops _ Halloc _ _ (abi_op _ _ Hx2)) as Hlt2.
    cbn in Hlt1, Hlt2. case_bool_decide as Hcase.
    - split; intros [= ->]; lia.
    - split; intros ->; apply Hcase; [by left|by right]. }
  assert (F (Some (ab_op x1)) = F (Some (ab_op x2))) as Hmerge.
  { unfold F. rewrite !bool_decide_true; [done|by right|by left]. }
  set (oc' := mkOperation (op_kind oc) (σ <$> op_operands oc) (op_results oc)
                (filter (λ x, x ≠ ab_block x2)
                   <$> (filter (λ x, x ≠ ab_block x1) <$> op_regions oc))).
  assert (CombineOp.lower oc' = σ <$> CombineOp.lower oc ∧
          CombineOp.upper oc' = σ <$> CombineOp.upper oc ∧
          CombineOp.lowerext oc' = σ <$> CombineOp.lowerext oc ∧
          CombineOp.upperext oc' = σ <$> CombineOp.upperext oc)
    as (Hlo & Hup & Hle & Hue).
  { unfold CombineOp.lower, CombineOp.upper, CombineOp.lowerext, CombineOp.upperext, oc'.
    cbn [op_kind op_operands]. cbv zeta. by rewrite !fmap_take, !fmap_drop. }
  assert (Forall (λ v, getDefiningOp (σ v) = F (getDefiningOp v))
            (CombineOp.lower oc ++ CombineOp.lowerext oc) ∧
          Forall (λ v, getDefiningOp (σ v) = F (getDefiningOp v))
            (CombineOp.upper oc ++ CombineOp.upperext oc)) as [HFl HFu].
  { unfold CombineOp.lower, CombineOp.upper, CombineOp.lowerext, CombineOp.upperext.
    cbv zeta. rewrite !Forall_app.
    split_and!; repeat (apply Forall_take || apply Forall_drop); done. }
  destruct (collectDefiningOps_renamed σ F _ _ HFl) as [Hndl Hinl].
  destruct (collectDefiningOps_renamed σ F _ _ HFu) as [Hndu Hinu].
  fold (CombineOp.getLowerDefiningOps oc) in Hinl.
  fold (CombineOp.getUpperDefiningOps oc) in Hinu.
  rewrite <- Hlo, <- Hle in Hndl, Hinl. rewrite <- Hup, <- Hue in Hndu, Hinu.
  fold (CombineOp.getLowerDefiningOps oc') in Hndl, Hinl.
  fold (CombineOp.getUpperDefiningOps oc') in Hndu, Hinu.
  assert (length (CombineOp.getLowerDefiningOps oc')
          ≤ length (CombineOp.getLowerDefiningOps oc)) as Hlenl.
  { apply (renamed_length F); [done|]. intros d Hd. by apply Hinl. }
  assert (length (CombineOp.getUpperDefiningOps oc')
          ≤ length (CombineOp.getUpperDefiningOps oc)) as Hlenu.
  { apply (renamed_length F); [done|]. intros d Hd. by apply Hinu. }
  exists s', oc'. split; [done|]. split.
  { apply Hfr_kept; [done|]. intros Hin.
    repeat (apply elem_of_cons in Hin as [Hin|Hin]; [done|]). by apply elem_of_nil in Hin. }
  split; [done|]. split; [done|]. split_and!; [|done|done|].
  - repeat constructor.
    + intros Hin. apply Hinl in Hin as (d0 & _ & Hd0). destruct (Hfresh d0); done.
    + intros Hin. apply Hinu in Hin as (d0 & _ & Hd0). destruct (Hfresh d0); done.
    + intros Hin. apply Hinl in Hin as (d0 & _ & Hd0). destruct (Hfresh d0); done.
    + intros Hin. apply Hinu in Hin as (d0 & _ & Hd0). destruct (Hfresh d0); done.
  - unfold fusedPair in Hpair.
    destruct (CombineOp.getUpperDefiningOps oc) as [|f1 [|s1 rest1]] eqn:Hupper.
    + destruct (CombineOp.getLowerDefiningOps oc) as [|f2 [|s2 rest2]] eqn:Hlower;
        try done.
      injection Hpair as -> ->.
      enough (length (CombineOp.getLowerDefiningOps oc') < length (Some (ab_op x1)
                :: Some (ab_op x2) :: rest2)) by lia.
      apply (renamed_length_merged F _ _ (Some (ab_op x1)) (Some (ab_op x2)));
        [done| | | | |done].
      * intros d Hd. by apply Hinl.
      * apply list_elem_of_here.
      * apply list_elem_of_further, list_elem_of_here.
      * by intros [= ?].
    + destruct (CombineOp.getLowerDefiningOps oc) as [|f2 [|s2 rest2]] eqn:Hlower;
        try done.
      injection Hpair as -> ->.
      enough (length (CombineOp.getLowerDefiningOps oc') < length (Some (ab_op x1)
                :: Some (ab_op x2) :: rest2)) by lia.
      apply (renamed_length_merged F _ _ (Some (ab_op x1)) (Some (ab_op x2)));
        [done| | | | |done].
      * intros d Hd. by apply Hinl.
      * apply list_elem_of_here.
      * apply list_elem_of_further, list_elem_of_here.
      * by intros [= ?].
    + injection Hpair as -> ->.
      enough (length (CombineOp.getUpperDefiningOps oc') < length (Some (ab_op x1)
                :: Some (ab_op x2) :: rest1)) by lia.
      apply (renamed_length_merged F _ _ (Some (ab_op x1)) (Some (ab_op x2)));
        [done| | | | |done].
      * intros d Hd. by apply Hinu.
      * apply list_elem_of_here.
      * apply list_elem_of_further, list_elem_of_here.
      * by intros [= ?].
Qed.

Lemma fuseIR_defined : operandsDefined fuseIR fuseCombine.
Proof.
  repeat constructor; eexists _, _, _; (split; [reflexivity|]);
    (split; [reflexivity|]); vm_compute; lia.
Qed.

Lemma fuse_reduces_defining_ops_witness :
  ∃ s' oc',
    applyPattern FuseRewrite.matchAndRewrite 15 (mkRewriter fuseIR IPNone [])
    = Ok (success, s') ∧
    ir_ops (rw_ir s') !! 15 = Some oc' ∧
    length (CombineOp.getLowerDefiningOps oc') + length (CombineOp.getUpperDefiningOps oc')
    < 3.
Proof.
  destruct (fuse_reduces_defining_ops fuseIR 15 fuseCombine fuseFirst fuseSecond IPNone [])
    as (s' & oc' & Hrun & Hoc' & _ & _ & _ & _ & _ & Hless).
  - apply fuseIR_site.
  - reflexivity.
  - reflexivity.
  - reflexivity.
  - apply fuseIR_defined.
  - exists s', oc'. split; [exact Hrun|]. split; [exact Hoc'|exact Hless].
Defined.

